(** * viyv-browser: transport, session and dispatch layer

    A shallow embedding of the message transport of viyv-browser
    (packages/mcp-server and the extension's service worker) together with
    the properties its specification states about it.

    Conventions of the embedding.
    - A JS [number] that the protocol carries (lengths, tab ids, chunk
      indices, millisecond clocks) is an integer-valued double and is
      modelled as [Z].
    - [Date.now()] and [randomUUID()] are inputs of the handler that calls
      them ([now], [uuid]).
    - A JS [Map] whose iteration order is observable is an association list
      in insertion order; a [Map] or [Set] that is only looked up is a
      [gmap] / [gset].
    - A thrown [Error] is the [Throw] branch of a result carrying the
      message of the error. *)

From Stdlib Require Import ZArith List String Ascii Strings.Byte Lia Permutation Sorted.
From stdpp Require Import gmap strings list pretty.

Set Warnings "-register-all".

Local Open Scope Z_scope.

(** ** Results of fallible code *)

Inductive Result (A : Type) : Type :=
  | Ok (a : A)
  | Throw (message : string).
Arguments Ok {A} a.
Arguments Throw {A} message.

(** * JavaScript values and containers *)

Module JS.

(** JSON values; [undefined] is the [None] of an [option json]. *)
Inductive json : Type :=
  | JNull
  | JBool (b : bool)
  | JNum (n : Z)
  | JStr (s : string)
  | JArr (items : list json)
  | JObj (fields : list (string * json)).

Fixpoint assoc {A : Type} (k : string) (l : list (string * A)) : option A :=
  match l with
  | [] => None
  | (k', v) :: l' => if String.eqb k k' then Some v else assoc k l'
  end.

(** [v.k] and [v?.k] on a value that came out of [JSON.parse]: only plain
    objects carry the fields the program reads. *)
Definition get (k : string) (v : option json) : option json :=
  match v with
  | Some (JObj fields) => assoc k fields
  | _ => None
  end.

(** Truthiness, as in [if (v)] and [!v]. *)
Definition truthy (v : option json) : bool :=
  match v with
  | None | Some JNull => false
  | Some (JBool b) => b
  | Some (JNum n) => negb (n =? 0)
  | Some (JStr s) => negb (String.eqb s EmptyString)
  | Some (JArr _) | Some (JObj _) => true
  end.

(** [typeof v === 'string' ? v : null] *)
Definition asString (v : option json) : option string :=
  match v with
  | Some (JStr s) => Some s
  | _ => None
  end.

(** [typeof v === 'number' ? v : undefined] *)
Definition asNumber (v : option json) : option Z :=
  match v with
  | Some (JNum n) => Some n
  | _ => None
  end.

(** [v ?? d] *)
Definition nullish (v : option json) (d : json) : json :=
  match v with
  | None | Some JNull => d
  | Some x => x
  end.

(** [String(v)] and template-literal interpolation. *)
Fixpoint ToString (v : json) : string :=
  match v with
  | JNull => "null"
  | JBool true => "true"
  | JBool false => "false"
  | JNum n => pretty n
  | JStr s => s
  | JArr items =>
      (fix join (l : list json) : string :=
         match l with
         | [] => EmptyString
         | x :: l' =>
             let sx := match x with JNull => EmptyString | _ => ToString x end in
             match l' with
             | [] => sx
             | _ => sx +:+ "," +:+ join l'
             end
         end) items
  | JObj _ => "[object Object]"
  end.

Definition ToStringU (v : option json) : string :=
  match v with
  | None => "undefined"
  | Some x => ToString x
  end.

(** [s.includes(needle)] *)
Fixpoint includes (s needle : string) : bool :=
  String.prefix needle s ||
  match s with
  | EmptyString => false
  | String _ s' => includes s' needle
  end.

(** [s.endsWith(suffix)] *)
Definition endsWith (s suffix : string) : bool :=
  String.prefix (String.rev suffix) (String.rev s).

(** [s.split(sep)] for a one-character separator. *)
Fixpoint split (sep : ascii) (s : string) : list string :=
  match s with
  | EmptyString => [EmptyString]
  | String c s' =>
      if Ascii.eqb c sep then EmptyString :: split sep s'
      else match split sep s' with
           | h :: t => String c h :: t
           | [] => [String c EmptyString]
           end
  end.

(** The line feed that ends a record on the local socket. *)
Definition LF : string := String "010"%char EmptyString.

(** A [Map<string, V>] in insertion order. *)
Definition Map (V : Type) : Type := list (string * V).

Definition Map_get {V : Type} (m : Map V) (k : string) : option V := assoc k m.

Fixpoint Map_set {V : Type} (m : Map V) (k : string) (v : V) : Map V :=
  match m with
  | [] => [(k, v)]
  | (k', v') :: m' =>
      if String.eqb k k' then (k', v) :: m' else (k', v') :: Map_set m' k v
  end.

Fixpoint Map_delete {V : Type} (m : Map V) (k : string) : Map V :=
  match m with
  | [] => []
  | (k', v') :: m' =>
      if String.eqb k k' then m' else (k', v') :: Map_delete m' k
  end.

End JS.

Export JS.

(** ** Primitives of the runtime the program calls but does not define *)

Record Runtime : Type := {
  (** [JSON.stringify(v)] *)
  JSON_stringify : json -> string;
  (** [JSON.parse(s)], [None] when it throws a [SyntaxError] *)
  JSON_parse : string -> option json;
  (** [Buffer.from(s, 'utf-8')] *)
  utf8_encode : string -> list byte;
  (** [buf.toString('utf-8')] *)
  utf8_decode : list byte -> string;
  (** [gzipSync(buf)] *)
  gzipSync : list byte -> list byte;
  (** [gunzipSync(buf)], [None] when it throws *)
  gunzipSync : list byte -> option (list byte);
  (** [buf.toString('base64')] and [Buffer.from(s, 'base64')] *)
  base64_encode : list byte -> string;
  base64_decode : string -> list byte;
  (** [Number(v)] *)
  ToNumber : json -> json;
}.

(** * Framed transport: native-host/transport.ts *)

Module Transport.

Definition Buffer := list byte.

Definition MAX_MESSAGE_SIZE : Z := 1024 * 1024.

Definition Buffer_length (b : Buffer) : Z := Z.of_nat (length b).

Definition byte_to_Z (b : byte) : Z := Z.of_N (Byte.to_N b).

Definition byte_of_Z (z : Z) : byte :=
  match Byte.of_N (Z.to_N (Z.land z 255)) with
  | Some b => b
  | None => x00
  end.

(** [header.writeUInt32LE(n, 0)] on a fresh 4-byte buffer. *)
Definition writeUInt32LE (n : Z) : Buffer :=
  [ byte_of_Z n; byte_of_Z (Z.shiftr n 8);
    byte_of_Z (Z.shiftr n 16); byte_of_Z (Z.shiftr n 24) ].

(** [buffer.readUInt32LE(0)]; only called on buffers of at least 4 bytes. *)
Definition readUInt32LE (b : Buffer) : Z :=
  match b with
  | b0 :: b1 :: b2 :: b3 :: _ =>
      byte_to_Z b0 + byte_to_Z b1 * 2 ^ 8 + byte_to_Z b2 * 2 ^ 16
      + byte_to_Z b3 * 2 ^ 24
  | _ => 0
  end.

(** [buffer.subarray(n)] and [buffer.subarray(0, n)] for [0 <= n]. *)
Definition subarray_from (n : Z) (b : Buffer) : Buffer := drop (Z.to_nat n) b.
Definition subarray_to (n : Z) (b : Buffer) : Buffer := take (Z.to_nat n) b.

Inductive ReaderError : Type :=
  | MessageTooLarge (declared : Z)
  | InvalidJSON
  | StreamError.

Section Framing.

Variable rt : Runtime.

Definition encodeMessage (message : json) : Result Buffer :=
  let json := JSON_stringify rt message in
  let body := utf8_encode rt json in
  if MAX_MESSAGE_SIZE <? Buffer_length body
  then Throw ("Message too large: " +:+ pretty (Buffer_length body) +:+ " bytes (max "
              +:+ pretty MAX_MESSAGE_SIZE +:+ ")")
  else Ok (writeUInt32LE (Buffer_length body) ++ body).

(** What the reader reports to its callbacks. *)
Inductive Callback : Type :=
  | onMessage (message : json)
  | onError (e : ReaderError)
  | onClose.

(** The two variables captured by the ['data'] listener. *)
Record Reader : Type := mkReader {
  buffer : Buffer;
  expectedLength : option Z;
}.

Definition createMessageReader : Reader :=
  {| buffer := []; expectedLength := None |}.

Inductive Iteration : Type :=
  | Break (r : Reader) (out : list Callback)
  | Continue (r : Reader) (out : list Callback).

(** Body part of one turn of the [while (true)] loop, entered with a
    known expected length. *)
Definition readBody (buf : Buffer) (expected : Z) : Iteration :=
  if Buffer_length buf <? expected
  then Break {| buffer := buf; expectedLength := Some expected |} []
  else
    let jsonBuffer := subarray_to expected buf in
    let rest := subarray_from expected buf in
    Continue {| buffer := rest; expectedLength := None |}
      [ match JSON_parse rt (utf8_decode rt jsonBuffer) with
        | Some message => onMessage message
        | None => onError InvalidJSON
        end ].

(** One turn of the [while (true)] loop. *)
Definition iteration (r : Reader) : Iteration :=
  match expectedLength r with
  | None =>
      if Buffer_length (buffer r) <? 4 then Break r []
      else
        let expected := readUInt32LE (buffer r) in
        let buf := subarray_from 4 (buffer r) in
        if MAX_MESSAGE_SIZE <? expected
        then Break createMessageReader [onError (MessageTooLarge expected)]
        else readBody buf expected
  | Some expected => readBody (buffer r) expected
  end.

Fixpoint loop (fuel : nat) (r : Reader) : option (Reader * list Callback) :=
  match fuel with
  | O => None
  | S fuel' =>
      match iteration r with
      | Break r' out => Some (r', out)
      | Continue r' out =>
          match loop fuel' r' with
          | Some (r'', out') => Some (r'', out ++ out')
          | None => None
          end
      end
  end.

(** The ['data'] listener: append the chunk, then run the loop.  Every
    turn that continues, but possibly the first, consumes a 4-byte header,
    so the length of the buffer bounds the number of turns. *)
Definition onData (r : Reader) (chunk : Buffer) : option (Reader * list Callback) :=
  let buf := buffer r ++ chunk in
  loop (S (S (length buf))) {| buffer := buf; expectedLength := expectedLength r |}.

(** The ['error'], ['end'] and ['close'] listeners of the stream. *)
Definition onStreamError : list Callback := [onError StreamError].
Definition onStreamEnd : list Callback := [onClose].
Definition onStreamClose : list Callback := [onClose].

(** [writeMessage(stream, message)]: the bytes written, unless encoding
    throws. *)
Definition writeMessage (message : json) : Result Buffer := encodeMessage message.

(** A stream delivering the chunks one after the other. *)
Fixpoint feed (r : Reader) (chunks : list Buffer) : option (Reader * list Callback) :=
  match chunks with
  | [] => Some (r, [])
  | chunk :: chunks' =>
      match onData r chunk with
      | Some (r', out) =>
          match feed r' chunks' with
          | Some (r'', out') => Some (r'', out ++ out')
          | None => None
          end
      | None => None
      end
  end.

End Framing.

End Transport.

(** * Compression and chunking: native-host/compression.ts *)

Module Compression.

Definition CHUNK_SIZE : Z := 768 * 1024.

Record ChunkedPayload : Type := mkChunk {
  requestId : string;
  agentId : string;
  chunkIndex : Z;
  totalChunks : Z;
  totalSize : Z;
  compressed : bool;
  data : string;
}.

(** [[...chunks].sort((a, b) => a.chunkIndex - b.chunkIndex)]:
    [Array.prototype.sort] is stable. *)
Fixpoint insertByIndex (c : ChunkedPayload) (l : list ChunkedPayload) : list ChunkedPayload :=
  match l with
  | [] => [c]
  | c' :: l' =>
      if chunkIndex c <=? chunkIndex c' then c :: c' :: l'
      else c' :: insertByIndex c l'
  end.

Definition sortByIndex (chunks : list ChunkedPayload) : list ChunkedPayload :=
  foldr insertByIndex [] chunks.

(** [parts.join('')] *)
Definition join (parts : list string) : string := foldr String.append EmptyString parts.

(** [Math.ceil(a / b)] for [0 <= a] and [0 < b]. *)
Definition ceilDiv (a b : Z) : Z := (a + b - 1) / b.

(** [data.slice(from, to)] for [0 <= from <= to]. *)
Definition slice (s : string) (from to : Z) : string :=
  String.substring (Z.to_nat from) (Z.to_nat (to - from)) s.

Section WithRuntime.

Variable rt : Runtime.

Definition compressPayload (data : string) : string * bool :=
  let original := utf8_encode rt data in
  let gzipped := gzipSync rt original in
  if Z.of_nat (length gzipped) <? Z.of_nat (length original)
  then (base64_encode rt gzipped, true)
  else (data, false).

Definition decompressPayload (data : string) (isCompressed : bool) : Result string :=
  if negb isCompressed then Ok data
  else
    match gunzipSync rt (base64_decode rt data) with
    | Some raw => Ok (utf8_decode rt raw)
    | None => Throw "incorrect header check"
    end.

Definition chunkPayloadWith (chunkSize : Z) (requestId agentId data : string)
    (compressed : bool) : list ChunkedPayload :=
  let totalSize := Z.of_nat (String.length data) in
  let totalChunks := ceilDiv totalSize chunkSize in
  map (fun i : nat =>
         {| requestId := requestId; agentId := agentId;
            chunkIndex := Z.of_nat i; totalChunks := totalChunks;
            totalSize := totalSize; compressed := compressed;
            data := slice data (Z.of_nat i * chunkSize) ((Z.of_nat i + 1) * chunkSize) |})
      (seq 0 (Z.to_nat totalChunks)).

Definition chunkPayload : string -> string -> string -> bool -> list ChunkedPayload :=
  chunkPayloadWith CHUNK_SIZE.

Definition reassembleChunks (chunks : list ChunkedPayload) : Result string :=
  match chunks with
  | [] => Throw "Cannot reassemble: no chunks provided"
  | _ :: _ =>
      let sorted := sortByIndex chunks in
      match sorted with
      | [] => Throw "Cannot read properties of undefined (reading 'totalChunks')"
      | first :: _ =>
          if negb (Z.of_nat (length sorted) =? totalChunks first)
          then Throw ("Incomplete chunks: got " +:+ pretty (Z.of_nat (length sorted))
                      +:+ ", expected " +:+ pretty (totalChunks first))
          else decompressPayload (join (map data sorted)) (compressed first)
      end
  end.

End WithRuntime.

End Compression.

(** * Bridge between the native-messaging host and the server: native-host/bridge.ts *)

Module Bridge.

Definition MAX_BUFFER_SIZE : Z := 1000.
Definition RECONNECT_INITIAL_DELAY : Z := 1000.
Definition RECONNECT_MAX_DELAY : Z := 30000.
Definition RECONNECT_MULTIPLIER : Z := 2.
Definition LIMITS_CHUNK_SIZE : Z := 768 * 1024.

(** The [net.Socket] of the current connection, with the [lineBuffer] its
    ['data'] listener closes over and the ['drain'] listeners registered by
    [flushBuffer]. *)
Record Socket : Type := mkSocket {
  destroyed : bool;
  lineBuffer : string;
  drainListeners : nat;
}.

Record State : Type := mkState {
  socket : option Socket;
  reconnecting : bool;
  retryCount : Z;
  pendingMessages : list json;
  stdin : Transport.Reader;
}.

Definition startBridge : State :=
  {| socket := Some (mkSocket false EmptyString 0);
     reconnecting := false;
     retryCount := 0;
     pendingMessages := [];
     stdin := Transport.createMessageReader |}.

(** What a handler does to the outside.  [StderrWrite text] is a line
    written to [process.stderr], without its final line feed;
    [OnError message] is a call of [options.onError]. *)
Inductive Effect : Type :=
  | SocketWrite (line : string)
  | StdoutWrite (frame : Transport.Buffer)
  | StderrWrite (text : string)
  | OnError (message : string)
  | SetTimeout (delay : Z)
  | SocketDestroy
  | ProcessExit (code : Z).

(** What [socket.write(line)] does: returns [true], returns [false]
    (back-pressure), or throws. *)
Inductive WriteOutcome : Type :=
  | Flushed
  | Backpressure
  | WriteThrows (message : string).

Inductive Event : Type :=
  | StdinData (chunk : Transport.Buffer)
  | StdinEnd
  | Signal
  | SocketConnect
  | SocketData (data : Transport.Buffer)
  | SocketError (message : string)
  | SocketDestroyed
  | SocketClose
  | SocketDrain
  | ReconnectTimer.

Definition usable (s : option Socket) : bool :=
  match s with
  | Some sock => negb (destroyed sock)
  | None => false
  end.

Section WithRuntime.

Variable rt : Runtime.
(** [options.socketPath] *)
Variable socketPath : string.
Variable socket_write : string -> WriteOutcome.

Definition line (message : json) : string := JSON_stringify rt message +:+ LF.

(** The [while] loop of [flushBuffer]: what is left in the buffer, the
    effects, and whether a ['drain'] listener was registered. *)
Fixpoint flushLoop (pending : list json) : list json * list Effect * bool :=
  match pending with
  | [] => ([], [], false)
  | msg :: rest =>
      match socket_write (line msg) with
      | WriteThrows e => (msg :: rest, [OnError e], false)
      | Backpressure => (rest, [SocketWrite (line msg)], true)
      | Flushed =>
          let '(remaining, effects, drain) := flushLoop rest in
          (remaining, SocketWrite (line msg) :: effects, drain)
      end
  end.

Definition flushBuffer (st : State) : State * list Effect :=
  match socket st with
  | None => (st, [])
  | Some sock =>
      if destroyed sock then (st, [])
      else
        let '(remaining, effects, drain) := flushLoop (pendingMessages st) in
        let sock' :=
          if drain
          then mkSocket (destroyed sock) (lineBuffer sock) (S (drainListeners sock))
          else sock in
        (mkState (Some sock') (reconnecting st) (retryCount st) remaining (stdin st), effects)
  end.

Definition connectSocket (st : State) : State :=
  mkState (Some (mkSocket false EmptyString 0)) (reconnecting st) (retryCount st)
          (pendingMessages st) (stdin st).

(** The [onMessage] callback given to [createMessageReader]. *)
Definition onHostMessage (st : State) (message : json) : State * list Effect :=
  if usable (socket st) then
    let json := JSON_stringify rt message in
    if LIMITS_CHUNK_SIZE <? Z.of_nat (String.length json) then
      let '(compressed, wasCompressed) := Compression.compressPayload rt json in
      if wasCompressed
      then (st, [SocketWrite (line (JObj [("type", JStr "compressed"); ("data", JStr compressed)]))])
      else (st, [SocketWrite (json +:+ LF)])
    else (st, [SocketWrite (json +:+ LF)])
  else if Z.of_nat (length (pendingMessages st)) <? MAX_BUFFER_SIZE then
    (mkState (socket st) (reconnecting st) (retryCount st)
             (pendingMessages st ++ [message]) (stdin st), [])
  else
    (st, [StderrWrite "[viyv-browser:native-host] Message buffer full, dropping message"]).

Definition readerCallback (acc : State * list Effect) (cb : Transport.Callback)
    : State * list Effect :=
  let '(st, effects) := acc in
  match cb with
  | Transport.onMessage message =>
      let '(st', effects') := onHostMessage st message in (st', effects ++ effects')
  | Transport.onError (Transport.MessageTooLarge n) =>
      (st, effects ++ [OnError ("Message too large: " +:+ pretty n +:+ " bytes")])
  | Transport.onError Transport.InvalidJSON => (st, effects ++ [OnError "Invalid JSON"])
  | Transport.onError Transport.StreamError => (st, effects ++ [OnError "Stream error"])
  | Transport.onClose => (st, effects)
  end.

Definition onStdinData (st : State) (chunk : Transport.Buffer) : State * list Effect :=
  match Transport.onData rt (stdin st) chunk with
  | Some (reader, callbacks) =>
      fold_left readerCallback callbacks
        (mkState (socket st) (reconnecting st) (retryCount st) (pendingMessages st) reader, [])
  | None => (st, [])
  end.

(** One line received from the server, inside the [try] of the ['data']
    listener; the message of a [SyntaxError] of [JSON.parse] is not
    modelled.  On [null], [message.type] throws a [TypeError]; on every
    other value that is not an object the property reads as
    [undefined]. *)
Definition forwardLine (l : string) : Effect :=
  match JSON_parse rt l with
  | None => OnError "Unexpected token"
  | Some JNull => OnError "Cannot read properties of null (reading 'type')"
  | Some message =>
      let decoded :=
        match asString (get "type" (Some message)), asString (get "data" (Some message)) with
        | Some type, Some data =>
            if String.eqb type "compressed" then
              match Compression.decompressPayload rt data true with
              | Ok text =>
                  match JSON_parse rt text with
                  | Some m => Ok m
                  | None => Throw "Unexpected token"
                  end
              | Throw e => Throw e
              end
            else Ok message
        | _, _ => Ok message
        end in
      match decoded with
      | Throw e => OnError e
      | Ok m =>
          match Transport.writeMessage rt m with
          | Ok frame => StdoutWrite frame
          | Throw e => OnError e
          end
      end
  end.

(** The ['data'] listener of the socket: every chunk is decoded on its
    own, [lineBuffer += data.toString('utf-8')]. *)
Definition onSocketData (st : State) (data : Transport.Buffer) : State * list Effect :=
  match socket st with
  | None => (st, [])
  | Some sock =>
      let lines := split "010"%char (lineBuffer sock +:+ utf8_decode rt data) in
      let sock' := mkSocket (destroyed sock) (List.last lines EmptyString) (drainListeners sock) in
      (mkState (Some sock') (reconnecting st) (retryCount st) (pendingMessages st) (stdin st),
       map forwardLine (List.filter (fun l => negb (String.eqb l EmptyString)) (removelast lines)))
  end.

Definition reconnectDelay (retry : Z) : Z :=
  Z.min (RECONNECT_INITIAL_DELAY * RECONNECT_MULTIPLIER ^ retry) RECONNECT_MAX_DELAY.

Definition onSocketClose (st : State) : State * list Effect :=
  if reconnecting st then
    (mkState None true (retryCount st) (pendingMessages st) (stdin st),
     [StderrWrite "[viyv-browser:native-host] Socket closed"])
  else
    let delay := reconnectDelay (retryCount st) in
    (mkState None true (retryCount st + 1) (pendingMessages st) (stdin st),
     [StderrWrite "[viyv-browser:native-host] Socket closed";
      StderrWrite ("[viyv-browser:native-host] Reconnecting in " +:+ pretty delay
                   +:+ "ms (attempt " +:+ pretty (retryCount st + 1) +:+ ")");
      SetTimeout delay]).

Definition onSocketConnect (st : State) : State * list Effect :=
  let '(st', effects) :=
    flushBuffer (mkState (socket st) (reconnecting st) 0 (pendingMessages st) (stdin st)) in
  (st', StderrWrite ("[viyv-browser:native-host] Connected to MCP server at " +:+ socketPath)
        :: effects).

Fixpoint drainAll (n : nat) (acc : State * list Effect) : State * list Effect :=
  match n with
  | O => acc
  | S n' =>
      let '(st, effects) := acc in
      let '(st', effects') := flushBuffer st in
      drainAll n' (st', effects ++ effects')
  end.

Definition onSocketDrain (st : State) : State * list Effect :=
  match socket st with
  | None => (st, [])
  | Some sock =>
      drainAll (drainListeners sock)
        (mkState (Some (mkSocket (destroyed sock) (lineBuffer sock) 0))
                 (reconnecting st) (retryCount st) (pendingMessages st) (stdin st), [])
  end.

Definition step (st : State) (e : Event) : State * list Effect :=
  match e with
  | StdinData chunk => onStdinData st chunk
  | StdinEnd =>
      (st, [StderrWrite "[viyv-browser:native-host] stdin closed, shutting down";
            SocketDestroy; ProcessExit 0])
  | Signal => (st, [SocketDestroy; ProcessExit 0])
  | SocketConnect => onSocketConnect st
  | SocketData data => onSocketData st data
  | SocketError message =>
      (st, [StderrWrite ("[viyv-browser:native-host] Socket error: " +:+ message);
            OnError message])
  | SocketDestroyed =>
      match socket st with
      | Some sock =>
          (mkState (Some (mkSocket true (lineBuffer sock) (drainListeners sock)))
                   (reconnecting st) (retryCount st) (pendingMessages st) (stdin st), [])
      | None => (st, [])
      end
  | SocketClose => onSocketClose st
  | SocketDrain => onSocketDrain st
  | ReconnectTimer =>
      (connectSocket (mkState (socket st) false (retryCount st) (pendingMessages st) (stdin st)),
       [])
  end.

Fixpoint run (st : State) (events : list Event) : State * list Effect :=
  match events with
  | [] => (st, [])
  | e :: events' =>
      let '(st', effects) := step st e in
      let '(st'', effects') := run st' events' in
      (st'', effects ++ effects')
  end.

End WithRuntime.

End Bridge.

(** * Agent sessions: agent-session.ts *)

Module AgentSession.

Inductive Status : Type := active | idle | disconnected.

Definition Status_eqb (a b : Status) : bool :=
  match a, b with
  | active, active | idle, idle | disconnected, disconnected => true
  | _, _ => false
  end.

Record AgentSessionInfo : Type := mkSession {
  agentId : string;
  sessionToken : string;
  agentName : string;
  status : Status;
  lastActivity : Z;
  createdAt : Z;
}.

Record State : Type := mkState {
  sessions : Map AgentSessionInfo;
  configuredDefaultAgentId : string;
}.

Definition initial : State :=
  {| sessions := []; configuredDefaultAgentId := "default" |}.

Definition STALE_SESSION_TTL : Z := 5 * 60 * 1000.
Definition CLEANUP_INTERVAL : Z := 60 * 1000.

Definition setDefaultAgentId (st : State) (id : string) : State :=
  mkState (sessions st) id.

(** [createSession(agentId, agentName?)] at time [now]; [uuid] is what
    [randomUUID()] returns if it is called. *)
Definition createSession (st : State) (now : Z) (uuid : string)
    (agentId : string) (agentName : option string) : AgentSessionInfo * State :=
  match Map_get (sessions st) agentId with
  | Some existing =>
      let existing' :=
        mkSession (AgentSession.agentId existing) (sessionToken existing)
                  (AgentSession.agentName existing) active now (createdAt existing) in
      (existing', mkState (Map_set (sessions st) agentId existing') (configuredDefaultAgentId st))
  | None =>
      let session :=
        mkSession agentId uuid (default agentId agentName) active now now in
      (session, mkState (Map_set (sessions st) agentId session) (configuredDefaultAgentId st))
  end.

Definition getSession (st : State) (agentId : string) : option AgentSessionInfo :=
  Map_get (sessions st) agentId.

Definition validateSession (st : State) (agentId token : string) : bool :=
  match Map_get (sessions st) agentId with
  | Some session => String.eqb (sessionToken session) token
  | None => false
  end.

Definition touchSession (st : State) (now : Z) (agentId : string) : State :=
  match Map_get (sessions st) agentId with
  | Some session =>
      mkState (Map_set (sessions st) agentId
                 (mkSession (AgentSession.agentId session) (sessionToken session)
                            (AgentSession.agentName session) (status session) now
                            (createdAt session)))
              (configuredDefaultAgentId st)
  | None => st
  end.

Definition closeSession (st : State) (agentId : string) : State :=
  mkState (Map_delete (sessions st) agentId) (configuredDefaultAgentId st).

Definition listSessions (st : State) : list AgentSessionInfo := map snd (sessions st).

Definition getDefaultAgentId (st : State) (now : Z) (uuid : string) : string * State :=
  match List.find (fun s => Status_eqb (status s) active) (listSessions st) with
  | Some session => (agentId session, st)
  | None =>
      let '(defaultSession, st') :=
        createSession st now uuid (configuredDefaultAgentId st) None in
      (agentId defaultSession, st')
  end.

Definition cleanupStaleSessions (st : State) (now : Z) : Z * State :=
  let kept := List.filter (fun kv => negb (STALE_SESSION_TTL <? now - lastActivity (snd kv)))
                     (sessions st) in
  (Z.of_nat (length (sessions st)) - Z.of_nat (length kept),
   mkState kept (configuredDefaultAgentId st)).

End AgentSession.

(** * Connection health: health.ts *)

Module Health.

Record State : Type := mkState {
  extensionConnected : bool;
  lastHeartbeat : option Z;
}.

Definition initial : State := mkState false None.

Definition HEARTBEAT_STALENESS_MS : Z := 60000.

Definition setExtensionConnected (st : State) (now : Z) (connected : bool) : State :=
  mkState connected (if connected then Some now else lastHeartbeat st).

Definition recordHeartbeat (st : State) (now : Z) : State :=
  mkState (extensionConnected st) (Some now).

Definition isExtensionConnected (st : State) (now : Z) : bool :=
  if negb (extensionConnected st) then false
  else match lastHeartbeat st with
       | Some hb => negb (HEARTBEAT_STALENESS_MS <? now - hb)
       | None => true
       end.

End Health.

(** * Event fan-out: event-bridge.ts *)

Module EventBridge.

Record EventSubscription : Type := mkSubscription {
  id : string;
  agentId : string;
  eventTypes : list string;
  urlPattern : option string;
  createdAt : Z;
}.

Record BrowserEvent : Type := mkEvent {
  eventType : option json;
  ev_agentId : string;
  tabId : json;
  url : string;
  payload : json;
  sequenceNumber : json;
}.

(** The subscription table and the set of registered listeners (one per
    configured client-facing server), both in insertion order. *)
Record State : Type := mkState {
  subscriptions : Map EventSubscription;
  eventListeners : list nat;
}.

Definition initial : State := mkState [] [].

Definition addEventListener (st : State) (cb : nat) : State :=
  mkState (subscriptions st)
          (if existsb (Nat.eqb cb) (eventListeners st) then eventListeners st
           else eventListeners st ++ [cb]).

Definition removeEventListener (st : State) (cb : nat) : State :=
  mkState (subscriptions st) (List.filter (fun l => negb (Nat.eqb cb l)) (eventListeners st)).

Definition addSubscription (st : State) (sub : EventSubscription) : State :=
  mkState (Map_set (subscriptions st) (id sub) sub) (eventListeners st).

Definition removeSubscription (st : State) (subId : string) : State :=
  mkState (Map_delete (subscriptions st) subId) (eventListeners st).

Definition removeSubscriptionsByAgent (st : State) (agent : string) : State :=
  mkState (List.filter (fun kv => negb (String.eqb (agentId (snd kv)) agent)) (subscriptions st))
          (eventListeners st).

Definition matches (sub : EventSubscription) (event : BrowserEvent) : bool :=
  String.eqb (agentId sub) (ev_agentId event)
  && match eventType event with
     | Some (JStr t) => existsb (String.eqb t) (eventTypes sub)
     | _ => false
     end
  && match urlPattern sub with
     | Some pattern =>
         if String.eqb pattern EmptyString then true else includes (url event) pattern
     | None => true
     end.

Definition forwarded (now : Z) (sub : EventSubscription) (event : BrowserEvent) : json :=
  JObj ([ ("type", JStr "browser_event"); ("subscriptionId", JStr (id sub)) ]
        ++ match eventType event with
           | Some t => [("eventType", t)]
           | None => []
           end
        ++ [ ("agentId", JStr (ev_agentId event));
             ("tabId", tabId event); ("url", JStr (url event));
             ("payload", payload event); ("sequenceNumber", sequenceNumber event);
             ("timestamp", JNum now) ]).

(** [processEvent(event)]: the calls [listener(payload)] it makes, in order. *)
Definition processEvent (st : State) (now : Z) (event : BrowserEvent) : list (nat * json) :=
  flat_map (fun kv =>
              if matches (snd kv) event
              then map (fun l => (l, forwarded now (snd kv) event)) (eventListeners st)
              else [])
           (subscriptions st).

End EventBridge.

(** * Server core: server.ts *)

Module Server.

Definition PROTOCOL_VERSION : string := "1.0.0".
Definition TIMEOUTS_MCP_TOOL : Z := 30000.
Definition SWITCH_TIMEOUT : Z := 60000.

(** What the closures created by one invocation of [callExtensionTool]
    capture.  Invocations are numbered in the order they are made; the number
    names the promise the invocation returns, its timer and its [onError]
    listener. *)
Record Call : Type := mkCall {
  requestId : string;
  tool : string;
  toolTimeout : Z;
  sock : nat;
}.

Record State : Type := mkState {
  (** [pendingRequests]: request id to the entry whose [resolve], [reject]
      and [timer] belong to the given invocation *)
  pendingRequests : Map nat;
  extensionSocket : option nat;
  (** sockets whose [destroyed] flag is set *)
  destroyed : list nat;
  (** the [lineBuffer] of the ['data'] listener of each accepted socket *)
  lineBuffers : list (nat * string);
  health : Health.State;
  agents : AgentSession.State;
  events : EventBridge.State;
  calls : list Call;
  (** armed, not yet fired or cleared timers of [callExtensionTool] *)
  timers : list nat;
  (** [sock.once('error', onError)] registrations, in order *)
  errorListeners : list (nat * nat);
  (** invocations of [switch_browser] still polling *)
  switching : list nat;
}.

Definition initial : State :=
  {| pendingRequests := []; extensionSocket := None; destroyed := [];
     lineBuffers := []; health := Health.initial; agents := AgentSession.initial;
     events := EventBridge.initial; calls := []; timers := [];
     errorListeners := []; switching := [] |}.

Record ContentItem : Type := mkItem { type : string; text : string }.
Record ToolResponse : Type := mkResponse { content : list ContentItem }.

(** What a handler does to the outside.  [StderrWrite text] is a line
    written to [process.stderr], without its final line feed and without
    the message of a caught [SyntaxError]. *)
Inductive Effect : Type :=
  (** the promise of invocation [call] is resolved with [response] *)
  | Resolve (call : nat) (response : ToolResponse)
  | SocketWrite (sock : nat) (line : string)
  | SocketDestroy (sock : nat)
  | StderrWrite (text : string)
  | Notify (listener : nat) (event : json).

Inductive Event : Type :=
  (** the connection listener of [createServer] runs for a new socket *)
  | Accept (sock : nat) (now : Z) (uuid1 uuid2 uuid3 : string)
  (** [uuids i] is what [randomUUID()] returns while line [i] is handled *)
  | SocketData (sock : nat) (now : Z) (uuids : nat -> string) (data : string)
  | SocketClose (sock : nat) (now : Z)
  | SocketError (sock : nat) (message : string)
  (** the peer went away: Node sets [destroyed] before it emits ['close'] *)
  | SocketDestroyed (sock : nat)
  | TimerFire (call : nat)
  (** the client invokes a tool *)
  | ToolCall (tool : string) (input : json) (now : Z) (uuid1 uuid2 : string)
  | SwitchPoll (call : nat) (now : Z)
  | SwitchTimeout (call : nat).

Definition isDestroyed (st : State) (s : nat) : bool := existsb (Nat.eqb s) (destroyed st).

Definition remove_nat (x : nat) (l : list nat) : list nat :=
  List.filter (fun y => negb (Nat.eqb x y)) l.

Definition errorObject (code message : string) : json :=
  JObj [("error", JObj [("code", JStr code); ("message", JStr message)])].

Section WithRuntime.

Variable rt : Runtime.

Definition textContent (v : json) : ToolResponse :=
  mkResponse [mkItem "text" (JSON_stringify rt v)].

(* State updates, one per mutated variable. *)
Definition set_pending (st : State) (p : Map nat) : State :=
  mkState p (extensionSocket st) (destroyed st) (lineBuffers st) (health st) (agents st)
          (events st) (calls st) (timers st) (errorListeners st) (switching st).
Definition set_socket (st : State) (s : option nat) : State :=
  mkState (pendingRequests st) s (destroyed st) (lineBuffers st) (health st) (agents st)
          (events st) (calls st) (timers st) (errorListeners st) (switching st).
Definition set_destroyed (st : State) (d : list nat) : State :=
  mkState (pendingRequests st) (extensionSocket st) d (lineBuffers st) (health st) (agents st)
          (events st) (calls st) (timers st) (errorListeners st) (switching st).
Definition set_lineBuffers (st : State) (b : list (nat * string)) : State :=
  mkState (pendingRequests st) (extensionSocket st) (destroyed st) b (health st) (agents st)
          (events st) (calls st) (timers st) (errorListeners st) (switching st).
Definition set_health (st : State) (h : Health.State) : State :=
  mkState (pendingRequests st) (extensionSocket st) (destroyed st) (lineBuffers st) h (agents st)
          (events st) (calls st) (timers st) (errorListeners st) (switching st).
Definition set_agents (st : State) (a : AgentSession.State) : State :=
  mkState (pendingRequests st) (extensionSocket st) (destroyed st) (lineBuffers st) (health st) a
          (events st) (calls st) (timers st) (errorListeners st) (switching st).
Definition set_events (st : State) (e : EventBridge.State) : State :=
  mkState (pendingRequests st) (extensionSocket st) (destroyed st) (lineBuffers st) (health st)
          (agents st) e (calls st) (timers st) (errorListeners st) (switching st).
Definition set_calls (st : State) (c : list Call) : State :=
  mkState (pendingRequests st) (extensionSocket st) (destroyed st) (lineBuffers st) (health st)
          (agents st) (events st) c (timers st) (errorListeners st) (switching st).
Definition set_timers (st : State) (t : list nat) : State :=
  mkState (pendingRequests st) (extensionSocket st) (destroyed st) (lineBuffers st) (health st)
          (agents st) (events st) (calls st) t (errorListeners st) (switching st).
Definition set_errorListeners (st : State) (l : list (nat * nat)) : State :=
  mkState (pendingRequests st) (extensionSocket st) (destroyed st) (lineBuffers st) (health st)
          (agents st) (events st) (calls st) (timers st) l (switching st).
Definition set_switching (st : State) (w : list nat) : State :=
  mkState (pendingRequests st) (extensionSocket st) (destroyed st) (lineBuffers st) (health st)
          (agents st) (events st) (calls st) (timers st) (errorListeners st) w.

(** [clearTimeout(pending.timer)] *)
Definition clearTimeout (st : State) (call : nat) : State :=
  set_timers st (remove_nat call (timers st)).

(** [removeErrorListener()] of invocation [call] *)
Definition removeErrorListener (st : State) (call : nat) : State :=
  set_errorListeners st (List.filter (fun l => negb (Nat.eqb (snd l) call)) (errorListeners st)).

(** [pending.resolve(result)] of the entry of invocation [call] *)
Definition entryResolve (st : State) (call : nat) (result : json) : State * list Effect :=
  (removeErrorListener st call, [Resolve call (textContent result)]).

(** [pending.reject(error)] of the entry of invocation [call] *)
Definition entryReject (st : State) (call : nat) (message : string) : State * list Effect :=
  (removeErrorListener st call, [Resolve call (textContent (errorObject "CDP_ERROR" message))]).

(** The [tool_result] branch of [handleExtensionMessage]. *)
Definition handleToolResult (st : State) (id : string) (msg : json) : State * list Effect :=
  match Map_get (pendingRequests st) id with
  | Some call =>
      let st1 := clearTimeout st call in
      let st2 := set_pending st1 (Map_delete (pendingRequests st1) id) in
      if truthy (get "success" (Some msg))
      then entryResolve st2 call (nullish (get "result" (Some msg)) (JObj []))
      else
        let err := get "error" (Some msg) in
        let code := default "UNKNOWN"%string (asString (get "code" err)) in
        let errMsg := default "Unknown error"%string (asString (get "message" err)) in
        entryReject st2 call ("[" +:+ code +:+ "] " +:+ errMsg)
  | None => (st, [])
  end.

Definition nonEmpty (s : option string) : option string :=
  match s with
  | Some EmptyString => None
  | _ => s
  end.

(** [uuid] is what [randomUUID()] returns if the handler calls it. *)
Definition handleExtensionMessage (st : State) (now : Z) (uuid : string) (message : json)
    : State * list Effect :=
  match message with
  | JObj _ | JArr _ =>
      let msg := Some message in
      let type := asString (get "type" msg) in
      let id := asString (get "id" msg) in
      match nonEmpty type with
      | None => (st, [])
      | Some type =>
          if String.eqb type "tool_result" && bool_decide (is_Some (nonEmpty id)) then
            handleToolResult st (default EmptyString id) message
          else if String.eqb type "session_heartbeat" then
            let st1 := set_health st (Health.recordHeartbeat (health st) now) in
            match nonEmpty (asString (get "agentId" msg)) with
            | Some hbAgentId =>
                (set_agents st1 (AgentSession.touchSession (agents st1) now hbAgentId), [])
            | None => (st1, [])
            end
          else if String.eqb type "session_close" then
            match nonEmpty (asString (get "agentId" msg)) with
            | Some closeAgentId =>
                let st1 := set_agents st (AgentSession.closeSession (agents st) closeAgentId) in
                let st2 := set_events st1
                             (EventBridge.removeSubscriptionsByAgent (events st1) closeAgentId) in
                (st2, [StderrWrite ("[viyv-browser:mcp] Session closed and cleaned up: "
                                    +:+ closeAgentId)])
            | None => (st, [])
            end
          else if String.eqb type "session_recovery" then
            match nonEmpty (asString (get "agentId" msg)) with
            | Some recoveryAgentId =>
                let '(_, agents') :=
                  AgentSession.createSession (agents st) now uuid recoveryAgentId None in
                (set_agents st agents',
                 [StderrWrite ("[viyv-browser:mcp] Session recovered: " +:+ recoveryAgentId)])
            | None => (st, [])
            end
          else if String.eqb type "session_init" then
            match nonEmpty (asString (get "protocolVersion" msg)) with
            | Some remoteVersion =>
                if negb (String.eqb remoteVersion PROTOCOL_VERSION)
                then (st, [StderrWrite ("[viyv-browser:mcp] Protocol version mismatch: local="
                                        +:+ PROTOCOL_VERSION +:+ ", remote=" +:+ remoteVersion)])
                else (st, [])
            | None => (st, [])
            end
          else if String.eqb type "browser_event" then
            let event :=
              EventBridge.mkEvent
                (get "eventType" msg)
                (ToString (nullish (get "agentId" msg) (JStr EmptyString)))
                (ToNumber rt (nullish (get "tabId" msg) (JNum 0)))
                (ToString (nullish (get "url" msg) (JStr EmptyString)))
                (nullish (get "payload" msg) (JObj []))
                (ToNumber rt (nullish (get "sequenceNumber" msg) (JNum 0))) in
            (st, StderrWrite ("[viyv-browser:mcp] Browser event: "
                              +:+ ToStringU (get "eventType" msg))
                 :: map (fun n => Notify (fst n) (snd n))
                        (EventBridge.processEvent (events st) now event))
          else (st, [])
      end
  | _ => (st, [])
  end.

(** The body of the [try] in the ['data'] listener, for one line.  On
    [null], [parsed.type] throws a [TypeError], which the [catch] reports
    like a [SyntaxError]; on every other value that is not an object the
    property reads as [undefined]. *)
Definition handleLine (st : State) (now : Z) (uuid : string) (l : string) : State * list Effect :=
  let parseError := StderrWrite "[viyv-browser:mcp] Parse error" in
  match JSON_parse rt l with
  | None => (st, [parseError])
  | Some JNull => (st, [parseError])
  | Some parsed =>
      match asString (get "type" (Some parsed)), asString (get "data" (Some parsed)) with
      | Some type, Some data =>
          if String.eqb type "compressed" then
            match Compression.decompressPayload rt data true with
            | Ok text =>
                match JSON_parse rt text with
                | Some parsed' => handleExtensionMessage st now uuid parsed'
                | None => (st, [parseError])
                end
            | Throw _ => (st, [parseError])
            end
          else handleExtensionMessage st now uuid parsed
      | _, _ => handleExtensionMessage st now uuid parsed
      end
  end.

Fixpoint handleLines (st : State) (now : Z) (uuids : nat -> string) (i : nat)
    (lines : list string) : State * list Effect :=
  match lines with
  | [] => (st, [])
  | l :: lines' =>
      if String.eqb l EmptyString then handleLines st now uuids (S i) lines'
      else
        let '(st1, out1) := handleLine st now (uuids i) l in
        let '(st2, out2) := handleLines st1 now uuids (S i) lines' in
        (st2, out1 ++ out2)
  end.

Definition lineBufferOf (st : State) (s : nat) : string :=
  match List.find (fun b => Nat.eqb (fst b) s) (lineBuffers st) with
  | Some b => snd b
  | None => EmptyString
  end.

Definition set_lineBuffer (st : State) (s : nat) (b : string) : State :=
  set_lineBuffers st ((s, b) :: List.filter (fun x => negb (Nat.eqb (fst x) s)) (lineBuffers st)).

(** The ['data'] listener of socket [s]; [data] is the text of the
    chunk, [data.toString('utf-8')].  A destroyed stream emits no ['data']
    any more. *)
Definition onSocketData (st : State) (s : nat) (now : Z) (uuids : nat -> string)
    (data : string) : State * list Effect :=
  if isDestroyed st s then (st, [])
  else
    let lines := split "010"%char (lineBufferOf st s +:+ data) in
    let st1 := set_lineBuffer st s (List.last lines EmptyString) in
    handleLines st1 now uuids 0 (removelast lines).

(** The [for (const [id, pending] of pendingRequests)] loop of the
    ['close'] listener, over the entries still to visit. *)
Fixpoint rejectAll (st : State) (entries : list (string * nat)) : State * list Effect :=
  match entries with
  | [] => (st, [])
  | (id, call) :: entries' =>
      let st1 := clearTimeout st call in
      let st2 := set_pending st1 (Map_delete (pendingRequests st1) id) in
      let '(st3, out) :=
        entryResolve st2 call
          (errorObject "EXTENSION_NOT_CONNECTED"
                       "Extension disconnected while request was pending") in
      let '(st4, out') := rejectAll st3 entries' in
      (st4, out ++ out')
  end.

(** The ['close'] listener of socket [s]. *)
Definition onSocketClose (st : State) (s : nat) (now : Z) : State * list Effect :=
  let st0 := set_destroyed st (s :: destroyed st) in
  let st1 :=
    match extensionSocket st0 with
    | Some cur =>
        if Nat.eqb cur s
        then set_health (set_socket st0 None)
                        (Health.setExtensionConnected (health st0) now false)
        else st0
    | None => st0
    end in
  let '(st2, out) := rejectAll st1 (pendingRequests st1) in
  (st2, StderrWrite "[viyv-browser:mcp] Extension disconnected" :: out).

(** The [onError] listener of invocation [call]. *)
Definition onError (st : State) (call : nat) : State * list Effect :=
  match calls st !! call with
  | None => (st, [])
  | Some c =>
      match Map_get (pendingRequests st) (requestId c) with
      | Some pending =>
          let st1 := clearTimeout st pending in
          let st2 := set_pending st1 (Map_delete (pendingRequests st1) (requestId c)) in
          (st2, [Resolve call (textContent (errorObject "EXTENSION_NOT_CONNECTED"
                                                        "Socket write failed"))])
      | None => (st, [])
      end
  end.

Fixpoint emitError (st : State) (listeners : list nat) : State * list Effect :=
  match listeners with
  | [] => (st, [])
  | call :: listeners' =>
      let '(st1, out) := onError st call in
      let '(st2, out') := emitError st1 listeners' in
      (st2, out ++ out')
  end.

(** ['error'] on socket [s]: the listener installed at accept, then the
    [once] listeners of the invocations that wrote to [s]. *)
Definition onSocketError (st : State) (s : nat) (message : string) : State * list Effect :=
  let fired := map snd (List.filter (fun l => Nat.eqb (fst l) s) (errorListeners st)) in
  let st1 := set_errorListeners st
               (List.filter (fun l => negb (Nat.eqb (fst l) s)) (errorListeners st)) in
  let '(st2, out) := emitError st1 fired in
  (st2, StderrWrite ("[viyv-browser:mcp] Socket error: " +:+ message) :: out).

(** The connection listener passed to [createServer]. *)
Definition onAccept (st : State) (s : nat) (now : Z) (uuid1 uuid2 uuid3 : string)
    : State * list Effect :=
  let '(st1, out1) :=
    match extensionSocket st with
    | Some old =>
        if negb (isDestroyed st old)
        then (set_destroyed st (old :: destroyed st),
              [StderrWrite "[viyv-browser:mcp] Replacing existing extension connection";
               SocketDestroy old])
        else (st, [])
    | None => (st, [])
    end in
  let st2 := set_socket st1 (Some s) in
  let st3 := set_health st2 (Health.setExtensionConnected (health st2) now true) in
  let '(agentId, agents1) := AgentSession.getDefaultAgentId (agents st3) now uuid1 in
  let '(_, agents2) := AgentSession.createSession agents1 now uuid2 agentId None in
  let st4 := set_agents st3 agents2 in
  let initMsg :=
    JObj [ ("id", JStr uuid3); ("type", JStr "session_init"); ("agentId", JStr agentId);
           ("protocolVersion", JStr PROTOCOL_VERSION); ("timestamp", JNum now) ] in
  (set_lineBuffer st4 s EmptyString,
   out1 ++ [StderrWrite "[viyv-browser:mcp] Extension connected via Unix socket";
            SocketWrite s (JSON_stringify rt initMsg +:+ LF)]).

(** The callback of the timer armed by invocation [call]. *)
Definition onTimer (st : State) (call : nat) : State * list Effect :=
  if negb (existsb (Nat.eqb call) (timers st)) then (st, [])
  else
    match calls st !! call with
    | None => (st, [])
    | Some c =>
        let st1 := set_timers st (remove_nat call (timers st)) in
        let st2 := set_pending st1 (Map_delete (pendingRequests st1) (requestId c)) in
        let st3 := removeErrorListener st2 call in
        (st3, [Resolve call
                 (textContent
                    (errorObject "TIMEOUT"
                       ("Tool '" +:+ tool c +:+ "' timed out after "
                        +:+ pretty (toolTimeout c) +:+ "ms")))])
    end.

Definition connected (st : State) (now : Z) : bool :=
  match extensionSocket st with
  | Some s => negb (isDestroyed st s) && Health.isExtensionConnected (health st) now
  | None => false
  end.

Definition handleSwitchBrowser (st : State) (now : Z) : State * list Effect :=
  let call := length (calls st) in
  let st0 := set_calls st (calls st ++ [mkCall EmptyString "switch_browser" SWITCH_TIMEOUT 0]) in
  let '(st1, out) :=
    match extensionSocket st0 with
    | Some cur =>
        if negb (isDestroyed st0 cur)
        then (set_health (set_socket (set_destroyed st0 (cur :: destroyed st0)) None)
                         (Health.setExtensionConnected (health st0) now false),
              [StderrWrite "[viyv-browser:mcp] switch_browser: closing current connection";
               SocketDestroy cur])
        else (st0, [])
    | None => (st0, [])
    end in
  (set_switching st1 (switching st1 ++ [call]),
   out ++ [StderrWrite
             "[viyv-browser:mcp] switch_browser: waiting for new browser connection..."]).

(** One tick of the 500 ms interval of [handleSwitchBrowser]. *)
Definition onSwitchPoll (st : State) (call : nat) (now : Z) : State * list Effect :=
  if negb (existsb (Nat.eqb call) (switching st)) then (st, [])
  else if connected st now then
    (set_switching st (remove_nat call (switching st)),
     [Resolve call
        (textContent
           (JObj [ ("switched", JBool true);
                   ("message", JStr "Successfully connected to new browser instance.") ]))])
  else (st, []).

Definition onSwitchTimeout (st : State) (call : nat) : State * list Effect :=
  if negb (existsb (Nat.eqb call) (switching st)) then (st, [])
  else
    (set_switching st (remove_nat call (switching st)),
     [Resolve call
        (textContent
           (errorObject "TIMEOUT"
              ("No new browser connected within " +:+ pretty (SWITCH_TIMEOUT / 1000)
               +:+ "s. Please open Chrome and click the Viyv Browser extension icon.")))]).

(** Per-tool timeout: [wait_for] gets the tool's timeout plus 5 s. *)
Definition toolTimeoutOf (tool : string) (input : json) : Z :=
  if String.eqb tool "wait_for" then
    match asNumber (get "timeout" (Some input)) with
    | Some t => t + 5000
    | None => TIMEOUTS_MCP_TOOL
    end
  else TIMEOUTS_MCP_TOOL.

Definition callExtensionTool (st : State) (tool : string) (input : json) (now : Z)
    (uuid1 uuid2 : string) : State * list Effect :=
  if String.eqb tool "switch_browser" then handleSwitchBrowser st now
  else
    let call := length (calls st) in
    match extensionSocket st with
    | Some s =>
        if connected st now then
          let requestId := uuid1 in
          let '(agentId, agents1) := AgentSession.getDefaultAgentId (agents st) now uuid2 in
          let agents2 := AgentSession.touchSession agents1 now agentId in
          let timeout := toolTimeoutOf tool input in
          let st1 := set_agents st agents2 in
          let st2 := set_calls st1 (calls st1 ++ [mkCall requestId tool timeout s]) in
          let st3 := set_timers st2 (timers st2 ++ [call]) in
          let st4 := set_pending st3 (Map_set (pendingRequests st3) requestId call) in
          let request :=
            JObj [ ("id", JStr requestId); ("type", JStr "tool_call");
                   ("agentId", JStr agentId); ("tool", JStr tool); ("input", input);
                   ("timestamp", JNum now) ] in
          let st5 := set_errorListeners st4 (errorListeners st4 ++ [(s, call)]) in
          (st5, [SocketWrite s (JSON_stringify rt request +:+ LF)])
        else
          (set_calls st (calls st ++ [mkCall EmptyString tool 0 s]),
           [Resolve call
              (textContent
                 (errorObject "EXTENSION_NOT_CONNECTED"
                    "Chrome Extension is not connected. Please open Chrome and click the Viyv Browser extension icon."))])
    | None =>
        (set_calls st (calls st ++ [mkCall EmptyString tool 0 0]),
         [Resolve call
            (textContent
               (errorObject "EXTENSION_NOT_CONNECTED"
                  "Chrome Extension is not connected. Please open Chrome and click the Viyv Browser extension icon."))])
    end.

Definition step (st : State) (e : Event) : State * list Effect :=
  match e with
  | Accept s now uuid1 uuid2 uuid3 => onAccept st s now uuid1 uuid2 uuid3
  | SocketData s now uuids data => onSocketData st s now uuids data
  | SocketClose s now => onSocketClose st s now
  | SocketError s message => onSocketError st s message
  | SocketDestroyed s => (set_destroyed st (s :: destroyed st), [])
  | TimerFire call => onTimer st call
  | ToolCall tool input now uuid1 uuid2 => callExtensionTool st tool input now uuid1 uuid2
  | SwitchPoll call now => onSwitchPoll st call now
  | SwitchTimeout call => onSwitchTimeout st call
  end.

Fixpoint run (st : State) (trace : list Event) : State * list Effect :=
  match trace with
  | [] => (st, [])
  | e :: trace' =>
      let '(st1, out) := step st e in
      let '(st2, out') := run st1 trace' in
      (st2, out ++ out')
  end.

(** The responses the promise of invocation [call] was resolved with. *)
Definition resolutions (call : nat) (out : list Effect) : list ToolResponse :=
  flat_map (fun e => match e with
                     | Resolve c r => if Nat.eqb c call then [r] else []
                     | _ => []
                     end) out.

End WithRuntime.

End Server.

(** * Tab groups and tab locks: service-worker/tab-manager.ts *)

Module TabManager.

Record TabLockInfo : Type := mkLock {
  tabId : Z;
  agentId : string;
  acquiredAt : Z;
  ttl : Z;
}.

Record AgentTabGroup : Type := mkGroup {
  g_agentId : string;
  agentName : string;
  groupId : Z;
  color : string;
  tabs : gset Z;
}.

Record State : Type := mkState {
  agentGroups : gmap string AgentTabGroup;
  tabToAgent : gmap Z string;
  tabLocks : gmap Z TabLockInfo;
}.

Definition TAB_LOCK_TTL : Z := 60000.

Definition set_tabLocks (st : State) (locks : gmap Z TabLockInfo) : State :=
  mkState (agentGroups st) (tabToAgent st) locks.

(** [acquireTabLock(agentId, tabId, ttl = 60_000)] at time [now]. *)
Definition acquireTabLock (st : State) (now : Z) (agent : string) (tab : Z) (ttl_ : Z)
    : bool * State :=
  let fresh := set_tabLocks st (<[tab := mkLock tab agent now ttl_]> (tabLocks st)) in
  match tabLocks st !! tab with
  | Some existing =>
      if ttl existing <? now - acquiredAt existing then
        (* the delete is followed by the set below *)
        (true, set_tabLocks st
                 (<[tab := mkLock tab agent now ttl_]> (delete tab (tabLocks st))))
      else if negb (String.eqb (agentId existing) agent) then (false, st)
      else
        (true, set_tabLocks st
                 (<[tab := mkLock (tabId existing) (agentId existing) now (ttl existing)]>
                    (tabLocks st)))
  | None => (true, fresh)
  end.

Definition releaseTabLock (st : State) (agent : string) (tab : Z) : State :=
  match tabLocks st !! tab with
  | Some lock =>
      if String.eqb (agentId lock) agent then set_tabLocks st (delete tab (tabLocks st))
      else st
  | None => st
  end.

Definition getAgentForTab (st : State) (tab : Z) : option string := tabToAgent st !! tab.

Definition getAgentGroup (st : State) (agent : string) : option AgentTabGroup :=
  agentGroups st !! agent.

(** [group?.tabs.has(tabId) ?? false]; the tab id is [undefined] when the
    input carries none. *)
Definition isTabInAgentGroup (st : State) (agent : string) (tab : option Z) : bool :=
  match agentGroups st !! agent, tab with
  | Some group, Some t => bool_decide (t ∈ tabs group)
  | _, _ => false
  end.

Definition TAB_GROUP_COLORS : list string :=
  [ "blue"; "red"; "yellow"; "green"; "pink"; "purple"; "cyan"; "orange"; "grey" ]%string.

(** [selectColor(preferred?)]: the colours in use are collected into a
    [Set], so the order in which the groups are visited does not matter. *)
Definition selectColor (st : State) (preferred : option string) : string :=
  let usedColors := map (fun kv => color (snd kv)) (map_to_list (agentGroups st)) in
  let available :=
    List.filter (fun c => negb (existsb (String.eqb c) usedColors)) TAB_GROUP_COLORS in
  let fallback :=
    match available with
    | c :: _ => c
    | [] => "blue"%string
    end in
  match preferred with
  | Some p =>
      if negb (String.eqb p EmptyString) && existsb (String.eqb p) TAB_GROUP_COLORS
      then p else fallback
  | None => fallback
  end.

(** [group.tabs.delete(tabId)] on the group of [agent], if there is one. *)
Definition group_delete (st : State) (agent : string) (tab : Z) : gmap string AgentTabGroup :=
  alter (fun g => mkGroup (g_agentId g) (agentName g) (groupId g) (color g) (tabs g ∖ {[tab]}))
        agent (agentGroups st).

(** One turn of the loop of [cleanupStaleTabs], which is also the body of
    the [chrome.tabs.onRemoved] listener. *)
Definition forgetTab (st : State) (agent : string) (tab : Z) : State :=
  mkState (group_delete st agent tab) (delete tab (tabToAgent st)) (delete tab (tabLocks st)).

(** [cleanupStaleTabs(agentId, staleTabs)]; the flag tells whether
    [persistGroups()] was called. *)
Definition cleanupStaleTabs (st : State) (agent : string) (staleTabs : list Z) : State * bool :=
  match agentGroups st !! agent, staleTabs with
  | None, _ | _, [] => (st, false)
  | Some _, _ :: _ => (foldl (fun s tab => forgetTab s agent tab) st staleTabs, true)
  end.

(** The listener of [chrome.tabs.onRemoved]. *)
Definition onRemoved (st : State) (tab : Z) : State * bool :=
  match tabToAgent st !! tab with
  | Some agent =>
      if String.eqb agent EmptyString then (st, false) else (forgetTab st agent tab, true)
  | None => (st, false)
  end.

End TabManager.

(** * Tool dispatch in the extension worker: service-worker/tool-handlers.ts *)

Module Worker.

(** The record of a tool input, [Record<string, unknown>]. *)
Definition Input : Type := list (string * json).

Inductive ToolResult : Type :=
  | Success (result : option json)
  | Failure (code message : string).

(** Calls into the browser: the page (DOM) through [chrome.scripting] and
    [chrome.tabs.sendMessage], the debugger through [sendCdpCommand]. *)
Inductive BrowserCall : Type :=
  | ExecuteScript (tab : option Z) (func : string) (args : list (option json))
  | TabsSendMessage (tab : option Z) (message : json)
  | SendCdpCommand (tab : option Z) (method : string) (params : json).

Record World : Type := mkWorld {
  tabs : TabManager.State;
  screenshotStore : Map string;
  screenshotCounter : Z;
  (** the calls made into the browser so far, oldest first *)
  trace : list BrowserCall;
}.

Definition Handler (A : Type) : Type := World -> Result A * World.

Definition ret {A : Type} (a : A) : Handler A := fun w => (Ok a, w).
Definition throw {A : Type} (message : string) : Handler A := fun w => (Throw message, w).
Definition bind {A B : Type} (m : Handler A) (k : A -> Handler B) : Handler B :=
  fun w => match m w with
           | (Ok a, w') => k a w'
           | (Throw e, w') => (Throw e, w')
           end.
Definition lift {A : Type} (r : Result A) : Handler A := fun w => (r, w).
(** [try { m } catch (err) { h(err.message) }] *)
Definition catch {A : Type} (m : Handler A) (h : string -> Handler A) : Handler A :=
  fun w => match m w with
           | (Ok a, w') => (Ok a, w')
           | (Throw e, w') => h e w'
           end.

Declare Scope handler_scope.
Delimit Scope handler_scope with handler.
Notation "x <- m ;; k" := (bind m (fun x => k))
  (at level 100, m at next level, right associativity) : handler_scope.
Notation "m ;;; k" := (bind m (fun _ => k))
  (at level 100, right associativity) : handler_scope.

Definition DQ : string := String "034"%char EmptyString.

Definition isDigit (c : ascii) : bool :=
  let n := nat_of_ascii c in (48 <=? n)%nat && (n <=? 57)%nat.

Fixpoint allDigits (s : string) : bool :=
  match s with
  | EmptyString => true
  | String c s' => isDigit c && allDigits s'
  end.

Fixpoint dropChars (n : nat) (s : string) : string :=
  match n, s with
  | O, _ => s
  | S n', String _ s' => dropChars n' s'
  | S _, EmptyString => EmptyString
  end.

Definition stripPrefix (p s : string) : option string :=
  if String.prefix p s then Some (dropChars (String.length p) s) else None.

(** [REF_PATTERN.test(s)] for [/^(find_|page_)?ref_\d+$/]. *)
Definition REF_PATTERN_test (s : string) : bool :=
  let rest :=
    match stripPrefix "find_" s with
    | Some r => r
    | None => match stripPrefix "page_" s with
              | Some r => r
              | None => s
              end
    end in
  match stripPrefix "ref_" rest with
  | Some digits => negb (String.eqb digits EmptyString) && allDigits digits
  | None => false
  end.

(** [sanitizeRef(ref)]; [RegExp.prototype.test] converts its argument to a
    string and the function returns the argument itself. *)
Definition sanitizeRef (ref : option json) : Result (option json) :=
  if REF_PATTERN_test (ToStringU ref) then Ok ref
  else Throw ("Invalid element ref format: " +:+ ToStringU ref).

Definition MAX_STORED_SCREENSHOTS : Z := 10.

(** The [while] loop of [storeScreenshot]: the oldest key goes while the
    store holds more than ten entries; an empty key stops the loop.  Every
    turn removes an entry, so the size of the store bounds the turns. *)
Fixpoint evictScreenshots (turns : nat) (store : Map string) : Map string :=
  match turns with
  | O => store
  | S turns' =>
      if MAX_STORED_SCREENSHOTS <? Z.of_nat (length store) then
        match store with
        | (oldest, _) :: _ =>
            if String.eqb oldest EmptyString then store
            else evictScreenshots turns' (Map_delete store oldest)
        | [] => store
        end
      else store
  end.

(** [storeScreenshot(data)] at time [now]. *)
Definition storeScreenshot (w : World) (now : Z) (data : string) : string * World :=
  let counter := screenshotCounter w + 1 in
  let id := "screenshot_" +:+ pretty counter +:+ "_" +:+ pretty now in
  let store := Map_set (screenshotStore w) id data in
  (id, mkWorld (tabs w) (evictScreenshots (length store) store) counter (trace w)).

Definition getScreenshotData (w : World) (imageId : option json) : option json :=
  match imageId with
  | Some (JStr key) =>
      match Map_get (screenshotStore w) key with
      | Some data => if String.eqb data EmptyString then imageId else Some (JStr data)
      | None => imageId
      end
  | _ => imageId
  end.

Definition lowerChar (c : ascii) : ascii :=
  let n := nat_of_ascii c in
  if (65 <=? n)%nat && (n <=? 90)%nat then ascii_of_nat (n + 32) else c.

Fixpoint toLowerCase (s : string) : string :=
  match s with
  | EmptyString => EmptyString
  | String c s' => String (lowerChar c) (toLowerCase s')
  end.

(** [parseModifiers(modifiers)]: the CDP modifier bit mask. *)
Definition parseModifiers (modifiers : option json) : Result Z :=
  if negb (truthy modifiers) then Ok 0
  else match modifiers with
       | Some (JStr s) =>
           let parts := split "+"%char (toLowerCase s) in
           let has := fun k => existsb (String.eqb k) parts in
           let m1 := if has "alt"%string then 1 else 0 in
           let m2 := if has "ctrl"%string then Z.lor m1 2 else m1 in
           let m3 := if has "meta"%string || has "cmd"%string then Z.lor m2 4 else m2 in
           Ok (if has "shift"%string then Z.lor m3 8 else m3)
       | _ => Throw "modifiers.toLowerCase is not a function"
       end.

(** The tab id a handler reads with [input.tabId as number], after
    [dispatchTool] has checked it. *)
Definition tabIdOf (input : Input) : option Z := asNumber (assoc "tabId" input).

Definition showTab (tab : option Z) : string :=
  match tab with
  | Some t => pretty t
  | None => "undefined"
  end.

Definition tabAccessCheck (w : World) (agentId : string) (tab : option Z) : option string :=
  if negb (TabManager.isTabInAgentGroup (tabs w) agentId tab)
  then Some ("Tab " +:+ showTab tab +:+ " does not belong to agent " +:+ agentId)
  else None.

Definition CDP_TOOLS : list string :=
  [ "click"; "type"; "key"; "scroll"; "hover"; "drag"; "javascript_exec"; "screenshot";
    "read_page"; "find"; "form_input"; "get_page_text"; "handle_dialog";
    "read_console_messages"; "read_network_requests"; "resize_window"; "gif_creator";
    "artifact_from_page"; "page_data_extract" ]%string.

(** The tools [dispatchTool] routes to a handler that is not modelled here. *)
Definition OTHER_TOOLS : list string :=
  [ "navigate"; "screenshot"; "type"; "key"; "drag"; "find"; "javascript_exec";
    "wait_for"; "get_page_text"; "handle_dialog"; "tabs_context"; "tabs_create";
    "tab_close"; "select_tab"; "read_console_messages"; "read_network_requests";
    "resize_window"; "agent_tab_assign"; "agent_tab_list"; "browser_health";
    "gif_creator"; "update_plan"; "browser_event_subscribe";
    "browser_event_unsubscribe"; "artifact_from_page"; "page_data_extract";
    "shortcuts_list"; "shortcuts_execute" ]%string.

Definition inferErrorCode (message : string) : string :=
  if includes message "does not belong to agent" then "TAB_ACCESS_DENIED"
  else if includes message "not found" || includes message "No tab" then "TAB_NOT_FOUND"
  else if includes message "attach failed" then "DEBUGGER_ATTACH_FAILED"
  else if includes message "CDP error" then "CDP_ERROR"
  else if includes message "timed out" then "TIMEOUT"
  else if includes message "Unknown tool" then "UNKNOWN_TOOL"
  else "INTERNAL_ERROR".

(** [v[i]]: a [TypeError] on [undefined] and [null]. *)
Definition index (v : option json) (i : nat) : Result (option json) :=
  match v with
  | None | Some JNull =>
      Throw ("Cannot read properties of undefined (reading '" +:+ pretty (Z.of_nat i) +:+ "')")
  | Some (JArr items) => Ok (items !! i)
  | Some (JStr s) =>
      Ok (option_map (fun c => JStr (String c EmptyString)) (String.get i s))
  | Some _ => Ok None
  end.

(** A property of an object literal; a property whose value is [undefined]
    does not survive serialization. *)
Definition prop (k : string) (v : option json) : list (string * json) :=
  match v with
  | Some x => [(k, x)]
  | None => []
  end.

Section WithBrowser.

Variable rt : Runtime.

(** What the browser answers to a call, given the calls made before it:
    the value the awaited promise yields ([result.result] for an injected
    script) or the message of the error it rejects with. *)
Variable browser : list BrowserCall -> BrowserCall -> Result (option json).

(** The handlers of [OTHER_TOOLS]. *)
Variable otherHandler : string -> string -> Input -> Handler (option json).

Local Open Scope handler_scope.

Definition call (c : BrowserCall) : Handler (option json) :=
  fun w =>
    (browser (trace w) c,
     mkWorld (tabs w) (screenshotStore w) (screenshotCounter w) (trace w ++ [c])).

Definition requireAccess (agentId : string) (tab : option Z) : Handler unit :=
  fun w => match tabAccessCheck w agentId tab with
           | Some accessErr => (Throw accessErr, w)
           | None => (Ok tt, w)
           end.

(** [if (r?.error) throw new Error(String(r.error)); return r] *)
Definition throwIfError (r : option json) : Handler (option json) :=
  if truthy (get "error" r) then throw (ToStringU (get "error" r)) else ret r.

Definition handleClick (agentId : string) (input : Input) : Handler (option json) :=
  let tabId := tabIdOf input in
  requireAccess agentId tabId ;;;
  if truthy (assoc "ref" input) then
    ref <- lift (sanitizeRef (assoc "ref" input)) ;;
    clickResult <- call (ExecuteScript tabId "click element by ref" [ref]) ;;
    throwIfError clickResult
  else
    let coord := assoc "coordinate" input in
    let action := nullish (assoc "action" input) (JStr "left_click") in
    let button := match action with JStr "right_click" => "right" | _ => "left" end%string in
    let clickCount :=
      match action with
      | JStr "double_click" => 2
      | JStr "triple_click" => 3
      | _ => 1
      end in
    modifiers <- lift (parseModifiers (assoc "modifiers" input)) ;;
    x <- lift (index coord 0) ;;
    y <- lift (index coord 1) ;;
    let params := fun type : string =>
      JObj ([("type", JStr type)] ++ prop "x" x ++ prop "y" y
            ++ [("button", JStr button); ("clickCount", JNum clickCount);
                ("modifiers", JNum modifiers)]) in
    call (SendCdpCommand tabId "Input.dispatchMouseEvent" (params "mousePressed")) ;;;
    call (SendCdpCommand tabId "Input.dispatchMouseEvent" (params "mouseReleased")) ;;;
    ret (Some (JObj ([("clicked", JBool true)] ++ prop "coordinate" coord))).

(** [k * amount] on a value that need not be a number; [NaN] serializes
    as [null]. *)
Definition times (k : Z) (amount : json) : json :=
  match ToNumber rt amount with
  | JNum a => JNum (k * a)
  | _ => JNull
  end.

Definition handleScroll (agentId : string) (input : Input) : Handler (option json) :=
  let tabId := tabIdOf input in
  requireAccess agentId tabId ;;;
  if truthy (assoc "ref" input) then
    ref <- lift (sanitizeRef (assoc "ref" input)) ;;
    scrollResult <- call (ExecuteScript tabId "scroll element into view by ref" [ref]) ;;
    throwIfError scrollResult
  else
    let coord := assoc "coordinate" input in
    let direction := assoc "direction" input in
    if negb (truthy coord) || negb (truthy direction) then
      throw ("Either " +:+ DQ +:+ "ref" +:+ DQ +:+ " or " +:+ DQ +:+ "coordinate" +:+ DQ
             +:+ " + " +:+ DQ +:+ "direction" +:+ DQ +:+ " must be provided")
    else
      let amount := nullish (assoc "amount" input) (JNum 3) in
      let deltaX :=
        match direction with
        | Some (JStr "left") => times (-100) amount
        | Some (JStr "right") => times 100 amount
        | _ => JNum 0
        end in
      let deltaY :=
        match direction with
        | Some (JStr "up") => times (-100) amount
        | Some (JStr "down") => times 100 amount
        | _ => JNum 0
        end in
      x <- lift (index coord 0) ;;
      y <- lift (index coord 1) ;;
      call (SendCdpCommand tabId "Input.dispatchMouseEvent"
              (JObj ([("type", JStr "mouseWheel")] ++ prop "x" x ++ prop "y" y
                     ++ [("deltaX", deltaX); ("deltaY", deltaY)]))) ;;;
      ret (Some (JObj ([("scrolled", JBool true)] ++ prop "direction" direction
                       ++ [("amount", amount)]))).

Definition isConnectionError (msg : string) : bool :=
  String.eqb msg EmptyString
  || includes msg "Receiving end does not exist"
  || includes msg "Could not establish connection".

Definition handleReadPage (agentId : string) (input : Input) : Handler (option json) :=
  let tabId := tabIdOf input in
  requireAccess agentId tabId ;;;
  let filter := assoc "filter" input in
  let depth := nullish (assoc "depth" input) (JNum 8) in
  let maxChars := nullish (assoc "maxChars" input) (JNum 50000) in
  let rawRefId := assoc "refId" input in
  refId <- (if truthy rawRefId then lift (sanitizeRef rawRefId) else ret None) ;;
  let options :=
    JObj (prop "filter" filter ++ [("depth", depth); ("maxChars", maxChars)]
          ++ prop "refId" refId) in
  catch
    (result <- call (TabsSendMessage tabId
                       (JObj [("type", JStr "viyv-build-a11y-tree"); ("options", options)])) ;;
     throwIfError result)
    (fun msg =>
       if negb (isConnectionError msg) then throw msg
       else
         fallbackResult <- call (ExecuteScript tabId "build accessibility tree"
                                   [Some options]) ;;
         throwIfError fallbackResult).

(** [handleHover] moves the pointer to the coordinate; it never reads
    [input.ref]. *)
Definition handleHover (agentId : string) (input : Input) : Handler (option json) :=
  let tabId := tabIdOf input in
  requireAccess agentId tabId ;;;
  let coord := assoc "coordinate" input in
  x <- lift (index coord 0) ;;
  y <- lift (index coord 1) ;;
  call (SendCdpCommand tabId "Input.dispatchMouseEvent"
          (JObj ([("type", JStr "mouseMoved")] ++ prop "x" x ++ prop "y" y))) ;;;
  ret (Some (JObj ([("hovered", JBool true)] ++ prop "coordinate" coord))).

Definition handleFormInput (agentId : string) (input : Input) : Handler (option json) :=
  let tabId := tabIdOf input in
  ref <- lift (sanitizeRef (assoc "ref" input)) ;;
  let value := assoc "value" input in
  requireAccess agentId tabId ;;;
  call (ExecuteScript tabId "set form value by ref" [ref; value]).

Definition handleUploadImage (agentId : string) (input : Input) : Handler (option json) :=
  let tabId := tabIdOf input in
  let imageId := assoc "imageId" input in
  let ref := assoc "ref" input in
  let coordinate := assoc "coordinate" input in
  let filename := nullish (assoc "filename" input) (JStr "image.png") in
  requireAccess agentId tabId ;;;
  if negb (truthy ref) && negb (truthy coordinate) then
    throw ("Either " +:+ DQ +:+ "ref" +:+ DQ +:+ " or " +:+ DQ +:+ "coordinate" +:+ DQ
           +:+ " must be specified")
  else
    fun w =>
      let imgData := getScreenshotData w imageId in
      (mimeType <- lift (match filename with
                         | JStr f =>
                             Ok (if endsWith f ".jpg" || endsWith f ".jpeg"
                                 then "image/jpeg" else "image/png")%string
                         | _ => Throw "filename.endsWith is not a function"
                         end) ;;
       if truthy ref then
         safeRef <- lift (sanitizeRef ref) ;;
         uploadResult <- call (ExecuteScript tabId "set file input by ref"
                                 [safeRef; imgData; Some filename; Some (JStr mimeType)]) ;;
         throwIfError uploadResult
       else
         x <- lift (index coordinate 0) ;;
         y <- lift (index coordinate 1) ;;
         call (ExecuteScript tabId "drop file at coordinates"
                 [imgData; x; y; Some filename; Some (JStr mimeType)])) w.

Definition dispatchTool (agentId tool : string) (input : Input) : Handler (option json) :=
  (* Basic tabId validation *)
  match assoc "tabId" input with
  | Some (JNum n) =>
      if n <? 0 then throw ("Invalid tabId: " +:+ pretty n) else ret tt
  | Some v => throw ("Invalid tabId: " +:+ ToString v)
  | None => ret tt
  end ;;;
  if String.eqb tool "click" then handleClick agentId input
  else if String.eqb tool "scroll" then handleScroll agentId input
  else if String.eqb tool "read_page" then handleReadPage agentId input
  else if String.eqb tool "form_input" then handleFormInput agentId input
  else if String.eqb tool "upload_image" then handleUploadImage agentId input
  else if String.eqb tool "hover" then handleHover agentId input
  else if existsb (String.eqb tool) OTHER_TOOLS then otherHandler tool agentId input
  else throw ("Unknown tool: " +:+ tool).

(** [checkPermission]: auto-approve all for now. *)
Definition checkPermission (agentId tool : string) (input : Input) : bool := true.

(** [handleToolCall(agentId, tool, input)] at time [now], run to
    completion: the result, the world it leaves and in it the browser
    calls it made. *)
Definition handleToolCall (now : Z) (agentId tool : string) (input : Input) (w : World)
    : ToolResult * World :=
  if negb (checkPermission agentId tool input) then
    (Failure "PERMISSION_DENIED" ("Permission denied for tool '" +:+ tool +:+ "'"), w)
  else
    let tabId := asNumber (assoc "tabId" input) in
    let needsLock := bool_decide (is_Some tabId) && existsb (String.eqb tool) CDP_TOOLS in
    let '(acquired, tabs1) :=
      match tabId with
      | Some t =>
          if needsLock then TabManager.acquireTabLock (tabs w) now agentId t TabManager.TAB_LOCK_TTL
          else (true, tabs w)
      | None => (true, tabs w)
      end in
    if negb acquired then
      (Failure "TAB_LOCKED" ("Tab " +:+ showTab tabId +:+ " is locked by another agent"), w)
    else
      let w1 := mkWorld tabs1 (screenshotStore w) (screenshotCounter w) (trace w) in
      let '(outcome, w2) := dispatchTool agentId tool input w1 in
      let w3 :=
        match tabId with
        | Some t =>
            if needsLock
            then mkWorld (TabManager.releaseTabLock (tabs w2) agentId t)
                         (screenshotStore w2) (screenshotCounter w2) (trace w2)
            else w2
        | None => w2
        end in
      match outcome with
      | Ok result => (Success result, w3)
      | Throw message => (Failure (inferErrorCode message) message, w3)
      end.


End WithBrowser.

End Worker.

(** * Native-messaging client of the extension: service-worker/native-messaging.ts *)

Module NativeMessaging.

Definition NATIVE_HOST_NAME : string := "com.viyv.browser".
Definition RECONNECT_DELAYS : list Z := [1000; 2000; 4000; 8000; 16000; 30000].

(** The module variables.  A port and a timer are only compared with
    [null], and the two handlers are only called if set. *)
Record State : Type := mkState {
  (** [port !== null] *)
  port : bool;
  reconnectAttempt : Z;
  (** [reconnectTimer !== null]: a timer is pending *)
  reconnectTimer : bool;
  (** [messageHandler !== null], [statusHandler !== null] *)
  messageHandler : bool;
  statusHandler : bool;
}.

Definition initial : State := mkState false 0 false false false.

(** What the client does to the outside; [Console] is the first argument
    of a call of [console.log], [console.warn] or [console.error]. *)
Inductive Effect : Type :=
  | ConnectNative
  | StatusCall (connected : bool)
  | MessageCall (message : json)
  | PortDisconnect
  | PostMessage (message : json)
  (** [setTimeout(..., delay)]; the delay is [undefined] off the table *)
  | SetTimeout (delay : option Z)
  | ClearTimeout
  | Console (text : string).

Definition setMessageHandler (st : State) : State :=
  mkState (port st) (reconnectAttempt st) (reconnectTimer st) true (statusHandler st).

Definition setStatusHandler (st : State) : State :=
  mkState (port st) (reconnectAttempt st) (reconnectTimer st) (messageHandler st) true.

(** [statusHandler?.(connected)] *)
Definition status (st : State) (connected : bool) : list Effect :=
  if statusHandler st then [StatusCall connected] else [].

(** [RECONNECT_DELAYS[i]] *)
Definition delayAt (i : Z) : option Z :=
  if i <? 0 then None else RECONNECT_DELAYS !! Z.to_nat i.

Definition showDelay (delay : option Z) : string :=
  match delay with
  | Some d => pretty d
  | None => "undefined"
  end.

Definition scheduleReconnect (st : State) : State * list Effect :=
  if reconnectTimer st then (st, [])
  else
    let delay :=
      delayAt (Z.min (reconnectAttempt st) (Z.of_nat (length RECONNECT_DELAYS) - 1)) in
    let attempt := reconnectAttempt st + 1 in
    (mkState (port st) attempt true (messageHandler st) (statusHandler st),
     [ Console ("[viyv-browser:SW] Reconnecting in " +:+ showDelay delay +:+ "ms (attempt "
                +:+ pretty attempt +:+ ")");
       SetTimeout delay ]).

(** [connect()]; [failure] is the error [chrome.runtime.connectNative]
    throws, if it throws. *)
Definition connect (st : State) (failure : option string) : State * list Effect :=
  if port st then (st, [])
  else
    match failure with
    | None =>
        (mkState true (reconnectAttempt st) (reconnectTimer st)
                 (messageHandler st) (statusHandler st),
         [ConnectNative; Console "[viyv-browser:SW] Native messaging connected"]
         ++ status st true)
    | Some _ =>
        let '(st', effects) := scheduleReconnect st in
        (st',
         [ConnectNative; Console "[viyv-browser:SW] Failed to connect native messaging:"]
         ++ status st false ++ effects)
    end.

(** The listener of [port.onMessage]. *)
Definition onMessage (st : State) (message : json) : State * list Effect :=
  (mkState (port st) (if 0 <? reconnectAttempt st then 0 else reconnectAttempt st)
           (reconnectTimer st) (messageHandler st) (statusHandler st),
   if messageHandler st then [MessageCall message] else []).

(** The listener of [port.onDisconnect]. *)
Definition onDisconnect (st : State) : State * list Effect :=
  let st1 := mkState false (reconnectAttempt st) (reconnectTimer st)
                     (messageHandler st) (statusHandler st) in
  let '(st2, effects) := scheduleReconnect st1 in
  (st2, [Console "[viyv-browser:SW] Native messaging disconnected:"]
        ++ status st false ++ effects).

(** [disconnect()] *)
Definition disconnect (st : State) : State * list Effect :=
  (mkState false 0 false (messageHandler st) (statusHandler st),
   (if reconnectTimer st then [ClearTimeout] else [])
   ++ (if port st then [PortDisconnect] else [])
   ++ status st false).

(** [sendMessage(message)]; [throws] tells whether [port.postMessage]
    throws. *)
Definition sendMessage (st : State) (message : json) (throws : bool) : bool * list Effect :=
  if negb (port st)
  then (false, [Console "[viyv-browser:SW] Cannot send message: port not connected"])
  else if throws
       then (false, [PostMessage message; Console "[viyv-browser:SW] sendMessage failed:"])
       else (true, [PostMessage message]).

Definition isConnected (st : State) : bool := port st.

(** The callback of the timer set by [scheduleReconnect]; it runs only
    while the timer is pending. *)
Definition onTimer (st : State) (failure : option string) : State * list Effect :=
  if reconnectTimer st
  then connect (mkState (port st) (reconnectAttempt st) false
                        (messageHandler st) (statusHandler st)) failure
  else (st, []).

Inductive Event : Type :=
  | CallConnect (failure : option string)
  | CallDisconnect
  | CallSendMessage (message : json) (throws : bool)
  | PortMessage (message : json)
  | PortDisconnected
  | TimerFired (failure : option string).

Definition step (st : State) (e : Event) : State * list Effect :=
  match e with
  | CallConnect failure => connect st failure
  | CallDisconnect => disconnect st
  | CallSendMessage message throws => (st, snd (sendMessage st message throws))
  | PortMessage message => onMessage st message
  | PortDisconnected => onDisconnect st
  | TimerFired failure => onTimer st failure
  end.

Fixpoint run (st : State) (events : list Event) : State * list Effect :=
  match events with
  | [] => (st, [])
  | e :: events' =>
      let '(st1, out1) := step st e in
      let '(st2, out2) := run st1 events' in
      (st2, out1 ++ out2)
  end.

End NativeMessaging.

(** * Console and network buffers of the worker: service-worker/tool-handlers.ts *)

Module DebugBuffers.

Definition MAX_ENTRIES_PER_TAB : Z := 500.
Definition MAX_TOTAL_ENTRIES : Z := 5000.

Record ConsoleMessage : Type := mkConsole {
  level : string;
  text : string;
  c_timestamp : Z;
}.

Record NetworkRequest : Type := mkRequest {
  url : string;
  method : string;
  status : Z;
  n_timestamp : Z;
}.

(** A [Map<number, Array<E>>], in insertion order. *)
Definition Buffers (E : Type) : Type := list (Z * list E).

Fixpoint Buffers_get {E : Type} (b : Buffers E) (tabId : Z) : option (list E) :=
  match b with
  | [] => None
  | (k, buf) :: b' => if k =? tabId then Some buf else Buffers_get b' tabId
  end.

Fixpoint Buffers_set {E : Type} (b : Buffers E) (tabId : Z) (buf : list E) : Buffers E :=
  match b with
  | [] => [(tabId, buf)]
  | (k, old) :: b' =>
      if k =? tabId then (k, buf) :: b' else (k, old) :: Buffers_set b' tabId buf
  end.

Fixpoint Buffers_delete {E : Type} (b : Buffers E) (tabId : Z) : Buffers E :=
  match b with
  | [] => []
  | (k, old) :: b' => if k =? tabId then b' else (k, old) :: Buffers_delete b' tabId
  end.

Section Generic.

Context {E : Type}.
Variable timestamp : E -> Z.

Definition getTotalBufferSize (buffers : Buffers E) : Z :=
  fold_left (fun total kv => total + Z.of_nat (length (snd kv))) buffers 0.

(** The scan of [evictOldestEntries]: [oldestTab] and [oldestTime], the
    latter [None] while it is [Number.POSITIVE_INFINITY]. *)
Definition scanOldest (buffers : Buffers E) : Z * option Z :=
  fold_left
    (fun acc kv =>
       match snd kv with
       | first :: _ =>
           if match snd acc with
              | Some oldestTime => timestamp first <? oldestTime
              | None => true
              end
           then (fst kv, Some (timestamp first))
           else acc
       | [] => acc
       end)
    buffers (-1, None).

Definition evictOldestEntries (buffers : Buffers E) : Buffers E :=
  let oldestTab := fst (scanOldest buffers) in
  if 0 <=? oldestTab then
    match Buffers_get buffers oldestTab with
    | Some buf =>
        match tl buf with
        | [] => Buffers_delete buffers oldestTab
        | rest => Buffers_set buffers oldestTab rest
        end
    | None => buffers
    end
  else buffers.

(** [while (getTotalBufferSize(buffers) > MAX_TOTAL_ENTRIES)
    evictOldestEntries(buffers)]; [None] when the turns run out. *)
Fixpoint evictWhile (turns : nat) (buffers : Buffers E) : option (Buffers E) :=
  if MAX_TOTAL_ENTRIES <? getTotalBufferSize buffers then
    match turns with
    | O => None
    | S turns' => evictWhile turns' (evictOldestEntries buffers)
    end
  else Some buffers.

(** The body shared by [addConsoleMessage] and [addNetworkRequest].  A
    turn of the last loop that removes nothing is followed by the same
    turn for ever; one that removes an entry can be followed by as many
    turns as there are entries: the result is [None] exactly when the
    loop does not end. *)
Definition addEntry (buffers : Buffers E) (tabId : Z) (entry : E) : option (Buffers E) :=
  let buffers1 :=
    match Buffers_get buffers tabId with
    | Some _ => buffers
    | None => Buffers_set buffers tabId []
    end in
  let buf := default [] (Buffers_get buffers1 tabId) ++ [entry] in
  let buf' := if MAX_ENTRIES_PER_TAB <? Z.of_nat (length buf) then tl buf else buf in
  let buffers2 := Buffers_set buffers1 tabId buf' in
  evictWhile (Z.to_nat (getTotalBufferSize buffers2)) buffers2.

End Generic.

(** [addConsoleMessage(tabId, level, text)] at time [now]. *)
Definition addConsoleMessage (consoleBuffers : Buffers ConsoleMessage) (now : Z)
    (tabId : Z) (level text : string) : option (Buffers ConsoleMessage) :=
  addEntry c_timestamp consoleBuffers tabId (mkConsole level text now).

(** [addNetworkRequest(tabId, url, method, status)] at time [now]. *)
Definition addNetworkRequest (networkBuffers : Buffers NetworkRequest) (now : Z)
    (tabId : Z) (url method : string) (status : Z) : option (Buffers NetworkRequest) :=
  addEntry n_timestamp networkBuffers tabId (mkRequest url method status now).

(** [cleanupTabBuffers(tabId)] *)
Definition cleanupTabBuffers (consoleBuffers : Buffers ConsoleMessage)
    (networkBuffers : Buffers NetworkRequest) (tabId : Z)
    : Buffers ConsoleMessage * Buffers NetworkRequest :=
  (Buffers_delete consoleBuffers tabId, Buffers_delete networkBuffers tabId).

End DebugBuffers.

(** * Definitions used to state the properties *)

Module Spec.

(** A small runtime to evaluate the program on concrete inputs.  Values are
    serialized as [JSON.stringify] does; [JSON.parse] reads back the three
    literals only; buffers hold the characters of the string; compression
    is the identity. *)
Definition hexDigit (n : nat) : ascii :=
  ascii_of_nat (if (n <? 10)%nat then 48 + n else 87 + n).

Definition escapeChar (c : ascii) : string :=
  let n := nat_of_ascii c in
  if (n =? 34)%nat then String "092"%char (String "034"%char EmptyString)
  else if (n =? 92)%nat then String "092"%char (String "092"%char EmptyString)
  else if (n =? 8)%nat then String "092"%char "b"
  else if (n =? 9)%nat then String "092"%char "t"
  else if (n =? 10)%nat then String "092"%char "n"
  else if (n =? 12)%nat then String "092"%char "f"
  else if (n =? 13)%nat then String "092"%char "r"
  else if (n <? 32)%nat
       then String "092"%char
              ("u00" +:+ String (hexDigit (n / 16)) (String (hexDigit (n mod 16)) EmptyString))
  else String c EmptyString.

Fixpoint escape (s : string) : string :=
  match s with
  | EmptyString => EmptyString
  | String c s' => escapeChar c +:+ escape s'
  end.

Definition quote (s : string) : string :=
  String "034"%char (escape s +:+ String "034"%char EmptyString).

Fixpoint demo_stringify (v : json) : string :=
  match v with
  | JNull => "null"
  | JBool true => "true"
  | JBool false => "false"
  | JNum n => pretty n
  | JStr s => quote s
  | JArr items =>
      "[" +:+
      (fix elements (l : list json) : string :=
         match l with
         | [] => EmptyString
         | x :: l' =>
             demo_stringify x +:+ match l' with
                                  | [] => EmptyString
                                  | _ => "," +:+ elements l'
                                  end
         end) items
      +:+ "]"
  | JObj fields =>
      "{" +:+
      (fix members (l : list (string * json)) : string :=
         match l with
         | [] => EmptyString
         | (k, x) :: l' =>
             quote k +:+ ":" +:+ demo_stringify x
             +:+ match l' with
                 | [] => EmptyString
                 | _ => "," +:+ members l'
                 end
         end) fields
      +:+ "}"
  end.

Definition demo_parse (s : string) : option json :=
  if String.eqb s "null" then Some JNull
  else if String.eqb s "true" then Some (JBool true)
  else if String.eqb s "false" then Some (JBool false)
  else None.

Definition demoRuntime : Runtime :=
  {| JSON_stringify := demo_stringify;
     JSON_parse := demo_parse;
     utf8_encode := list_byte_of_string;
     utf8_decode := string_of_list_byte;
     gzipSync := fun b => b;
     gunzipSync := fun b => Some b;
     base64_encode := string_of_list_byte;
     base64_decode := list_byte_of_string;
     ToNumber := fun v => v |}.

(** The reader after it has been fed the first bytes [p] of the frame of a
    body of [n] bytes. *)
Definition progress (n : Z) (p : Transport.Buffer) : Transport.Reader :=
  if Transport.Buffer_length p <? 4 then Transport.mkReader p None
  else if Transport.Buffer_length p <? 4 + n
       then Transport.mkReader (Transport.subarray_from 4 p) (Some n)
       else Transport.createMessageReader.

(** What the write outcome is when every write is accepted. *)
Definition alwaysFlushed (line : string) : Bridge.WriteOutcome := Bridge.Flushed.

(** A bridge whose socket is gone and whose buffer is full: the oldest
    record is [0], the others are [null]. *)
Definition fullBuffer : list json := JNum 0 :: repeat JNull 999.

Definition disconnectedFull : Bridge.State :=
  Bridge.mkState None true 3 fullBuffer Transport.createMessageReader.

(** A bridge that has failed to connect three times and is connecting
    again. *)
Definition retrying : Bridge.State :=
  Bridge.mkState (Some (Bridge.mkSocket false EmptyString 0)) false 3 [] Transport.createMessageReader.

(** The buffer after a record arrived, if the oldest record gave way to it. *)
Definition oldestDropped (before : list json) (message : json) : list json :=
  tl before ++ [message].

(** The chunks of one set share the fields that describe the set. *)
Definition sameSet (chunks : list Compression.ChunkedPayload) : Prop :=
  forall a b, In a chunks -> In b chunks ->
    Compression.requestId a = Compression.requestId b /\
    Compression.totalChunks a = Compression.totalChunks b /\
    Compression.totalSize a = Compression.totalSize b /\
    Compression.compressed a = Compression.compressed b.

(** Index [i] is carried by no chunk of the list. *)
Definition missing (i : Z) (chunks : list Compression.ChunkedPayload) : Prop :=
  forall c, In c chunks -> Compression.chunkIndex c <> i.

(** The indices of the chunks are pairwise distinct and within
    [0 .. totalChunks - 1]. *)
Definition wellIndexed (chunks : list Compression.ChunkedPayload) : Prop :=
  List.NoDup (map Compression.chunkIndex chunks) /\
  forall c, In c chunks -> 0 <= Compression.chunkIndex c < Compression.totalChunks c.

(** Ascending chunk index. *)
Definition ascending (a b : Compression.ChunkedPayload) : Prop :=
  Compression.chunkIndex a <= Compression.chunkIndex b.

(** Two of three announced chunks, the second carrying an index outside
    the announced range. *)
Definition strayChunks : list Compression.ChunkedPayload :=
  [ Compression.mkChunk "r1" "default" 0 2 2 false "a";
    Compression.mkChunk "r1" "default" 2 2 2 false "c" ].

Definition twoChunks : list Compression.ChunkedPayload :=
  [ Compression.mkChunk "r1" "default" 1 2 2 false "b";
    Compression.mkChunk "r1" "default" 0 2 2 false "a" ].

(** A worker in which agent [default] owns tab 42 and agent [other] owns
    tab 99 and holds the lock of tab 7 since time 1000. *)
Definition demoTabs : TabManager.State :=
  TabManager.mkState
    (<["default"%string := TabManager.mkGroup "default" "default" 1 "blue" {[42; 7]}]>
       (<["other"%string := TabManager.mkGroup "other" "other" 2 "red" {[99; 7]}]> ∅))
    (<[42 := "default"%string]> (<[99 := "other"%string]> ∅))
    (<[7 := TabManager.mkLock 7 "other" 1000 60000]> ∅).

Definition demoWorld : Worker.World := Worker.mkWorld demoTabs [] 0 [].

(** A browser in which every call succeeds with [{}]. *)
Definition demoBrowser (history : list Worker.BrowserCall) (c : Worker.BrowserCall)
    : Result (option json) := Ok (Some (JObj [])).

Definition demoOther (tool agentId : string) (input : Worker.Input)
    : Worker.Handler (option json) := Worker.ret (Some (JObj [])).

(** The strings of the language of [/^(find_|page_)?ref_\d+$/]: an optional
    [find_] or [page_], then [ref_], then one decimal digit or more. *)
Definition matchesRefPattern (s : string) : Prop :=
  exists prefix digits : string,
    In prefix ["find_"; "page_"; EmptyString]%string /\
    digits <> EmptyString /\
    Worker.allDigits digits = true /\
    s = prefix +:+ "ref_" +:+ digits.

(** The tool calls that carry an element reference the worker rejects: the
    tools that read [ref] ([refId] for [read_page]), with a reference whose
    text does not match the pattern; but for [form_input], the reference
    is a truthy value, as only those are looked at. *)
Definition rejectedRef (tool : string) (input : Worker.Input) : Prop :=
  (tool = "form_input"%string /\
   Worker.REF_PATTERN_test (ToStringU (assoc "ref" input)) = false)
  \/
  ((tool = "click"%string \/ tool = "scroll"%string \/ tool = "upload_image"%string) /\
   truthy (assoc "ref" input) = true /\
   Worker.REF_PATTERN_test (ToStringU (assoc "ref" input)) = false)
  \/
  (tool = "read_page"%string /\
   truthy (assoc "refId" input) = true /\
   Worker.REF_PATTERN_test (ToStringU (assoc "refId" input)) = false).

(** The reference the rejected call carries. *)
Definition carriedRef (tool : string) (input : Worker.Input) : option json :=
  if String.eqb tool "read_page" then assoc "refId" input else assoc "ref" input.

(** The messages with which a rejected call can fail. *)
Definition refError (ref : option json) : string :=
  "Invalid element ref format: " +:+ ToStringU ref.

Definition accessError (agentId : string) (tab : option Z) : string :=
  "Tab " +:+ Worker.showTab tab +:+ " does not belong to agent " +:+ agentId.

(** The call is shut out by a tab lock: the tool is one that takes the
    lock, the input names a tab by number, and the table holds a lock of
    that tab that belongs to another agent and has not expired. *)
Definition lockedOut (w : Worker.World) (now : Z) (agentId tool : string)
    (input : Worker.Input) : Prop :=
  In tool Worker.CDP_TOOLS /\
  exists (T : Z) (lock : TabManager.TabLockInfo),
    assoc "tabId" input = Some (JNum T) /\
    TabManager.tabLocks (Worker.tabs w) !! T = Some lock /\
    TabManager.agentId lock <> agentId /\
    now - TabManager.acquiredAt lock <= TabManager.ttl lock.

(** The tab the input names is in the group of the agent. *)
Definition owned (w : Worker.World) (agentId : string) (input : Worker.Input) : Prop :=
  TabManager.isTabInAgentGroup (Worker.tabs w) agentId (Worker.tabIdOf input) = true.

(** The [tabId] of the input, if it has one, is a number that is not
    negative: the check at the head of [dispatchTool] passes. *)
Definition tabIdPasses (input : Worker.Input) : Prop :=
  match assoc "tabId" input with
  | Some (JNum n) => 0 <= n
  | Some _ => False
  | None => True
  end.

(** The file name [upload_image] works with is a string. *)
Definition fileNameIsText (input : Worker.Input) : Prop :=
  exists f : string, nullish (assoc "filename" input) (JStr "image.png") = JStr f.

(** The session token the table holds for an agent. *)
Definition tokenOf (st : AgentSession.State) (agent : string) : option string :=
  option_map AgentSession.sessionToken (Map_get (AgentSession.sessions st) agent).

(** A server to which the bridge connected at time 1000 (socket 1) and on
    which the client then invoked [click]: invocation 0 is pending under
    request id [req-1]. *)
Definition clickInput : json := JObj [("tabId", JNum 99); ("coordinate", JArr [JNum 1; JNum 2])].

Definition serverWithPendingCall : Server.State :=
  fst (Server.run demoRuntime Server.initial
         [ Server.Accept 1 1000 "token-1" "token-2" "init-1";
           Server.ToolCall "click" clickInput 2000 "req-1" "token-3" ]).

(** The response built by the [resolve] and [reject] closures of an entry. *)
Definition errorResponse (rt : Runtime) (code message : string) : Server.ToolResponse :=
  Server.mkResponse
    [Server.mkItem "text"
       (JSON_stringify rt
          (JObj [("error", JObj [("code", JStr code); ("message", JStr message)])]))].

(** ** The pending-request engine: invariants of the reachable states *)

(** The request id under which an invocation was sent. *)
Definition requestIdOf (st : Server.State) (call : nat) : option string :=
  option_map Server.requestId (Server.calls st !! call).

(** An invocation is live while its promise can still be resolved: its
    timer is armed, or it is a [switch_browser] that is still polling. *)
Definition live (st : Server.State) (call : nat) : Prop :=
  In call (Server.timers st) \/ In call (Server.switching st).

Record WellFormed (st : Server.State) : Prop := {
  wf_timers : forall call, In call (Server.timers st) -> (call < length (Server.calls st))%nat;
  wf_switching :
    forall call, In call (Server.switching st) ->
      (call < length (Server.calls st))%nat /\ ~ In call (Server.timers st);
  wf_pending :
    forall id call, In (id, call) (Server.pendingRequests st) ->
      In call (Server.timers st) /\ requestIdOf st call = Some id;
  wf_keys : List.NoDup (map fst (Server.pendingRequests st));
  wf_unique :
    forall c1 c2, In c1 (Server.timers st) ->
      is_Some (requestIdOf st c2) -> requestIdOf st c1 = requestIdOf st c2 -> c1 = c2;
  wf_nonempty : forall call, In call (Server.timers st) -> requestIdOf st call <> Some EmptyString;
}.

(** What one handler run may do to the engine: it keeps the state well
    formed, never forgets an invocation, revives none, and resolves only
    invocations that were live (or that it has just created), which are
    dead afterwards. *)
Record Good (st st' : Server.State) (out : list Server.Effect) : Prop := {
  g_wf : WellFormed st';
  g_mono : (length (Server.calls st) <= length (Server.calls st'))%nat;
  g_calls :
    forall x, (x < length (Server.calls st))%nat -> Server.calls st' !! x = Server.calls st !! x;
  g_live : forall x, live st' x -> live st x \/ (length (Server.calls st) <= x)%nat;
  g_resolved :
    forall x r, In (Server.Resolve x r) out ->
      (live st x \/ (length (Server.calls st) <= x)%nat) /\
      ~ live st' x /\ (x < length (Server.calls st'))%nat;
}.

(** Effects among which no promise is resolved. *)
Definition quiet (out : list Server.Effect) : Prop :=
  forall x r, ~ In (Server.Resolve x r) out.

(** The part of the state the engine's invariants speak about. *)
Definition core (st : Server.State)
    : Map nat * list Server.Call * list nat * list nat :=
  (Server.pendingRequests st, Server.calls st, Server.timers st, Server.switching st).

(** Request ids are fresh UUIDs: a tool call draws an id that is not empty
    and that no earlier invocation carries. *)
Definition freshEvent (st : Server.State) (e : Server.Event) : Prop :=
  match e with
  | Server.ToolCall _ _ _ uuid1 _ =>
      uuid1 <> EmptyString /\ forall c, In c (Server.calls st) -> Server.requestId c <> uuid1
  | _ => True
  end.

Fixpoint freshTrace (rt : Runtime) (st : Server.State) (trace : list Server.Event) : Prop :=
  match trace with
  | [] => True
  | e :: trace' => freshEvent st e /\ freshTrace rt (fst (Server.step rt st e)) trace'
  end.

(** Removing the entry and the timer of an invocation. *)
Definition retire (st : Server.State) (id : string) (call : nat) : Server.State :=
  Server.set_pending (Server.clearTimeout st call)
    (Map_delete (Server.pendingRequests (Server.clearTimeout st call)) id).

(** Every entry of the table belongs to an invocation whose [onError]
    listener is still registered on the socket the request was written
    to. *)
Definition Wired (st : Server.State) : Prop :=
  forall id call, In (id, call) (Server.pendingRequests st) ->
    exists c, Server.calls st !! call = Some c /\
              In (Server.sock c, call) (Server.errorListeners st).

(** The part of the state [Wired] speaks about. *)
Definition wiring (st : Server.State) : Map nat * list Server.Call * list (nat * nat) :=
  (Server.pendingRequests st, Server.calls st, Server.errorListeners st).

(** A [tool_result] record with the given id. *)
Definition isToolResultFor (id : string) (message : json) : Prop :=
  asString (get "type" (Some message)) = Some "tool_result"%string /\
  asString (get "id" (Some message)) = Some id.

(** Event [e], arriving after the run [before], settles invocation [call],
    sent under request id [id], with [response]: the handler of [e] resolves
    the invocation with [response], once; the entry has left the table and
    the timer is no longer armed; however the run goes on, [response] is
    the one resolution of the invocation over the whole run; and a
    [tool_result] with the id [id] that arrives at any later point changes
    neither the state nor anything the client sees. *)
Definition settles (rt : Runtime) (before : list Server.Event) (e : Server.Event)
    (id : string) (call : nat) (response : Server.ToolResponse) : Prop :=
  let st := fst (Server.run rt Server.initial before) in
  let st1 := fst (Server.step rt st e) in
  Server.resolutions call (snd (Server.step rt st e)) = [response] /\
  Map_get (Server.pendingRequests st1) id = None /\
  ~ In call (Server.timers st1) /\
  forall after : list Server.Event,
    freshTrace rt st1 after ->
    Server.resolutions call (snd (Server.run rt Server.initial (before ++ e :: after)))
    = [response] /\
    forall (now : Z) (uuid : string) (message : json),
      isToolResultFor id message ->
      let st2 := fst (Server.run rt st1 after) in
      Server.handleExtensionMessage rt st2 now uuid message = (st2, []).

(** Scenario S3: the bridge connects, the client invokes [wait_for] with a
    timeout of 100 ms, and nothing comes back. *)
Definition waitForInput : json :=
  JObj [("tabId", JNum 42); ("selector", JStr "#never"); ("timeout", JNum 100)].

Definition beforeDeadline : list Server.Event :=
  [ Server.Accept 1 1000 "token-1" "token-2" "init-1";
    Server.ToolCall "wait_for" waitForInput 2000 "req-1" "token-3" ].

Definition afterDeadline : list Server.Event :=
  [ Server.SocketError 1 "write EPIPE"; Server.SocketClose 1 8000; Server.TimerFire 0 ].

(** The same call, but the socket goes away before the deadline. *)
Definition closedBeforeDeadline : list Server.Event :=
  beforeDeadline ++ [ Server.SocketClose 1 3000; Server.TimerFire 0 ].

Definition failedBeforeDeadline : list Server.Event :=
  beforeDeadline ++ [ Server.SocketError 1 "write EPIPE"; Server.TimerFire 0 ].

Definition isSocketData (e : Server.Event) : bool :=
  match e with
  | Server.SocketData _ _ _ _ => true
  | _ => false
  end.

End Spec.
(** * Definitions used to state further properties of the code *)

Module Laws.

(** ** Framed transport *)

(** The frame of a body: the header [writeUInt32LE] stores, then the body. *)
Definition frameOf (body : Transport.Buffer) : Transport.Buffer :=
  Transport.writeUInt32LE (Transport.Buffer_length body) ++ body.

(** Frames written back to back. *)
Definition stream (bodies : list Transport.Buffer) : Transport.Buffer :=
  concat (map frameOf bodies).

(** A body within the limit of one message. *)
Definition fits (body : Transport.Buffer) : Prop :=
  Transport.Buffer_length body <= Transport.MAX_MESSAGE_SIZE.

(** What the reader reports for a complete body. *)
Definition report (rt : Runtime) (body : Transport.Buffer) : Transport.Callback :=
  match JSON_parse rt (utf8_decode rt body) with
  | Some message => Transport.onMessage message
  | None => Transport.onError Transport.InvalidJSON
  end.

(** The body of the frame [encodeMessage] builds for a value. *)
Definition bodyOf (rt : Runtime) (v : json) : Transport.Buffer :=
  utf8_encode rt (JSON_stringify rt v).

(** A value [encodeMessage] accepts and [JSON.parse] reads back from its
    encoded serialization. *)
Definition readsBack (rt : Runtime) (v : json) : Prop :=
  fits (bodyOf rt v) /\ JSON_parse rt (utf8_decode rt (bodyOf rt v)) = Some v.

(** ** Bridge *)

(** The lines written to the socket, in order. *)
Definition socketWrites (effects : list Bridge.Effect) : list string :=
  flat_map (fun e => match e with Bridge.SocketWrite l => [l] | _ => [] end) effects.

(** The delays of the timers set, in order. *)
Definition timeouts (effects : list Bridge.Effect) : list Z :=
  flat_map (fun e => match e with Bridge.SetTimeout d => [d] | _ => [] end) effects.

(** [k] connection attempts in a row that end in a close. *)
Definition failedAttempts (k : nat) : list Bridge.Event :=
  concat (repeat [Bridge.SocketClose; Bridge.ReconnectTimer] k).

(** The record in which the bridge wraps a compressed payload. *)
Definition compressedWrapper (data : string) : json :=
  JObj [("type", JStr "compressed"); ("data", JStr data)].

(** A record that reads as such a wrapper. *)
Definition isWrapper (m : json) : Prop :=
  asString (get "type" (Some m)) = Some "compressed"%string /\
  is_Some (asString (get "data" (Some m))).

(** [JSON.parse] reads the value back from its serialization. *)
Definition parses (rt : Runtime) (v : json) : Prop :=
  JSON_parse rt (JSON_stringify rt v) = Some v.

(** The decoders of the runtime undo its encoders. *)
Definition codecs (rt : Runtime) : Prop :=
  (forall b, gunzipSync rt (gzipSync rt b) = Some b) /\
  (forall b, base64_decode rt (base64_encode rt b) = b) /\
  (forall s, utf8_decode rt (utf8_encode rt s) = s).

(** A runtime with a toy compressor that shortens the texts that begin
    with [aaaa], to evaluate the compressed path on concrete inputs. *)
Definition shrink (b : list byte) : list byte :=
  match b with
  | "a"%byte :: "a"%byte :: "a"%byte :: "a"%byte :: rest => x01 :: rest
  | _ => x00 :: b
  end.

Definition expand (b : list byte) : option (list byte) :=
  match b with
  | x01 :: rest => Some ("a"%byte :: "a"%byte :: "a"%byte :: "a"%byte :: rest)
  | x00 :: rest => Some rest
  | _ => None
  end.

Definition shortRuntime : Runtime :=
  {| JSON_stringify := Spec.demo_stringify;
     JSON_parse := Spec.demo_parse;
     utf8_encode := list_byte_of_string;
     utf8_decode := string_of_list_byte;
     gzipSync := shrink;
     gunzipSync := expand;
     base64_encode := string_of_list_byte;
     base64_decode := list_byte_of_string;
     ToNumber := fun v => v |}.

(** ** Tables *)

(** A table in which no key occurs twice, as in every [Map]. *)
Definition wellKeyed {V : Type} (m : Map V) : Prop := List.NoDup (map fst m).

(** ** Events *)

(** One listener, and one subscription of agent [agent-a] to page loads on
    URLs that contain [/login]. *)
Definition loginSubscription : EventBridge.EventSubscription :=
  EventBridge.mkSubscription "sub-1" "agent-a" ["browser.page_load"%string]
    (Some "/login"%string) 1000.

Definition oneSubscription : EventBridge.State :=
  EventBridge.addEventListener
    (EventBridge.addSubscription EventBridge.initial loginSubscription) 7.

Definition pageLoad : EventBridge.BrowserEvent :=
  EventBridge.mkEvent (Some (JStr "browser.page_load")) "agent-a" (JNum 12)
    "https://example.org/login" (JObj []) (JNum 1).

(** ** Server *)

(** How many promises a handler resolves. *)
Fixpoint resolveCount (out : list Server.Effect) : nat :=
  match out with
  | [] => 0
  | Server.Resolve _ _ :: out' => S (resolveCount out')
  | _ :: out' => resolveCount out'
  end.

(** No invocation is resolved twice. *)
Definition atMostOnce (out : list Server.Effect) : Prop :=
  forall call, (length (Server.resolutions call out) <= 1)%nat.

(** How many lines a handler writes to a socket. *)
Fixpoint writeCount (out : list Server.Effect) : nat :=
  match out with
  | [] => 0
  | Server.SocketWrite _ _ :: out' => S (writeCount out')
  | _ :: out' => writeCount out'
  end.

(** The answer of a tool call that finds no extension. *)
Definition notConnected (rt : Runtime) : Server.ToolResponse :=
  Spec.errorResponse rt "EXTENSION_NOT_CONNECTED"
    "Chrome Extension is not connected. Please open Chrome and click the Viyv Browser extension icon.".

(** A server whose extension connected at time 1000 on socket 1. *)
Definition connectedServer : Server.State :=
  fst (Server.run Spec.demoRuntime Server.initial
         [Server.Accept 1 1000 "token-1" "token-2" "init-1"]).

(** A [session_heartbeat] record. *)
Definition isHeartbeat (message : json) : Prop :=
  (exists fields, message = JObj fields) /\
  asString (get "type" (Some message)) = Some "session_heartbeat"%string.

(** ** Worker *)

(** The tools whose handlers talk to the page of a tab. *)
Definition pageTools : list string :=
  [ "click"; "scroll"; "read_page"; "form_input"; "upload_image" ]%string.

(** A handler that leaves the tables of the worker as they are and only
    adds calls to the trace. *)
Definition onlyCalls {A : Type} (m : Worker.Handler A) : Prop :=
  forall w,
    Worker.tabs (snd (m w)) = Worker.tabs w /\
    Worker.screenshotStore (snd (m w)) = Worker.screenshotStore w /\
    Worker.screenshotCounter (snd (m w)) = Worker.screenshotCounter w /\
    exists calls, Worker.trace (snd (m w)) = Worker.trace w ++ calls.

(** An input whose [tabId], if it has one, passes the check of
    [dispatchTool]. *)
Definition validTabId (input : Worker.Input) : Prop :=
  match assoc "tabId" input with
  | Some (JNum n) => 0 <= n
  | Some _ => False
  | None => True
  end.

(** [parts.join(sep)] *)
Fixpoint join (sep : ascii) (parts : list string) : string :=
  match parts with
  | [] => EmptyString
  | [p] => p
  | p :: rest => p +:+ String sep (join sep rest)
  end.

Fixpoint allChars (p : ascii -> bool) (s : string) : bool :=
  match s with
  | EmptyString => true
  | String c s' => p c && allChars p s'
  end.

(** The characters [a] to [z], [0] to [9] and [_]. *)
Definition refChar (c : ascii) : bool :=
  let n := nat_of_ascii c in
  ((97 <=? n)%nat && (n <=? 122)%nat) || ((48 <=? n)%nat && (n <=? 57)%nat) || (n =? 95)%nat.

(** A name of a key that holds no [+]. *)
Definition plainName (name : string) : bool :=
  allChars (fun c => negb (Ascii.eqb c "+"%char)) name.

(** Whether a key is named, in whatever case. *)
Definition names (key : string) (l : list string) : bool :=
  existsb (fun n => String.eqb key (Worker.toLowerCase n)) l.

(** A store of screenshots within the limit, none under an empty key. *)
Definition screenshotsOk (store : Map string) : Prop :=
  (length store <= 10)%nat /\ Forall (fun kv => fst kv <> EmptyString) store.

(** ** Native messaging *)

(** The delays of the timers set, in order. *)
Definition delays (effects : list NativeMessaging.Effect) : list (option Z) :=
  flat_map (fun e => match e with NativeMessaging.SetTimeout d => [d] | _ => [] end) effects.

(** The port drops and the retry connects again, [k] times over, with no
    message in between. *)
Definition flaps (k : nat) : list NativeMessaging.Event :=
  concat (repeat [NativeMessaging.PortDisconnected; NativeMessaging.TimerFired None] k).

(** The first [k] delays of the schedule. *)
Definition backoff (k : nat) : list (option Z) :=
  map (fun i => Some (Z.min (1000 * 2 ^ Z.of_nat i) 30000)) (seq 0 k).

(** ** Console and network buffers *)

(** Buffers as a [Map] of tabs holds them: no tab twice, no negative tab
    id, at most 500 entries for a tab. *)
Definition tidy {E : Type} (b : DebugBuffers.Buffers E) : Prop :=
  List.NoDup (map fst b) /\
  List.Forall (fun kv => 0 <= fst kv /\
                         Z.of_nat (length (snd kv)) <= DebugBuffers.MAX_ENTRIES_PER_TAB) b.

(** Such buffers with at most 5000 entries in all. *)
Definition buffersOk {E : Type} (b : DebugBuffers.Buffers E) : Prop :=
  tidy b /\ DebugBuffers.getTotalBufferSize b <= DebugBuffers.MAX_TOTAL_ENTRIES.

(** The last 500 of the entries of a tab and one more. *)
Definition pushed {E : Type} (old : list E) (entry : E) : list E :=
  if DebugBuffers.MAX_ENTRIES_PER_TAB <? Z.of_nat (length (old ++ [entry]))
  then tl (old ++ [entry]) else old ++ [entry].

(** What adding an entry for a tab makes of buffers: the call returns, the
    buffers it leaves are within the limits, and, when there was room for
    one more entry in all, the entry is the last of its tab, which has lost
    its oldest entry if it was full, and the other tabs are as they were. *)
Definition addedTo {E : Type} (before : DebugBuffers.Buffers E) (tabId : Z) (entry : E)
    (result : option (DebugBuffers.Buffers E)) : Prop :=
  exists after,
    result = Some after /\ buffersOk after /\
    (DebugBuffers.getTotalBufferSize before < DebugBuffers.MAX_TOTAL_ENTRIES ->
     DebugBuffers.Buffers_get after tabId
     = Some (pushed (default [] (DebugBuffers.Buffers_get before tabId)) entry) /\
     forall other, other <> tabId ->
       DebugBuffers.Buffers_get after other = DebugBuffers.Buffers_get before other).

(** ** Tabs *)

(** No group of the table has the colour. *)
Definition unusedColor (st : TabManager.State) (c : string) : Prop :=
  forall agent group, TabManager.agentGroups st !! agent = Some group ->
                      TabManager.color group <> c.

(** A table with one agent, which owns tabs 7 and 8 and holds the lock of
    tab 7. *)
Definition twoTabs : TabManager.State :=
  TabManager.mkState
    {[ "agent-a"%string := TabManager.mkGroup "agent-a" "Agent A" 1 "blue" {[ 7; 8 ]} ]}
    {[ 7 := "agent-a"%string; 8 := "agent-a"%string ]}
    {[ 7 := TabManager.mkLock 7 "agent-a" 1000 60000 ]}.

(** ** Histories of the session table *)

(** The calls that change the session table. *)
Inductive SessionCall : Type :=
  | CreateSession (now : Z) (uuid agentId : string) (agentName : option string)
  | TouchSession (now : Z) (agentId : string)
  | CloseSession (agentId : string)
  | CleanupStaleSessions (now : Z)
  | GetDefaultAgentId (now : Z) (uuid : string)
  | SetDefaultAgentId (id : string).

Definition sessionCall (st : AgentSession.State) (c : SessionCall) : AgentSession.State :=
  match c with
  | CreateSession now uuid agentId agentName =>
      snd (AgentSession.createSession st now uuid agentId agentName)
  | TouchSession now agentId => AgentSession.touchSession st now agentId
  | CloseSession agentId => AgentSession.closeSession st agentId
  | CleanupStaleSessions now => snd (AgentSession.cleanupStaleSessions st now)
  | GetDefaultAgentId now uuid => snd (AgentSession.getDefaultAgentId st now uuid)
  | SetDefaultAgentId id => AgentSession.setDefaultAgentId st id
  end.

Definition sessionCalls (st : AgentSession.State) (history : list SessionCall)
    : AgentSession.State :=
  fold_left sessionCall history st.

(** The agent has a session after every call of the history. *)
Fixpoint keepsSession (agent : string) (st : AgentSession.State) (history : list SessionCall)
    : Prop :=
  match history with
  | [] => True
  | c :: history' =>
      AgentSession.getSession (sessionCall st c) agent <> None /\
      keepsSession agent (sessionCall st c) history'
  end.

(** What every table the module builds satisfies: one session per key,
    stored under its own agent id, and active. *)
Definition tableOk (m : Map AgentSession.AgentSessionInfo) : Prop :=
  wellKeyed m /\
  forall k s, In (k, s) m -> AgentSession.status s = AgentSession.active /\
                             AgentSession.agentId s = k.

(** Two agents, [a] the older. *)
Definition twoSessions : AgentSession.State :=
  AgentSession.mkState
    [ ("a"%string, AgentSession.mkSession "a" "token-a" "a" AgentSession.active 0 0);
      ("b"%string, AgentSession.mkSession "b" "token-b" "b" AgentSession.active 0 0) ]
    "default".

End Laws.

(** * Properties of the framed transport *)

Section TransportFacts.

Import Transport.
Variable rt : Runtime.

Lemma byte_to_of_Z (z : Z) : byte_to_Z (byte_of_Z z) = Z.land z 255.
Proof.
  unfold byte_to_Z, byte_of_Z.
  assert (Hb : 0 <= Z.land z 255 < 256).
  { change 255 with (Z.ones 8). rewrite Z.land_ones by lia.
    apply Z.mod_pos_bound. lia. }
  destruct (Byte.of_N (Z.to_N (Z.land z 255))) as [b|] eqn:E.
  - apply Byte.to_of_N in E. rewrite E. lia.
  - apply Byte.of_N_None_iff in E. lia.
Qed.

Lemma readUInt32LE_writeUInt32LE (n : Z) (rest : Buffer) :
  0 <= n < 2 ^ 32 -> readUInt32LE (writeUInt32LE n ++ rest) = n.
Proof.
  intros Hn. unfold writeUInt32LE. cbn [app readUInt32LE].
  rewrite !byte_to_of_Z.
  change 255 with (Z.ones 8). rewrite !Z.land_ones by lia.
  rewrite !Z.shiftr_div_pow2 by lia.
  change (2 ^ 8) with 256. change (2 ^ 16) with 65536.
  change (2 ^ 24) with 16777216. change (2 ^ 32) with 4294967296 in Hn.
  Z.div_mod_to_equations. lia.
Qed.

Lemma loop_break (f : nat) (r r' : Reader) (out : list Callback) :
  iteration rt r = Break r' out -> loop rt (S f) r = Some (r', out).
Proof. intros H. cbn [loop]. now rewrite H. Qed.

Lemma loop_continue_break (f : nat) (r r1 r2 : Reader) (out1 out2 : list Callback) :
  iteration rt r = Continue r1 out1 ->
  iteration rt r1 = Break r2 out2 ->
  loop rt (S (S f)) r = Some (r2, out1 ++ out2).
Proof. intros H1 H2. cbn [loop]. now rewrite H1, H2. Qed.

(** The loop of the ['data'] listener always terminates within the fuel
    [onData] gives it. *)
Lemma loop_total (f : nat) (r : Reader) :
  (length (buffer r) + match expectedLength r with Some _ => 2 | None => 1 end <= f)%nat ->
  is_Some (loop rt f r).
Proof.
  revert r. induction f as [|f IH]; intros [buf exp] Hf; cbn [buffer expectedLength] in Hf.
  - destruct exp; lia.
  - cbn [loop]. unfold iteration. cbn [buffer expectedLength].
    assert (Hbody : forall b e, (length b + 1 <= f)%nat ->
               is_Some (match readBody rt b e with
                        | Break r' out => Some (r', out)
                        | Continue r' out =>
                            match loop rt f r' with
                            | Some (r'', out') => Some (r'', out ++ out')
                            | None => None
                            end
                        end)).
    { intros b e Hb. unfold readBody.
      destruct (Buffer_length b <? e); [eauto|].
      destruct (IH {| buffer := subarray_from e b; expectedLength := None |}) as [[r'' o] Hl].
      - cbn [buffer expectedLength]. unfold subarray_from. rewrite length_drop. lia.
      - rewrite Hl. eauto. }
    destruct exp as [e|].
    + apply Hbody. lia.
    + destruct (Buffer_length buf <? 4) eqn:E4; [eauto|].
      destruct (MAX_MESSAGE_SIZE <? readUInt32LE buf); [eauto|].
      apply Hbody. unfold subarray_from. rewrite length_drop.
      unfold Buffer_length in E4. apply Z.ltb_ge in E4.
      change (Z.to_nat 4) with 4%nat. lia.
Qed.

Lemma onData_total (r : Reader) (chunk : Buffer) : is_Some (onData rt r chunk).
Proof.
  unfold onData. apply loop_total. cbn [buffer expectedLength].
  destruct (expectedLength r); lia.
Qed.

Lemma feed_total (chunks : list Buffer) (r : Reader) : is_Some (feed rt r chunks).
Proof.
  revert r. induction chunks as [|c chunks IH]; intros r; cbn [feed]; [eauto|].
  destruct (onData_total r c) as [[r' out] ->].
  destruct (IH r') as [[r'' out'] ->]. eauto.
Qed.

Section OneFrame.

Variable v : json.
Let body : Buffer := utf8_encode rt (JSON_stringify rt v).
Let n : Z := Buffer_length body.
Let frame : Buffer := writeUInt32LE n ++ body.

Hypothesis Hsize : n <= MAX_MESSAGE_SIZE.
Hypothesis Hparse : JSON_parse rt (utf8_decode rt body) = Some v.

Lemma readBody_partial (b rest : Buffer) :
  b ++ rest = body -> (length b < length body)%nat ->
  readBody rt b n = Break {| buffer := b; expectedLength := Some n |} [].
Proof.
  intros _ Hlt. unfold readBody.
  replace (Buffer_length b <? n) with true; [reflexivity|].
  symmetry. apply Z.ltb_lt. unfold n, Buffer_length. lia.
Qed.

Lemma readBody_full :
  readBody rt body n = Continue createMessageReader [onMessage v].
Proof.
  unfold readBody. rewrite Z.ltb_irrefl.
  unfold subarray_to, subarray_from, n, Buffer_length. rewrite Nat2Z.id.
  rewrite firstn_all, skipn_all. fold body. rewrite Hparse. reflexivity.
Qed.

Lemma iteration_init_empty :
  iteration rt createMessageReader = Break createMessageReader [].
Proof. reflexivity. Qed.

Lemma frame_length : length frame = (4 + length body)%nat.
Proof. unfold frame. rewrite length_app. reflexivity. Qed.

Lemma n_range : 0 <= n < 2 ^ 32.
Proof.
  unfold MAX_MESSAGE_SIZE in Hsize. split; [unfold n, Buffer_length; lia|].
  change (2 ^ 32) with 4294967296. lia.
Qed.

Lemma frame_split (q rest : Buffer) :
  q ++ rest = frame -> (4 <= length q)%nat ->
  q = writeUInt32LE n ++ drop 4 q /\ drop 4 q ++ rest = body.
Proof.
  intros Hq Hlen.
  assert (H4 : take 4 q = writeUInt32LE n).
  { transitivity (take 4 (q ++ rest)).
    - now rewrite take_app_le by lia.
    - now rewrite Hq. }
  split.
  - rewrite <- H4. symmetry. apply take_drop.
  - transitivity (drop 4 (q ++ rest)).
    + now rewrite drop_app_le by lia.
    + now rewrite Hq.
Qed.

Lemma header_iteration (q rest : Buffer) :
  q ++ rest = frame -> (4 <= length q)%nat ->
  iteration rt {| buffer := q; expectedLength := None |} = readBody rt (drop 4 q) n.
Proof.
  intros Hq Hlen. destruct (frame_split q rest Hq Hlen) as [Hh _].
  unfold iteration. cbn [buffer expectedLength].
  replace (Buffer_length q <? 4) with false
    by (symmetry; apply Z.ltb_ge; unfold Buffer_length; lia).
  assert (Hread : readUInt32LE q = n).
  { rewrite Hh. apply readUInt32LE_writeUInt32LE, n_range. }
  rewrite Hread.
  replace (MAX_MESSAGE_SIZE <? n) with false by (symmetry; apply Z.ltb_ge; exact Hsize).
  reflexivity.
Qed.

(** From a turn that reads the body out of [b], a piece of the body. *)
Lemma loop_body (f : nat) (r : Reader) (b rest : Buffer) :
  iteration rt r = readBody rt b n -> b ++ rest = body ->
  loop rt (S (S f)) r =
    Some (if (length b <? length body)%nat
          then ({| buffer := b; expectedLength := Some n |}, [])
          else (createMessageReader, [onMessage v])).
Proof.
  intros Hit Hb. destruct (Nat.ltb_spec (length b) (length body)) as [Hlt|Hge].
  - apply loop_break. rewrite Hit. now apply readBody_partial with rest.
  - assert (rest = []).
    { apply (f_equal (@length byte)) in Hb. rewrite length_app in Hb.
      destruct rest; [reflexivity|]. cbn in Hb. lia. }
    subst rest. rewrite app_nil_r in Hb. subst b.
    apply (loop_continue_break f r createMessageReader createMessageReader
             [onMessage v] []).
    + rewrite Hit. apply readBody_full.
    + apply iteration_init_empty.
Qed.

Lemma progress_start (p : Buffer) :
  (length p < 4)%nat -> Spec.progress n p = {| buffer := p; expectedLength := None |}.
Proof.
  intros H. unfold Spec.progress.
  replace (Buffer_length p <? 4) with true; [reflexivity|].
  symmetry. apply Z.ltb_lt. unfold Buffer_length. lia.
Qed.

Lemma progress_body (p : Buffer) :
  (4 <= length p < 4 + length body)%nat ->
  Spec.progress n p = {| buffer := drop 4 p; expectedLength := Some n |}.
Proof.
  intros H. unfold Spec.progress.
  replace (Buffer_length p <? 4) with false
    by (symmetry; apply Z.ltb_ge; unfold Buffer_length; lia).
  replace (Buffer_length p <? 4 + n) with true; [reflexivity|].
  symmetry. apply Z.ltb_lt. unfold n, Buffer_length. lia.
Qed.

Lemma progress_done (p : Buffer) :
  (4 + length body <= length p)%nat -> Spec.progress n p = createMessageReader.
Proof.
  intros H. unfold Spec.progress.
  replace (Buffer_length p <? 4) with false
    by (symmetry; apply Z.ltb_ge; unfold Buffer_length; lia).
  replace (Buffer_length p <? 4 + n) with false; [reflexivity|].
  symmetry. apply Z.ltb_ge. unfold n, Buffer_length. lia.
Qed.

(** One chunk moves the reader along the frame, and reports the message
    exactly when the chunk completes the frame. *)
Lemma onData_progress (p c rest : Buffer) :
  p ++ c ++ rest = frame ->
  onData rt (Spec.progress n p) c =
    Some (Spec.progress n (p ++ c),
          if (length p <? length frame)%nat && (length frame <=? length (p ++ c))%nat
          then [onMessage v] else []).
Proof.
  intros Hf.
  assert (Hlen : (length p + length c + length rest = 4 + length body)%nat).
  { rewrite <- frame_length, <- Hf, !length_app. lia. }
  rewrite frame_length, length_app. rewrite app_assoc in Hf.
  destruct (Nat.ltb_spec (length p) 4) as [Hp4|Hp4].
  - (* the header is still incomplete *)
    rewrite (progress_start p Hp4). unfold onData. cbn [buffer expectedLength].
    destruct (Nat.ltb_spec (length (p ++ c)) 4) as [Hq4|Hq4].
    + rewrite (progress_start _ Hq4).
      rewrite (loop_break _ _ {| buffer := p ++ c; expectedLength := None |} []).
      * rewrite length_app in Hq4.
        replace (4 + length body <=? length p + length c)%nat with false
          by (symmetry; apply Nat.leb_gt; lia).
        now rewrite andb_false_r.
      * unfold iteration. cbn [buffer expectedLength].
        replace (Buffer_length (p ++ c) <? 4) with true; [reflexivity|].
        symmetry. apply Z.ltb_lt. unfold Buffer_length. lia.
    + destruct (frame_split _ _ Hf Hq4) as [_ Hb].
      rewrite (loop_body _ _ (drop 4 (p ++ c)) rest (header_iteration _ _ Hf Hq4) Hb).
      rewrite length_drop, length_app in *.
      replace (length p <? 4 + length body)%nat with true
        by (symmetry; apply Nat.ltb_lt; lia).
      destruct (Nat.ltb_spec (length p + length c - 4) (length body)) as [Hlt|Hge].
      * rewrite progress_body by (rewrite length_app; lia).
        replace (4 + length body <=? length p + length c)%nat with false
          by (symmetry; apply Nat.leb_gt; lia).
        reflexivity.
      * rewrite progress_done by (rewrite length_app; lia).
        replace (4 + length body <=? length p + length c)%nat with true
          by (symmetry; apply Nat.leb_le; lia).
        reflexivity.
  - destruct (Nat.ltb_spec (length p) (4 + length body)) as [Hpb|Hpb].
    + (* inside the body *)
      rewrite (progress_body p) by lia. unfold onData. cbn [buffer expectedLength].
      assert (Hq4 : (4 <= length (p ++ c))%nat) by (rewrite length_app; lia).
      destruct (frame_split _ _ Hf Hq4) as [_ Hb].
      rewrite drop_app_le in Hb by lia.
      rewrite (loop_body _ {| buffer := drop 4 p ++ c; expectedLength := Some n |}
                 (drop 4 p ++ c) rest eq_refl Hb).
      rewrite length_app, length_drop.
      destruct (Nat.ltb_spec (length p - 4 + length c) (length body)) as [Hlt|Hge].
      * rewrite progress_body by (rewrite length_app; lia).
        rewrite drop_app_le by lia.
        replace (4 + length body <=? length p + length c)%nat with false
          by (symmetry; apply Nat.leb_gt; lia).
        now rewrite andb_false_r.
      * rewrite progress_done by (rewrite length_app; lia).
        replace (4 + length body <=? length p + length c)%nat with true
          by (symmetry; apply Nat.leb_le; lia).
        reflexivity.
    + (* the frame was complete already *)
      assert (c = []) by (destruct c; [reflexivity|cbn in Hlen; lia]).
      subst c. rewrite app_nil_r. rewrite (progress_done p Hpb).
      reflexivity.
Qed.

Lemma feed_progress (chunks : list Buffer) (p rest : Buffer) :
  p ++ concat chunks ++ rest = frame ->
  feed rt (Spec.progress n p) chunks =
    Some (Spec.progress n (p ++ concat chunks),
          if (length p <? length frame)%nat
             && (length frame <=? length (p ++ concat chunks))%nat
          then [onMessage v] else []).
Proof.
  revert p. induction chunks as [|c chunks IH]; intros p Hf.
  - cbn [concat feed]. rewrite app_nil_r.
    replace ((length p <? length frame)%nat && (length frame <=? length p)%nat)
      with false; [reflexivity|].
    symmetry. destruct (Nat.ltb_spec (length p) (length frame)); [|reflexivity].
    apply Nat.leb_gt. assumption.
  - cbn [concat feed] in *. rewrite <- app_assoc in Hf.
    rewrite (onData_progress p c (concat chunks ++ rest) Hf).
    rewrite app_assoc in Hf. rewrite (IH (p ++ c) Hf).
    rewrite <- !app_assoc. f_equal. f_equal.
    assert (Hlen : (length (p ++ c ++ concat chunks) <= length frame)%nat).
    { rewrite <- Hf, <- !app_assoc, !length_app. lia. }
    rewrite !length_app in *.
    destruct (Nat.ltb_spec (length p) (length frame));
      destruct (Nat.leb_spec (length frame) (length p + length c));
      destruct (Nat.ltb_spec (length p + length c) (length frame));
      destruct (Nat.leb_spec (length frame) (length p + (length c + length (concat chunks))));
      cbn; try reflexivity; lia.
Qed.

End OneFrame.

(** C6 (round-trip framing).  For every JSON value [v] whose UTF-8
    serialization is at most 1 048 576 bytes (and that [JSON.parse] reads
    back from its serialization), [encodeMessage] returns a frame, and
    feeding the bytes of that frame to the reader of [createMessageReader]
    under any partition into successive chunks makes the reader call
    [onMessage] exactly once, with [v], report nothing else, and return to
    its initial state. *)
Theorem C6_framing_round_trip (v : json) :
  Buffer_length (utf8_encode rt (JSON_stringify rt v)) <= 1048576 ->
  JSON_parse rt (utf8_decode rt (utf8_encode rt (JSON_stringify rt v))) = Some v ->
  exists frame : Buffer,
    encodeMessage rt v = Ok frame /\
    forall chunks : list Buffer,
      concat chunks = frame ->
      feed rt createMessageReader chunks = Some (createMessageReader, [onMessage v]).
Proof.
  intros Hsize Hparse.
  set (body := utf8_encode rt (JSON_stringify rt v)) in *.
  exists (writeUInt32LE (Buffer_length body) ++ body). split.
  - unfold encodeMessage. fold body.
    replace (MAX_MESSAGE_SIZE <? Buffer_length body) with false; [reflexivity|].
    symmetry. apply Z.ltb_ge. exact Hsize.
  - intros chunks Hc. unfold body in *. clear body.
    pose proof (feed_progress v Hsize Hparse chunks [] []) as H.
    cbn [app] in H. rewrite app_nil_r in H.
    specialize (H Hc). rewrite Hc in H.
    rewrite (progress_start v []) in H by (cbn; lia).
    rewrite (progress_done v) in H by (rewrite length_app; cbn; lia).
    change {| buffer := []; expectedLength := None |} with createMessageReader in H.
    rewrite H. rewrite Nat.leb_refl. rewrite length_app. reflexivity.
Qed.

End TransportFacts.

Lemma C6_framing_round_trip_witness :
  exists frame : Transport.Buffer,
    Transport.encodeMessage Spec.demoRuntime (JBool true) = Ok frame /\
    forall chunks : list Transport.Buffer,
      concat chunks = frame ->
      Transport.feed Spec.demoRuntime Transport.createMessageReader chunks
      = Some (Transport.createMessageReader, [Transport.onMessage (JBool true)]).
Proof.
  apply (C6_framing_round_trip Spec.demoRuntime (JBool true)).
  - vm_compute. discriminate.
  - reflexivity.
Defined.

(** The frame of [true], delivered in three pieces that cut the header and
    the body. *)
Example framing_three_chunks :
  Transport.feed Spec.demoRuntime Transport.createMessageReader
    [ [x04; x00]; [x00; x00; x74]; [x72; x75; x65] ]
  = Some (Transport.createMessageReader, [Transport.onMessage (JBool true)]).
Proof. reflexivity. Qed.

(** A declared length above 1 MiB is reported and the buffer discarded. *)
Example framing_too_large :
  Transport.feed Spec.demoRuntime Transport.createMessageReader
    [ [x01; x00; x10; x00; x74] ]
  = Some (Transport.createMessageReader,
          [Transport.onError (Transport.MessageTooLarge 1048577)]).
Proof. reflexivity. Qed.

(** * Properties of the bridge *)

Section BridgeFacts.

Import Bridge.
Variable rt : Runtime.
Variable socketPath : string.
Variable socket_write : string -> WriteOutcome.

(** C3, as amended.  When the socket is not usable ([null] or destroyed)
    and the buffer already holds 1000 records, a further record from the
    host is the one that is dropped: the buffer is left as it was, the
    oldest record included, and the drop is logged on stderr. *)
Theorem C3_full_buffer_drops_new_record (st : State) (message : json) :
  usable (socket st) = false ->
  Z.of_nat (length (pendingMessages st)) = 1000 ->
  onHostMessage rt st message
  = (st, [StderrWrite "[viyv-browser:native-host] Message buffer full, dropping message"]).
Proof.
  intros Hs Hfull. unfold onHostMessage. rewrite Hs, Hfull. reflexivity.
Qed.

(** Below the bound the record is appended. *)
Lemma onHostMessage_buffers (st : State) (message : json) :
  usable (socket st) = false ->
  Z.of_nat (length (pendingMessages st)) < 1000 ->
  onHostMessage rt st message
  = (mkState (socket st) (reconnecting st) (retryCount st)
             (pendingMessages st ++ [message]) (stdin st), []).
Proof.
  intros Hs Hlt. unfold onHostMessage. rewrite Hs.
  replace (Z.of_nat (length (pendingMessages st)) <? MAX_BUFFER_SIZE) with true;
    [reflexivity|].
  symmetry. apply Z.ltb_lt. exact Hlt.
Qed.

Lemma onHostMessage_retryCount (st : State) (message : json) :
  retryCount (fst (onHostMessage rt st message)) = retryCount st.
Proof.
  unfold onHostMessage.
  destruct (usable (socket st)).
  - destruct (LIMITS_CHUNK_SIZE <? _); [|reflexivity].
    destruct (Compression.compressPayload rt _) as [c []]; reflexivity.
  - destruct (_ <? MAX_BUFFER_SIZE); reflexivity.
Qed.

Lemma readerCallbacks_retryCount (cbs : list Transport.Callback) (acc : State * list Effect) :
  retryCount (fst (fold_left (readerCallback rt) cbs acc)) = retryCount (fst acc).
Proof.
  revert acc. induction cbs as [|cb cbs IH]; intros [st out]; [reflexivity|].
  cbn [fold_left]. rewrite IH. unfold readerCallback.
  destruct cb as [m|[]|]; try reflexivity.
  pose proof (onHostMessage_retryCount st m) as H.
  destruct (onHostMessage rt st m). exact H.
Qed.

Lemma flushBuffer_retryCount (st : State) :
  retryCount (fst (flushBuffer rt socket_write st)) = retryCount st.
Proof.
  unfold flushBuffer. destruct (socket st) as [sock|]; [|reflexivity].
  destruct (destroyed sock); [reflexivity|].
  destruct (flushLoop rt socket_write (pendingMessages st)) as [[l e] d]. reflexivity.
Qed.

Lemma drainAll_retryCount (k : nat) (acc : State * list Effect) :
  retryCount (fst (drainAll rt socket_write k acc)) = retryCount (fst acc).
Proof.
  revert acc. induction k as [|k IH]; intros [st out]; [reflexivity|].
  cbn [drainAll]. pose proof (flushBuffer_retryCount st) as H.
  destruct (flushBuffer rt socket_write st) as [st' out']. rewrite IH. exact H.
Qed.

(** C4, as amended.  The retry counter is reset to zero by the ['connect']
    event of the socket, whatever its value was; the receipt of data from
    the server leaves it as it is, and so does every other event but
    ['close'], which increments it when it schedules a reconnection. *)
Theorem C4_retry_reset_on_connect (st : State) (e : Event) :
  retryCount (fst (step rt socketPath socket_write st e)) =
    match e with
    | SocketConnect => 0
    | SocketClose => if reconnecting st then retryCount st else retryCount st + 1
    | _ => retryCount st
    end.
Proof.
  destruct e; cbn [step]; try reflexivity.
  - unfold onStdinData. destruct (Transport.onData rt (stdin st) chunk) as [[r cbs]|];
      [|reflexivity].
    now rewrite readerCallbacks_retryCount.
  - unfold onSocketConnect.
    pose proof (flushBuffer_retryCount
                  (mkState (socket st) (reconnecting st) 0 (pendingMessages st) (stdin st))) as H.
    destruct (flushBuffer rt socket_write _) as [st' out]. exact H.
  - unfold onSocketData. destruct (socket st); reflexivity.
  - destruct (socket st); reflexivity.
  - unfold onSocketClose. destruct (reconnecting st); reflexivity.
  - unfold onSocketDrain. destruct (socket st) as [sock|]; [|reflexivity].
    now rewrite drainAll_retryCount.
Qed.

End BridgeFacts.

Lemma C3_full_buffer_drops_new_record_witness :
  Bridge.onHostMessage Spec.demoRuntime Spec.disconnectedFull (JBool true)
  = (Spec.disconnectedFull,
     [Bridge.StderrWrite "[viyv-browser:native-host] Message buffer full, dropping message"]).
Proof.
  apply (C3_full_buffer_drops_new_record Spec.demoRuntime Spec.disconnectedFull (JBool true)).
  - reflexivity.
  - reflexivity.
Defined.

(** C3 as stated fails: with the socket gone and 1000 records buffered, the
    buffer after a further record is not the one in which the oldest record
    gave way to the new one; the new record is absent from it and the
    oldest is still at its head. *)
Lemma C3_counterexample :
  let st := Spec.disconnectedFull in
  let st' := fst (Bridge.onHostMessage Spec.demoRuntime st (JBool true)) in
  Bridge.usable (Bridge.socket st) = false /\
  length (Bridge.pendingMessages st) = 1000%nat /\
  Bridge.pendingMessages st' <> Spec.oldestDropped (Bridge.pendingMessages st) (JBool true) /\
  ~ In (JBool true) (Bridge.pendingMessages st') /\
  head (Bridge.pendingMessages st') = Some (JNum 0).
Proof.
  cbv zeta. repeat split.
  - vm_compute. intros H. discriminate H.
  - vm_compute. intros H.
    repeat (destruct H as [H|H]; [discriminate H|]). exact H.
Qed.

(** C4 as stated fails: the ['connect'] event alone resets the counter,
    and the first record received after it finds the counter at zero
    already. *)
Lemma C4_counterexample :
  Bridge.retryCount Spec.retrying = 3 /\
  Bridge.retryCount
    (fst (Bridge.step Spec.demoRuntime "/tmp/viyv-browser.sock" Spec.alwaysFlushed Spec.retrying Bridge.SocketConnect))
  <> Bridge.retryCount Spec.retrying /\
  Bridge.retryCount
    (fst (Bridge.step Spec.demoRuntime "/tmp/viyv-browser.sock" Spec.alwaysFlushed Spec.retrying
            (Bridge.SocketData (list_byte_of_string ("null" +:+ LF)))))
  = 3.
Proof.
  repeat split. vm_compute. intros H. discriminate H.
Qed.

(** * Properties of chunk reassembly *)

Section CompressionFacts.

Import Compression.
Variable rt : Runtime.

Lemma insertByIndex_perm (c : ChunkedPayload) (l : list ChunkedPayload) :
  Permutation (insertByIndex c l) (c :: l).
Proof.
  induction l as [|c' l IH]; cbn [insertByIndex]; [reflexivity|].
  destruct (chunkIndex c <=? chunkIndex c'); [reflexivity|].
  rewrite IH. apply perm_swap.
Qed.

Lemma sortByIndex_perm (l : list ChunkedPayload) : Permutation (sortByIndex l) l.
Proof.
  induction l as [|c l IH]; [reflexivity|].
  unfold sortByIndex in *. cbn [foldr]. rewrite insertByIndex_perm. now constructor.
Qed.

Lemma insertByIndex_sorted (c : ChunkedPayload) (l : list ChunkedPayload) :
  StronglySorted Spec.ascending l -> StronglySorted Spec.ascending (insertByIndex c l).
Proof.
  induction 1 as [|c' l Hs IH Hall]; cbn [insertByIndex].
  - repeat constructor.
  - destruct (Z.leb_spec (chunkIndex c) (chunkIndex c')) as [Hle|Hgt].
    + constructor; [now constructor|]. constructor; [exact Hle|].
      eapply Forall_impl; [exact Hall|]. unfold Spec.ascending. intros; lia.
    + constructor; [exact IH|].
      apply List.Forall_forall. intros x Hx.
      apply (Permutation_in _ (insertByIndex_perm c l)) in Hx.
      destruct Hx as [<-|Hx]; [unfold Spec.ascending; lia|].
      rewrite List.Forall_forall in Hall. now apply Hall.
Qed.

Lemma sortByIndex_sorted (l : list ChunkedPayload) : StronglySorted Spec.ascending (sortByIndex l).
Proof.
  induction l as [|c l IH]; [constructor|].
  unfold sortByIndex in *. cbn [foldr]. now apply insertByIndex_sorted.
Qed.

Lemma sorted_indices (l : list ChunkedPayload) :
  StronglySorted Spec.ascending l -> StronglySorted Z.le (map chunkIndex l).
Proof.
  induction 1 as [|c l Hs IH Hall]; cbn [map]; constructor; [exact IH|].
  apply List.Forall_forall. intros x Hx. apply in_map_iff in Hx as [c' [<- Hc']].
  rewrite List.Forall_forall in Hall. now apply Hall.
Qed.

(** Pairwise distinct integers of [0 .. n-1] are at most [n]. *)
Lemma indices_bound (l : list Z) (n : Z) :
  List.NoDup l -> (forall x, In x l -> 0 <= x < n) -> (length l <= Z.to_nat n)%nat.
Proof.
  intros Hnd Hr. rewrite <- (length_seqZ 0 n). apply submseteq_length.
  apply NoDup_submseteq; [now apply NoDup_ListNoDup|].
  intros x Hx. apply elem_of_seqZ. apply list_elem_of_In in Hx. specialize (Hr x Hx). lia.
Qed.

Lemma indices_cover (l : list Z) (n : Z) :
  (forall i, 0 <= i < n -> In i l) -> (Z.to_nat n <= length l)%nat.
Proof.
  intros Hc. rewrite <- (length_seqZ 0 n). apply submseteq_length.
  apply NoDup_submseteq; [apply NoDup_seqZ|].
  intros x Hx. apply elem_of_seqZ in Hx. apply list_elem_of_In. apply Hc. lia.
Qed.

(** A sorted list of [k] distinct integers of [a .. a+k-1] is that range. *)
Lemma sorted_range (l : list Z) :
  forall a : Z,
    StronglySorted Z.le l -> List.NoDup l ->
    (forall x, In x l -> a <= x < a + Z.of_nat (length l)) ->
    l = seqZ a (Z.of_nat (length l)).
Proof.
  induction l as [|x l IH]; intros a Hs Hnd Hr; [reflexivity|].
  apply StronglySorted_inv in Hs as [Hs Hall].
  apply List.NoDup_cons_iff in Hnd as [Hx Hnd].
  rewrite List.Forall_forall in Hall.
  assert (Hl : l = seqZ (Z.succ a) (Z.of_nat (length l))).
  { apply IH; [exact Hs|exact Hnd|]. intros y Hy.
    pose proof (Hall y Hy). pose proof (Hr y (or_intror Hy)). pose proof (Hr x (or_introl eq_refl)).
    assert (x <> y) by (intros ->; contradiction).
    cbn [length] in *. lia. }
  assert (x = a).
  { pose proof (Hr x (or_introl eq_refl)) as Hxa. cbn [length] in Hxa.
    destruct l as [|y l'].
    - cbn [length] in Hxa. lia.
    - rewrite seqZ_cons in Hl by (cbn [length]; lia).
      injection Hl as Hy _. pose proof (Hall y (or_introl eq_refl)).
      assert (x <> y) by (intros ->; apply Hx; now left). lia. }
  subst x. cbn [length]. rewrite seqZ_cons by lia.
  f_equal. replace (Z.pred (Z.of_nat (S (length l)))) with (Z.of_nat (length l)) by lia.
  exact Hl.
Qed.

(** What [reassembleChunks] computes on a non-empty list: the count check
    against the announcement of the chunk of lowest index, then the
    concatenation in ascending order. *)
Lemma reassembleChunks_eq (chunks : list ChunkedPayload) (first : ChunkedPayload)
    (others : list ChunkedPayload) :
  chunks <> [] -> sortByIndex chunks = first :: others ->
  reassembleChunks rt chunks =
    if negb (Z.of_nat (length chunks) =? totalChunks first)
    then Throw ("Incomplete chunks: got " +:+ pretty (Z.of_nat (length chunks))
                +:+ ", expected " +:+ pretty (totalChunks first))
    else decompressPayload rt (join (map data (sortByIndex chunks))) (compressed first).
Proof.
  intros Hne Hsorted. unfold reassembleChunks.
  destruct chunks as [|c chunks]; [contradiction|].
  rewrite <- (Permutation_length (sortByIndex_perm (c :: chunks))).
  rewrite Hsorted. reflexivity.
Qed.

(** C9, as amended.  For every non-empty list of chunks that share
    [requestId], [totalChunks], [totalSize] and [compressed], and whose
    indices are pairwise distinct and within [0 .. totalChunks - 1]:
    reassembly throws whenever an index of that range is missing, and
    otherwise returns what [decompressPayload] makes (the gunzip when
    [compressed] is true, the text itself otherwise) of the concatenation
    of the data of the chunks taken in ascending [chunkIndex] order
    [0, 1, .., totalChunks - 1]. *)
Theorem C9_reassembly (chunks : list ChunkedPayload) (one : ChunkedPayload) :
  In one chunks -> Spec.sameSet chunks -> Spec.wellIndexed chunks ->
  ((exists i, 0 <= i < totalChunks one /\ Spec.missing i chunks) ->
     exists message, reassembleChunks rt chunks = Throw message)
  /\
  ((forall i, 0 <= i < totalChunks one -> exists c, In c chunks /\ chunkIndex c = i) ->
     exists sorted,
       Permutation sorted chunks /\
       map chunkIndex sorted = seqZ 0 (totalChunks one) /\
       reassembleChunks rt chunks
       = decompressPayload rt (join (map data sorted)) (compressed one)).
Proof.
  intros Hone Hsame [Hnd Hrange].
  assert (Hne : chunks <> []) by (intros ->; contradiction).
  pose proof (sortByIndex_perm chunks) as Hperm.
  destruct (sortByIndex chunks) as [|first others] eqn:Hsorted.
  { apply Permutation_nil in Hperm. contradiction. }
  assert (Hfirst : In first chunks).
  { apply (Permutation_in _ Hperm). now left. }
  destruct (Hsame first one Hfirst Hone) as (_ & Htotal & _ & Hcompressed).
  assert (Hr : forall x, In x (map chunkIndex chunks) -> 0 <= x < totalChunks one).
  { intros x Hx. apply in_map_iff in Hx as [c [<- Hc]].
    destruct (Hsame c one Hc Hone) as (_ & <- & _). now apply Hrange. }
  rewrite (reassembleChunks_eq chunks first others Hne Hsorted), Htotal, Hcompressed, Hsorted.
  split.
  - intros (i & Hi & Hmiss).
    assert (Hlen : (length (i :: map chunkIndex chunks) <= Z.to_nat (totalChunks one))%nat).
    { apply indices_bound.
      - constructor; [|exact Hnd]. intros Hin. apply in_map_iff in Hin as [c [Hc Hin]].
        now apply (Hmiss c Hin).
      - intros x [<-|Hx]; [exact Hi|now apply Hr]. }
    cbn [length] in Hlen. rewrite length_map in Hlen.
    replace (Z.of_nat (length chunks) =? totalChunks one) with false
      by (symmetry; apply Z.eqb_neq; lia).
    cbn [negb]. eauto.
  - intros Hall.
    assert (Hlen : length chunks = Z.to_nat (totalChunks one)).
    { apply Nat.le_antisymm.
      - rewrite <- (length_map chunkIndex). now apply indices_bound.
      - rewrite <- (length_map chunkIndex). apply indices_cover.
        intros i Hi. destruct (Hall i Hi) as (c & Hc & <-). now apply in_map. }
    assert (Hpos : 0 <= totalChunks one).
    { specialize (Hrange one Hone). lia. }
    replace (Z.of_nat (length chunks) =? totalChunks one) with true
      by (symmetry; apply Z.eqb_eq; lia).
    cbn [negb]. exists (first :: others). split; [exact Hperm|]. split; [|reflexivity].
    pose proof (sortByIndex_sorted chunks) as Hs. rewrite Hsorted in Hs.
    pose proof (Permutation_map chunkIndex Hperm) as Hpm.
    replace (totalChunks one) with (Z.of_nat (length (map chunkIndex (first :: others))))
      by (rewrite length_map, (Permutation_length Hperm); lia).
    apply sorted_range.
    + now apply sorted_indices.
    + apply (Permutation_NoDup (Permutation_sym Hpm)). exact Hnd.
    + intros x Hx. apply (Permutation_in _ Hpm) in Hx.
      rewrite length_map, (Permutation_length Hperm). specialize (Hr x Hx). lia.
Qed.

End CompressionFacts.

Lemma C9_reassembly_witness :
  ((exists i, 0 <= i < 2 /\ Spec.missing i Spec.twoChunks) ->
     exists message, Compression.reassembleChunks Spec.demoRuntime Spec.twoChunks = Throw message)
  /\
  ((forall i, 0 <= i < 2 ->
      exists c, In c Spec.twoChunks /\ Compression.chunkIndex c = i) ->
     exists sorted,
       Permutation sorted Spec.twoChunks /\
       map Compression.chunkIndex sorted = seqZ 0 2 /\
       Compression.reassembleChunks Spec.demoRuntime Spec.twoChunks
       = Compression.decompressPayload Spec.demoRuntime
           (Compression.join (map Compression.data sorted)) false).
Proof.
  apply (C9_reassembly Spec.demoRuntime Spec.twoChunks
           (Compression.mkChunk "r1" "default" 0 2 2 false "a")).
  - right. left. reflexivity.
  - intros a b [<-|[<-|[]]] [<-|[<-|[]]]; repeat split.
  - split.
    + repeat constructor; cbn; intuition discriminate.
    + intros c [<-|[<-|[]]]; cbn; lia.
Defined.

Example reassembly_two_chunks :
  Compression.reassembleChunks Spec.demoRuntime Spec.twoChunks = Ok "ab"%string.
Proof. reflexivity. Qed.

(** C9 as stated fails: the two chunks share the fields of their set and
    announce two chunks, index 1 of the range 0 .. 1 is missing from them,
    and reassembly returns the concatenation instead of throwing. *)
Lemma C9_counterexample :
  Spec.strayChunks <> [] /\
  Spec.sameSet Spec.strayChunks /\
  (0 <= 1 < 2 /\ Spec.missing 1 Spec.strayChunks) /\
  Compression.reassembleChunks Spec.demoRuntime Spec.strayChunks = Ok "ac"%string.
Proof.
  split; [discriminate|]. split.
  - intros a b [<-|[<-|[]]] [<-|[<-|[]]]; repeat split.
  - split; [|reflexivity]. split; [lia|].
    intros c [<-|[<-|[]]]; cbn; discriminate.
Qed.

(** * Properties of the tab locks *)

Section TabLockFacts.

Import TabManager.

Lemma acquire_blocked (st : State) (now : Z) (agent : string) (tab ttl_ : Z)
    (existing : TabLockInfo) :
  tabLocks st !! tab = Some existing ->
  agentId existing <> agent ->
  now - acquiredAt existing <= ttl existing ->
  acquireTabLock st now agent tab ttl_ = (false, st).
Proof.
  intros Hl Hne Hfresh. unfold acquireTabLock. rewrite Hl.
  replace (ttl existing <? now - acquiredAt existing) with false
    by (symmetry; apply Z.ltb_ge; lia).
  apply String.eqb_neq in Hne. now rewrite Hne.
Qed.

Lemma acquire_same_agent (st : State) (now : Z) (agent : string) (tab ttl_ : Z)
    (existing : TabLockInfo) :
  tabLocks st !! tab = Some existing ->
  agentId existing = agent ->
  exists lock,
    acquireTabLock st now agent tab ttl_
    = (true, set_tabLocks st (<[tab := lock]> (tabLocks st))) /\
    agentId lock = agent /\ acquiredAt lock = now.
Proof.
  intros Hl Heq. unfold acquireTabLock. rewrite Hl.
  destruct (ttl existing <? now - acquiredAt existing).
  - exists (mkLock tab agent now ttl_). rewrite insert_delete_eq. auto.
  - rewrite Heq, String.eqb_refl. cbn [negb].
    exists (mkLock (tabId existing) agent now (ttl existing)). auto.
Qed.

Lemma acquire_expired (st : State) (now : Z) (agent : string) (tab ttl_ : Z)
    (existing : TabLockInfo) :
  tabLocks st !! tab = Some existing ->
  ttl existing < now - acquiredAt existing ->
  acquireTabLock st now agent tab ttl_
  = (true, set_tabLocks st (<[tab := mkLock tab agent now ttl_]> (tabLocks st))).
Proof.
  intros Hl Hold. unfold acquireTabLock. rewrite Hl.
  replace (ttl existing <? now - acquiredAt existing) with true
    by (symmetry; apply Z.ltb_lt; lia).
  now rewrite insert_delete_eq.
Qed.

Lemma acquire_free (st : State) (now : Z) (agent : string) (tab ttl_ : Z) :
  tabLocks st !! tab = None ->
  acquireTabLock st now agent tab ttl_
  = (true, set_tabLocks st (<[tab := mkLock tab agent now ttl_]> (tabLocks st))).
Proof. intros Hl. unfold acquireTabLock. now rewrite Hl. Qed.

Lemma acquire_refused_fresh (st st' : State) (now : Z) (agent : string) (tab ttl_ : Z) :
  acquireTabLock st now agent tab ttl_ = (false, st') ->
  st' = st /\
  exists existing,
    tabLocks st !! tab = Some existing /\ agentId existing <> agent /\
    now - acquiredAt existing <= ttl existing.
Proof.
  unfold acquireTabLock. destruct (tabLocks st !! tab) as [existing|]; [|discriminate].
  destruct (Z.ltb_spec (ttl existing) (now - acquiredAt existing)); [discriminate|].
  destruct (String.eqb_spec (agentId existing) agent) as [He|Hne]; [discriminate|].
  intros [= <-]. eauto.
Qed.

Lemma acquire_groups (st : State) (now : Z) (agent : string) (tab ttl_ : Z) :
  agentGroups (snd (acquireTabLock st now agent tab ttl_)) = agentGroups st.
Proof.
  unfold acquireTabLock. destruct (tabLocks st !! tab) as [existing|]; [|reflexivity].
  destruct (_ <? _); [reflexivity|]. destruct (negb _); reflexivity.
Qed.

(** An acquisition touches the lock of its tab only. *)
Lemma acquire_frame (st : State) (now : Z) (agent : string) (tab ttl_ : Z) :
  agentGroups (snd (acquireTabLock st now agent tab ttl_)) = agentGroups st /\
  tabToAgent (snd (acquireTabLock st now agent tab ttl_)) = tabToAgent st /\
  forall t, t <> tab ->
    tabLocks (snd (acquireTabLock st now agent tab ttl_)) !! t = tabLocks st !! t.
Proof.
  unfold acquireTabLock. destruct (tabLocks st !! tab) as [existing|].
  - destruct (_ <? _); [|destruct (negb _)]; cbn [snd set_tabLocks agentGroups tabToAgent
                                                   tabLocks];
      repeat split; intros t Ht;
      rewrite ?lookup_insert_ne, ?lookup_delete_ne by congruence; reflexivity.
  - cbn [snd set_tabLocks agentGroups tabToAgent tabLocks].
    repeat split; intros t Ht. now rewrite lookup_insert_ne by congruence.
Qed.

End TabLockFacts.

(** * Properties of the tool dispatcher *)

(** ** The reference pattern *)

Section RefPatternFacts.

Import Worker.

Lemma stripPrefix_Some (p s r : string) :
  stripPrefix p s = Some r -> s = p +:+ r.
Proof.
  unfold stripPrefix. revert s.
  induction p as [|c p IH]; intros s; cbn.
  - intros H. assert (Some s = Some r) as [= <-] by (destruct s; exact H). reflexivity.
  - destruct s as [|c' s]; [discriminate|].
    change (String.prefix (String c p) (String c' s))
    with (if ascii_dec c c' then String.prefix p s else false).
  destruct (ascii_dec c c') as [<-|]; [|discriminate].
    intros H. change (String c s = String c (p +:+ r)). f_equal. now apply IH.
Qed.

Lemma stripPrefix_app (p r : string) : stripPrefix p (p +:+ r) = Some r.
Proof.
  unfold stripPrefix. induction p as [|c p IH].
  - now destruct r.
  - change (String c p +:+ r) with (String c (p +:+ r)).
    change (String.prefix (String c p) (String c (p +:+ r)))
      with (if ascii_dec c c then String.prefix p (p +:+ r) else false).
    destruct (ascii_dec c c) as [_|Hc]; [|now destruct Hc].
    exact IH.
Qed.

(** [REF_PATTERN.test] accepts exactly the language of the expression. *)
Lemma REF_PATTERN_test_spec (s : string) :
  REF_PATTERN_test s = true <-> Spec.matchesRefPattern s.
Proof.
  unfold REF_PATTERN_test, Spec.matchesRefPattern. split.
  - intros H.
    assert (Hrest : forall prefix rest,
               In prefix ["find_"; "page_"; EmptyString]%string ->
               s = prefix +:+ rest ->
               match stripPrefix "ref_" rest with
               | Some digits => negb (String.eqb digits EmptyString) && allDigits digits
               | None => false
               end = true ->
               exists prefix digits : string,
                 In prefix ["find_"; "page_"; EmptyString]%string /\
                 digits <> EmptyString /\ allDigits digits = true /\
                 s = prefix +:+ "ref_" +:+ digits).
    { intros prefix rest Hin Hs Ht.
      destruct (stripPrefix "ref_" rest) as [digits|] eqn:Hd; [|discriminate].
      apply stripPrefix_Some in Hd. apply andb_true_iff in Ht as [Hne Hall].
      exists prefix, digits. repeat split; try assumption.
      - intros ->. discriminate.
      - now rewrite Hs, Hd. }
    destruct (stripPrefix "find_" s) as [r|] eqn:H1.
    + apply (Hrest "find_"%string r); [cbn; auto|now apply stripPrefix_Some|exact H].
    + destruct (stripPrefix "page_" s) as [r|] eqn:H2.
      * apply (Hrest "page_"%string r); [cbn; auto|now apply stripPrefix_Some|exact H].
      * apply (Hrest EmptyString s); [cbn; auto|reflexivity|exact H].
  - intros (prefix & digits & Hin & Hne & Hall & ->).
    assert (Hd : negb (String.eqb digits EmptyString) && allDigits digits = true).
    { rewrite Hall, andb_true_r. destruct digits; [congruence|reflexivity]. }
    assert (H1 : forall r, stripPrefix "find_" ("page_" +:+ r) = None) by reflexivity.
    assert (H2 : forall r, stripPrefix "find_" ("ref_" +:+ r) = None) by reflexivity.
    assert (H3 : forall r, stripPrefix "page_" ("ref_" +:+ r) = None) by reflexivity.
    cbn in Hin. destruct Hin as [<- | [<- | [<- | []]]].
    + now rewrite !stripPrefix_app.
    + now rewrite H1, !stripPrefix_app.
    + change (EmptyString +:+ "ref_" +:+ digits) with ("ref_" +:+ digits).
      now rewrite H2, H3, stripPrefix_app.
Qed.

End RefPatternFacts.

Section WorkerFacts.

Import Worker.
Variable rt : Runtime.
Variable browser : list BrowserCall -> BrowserCall -> Result (option json).
Variable otherHandler : string -> string -> Input -> Handler (option json).

(** C8.  For every tab [T] on which a lock exists.  While the lock is held
    by another agent and is not older than its ttl (in particular when it
    was acquired less than its ttl ago), [acquireTabLock] by agent [B]
    returns [false] and leaves the table as it is, and a call by [B] of a
    CDP-dependent tool on [T] returns [TAB_LOCKED] without touching the
    browser or the worker.  A re-acquire by the agent that holds the lock
    succeeds, and the lock then found in the table is of that agent with
    [acquiredAt] set to the current time, its ttl and tab id being
    unchanged if it had not expired.  When the lock is older than its ttl
    the acquisition succeeds, whoever asks, and the lock then found in
    the table is a new one of the caller, taken at the current time with
    the ttl asked for.  An acquisition changes nothing but the lock of
    its tab.  The ttl with which [handleToolCall] acquires is 60 s. *)
Theorem C8_tab_lock (st : TabManager.State) (now : Z) (B : string) (T ttl_ : Z)
    (existing : TabManager.TabLockInfo) :
  TabManager.tabLocks st !! T = Some existing ->
  let r := TabManager.acquireTabLock st now B T ttl_ in
  (TabManager.agentId existing <> B ->
   now - TabManager.acquiredAt existing <= TabManager.ttl existing ->
   r = (false, st) /\
   forall (tool : string) (input : Input) (w : World),
     In tool CDP_TOOLS -> assoc "tabId" input = Some (JNum T) -> tabs w = st ->
     handleToolCall rt browser otherHandler now B tool input w
     = (Failure "TAB_LOCKED" ("Tab " +:+ pretty T +:+ " is locked by another agent"), w))
  /\
  (TabManager.agentId existing = B ->
   fst r = true /\
   exists lock,
     TabManager.tabLocks (snd r) !! T = Some lock /\
     TabManager.agentId lock = B /\ TabManager.acquiredAt lock = now /\
     (now - TabManager.acquiredAt existing <= TabManager.ttl existing ->
      lock = TabManager.mkLock (TabManager.tabId existing) B now (TabManager.ttl existing)))
  /\
  (TabManager.ttl existing < now - TabManager.acquiredAt existing ->
   fst r = true /\
   TabManager.tabLocks (snd r) !! T = Some (TabManager.mkLock T B now ttl_))
  /\
  (TabManager.agentGroups (snd r) = TabManager.agentGroups st /\
   TabManager.tabToAgent (snd r) = TabManager.tabToAgent st /\
   forall t, t <> T -> TabManager.tabLocks (snd r) !! t = TabManager.tabLocks st !! t)
  /\
  TabManager.TAB_LOCK_TTL = 60 * 1000.
Proof.
  intros Hl r. split; [|split; [|split; [|split; [|reflexivity]]]].
  - intros Hne Hfresh. split; [now apply acquire_blocked with existing|].
    intros tool input w Htool Htab <-.
    unfold handleToolCall. cbn [checkPermission negb]. rewrite Htab. cbn [asNumber].
    assert (Hcdp : existsb (String.eqb tool) CDP_TOOLS = true).
    { apply existsb_exists. exists tool. split; [exact Htool|apply String.eqb_refl]. }
    rewrite Hcdp.
    replace (bool_decide (is_Some (Some T))) with true
      by (symmetry; apply bool_decide_eq_true; eauto).
    cbn [andb]. rewrite (acquire_blocked _ _ _ _ _ existing) by assumption.
    reflexivity.
  - intros Heq. unfold r, TabManager.acquireTabLock. rewrite Hl.
    destruct (Z.ltb_spec (TabManager.ttl existing) (now - TabManager.acquiredAt existing))
      as [Hold|Hfresh].
    + cbn [fst snd TabManager.set_tabLocks TabManager.tabLocks]. split; [reflexivity|].
      rewrite lookup_insert_eq. eexists. split; [reflexivity|].
      cbn [TabManager.agentId TabManager.acquiredAt]. repeat split. lia.
    + rewrite Heq, String.eqb_refl.
      cbn [negb fst snd TabManager.set_tabLocks TabManager.tabLocks]. split; [reflexivity|].
      rewrite lookup_insert_eq. eexists. split; [reflexivity|].
      cbn [TabManager.agentId TabManager.acquiredAt]. repeat split.
  - intros Hold. unfold r. rewrite (acquire_expired _ _ _ _ _ existing Hl Hold).
    cbn [fst snd TabManager.set_tabLocks TabManager.tabLocks]. split; [reflexivity|].
    apply lookup_insert_eq.
  - apply acquire_frame.
Qed.

Lemma inferErrorCode_range (message : string) :
  In (inferErrorCode message)
     [ "TAB_ACCESS_DENIED"; "TAB_NOT_FOUND"; "DEBUGGER_ATTACH_FAILED"; "CDP_ERROR";
       "TIMEOUT"; "UNKNOWN_TOOL"; "INTERNAL_ERROR" ]%string.
Proof.
  unfold inferErrorCode.
  repeat match goal with
         | |- context [if ?b then _ else _] => destruct b
         end; cbn; tauto.
Qed.

Lemma inferErrorCode_not_INVALID_PARAMS (message : string) :
  inferErrorCode message <> "INVALID_PARAMS"%string.
Proof.
  pose proof (inferErrorCode_range message) as H. intros E. rewrite E in H.
  cbn in H. intuition discriminate.
Qed.

Lemma includes_app_r (pre s needle : string) :
  includes s needle = true -> includes (pre +:+ s) needle = true.
Proof.
  intros H. induction pre as [|c pre IH]; [exact H|].
  change (includes (String c pre +:+ s) needle)
    with (String.prefix needle (String c (pre +:+ s)) || includes (pre +:+ s) needle).
  rewrite IH. apply orb_true_r.
Qed.

(** The message of a failed ownership check is classified as
    [TAB_ACCESS_DENIED], whatever the tab and the agent. *)
Lemma inferErrorCode_accessError (agentId : string) (tab : option Z) :
  inferErrorCode (Spec.accessError agentId tab) = "TAB_ACCESS_DENIED"%string.
Proof.
  unfold inferErrorCode, Spec.accessError.
  rewrite includes_app_r; [reflexivity|].
  apply includes_app_r. reflexivity.
Qed.

Lemma requireAccess_cases (agentId : string) (tab : option Z) (w : World) :
  requireAccess agentId tab w = (Ok tt, w) \/
  requireAccess agentId tab w = (Throw (Spec.accessError agentId tab), w).
Proof.
  unfold requireAccess, tabAccessCheck, Spec.accessError.
  destruct (negb _); auto.
Qed.

Lemma sanitizeRef_rejects (ref : option json) :
  REF_PATTERN_test (ToStringU ref) = false ->
  sanitizeRef ref = Throw (Spec.refError ref).
Proof. intros H. unfold sanitizeRef. now rewrite H. Qed.

Lemma requireAccess_by_group (agentId : string) (tab : option Z) (w : World) :
  requireAccess agentId tab w
  = if TabManager.isTabInAgentGroup (tabs w) agentId tab then (Ok tt, w)
    else (Throw (Spec.accessError agentId tab), w).
Proof.
  unfold requireAccess, tabAccessCheck, Spec.accessError.
  now destruct (TabManager.isTabInAgentGroup (tabs w) agentId tab).
Qed.

(** The handlers that read a reference throw before they call the
    browser when the reference does not match, and which check fails
    first is settled by the input and the group of the agent. *)
Lemma handler_rejects (agentId tool : string) (input : Input) (w : World) :
  Spec.rejectedRef tool input ->
  exists h message,
    (forall k, (if String.eqb tool "click" then handleClick browser agentId input
                else if String.eqb tool "scroll" then handleScroll rt browser agentId input
                else if String.eqb tool "read_page" then handleReadPage browser agentId input
                else if String.eqb tool "form_input" then handleFormInput browser agentId input
                else if String.eqb tool "upload_image" then handleUploadImage browser agentId input
                else k) = h) /\
    h w = (Throw message, w) /\
    (tool = "form_input"%string -> message = Spec.refError (assoc "ref" input)) /\
    (tool <> "form_input"%string -> ~ Spec.owned w agentId input ->
     message = Spec.accessError agentId (tabIdOf input)) /\
    (tool = "upload_image"%string -> Spec.owned w agentId input ->
     ~ Spec.fileNameIsText input ->
     message = "filename.endsWith is not a function"%string) /\
    (tool <> "form_input"%string -> Spec.owned w agentId input ->
     (tool = "upload_image"%string -> Spec.fileNameIsText input) ->
     message = Spec.refError (Spec.carriedRef tool input)).
Proof.
  unfold Spec.owned, Spec.fileNameIsText.
  intros [ [-> Hbad] | [ [ [-> | [-> | ->] ] [Htruthy Hbad] ] | [-> [Htruthy Hbad] ] ] ];
    cbn [String.eqb Ascii.eqb Bool.eqb Spec.carriedRef];
    pose proof (requireAccess_by_group agentId (tabIdOf input) w) as Hacc;
    destruct (TabManager.isTabInAgentGroup (tabs w) agentId (tabIdOf input)) eqn:Hgrp;
    destruct (nullish (assoc "filename" input) (JStr "image.png")) as [| | | f | |] eqn:Hfile;
    eexists; eexists; (split; [intros k; reflexivity|]);
    unfold handleFormInput, handleClick, handleScroll, handleUploadImage, handleReadPage,
           bind, lift;
    rewrite ?Hacc, ?Htruthy, ?Hfile, ?(sanitizeRef_rejects _ Hbad); cbn [negb andb];
    rewrite ?(sanitizeRef_rejects _ Hbad);
    (split; [reflexivity|]);
    repeat split; intros;
    try reflexivity; try discriminate; try congruence;
    try (exfalso; match goal with
                  | H : ~ (exists _, _) |- _ => apply H; eauto
                  | H : _ -> exists _, _ |- _ => destruct H as [? ?]; [reflexivity|discriminate]
                  end).
Qed.

Lemma dispatchTool_rejects (agentId tool : string) (input : Input) (w : World) :
  Spec.rejectedRef tool input ->
  exists message,
    dispatchTool rt browser otherHandler agentId tool input w = (Throw message, w) /\
    (forall v, assoc "tabId" input = Some v -> ~ Spec.tabIdPasses input ->
               message = "Invalid tabId: " +:+ ToString v) /\
    (Spec.tabIdPasses input -> tool = "form_input"%string ->
     message = Spec.refError (assoc "ref" input)) /\
    (Spec.tabIdPasses input -> tool <> "form_input"%string -> ~ Spec.owned w agentId input ->
     message = Spec.accessError agentId (tabIdOf input)) /\
    (Spec.tabIdPasses input -> tool = "upload_image"%string -> Spec.owned w agentId input ->
     ~ Spec.fileNameIsText input ->
     message = "filename.endsWith is not a function"%string) /\
    (Spec.tabIdPasses input -> tool <> "form_input"%string -> Spec.owned w agentId input ->
     (tool = "upload_image"%string -> Spec.fileNameIsText input) ->
     message = Spec.refError (Spec.carriedRef tool input)).
Proof.
  intros Hrej.
  destruct (handler_rejects agentId tool input w Hrej)
    as (h & m & Hh & Hrun & H1 & H2 & H3 & H4).
  unfold dispatchTool. rewrite Hh. unfold bind, throw, ret, Spec.tabIdPasses.
  destruct (assoc "tabId" input) as [[| | n | | |]|] eqn:Etab.
  all: try (eexists; split; [reflexivity|];
            split; [intros v [= <-] _; reflexivity|];
            repeat split; intros []).
  - destruct (Z.ltb_spec n 0).
    + eexists. split; [reflexivity|].
      split; [intros v [= <-] _; reflexivity|]. repeat split; intros; lia.
    + exists m. split; [exact Hrun|].
      split; [intros v _ Hv; exfalso; apply Hv; lia|]. repeat split; auto.
  - exists m. split; [exact Hrun|].
    split; [intros v Hv; discriminate Hv|]. repeat split; auto.
Qed.

(** The lock of the tab is refused exactly to a call that is shut out. *)
Lemma lock_refused (now : Z) (agentId tool : string) (input : Input) (w : World) :
  match asNumber (assoc "tabId" input) with
  | Some t =>
      if bool_decide (is_Some (asNumber (assoc "tabId" input)))
         && existsb (String.eqb tool) CDP_TOOLS
      then TabManager.acquireTabLock (tabs w) now agentId t TabManager.TAB_LOCK_TTL
      else (true, tabs w)
  | None => (true, tabs w)
  end = (false, tabs w) <-> Spec.lockedOut w now agentId tool input.
Proof.
  unfold Spec.lockedOut. split.
  - destruct (assoc "tabId" input) as [[| | T | | |]|]; cbn [asNumber]; try discriminate.
    destruct (existsb (String.eqb tool) CDP_TOOLS) eqn:Hcdp;
      [|rewrite andb_false_r; discriminate].
    replace (bool_decide (is_Some (Some T))) with true
      by (symmetry; apply bool_decide_eq_true; eauto).
    cbn [andb]. intros Hacq.
    apply acquire_refused_fresh in Hacq as [_ (lock & Hl & Hne & Hfresh)].
    split.
    + apply existsb_exists in Hcdp as [x [Hx Heq]]. apply String.eqb_eq in Heq. now subst.
    + exists T, lock. auto.
  - intros (Hcdp & T & lock & Htab & Hl & Hne & Hfresh). rewrite Htab. cbn [asNumber].
    replace (existsb (String.eqb tool) CDP_TOOLS) with true
      by (symmetry; apply existsb_exists; exists tool;
          split; [exact Hcdp|apply String.eqb_refl]).
    replace (bool_decide (is_Some (Some T))) with true
      by (symmetry; apply bool_decide_eq_true; eauto).
    cbn [andb]. now apply acquire_blocked with lock.
Qed.

(** C2, as amended.  For every inbound call of [click], [scroll],
    [form_input] or [upload_image] whose [ref], or of [read_page] whose
    [refId], does not match [^(find_|page_)?ref_\d+$] (and, but for
    [form_input], is a truthy value), the worker returns a failed tool
    result without having made any call into the browser.  The error code
    is never [INVALID_PARAMS].  It is [TAB_LOCKED], and the worker is left
    as it was, exactly when the tool takes the tab lock and the lock of the
    tab named is held by another agent and has not expired.  Otherwise it
    is the code [inferErrorCode] derives from the message of the first
    check that fails: [Invalid tabId: ...] when the tab id is not a number
    or is negative; else, for [form_input], the message of [sanitizeRef];
    else the message of the ownership check when the tab is not in the
    group of the agent; else, for [upload_image] with a file name that is
    not a string, the [TypeError] of [endsWith]; else the message of
    [sanitizeRef].  The sixth tool that declares a [ref], [hover], never
    reads it: a call of [hover] does the same whatever the input holds
    under [ref]. *)
Theorem C2_ref_format_guard (now : Z) (agentId tool : string) (input : Input) (w : World) :
  (Spec.rejectedRef tool input ->
   exists code message w',
     handleToolCall rt browser otherHandler now agentId tool input w
     = (Failure code message, w') /\
     trace w' = trace w /\
     code <> "INVALID_PARAMS"%string /\
     (Spec.lockedOut w now agentId tool input ->
      code = "TAB_LOCKED"%string /\ w' = w) /\
     (~ Spec.lockedOut w now agentId tool input ->
      code = inferErrorCode message /\
      (forall v, assoc "tabId" input = Some v -> ~ Spec.tabIdPasses input ->
                 message = "Invalid tabId: " +:+ ToString v) /\
      (Spec.tabIdPasses input -> tool = "form_input"%string ->
       message = "Invalid element ref format: " +:+ ToStringU (assoc "ref" input)) /\
      (Spec.tabIdPasses input -> tool <> "form_input"%string ->
       ~ Spec.owned w agentId input ->
       message = "Tab " +:+ showTab (tabIdOf input) +:+ " does not belong to agent "
                 +:+ agentId) /\
      (Spec.tabIdPasses input -> tool = "upload_image"%string ->
       Spec.owned w agentId input -> ~ Spec.fileNameIsText input ->
       message = "filename.endsWith is not a function"%string) /\
      (Spec.tabIdPasses input -> tool <> "form_input"%string ->
       Spec.owned w agentId input ->
       (tool = "upload_image"%string -> Spec.fileNameIsText input) ->
       message = "Invalid element ref format: "
                 +:+ ToStringU (Spec.carriedRef tool input))))
  /\
  (forall input1 input2 : Input,
     (forall k, k <> "ref"%string -> assoc k input1 = assoc k input2) ->
     handleToolCall rt browser otherHandler now agentId "hover" input1 w
     = handleToolCall rt browser otherHandler now agentId "hover" input2 w).
Proof.
  split.
  - intros Hrej. pose proof (lock_refused now agentId tool input w) as Hlock.
    unfold handleToolCall. cbn [checkPermission negb].
    destruct (match asNumber (assoc "tabId" input) with
              | Some t =>
                  if bool_decide (is_Some (asNumber (assoc "tabId" input)))
                     && existsb (String.eqb tool) CDP_TOOLS
                  then TabManager.acquireTabLock (tabs w) now agentId t
                         TabManager.TAB_LOCK_TTL
                  else (true, tabs w)
              | None => (true, tabs w)
              end) as [[] tabs1] eqn:Hm; cbn [negb].
    + assert (Hnot : ~ Spec.lockedOut w now agentId tool input).
      { intros Hl. apply Hlock in Hl. discriminate Hl. }
      assert (Hg : TabManager.agentGroups tabs1 = TabManager.agentGroups (tabs w)).
      { destruct (asNumber (assoc "tabId" input)) as [t|]; [|now injection Hm as <-].
        destruct (_ && _); [|now injection Hm as <-].
        pose proof (acquire_groups (tabs w) now agentId t TabManager.TAB_LOCK_TTL) as G.
        now rewrite Hm in G. }
      destruct (dispatchTool_rejects agentId tool input
                  (mkWorld tabs1 (screenshotStore w) (screenshotCounter w) (trace w)) Hrej)
        as (m & -> & H0 & H1 & H2 & H3 & H4).
      assert (Hown : Spec.owned
                       (mkWorld tabs1 (screenshotStore w) (screenshotCounter w) (trace w))
                       agentId input <-> Spec.owned w agentId input).
      { unfold Spec.owned, TabManager.isTabInAgentGroup. cbn [tabs]. now rewrite Hg. }
      eexists; eexists; eexists. split; [reflexivity|]. split.
      { destruct (asNumber (assoc "tabId" input)); [|reflexivity].
        destruct (_ && _); reflexivity. }
      split; [apply inferErrorCode_not_INVALID_PARAMS|].
      split; [intros Hl; contradiction|]. intros _.
      split; [reflexivity|]. split; [exact H0|]. split; [exact H1|].
      split; [intros Hv Ht Ho; apply H2; [exact Hv|exact Ht|now rewrite Hown]|].
      split; [intros Hv Ht Ho Hf; apply H3; [exact Hv|exact Ht|now rewrite Hown|exact Hf]|].
      intros Hv Ht Ho Hf. apply H4; [exact Hv|exact Ht|now rewrite Hown|exact Hf].
    + assert (Hsame : tabs1 = tabs w).
      { destruct (asNumber (assoc "tabId" input)) as [t|]; [|discriminate].
        destruct (_ && _); [|discriminate].
        now apply acquire_refused_fresh in Hm as [-> _]. }
      subst tabs1. pose proof (proj1 Hlock eq_refl) as Hl.
      eexists; eexists; eexists. split; [reflexivity|].
      split; [reflexivity|]. split; [discriminate|].
      split; [intros _; split; reflexivity|]. intros Hnot. contradiction.
  - intros input1 input2 Hagree.
    unfold handleToolCall, dispatchTool, handleHover, tabIdOf.
    cbn [String.eqb Ascii.eqb Bool.eqb].
    rewrite !(Hagree "tabId"%string), !(Hagree "coordinate"%string) by discriminate.
    reflexivity.
Qed.

End WorkerFacts.

Lemma C2_ref_format_guard_witness :
  exists code message w',
    Worker.handleToolCall Spec.demoRuntime Spec.demoBrowser Spec.demoOther 5000
      "default" "click" [("tabId", JNum 42); ("ref", JStr "div[onclick]")] Spec.demoWorld
    = (Worker.Failure code message, w') /\
    Worker.trace w' = Worker.trace Spec.demoWorld /\
    code = Worker.inferErrorCode message /\
    message = "Invalid element ref format: div[onclick]"%string.
Proof.
  destruct (proj1 (C2_ref_format_guard Spec.demoRuntime Spec.demoBrowser Spec.demoOther 5000
                     "default" "click" [("tabId", JNum 42); ("ref", JStr "div[onclick]")]
                     Spec.demoWorld))
    as (code & message & w' & Hrun & Htrace & _ & _ & Hfree).
  - right. left. split; [left; reflexivity|]. split; reflexivity.
  - destruct Hfree as (Hcode & _ & _ & _ & _ & Hmsg).
    + intros (_ & T & lock & Htab & Hl & _). injection Htab as <-. discriminate Hl.
    + exists code, message, w'. split; [exact Hrun|]. split; [exact Htrace|].
      split; [exact Hcode|].
      apply Hmsg; [cbn; lia|discriminate|reflexivity|discriminate].
Defined.

(** C2 as stated fails.  A [form_input] call on a tab the agent owns, with
    a reference that does not match the pattern, fails with
    [INTERNAL_ERROR], not [INVALID_PARAMS].  And a [hover] call with the
    same reference does not fail at all: it reaches the debugger, since
    [handleHover] never looks at the reference. *)
Lemma C2_counterexample :
  Worker.REF_PATTERN_test "div[onclick]" = false /\
  (exists w',
     Worker.handleToolCall Spec.demoRuntime Spec.demoBrowser Spec.demoOther 5000
       "default" "form_input"
       [("tabId", JNum 42); ("ref", JStr "div[onclick]"); ("value", JStr "x")] Spec.demoWorld
     = (Worker.Failure "INTERNAL_ERROR" "Invalid element ref format: div[onclick]", w') /\
     "INTERNAL_ERROR"%string <> "INVALID_PARAMS"%string) /\
  (exists w',
     Worker.handleToolCall Spec.demoRuntime Spec.demoBrowser Spec.demoOther 5000
       "default" "hover"
       [("tabId", JNum 42); ("ref", JStr "div[onclick]"); ("coordinate", JArr [JNum 1; JNum 2])]
       Spec.demoWorld
     = (Worker.Success
          (Some (JObj [("hovered", JBool true); ("coordinate", JArr [JNum 1; JNum 2])])), w') /\
     Worker.trace w'
     = [Worker.SendCdpCommand (Some 42) "Input.dispatchMouseEvent"
          (JObj [("type", JStr "mouseMoved"); ("x", JNum 1); ("y", JNum 2)])]).
Proof.
  split; [reflexivity|]. split.
  - eexists. split; [vm_compute; reflexivity|discriminate].
  - eexists. split; vm_compute; reflexivity.
Qed.

(** The pattern on the handles the worker mints and on near misses. *)
Example ref_pattern_examples :
  map Worker.REF_PATTERN_test
      [ "ref_0"; "find_ref_12"; "page_ref_7"; "ref_"; "ref_1a"; "xref_1"; "find_page_ref_1";
        EmptyString ]%string
  = [ true; true; true; false; false; false; false; false ].
Proof. reflexivity. Qed.

(** The code is derived from the message, in which the rejected reference
    itself appears. *)
Example ref_error_code_follows_text :
  Worker.inferErrorCode (Spec.refError (Some (JStr "x not found"))) = "TAB_NOT_FOUND"%string.
Proof. reflexivity. Qed.

Lemma C8_tab_lock_witness :
  (TabManager.acquireTabLock Spec.demoTabs 5000 "default" 7 60000 = (false, Spec.demoTabs) /\
   Worker.handleToolCall Spec.demoRuntime Spec.demoBrowser Spec.demoOther 5000 "default" "click"
     [("tabId", JNum 7); ("coordinate", JArr [JNum 1; JNum 2])] Spec.demoWorld
   = (Worker.Failure "TAB_LOCKED" "Tab 7 is locked by another agent", Spec.demoWorld)) /\
  (fst (TabManager.acquireTabLock Spec.demoTabs 5000 "other" 7 30000) = true /\
   TabManager.tabLocks (snd (TabManager.acquireTabLock Spec.demoTabs 5000 "other" 7 30000))
     !! 7 = Some (TabManager.mkLock 7 "other" 5000 60000)) /\
  (fst (TabManager.acquireTabLock Spec.demoTabs 100000 "default" 7 30000) = true /\
   TabManager.tabLocks (snd (TabManager.acquireTabLock Spec.demoTabs 100000 "default" 7 30000))
     !! 7 = Some (TabManager.mkLock 7 "default" 100000 30000)).
Proof.
  split; [|split].
  - destruct (C8_tab_lock Spec.demoRuntime Spec.demoBrowser Spec.demoOther Spec.demoTabs 5000
                "default" 7 60000 (TabManager.mkLock 7 "other" 1000 60000) eq_refl)
      as [Hblocked _].
    destruct Hblocked as [Hacq Hcall]; [discriminate | cbn; lia |].
    split; [exact Hacq|].
    apply (Hcall "click"%string); [left; reflexivity | reflexivity | reflexivity].
  - destruct (C8_tab_lock Spec.demoRuntime Spec.demoBrowser Spec.demoOther Spec.demoTabs 5000
                "other" 7 30000 (TabManager.mkLock 7 "other" 1000 60000) eq_refl)
      as (_ & Hsame & _).
    destruct Hsame as [Hok (lock & Hl & _ & _ & Hkeep)]; [reflexivity|].
    split; [exact Hok|]. rewrite Hl, Hkeep; [reflexivity|cbn; lia].
  - destruct (C8_tab_lock Spec.demoRuntime Spec.demoBrowser Spec.demoOther Spec.demoTabs 100000
                "default" 7 30000 (TabManager.mkLock 7 "other" 1000 60000) eq_refl)
      as (_ & _ & Hexpired & _).
    apply Hexpired. cbn. lia.
Defined.

(** * Properties of insertion-ordered maps *)

Section MapFacts.

Context {V : Type}.

Lemma Map_get_set_eq (m : Map V) (k : string) (v : V) : Map_get (Map_set m k v) k = Some v.
Proof.
  unfold Map_get. induction m as [|[k' v'] m IH]; cbn [Map_set assoc].
  - now rewrite String.eqb_refl.
  - destruct (String.eqb k k') eqn:E; cbn [assoc]; rewrite E; [reflexivity|exact IH].
Qed.

Lemma Map_get_set_ne (m : Map V) (k k' : string) (v : V) :
  k <> k' -> Map_get (Map_set m k v) k' = Map_get m k'.
Proof.
  intros Hne. unfold Map_get. induction m as [|[k0 v0] m IH]; cbn [Map_set assoc].
  - apply not_eq_sym in Hne. apply String.eqb_neq in Hne. now rewrite Hne.
  - destruct (String.eqb k k0) eqn:E; cbn [assoc].
    + apply String.eqb_eq in E. subst k0.
      apply not_eq_sym in Hne. apply String.eqb_neq in Hne. now rewrite Hne.
    + destruct (String.eqb k' k0); [reflexivity|exact IH].
Qed.

Lemma Map_delete_head (m : Map V) (k : string) (v : V) : Map_delete ((k, v) :: m) k = m.
Proof. cbn [Map_delete]. now rewrite String.eqb_refl. Qed.

Lemma Map_delete_None (m : Map V) (k : string) : Map_get m k = None -> Map_delete m k = m.
Proof.
  unfold Map_get. induction m as [|[k' v'] m IH]; cbn [Map_delete assoc]; [reflexivity|].
  destruct (String.eqb k k'); [discriminate|]. intros H. now rewrite IH.
Qed.

Lemma Map_delete_incl (m : Map V) (k : string) (e : string * V) :
  In e (Map_delete m k) -> In e m.
Proof.
  induction m as [|[k' v'] m IH]; cbn [Map_delete]; [tauto|].
  destruct (String.eqb k k'); cbn [In]; tauto.
Qed.

End MapFacts.

(** * Properties of the session table *)

Section SessionFacts.

Import AgentSession.

Lemma createSession_existing (st : State) (now : Z) (uuid agent : string)
    (name : option string) (existing : AgentSessionInfo) :
  Map_get (sessions st) agent = Some existing ->
  createSession st now uuid agent name
  = (mkSession (agentId existing) (sessionToken existing) (agentName existing)
               active now (createdAt existing),
     mkState (Map_set (sessions st) agent
                (mkSession (agentId existing) (sessionToken existing) (agentName existing)
                           active now (createdAt existing)))
             (configuredDefaultAgentId st)).
Proof. intros H. unfold createSession. now rewrite H. Qed.

(** No call of [createSession] changes the token of a session that
    exists. *)
Lemma createSession_tokens (st : State) (now : Z) (uuid agent : string)
    (name : option string) (a token : string) :
  Spec.tokenOf st a = Some token ->
  Spec.tokenOf (snd (createSession st now uuid agent name)) a = Some token.
Proof.
  unfold Spec.tokenOf. intros Ha.
  destruct (string_dec agent a) as [->|Hne].
  - destruct (Map_get (sessions st) a) as [e|] eqn:E; [|discriminate].
    rewrite (createSession_existing _ _ _ _ _ e E). cbn [snd sessions].
    rewrite Map_get_set_eq. exact Ha.
  - unfold createSession.
    destruct (Map_get (sessions st) agent); cbn [snd sessions];
      now rewrite Map_get_set_ne.
Qed.

Lemma getDefaultAgentId_tokens (st : State) (now : Z) (uuid a token : string) :
  Spec.tokenOf st a = Some token ->
  Spec.tokenOf (snd (getDefaultAgentId st now uuid)) a = Some token.
Proof.
  intros Ha. unfold getDefaultAgentId.
  destruct (List.find _ _); [exact Ha|].
  pose proof (createSession_tokens st now uuid (configuredDefaultAgentId st) None a token Ha) as H.
  destruct (createSession st now uuid (configuredDefaultAgentId st) None). exact H.
Qed.

End SessionFacts.

(** * Properties of the server core *)

Section ServerFacts.

Import Server.
Variable rt : Runtime.

Lemma handleExtensionMessage_session_tokens (st : State) (now : Z) (uuid : string)
    (message : json) (t a token : string) :
  asString (get "type" (Some message)) = Some t ->
  t = "session_init"%string \/ t = "session_recovery"%string ->
  Spec.tokenOf (agents st) a = Some token ->
  Spec.tokenOf (agents (fst (handleExtensionMessage rt st now uuid message))) a = Some token.
Proof.
  intros Htype Ht Ha. unfold handleExtensionMessage.
  destruct message as [| | | |items|fields]; try exact Ha.
  rewrite Htype. destruct Ht as [-> | ->]; cbn [nonEmpty String.eqb Ascii.eqb Bool.eqb andb].
  - destruct (nonEmpty (asString (get "protocolVersion" (Some (JObj fields)))));
      [|exact Ha].
    destruct (negb _); exact Ha.
  - destruct (nonEmpty (asString (get "agentId" (Some (JObj fields))))) as [agent|];
      [|exact Ha].
    pose proof (createSession_tokens (agents st) now uuid agent None a token Ha) as H.
    destruct (AgentSession.createSession (agents st) now uuid agent None). exact H.
Qed.

Lemma onAccept_agents (st : State) (s : nat) (now : Z) (u1 u2 u3 : string) :
  agents (fst (onAccept rt st s now u1 u2 u3))
  = snd (AgentSession.createSession
           (snd (AgentSession.getDefaultAgentId (agents st) now u1)) now u2
           (fst (AgentSession.getDefaultAgentId (agents st) now u1)) None).
Proof.
  unfold onAccept.
  destruct (extensionSocket st) as [old|]; [destruct (negb (isDestroyed st old))|];
    cbn [set_socket set_health set_destroyed agents];
    destruct (AgentSession.getDefaultAgentId (agents st) now u1) as [agent agents1];
    cbn [fst snd];
    destruct (AgentSession.createSession agents1 now u2 agent None); reflexivity.
Qed.

(** C10.  For every agent that already has an entry in the session table,
    [createSession] returns (and stores) that entry with [sessionToken]
    and [createdAt], as well as [agentId] and [agentName], unchanged,
    [status] set to [active] and [lastActivity] set to the current time;
    consequently neither an inbound [session_init] or [session_recovery]
    record nor the [session_init] the server sends when it accepts a
    connection changes the token of an agent whose session exists. *)
Theorem C10_existing_session_keeps_token (st : AgentSession.State) (now : Z)
    (uuid agent : string) (name : option string)
    (existing : AgentSession.AgentSessionInfo) :
  Map_get (AgentSession.sessions st) agent = Some existing ->
  let revived :=
    AgentSession.mkSession (AgentSession.agentId existing)
      (AgentSession.sessionToken existing) (AgentSession.agentName existing)
      AgentSession.active now (AgentSession.createdAt existing) in
  fst (AgentSession.createSession st now uuid agent name) = revived /\
  Map_get (AgentSession.sessions (snd (AgentSession.createSession st now uuid agent name)))
          agent = Some revived /\
  (forall (srv : State) (now' : Z) (uuid' : string) (message : json) (t : string),
     agents srv = st ->
     asString (get "type" (Some message)) = Some t ->
     t = "session_init"%string \/ t = "session_recovery"%string ->
     Spec.tokenOf (agents (fst (handleExtensionMessage rt srv now' uuid' message))) agent
     = Some (AgentSession.sessionToken existing)) /\
  (forall (srv : State) (s : nat) (now' : Z) (u1 u2 u3 : string),
     agents srv = st ->
     Spec.tokenOf (agents (fst (onAccept rt srv s now' u1 u2 u3))) agent
     = Some (AgentSession.sessionToken existing)).
Proof.
  intros Hex revived.
  assert (Htok : Spec.tokenOf st agent = Some (AgentSession.sessionToken existing)).
  { unfold Spec.tokenOf. now rewrite Hex. }
  rewrite (createSession_existing st now uuid agent name existing Hex).
  cbn [fst snd AgentSession.sessions]. split; [reflexivity|].
  split; [apply Map_get_set_eq|]. split.
  - intros srv now' uuid' message t <- Htype Ht.
    now apply handleExtensionMessage_session_tokens with t.
  - intros srv s now' u1 u2 u3 <-. rewrite onAccept_agents.
    apply createSession_tokens, getDefaultAgentId_tokens, Htok.
Qed.


Lemma rejectAll_all (entries : list (string * nat)) (st : State) :
  pendingRequests st = entries ->
  pendingRequests (fst (rejectAll rt st entries)) = [] /\
  extensionSocket (fst (rejectAll rt st entries)) = extensionSocket st /\
  health (fst (rejectAll rt st entries)) = health st /\
  snd (rejectAll rt st entries)
  = map (fun e => Resolve (snd e)
                    (Spec.errorResponse rt "EXTENSION_NOT_CONNECTED"
                       "Extension disconnected while request was pending")) entries.
Proof.
  revert st. induction entries as [|[id call] entries IH]; intros st Hp.
  - cbn [rejectAll fst snd map]. auto.
  - cbn [rejectAll entryResolve].
    set (st3 := removeErrorListener
                  (set_pending (clearTimeout st call)
                               (Map_delete (pendingRequests (clearTimeout st call)) id)) call).
    assert (H3 : pendingRequests st3 = entries).
    { unfold st3. cbn [removeErrorListener set_errorListeners set_pending clearTimeout
                         set_timers pendingRequests].
      rewrite Hp. apply Map_delete_head. }
    destruct (IH st3 H3) as (Hnil & Hsock & Hhealth & Hout).
    destruct (rejectAll rt st3 entries) as [st4 out']. cbn [fst snd] in *.
    repeat split; [exact Hnil|rewrite Hsock; reflexivity|rewrite Hhealth; reflexivity|].
    cbn [map app snd]. now rewrite Hout.
Qed.

Lemma onAccept_core (st : State) (s : nat) (now : Z) (u1 u2 u3 : string) :
  let st1 := fst (onAccept rt st s now u1 u2 u3) in
  extensionSocket st1 = Some s /\
  Health.extensionConnected (health st1) = true /\
  pendingRequests st1 = pendingRequests st /\
  timers st1 = timers st /\
  errorListeners st1 = errorListeners st /\
  calls st1 = calls st /\
  switching st1 = switching st /\
  destroyed st1 =
    match extensionSocket st with
    | Some old => if negb (isDestroyed st old) then old :: destroyed st else destroyed st
    | None => destroyed st
    end.
Proof.
  unfold onAccept.
  destruct (extensionSocket st) as [old|]; [destruct (negb (isDestroyed st old))|];
    cbn [set_socket set_health set_destroyed agents];
    match goal with
    | |- context [AgentSession.getDefaultAgentId ?a ?n ?u] =>
        destruct (AgentSession.getDefaultAgentId a n u) as [agent agents1]
    end;
    destruct (AgentSession.createSession agents1 now u2 agent None);
    cbn; repeat split.
Qed.

Lemma onAccept_out (st : State) (s : nat) (now : Z) (u1 u2 u3 : string) :
  exists agentId,
    snd (onAccept rt st s now u1 u2 u3) =
      match extensionSocket st with
      | Some old =>
          if negb (isDestroyed st old)
          then [StderrWrite "[viyv-browser:mcp] Replacing existing extension connection";
                SocketDestroy old]
          else []
      | None => []
      end
      ++ [StderrWrite "[viyv-browser:mcp] Extension connected via Unix socket";
          SocketWrite s
            (JSON_stringify rt
               (JObj [ ("id", JStr u3); ("type", JStr "session_init");
                       ("agentId", JStr agentId);
                       ("protocolVersion", JStr PROTOCOL_VERSION);
                       ("timestamp", JNum now) ]) +:+ LF)].
Proof.
  unfold onAccept.
  destruct (extensionSocket st) as [old|]; [destruct (negb (isDestroyed st old))|];
    cbn [set_socket set_health set_destroyed agents];
    match goal with
    | |- context [AgentSession.getDefaultAgentId ?a ?n ?u] =>
        destruct (AgentSession.getDefaultAgentId a n u) as [agent agents1]
    end;
    destruct (AgentSession.createSession agents1 now u2 agent None);
    cbn [snd]; eauto.
Qed.

Lemma isDestroyed_cons (st : State) (x y : nat) :
  isDestroyed (set_destroyed st (y :: destroyed st)) x = Nat.eqb x y || isDestroyed st x.
Proof. reflexivity. Qed.

(** *** The [destroyed] flags only accumulate *)

Ltac split_cases :=
  repeat match goal with
         | |- context [match ?x with _ => _ end] => destruct x
         end.

Lemma handleToolResult_destroyed (st : State) (id : string) (msg : json) :
  destroyed (fst (handleToolResult rt st id msg)) = destroyed st.
Proof. unfold handleToolResult. split_cases; reflexivity. Qed.

Lemma handleExtensionMessage_destroyed (st : State) (now : Z) (uuid : string)
    (message : json) :
  destroyed (fst (handleExtensionMessage rt st now uuid message)) = destroyed st.
Proof.
  unfold handleExtensionMessage.
  split_cases; try reflexivity; apply handleToolResult_destroyed.
Qed.

Lemma handleLine_destroyed (st : State) (now : Z) (uuid l : string) :
  destroyed (fst (handleLine rt st now uuid l)) = destroyed st.
Proof.
  unfold handleLine.
  split_cases; try reflexivity; apply handleExtensionMessage_destroyed.
Qed.

Lemma handleLines_destroyed (lines : list string) (st : State) (now : Z)
    (uuids : nat -> string) (i : nat) :
  destroyed (fst (handleLines rt st now uuids i lines)) = destroyed st.
Proof.
  revert st i. induction lines as [|l lines IH]; intros st i; cbn [handleLines];
    [reflexivity|].
  destruct (String.eqb l EmptyString); [apply IH|].
  pose proof (handleLine_destroyed st now (uuids i) l) as H1.
  destruct (handleLine rt st now (uuids i) l) as [st1 out1].
  pose proof (IH st1 (S i)) as H2.
  destruct (handleLines rt st1 now uuids (S i) lines) as [st2 out2].
  cbn [fst] in *. congruence.
Qed.

Lemma rejectAll_destroyed (entries : list (string * nat)) (st : State) :
  destroyed (fst (rejectAll rt st entries)) = destroyed st.
Proof.
  revert st. induction entries as [|[id call] entries IH]; intros st; [reflexivity|].
  cbn [rejectAll entryResolve].
  match goal with
  | |- context [rejectAll rt ?st3 entries] =>
      pose proof (IH st3) as H; destruct (rejectAll rt st3 entries)
  end.
  exact H.
Qed.

Lemma emitError_destroyed (listeners : list nat) (st : State) :
  destroyed (fst (emitError rt st listeners)) = destroyed st.
Proof.
  revert st. induction listeners as [|call listeners IH]; intros st; [reflexivity|].
  cbn [emitError].
  assert (H1 : destroyed (fst (onError rt st call)) = destroyed st)
    by (unfold onError; split_cases; reflexivity).
  destruct (onError rt st call) as [st1 out1].
  pose proof (IH st1) as H2. destruct (emitError rt st1 listeners) as [st2 out2].
  cbn [fst] in *. congruence.
Qed.

Lemma step_destroyed (st : State) (e : Event) (x : nat) :
  isDestroyed st x = true -> isDestroyed (fst (step rt st e)) x = true.
Proof.
  unfold isDestroyed. rewrite !existsb_exists. intros [y [Hy Hxy]]. exists y.
  split; [|exact Hxy]. destruct e; cbn [step].
  - destruct (onAccept_core st sock0 now uuid1 uuid2 uuid3) as (_ & _ & _ & _ & _ & _ & _ & ->).
    destruct (extensionSocket st) as [old|]; [destruct (negb _)|]; cbn [In]; auto.
  - unfold onSocketData. destruct (isDestroyed st sock0); [exact Hy|].
    now rewrite handleLines_destroyed.
  - unfold onSocketClose.
    match goal with
    | |- context [rejectAll rt ?st1 ?es] =>
        pose proof (rejectAll_destroyed es st1) as H; destruct (rejectAll rt st1 es);
        assert (Hd : destroyed st1 = sock0 :: destroyed st)
          by (destruct (extensionSocket (set_destroyed st (sock0 :: destroyed st)))
                as [cur|]; [destruct (Nat.eqb cur sock0)|]; reflexivity)
    end.
    cbn [fst] in *. rewrite H, Hd. now right.
  - unfold onSocketError.
    match goal with
    | |- context [emitError rt ?st1 ?ls] =>
        pose proof (emitError_destroyed ls st1) as H; destruct (emitError rt st1 ls)
    end.
    cbn [fst] in *. now rewrite H.
  - cbn [set_destroyed destroyed fst]. now right.
  - unfold onTimer. split_cases; exact Hy.
  - unfold callExtensionTool. destruct (String.eqb tool0 "switch_browser").
    + unfold handleSwitchBrowser. cbn [set_calls extensionSocket].
      destruct (extensionSocket st) as [cur|]; [destruct (negb _)|]; cbn; auto.
    + destruct (extensionSocket st) as [s|]; [|exact Hy].
      destruct (connected st now); [|exact Hy].
      destruct (AgentSession.getDefaultAgentId (agents st) now uuid2). exact Hy.
  - unfold onSwitchPoll. split_cases; exact Hy.
  - unfold onSwitchTimeout. split_cases; exact Hy.
Qed.

Lemma run_destroyed (trace : list Event) (st : State) (x : nat) :
  isDestroyed st x = true -> isDestroyed (fst (run rt st trace)) x = true.
Proof.
  revert st. induction trace as [|e trace IH]; intros st H; [exact H|].
  cbn [run]. pose proof (step_destroyed st e x H) as H1.
  destruct (step rt st e) as [st1 out1]. specialize (IH st1 H1).
  now destruct (run rt st1 trace).
Qed.

(** C5, as amended.  When the server accepts a new extension connection
    while an existing one is live, the accept itself destroys the prior
    socket and installs the new socket, marking the extension connected;
    it neither nulls the reference nor marks the extension disconnected,
    and it leaves the pending requests in the table, unresolved.  They
    are resolved, each with an [EXTENSION_NOT_CONNECTED] error, when the
    ['close'] event of the prior socket is handled, which leaves the new
    socket installed and the extension connected.  From the accept on,
    whatever happens later, the data of the prior socket is not
    dispatched, so no tool result delivered through it is returned to the
    client. *)
Theorem C5_replacing_the_extension_socket (st : State) (old s : nat) (now : Z)
    (u1 u2 u3 : string) :
  extensionSocket st = Some old ->
  isDestroyed st old = false ->
  old <> s ->
  let st1 := fst (onAccept rt st s now u1 u2 u3) in
  let out1 := snd (onAccept rt st s now u1 u2 u3) in
  (In (SocketDestroy old) out1 /\ isDestroyed st1 old = true /\
   extensionSocket st1 = Some s /\ Health.extensionConnected (health st1) = true /\
   pendingRequests st1 = pendingRequests st /\
   forall call, resolutions call out1 = [])
  /\
  (forall (later : list Event) (now' : Z) (uuids : nat -> string) (data : string),
     let st' := fst (run rt st1 later) in
     onSocketData rt st' old now' uuids data = (st', []))
  /\
  (forall now' : Z,
     let st2 := fst (onSocketClose rt st1 old now') in
     let out2 := snd (onSocketClose rt st1 old now') in
     pendingRequests st2 = [] /\
     extensionSocket st2 = Some s /\
     Health.extensionConnected (health st2) = true /\
     out2 = StderrWrite "[viyv-browser:mcp] Extension disconnected"
            :: map (fun e => Resolve (snd e)
                               (Spec.errorResponse rt "EXTENSION_NOT_CONNECTED"
                                  "Extension disconnected while request was pending"))
                   (pendingRequests st)).
Proof.
  intros Hsock Hlive Hne st1 out1.
  destruct (onAccept_core st s now u1 u2 u3)
    as (Hs1 & Hconn & Hpend & _ & _ & _ & _ & Hdestroyed).
  destruct (onAccept_out st s now u1 u2 u3) as [agentId Hout].
  fold st1 in Hs1, Hconn, Hpend, Hdestroyed. fold out1 in Hout.
  rewrite Hsock, Hlive in Hdestroyed, Hout. cbn [negb] in Hdestroyed, Hout.
  assert (Hd1 : isDestroyed st1 old = true).
  { unfold isDestroyed. rewrite Hdestroyed. cbn [existsb]. now rewrite Nat.eqb_refl. }
  split; [|split].
  - split; [rewrite Hout; cbn; tauto|]. split; [exact Hd1|].
    split; [exact Hs1|]. split; [exact Hconn|]. split; [exact Hpend|].
    intros call. rewrite Hout. reflexivity.
  - intros later now' uuids data st'. unfold onSocketData.
    unfold st'. now rewrite (run_destroyed later st1 old Hd1).
  - intros now'. cbn zeta. unfold onSocketClose.
    cbn [set_destroyed extensionSocket]. rewrite Hs1.
    replace (Nat.eqb s old) with false
      by (symmetry; apply Nat.eqb_neq; congruence).
    destruct (rejectAll_all (pendingRequests (set_destroyed st1 (old :: destroyed st1)))
                (set_destroyed st1 (old :: destroyed st1)) eq_refl)
      as (Hnil & Hsock2 & Hhealth & Hresolved).
    destruct (rejectAll rt (set_destroyed st1 (old :: destroyed st1))
                (pendingRequests (set_destroyed st1 (old :: destroyed st1))))
      as [st2 out2].
    cbn [fst snd] in *. cbn [set_destroyed pendingRequests extensionSocket health] in *.
    rewrite Hnil, Hsock2, Hhealth, Hresolved, Hpend. auto.
Qed.

End ServerFacts.

Lemma C10_existing_session_keeps_token_witness :
  let st := Server.agents Spec.serverWithPendingCall in
  fst (AgentSession.createSession st 9000 "token-9" "default" None)
  = AgentSession.mkSession "default" "token-1" "default" AgentSession.active 9000 1000 /\
  Spec.tokenOf
    (Server.agents
       (fst (Server.handleExtensionMessage Spec.demoRuntime Spec.serverWithPendingCall 9000
               "token-9"
               (JObj [("id", JStr "m1"); ("type", JStr "session_recovery");
                      ("agentId", JStr "default")]))))
    "default"
  = Some "token-1"%string.
Proof.
  destruct (C10_existing_session_keeps_token Spec.demoRuntime
              (Server.agents Spec.serverWithPendingCall) 9000 "token-9" "default" None
              (AgentSession.mkSession "default" "token-1" "default" AgentSession.active 2000 1000)
              eq_refl)
    as (Hret & _ & Hmsg & _).
  split; [exact Hret|].
  apply (Hmsg Spec.serverWithPendingCall 9000 "token-9"%string _ "session_recovery"%string);
    [reflexivity | reflexivity | right; reflexivity].
Defined.


(** The worker's side of scenario S2: [click] on tab 99, which the default
    agent does not own. *)
Example worker_access_denied :
  fst (Worker.handleToolCall Spec.demoRuntime Spec.demoBrowser Spec.demoOther 2000
         "default" "click" [("tabId", JNum 99); ("coordinate", JArr [JNum 1; JNum 2])]
         Spec.demoWorld)
  = Worker.Failure "TAB_ACCESS_DENIED" "Tab 99 does not belong to agent default".
Proof. vm_compute. reflexivity. Qed.


Lemma C5_replacing_the_extension_socket_witness :
  let st1 := fst (Server.onAccept Spec.demoRuntime Spec.serverWithPendingCall 2 3000
                    "token-7" "token-8" "init-2") in
  Server.extensionSocket st1 = Some 2%nat /\
  Server.pendingRequests st1 = [("req-1"%string, 0%nat)] /\
  Server.pendingRequests (fst (Server.onSocketClose Spec.demoRuntime st1 1 3001)) = [].
Proof.
  destruct (C5_replacing_the_extension_socket Spec.demoRuntime Spec.serverWithPendingCall
              1 2 3000 "token-7" "token-8" "init-2" eq_refl eq_refl)
    as ((_ & _ & Hsock & _ & Hpend & _) & _ & Hclose); [discriminate|].
  destruct (Hclose 3001) as (Hnil & _).
  split; [exact Hsock|]. split; [exact Hpend|exact Hnil].
Defined.

(** C5 as stated fails: right after the accept the new socket is installed,
    the reference was not nulled, the extension is marked connected, and
    the request that was outstanding is still in the table, unresolved. *)
Lemma C5_counterexample :
  let accepted := Server.onAccept Spec.demoRuntime Spec.serverWithPendingCall 2 3000
                    "token-7" "token-8" "init-2" in
  Server.extensionSocket Spec.serverWithPendingCall = Some 1%nat /\
  Server.pendingRequests Spec.serverWithPendingCall = [("req-1"%string, 0%nat)] /\
  Server.extensionSocket (fst accepted) = Some 2%nat /\
  Health.extensionConnected (Server.health (fst accepted)) = true /\
  Server.pendingRequests (fst accepted) = [("req-1"%string, 0%nat)] /\
  Server.resolutions 0 (snd accepted) = [].
Proof. vm_compute. repeat split. Qed.

(** * The pending-request engine: each invocation is resolved at most once *)

Section MapInvariants.

Context {V : Type}.

Lemma Map_get_In (m : Map V) (k : string) (v : V) : Map_get m k = Some v -> In (k, v) m.
Proof.
  unfold Map_get. induction m as [|[k' v'] m IH]; cbn [assoc]; [discriminate|].
  destruct (String.eqb k k') eqn:E.
  - apply String.eqb_eq in E. intros [= ->]. subst. now left.
  - intros H. right. now apply IH.
Qed.

Lemma Map_delete_keys (m : Map V) (k k' : string) :
  In k' (map fst (Map_delete m k)) -> In k' (map fst m).
Proof.
  intros H. apply in_map_iff in H as [[k0 v0] [<- H]].
  apply Map_delete_incl in H. now apply (in_map fst) in H.
Qed.

Lemma Map_delete_NoDup (m : Map V) (k : string) :
  List.NoDup (map fst m) -> List.NoDup (map fst (Map_delete m k)).
Proof.
  induction m as [|[k' v'] m IH]; cbn [Map_delete map fst]; [auto|].
  intros H. apply List.NoDup_cons_iff in H as [Hk Hm].
  destruct (String.eqb k k'); [exact Hm|].
  cbn [map fst]. constructor; [|now apply IH].
  intros Hin. apply Hk. now apply Map_delete_keys with k.
Qed.

Lemma Map_delete_not_key (m : Map V) (k : string) :
  List.NoDup (map fst m) -> ~ In k (map fst (Map_delete m k)).
Proof.
  induction m as [|[k' v'] m IH]; cbn [Map_delete map fst]; [auto|].
  intros H. apply List.NoDup_cons_iff in H as [Hk Hm].
  destruct (String.eqb k k') eqn:E.
  - apply String.eqb_eq in E. now subst.
  - cbn [map fst In]. apply String.eqb_neq in E. intros [->|Hin]; [congruence|].
    now apply IH.
Qed.

Lemma Map_get_delete (m : Map V) (k : string) :
  List.NoDup (map fst m) -> Map_get (Map_delete m k) k = None.
Proof.
  intros Hnd. destruct (Map_get (Map_delete m k) k) as [v|] eqn:E; [|reflexivity].
  apply Map_get_In in E. apply (in_map fst) in E. cbn [fst] in E.
  now apply Map_delete_not_key in E.
Qed.

Lemma Map_set_In (m : Map V) (k k' : string) (v v' : V) :
  In (k', v') (Map_set m k v) -> (k' = k /\ v' = v) \/ In (k', v') m.
Proof.
  induction m as [|[k0 v0] m IH]; cbn [Map_set In].
  - intros [[= <- <-]|[]]. now left.
  - destruct (String.eqb k k0) eqn:E; cbn [In].
    + apply String.eqb_eq in E. subst k0. intros [[= <- <-]|H]; auto.
    + intros [H|H]; [auto|]. destruct (IH H); auto.
Qed.

Lemma Map_set_keys (m : Map V) (k k' : string) (v : V) :
  In k' (map fst (Map_set m k v)) -> k' = k \/ In k' (map fst m).
Proof.
  intros H. apply in_map_iff in H as [[k0 v0] [<- H]].
  apply Map_set_In in H as [[-> _]|H]; [now left|].
  right. now apply (in_map fst) in H.
Qed.

Lemma Map_set_NoDup (m : Map V) (k : string) (v : V) :
  List.NoDup (map fst m) -> List.NoDup (map fst (Map_set m k v)).
Proof.
  induction m as [|[k0 v0] m IH]; cbn [Map_set map fst].
  - intros _. repeat constructor. auto.
  - intros H. apply List.NoDup_cons_iff in H as [Hk Hm].
    destruct (String.eqb k k0) eqn:E; cbn [map fst].
    + constructor; assumption.
    + constructor; [|now apply IH].
      intros Hin. apply Map_set_keys in Hin as [->|Hin]; [|contradiction].
      rewrite String.eqb_refl in E. discriminate.
Qed.

Lemma Map_get_not_None (m : Map V) (k : string) :
  In k (map fst m) -> Map_get m k <> None.
Proof.
  unfold Map_get. induction m as [|[k' v'] m IH]; cbn [assoc map fst In]; [tauto|].
  destruct (String.eqb k k') eqn:E; [discriminate|].
  apply String.eqb_neq in E. intros [->|H]; [congruence|now apply IH].
Qed.

Lemma Map_delete_In_ne (m : Map V) (k k' : string) (v : V) :
  k <> k' -> In (k', v) m -> In (k', v) (Map_delete m k).
Proof.
  intros Hne. induction m as [|[k0 v0] m IH]; cbn [Map_delete In]; [tauto|].
  destruct (String.eqb k k0) eqn:E.
  - apply String.eqb_eq in E. subst k0. intros [[= <- _]|H]; [congruence|exact H].
  - cbn [In]. intros [H|H]; [now left|right; now apply IH].
Qed.

End MapInvariants.

Section EngineFacts.

Import Server.
Variable rt : Runtime.

Lemma In_remove_nat (x y : nat) (l : list nat) : In x (remove_nat y l) <-> In x l /\ x <> y.
Proof.
  unfold remove_nat. rewrite filter_In. rewrite negb_true_iff, Nat.eqb_neq.
  intuition congruence.
Qed.

Lemma WellFormed_core (st st' : State) :
  Spec.core st = Spec.core st' -> Spec.WellFormed st -> Spec.WellFormed st'.
Proof.
  unfold Spec.core. intros [= Hp Hc Ht Hs] [Ha Hd Hb Hk He Hh].
  constructor; unfold Spec.requestIdOf in *; rewrite <- ?Hp, <- ?Hc, <- ?Ht, <- ?Hs; auto.
Qed.

Lemma live_core (st st' : State) (x : nat) :
  Spec.core st = Spec.core st' -> Spec.live st x <-> Spec.live st' x.
Proof. unfold Spec.core, Spec.live. intros [= Hp Hc Ht Hs]. now rewrite Ht, Hs. Qed.

Lemma Good_quiet (st st' : State) (out : list Effect) :
  Spec.WellFormed st -> Spec.core st = Spec.core st' -> Spec.quiet out -> Spec.Good st st' out.
Proof.
  intros Hwf Hcore Hq. constructor.
  - now apply WellFormed_core with st.
  - unfold Spec.core in Hcore. injection Hcore as _ Hc _ _. now rewrite Hc.
  - unfold Spec.core in Hcore. injection Hcore as _ Hc _ _. now rewrite Hc.
  - intros x Hx. left. now apply (live_core st st' x Hcore).
  - intros x r Hin. now apply Hq in Hin.
Qed.

Lemma Good_trans (st1 st2 st3 : State) (out1 out2 : list Effect) :
  Spec.Good st1 st2 out1 -> Spec.Good st2 st3 out2 -> Spec.Good st1 st3 (out1 ++ out2).
Proof.
  intros [W1 M1 C1 L1 R1] [W2 M2 C2 L2 R2]. constructor.
  - exact W2.
  - lia.
  - intros x Hx. rewrite C2 by lia. now apply C1.
  - intros x Hx. destruct (L2 x Hx) as [H|H]; [now apply L1|right; lia].
  - intros x r Hin. apply in_app_or in Hin as [Hin|Hin].
    + destruct (R1 x r Hin) as (Ha & Hb & Hc). split; [exact Ha|]. split; [|lia].
      intros Hl. destruct (L2 x Hl) as [H|H]; [contradiction|lia].
    + destruct (R2 x r Hin) as (Ha & Hb & Hc). split; [|split; assumption].
      destruct Ha as [Ha|Ha]; [now apply L1|right; lia].
Qed.

Lemma Good_core_l (st0 st st' : State) (out : list Effect) :
  Spec.core st0 = Spec.core st -> Spec.Good st st' out -> Spec.Good st0 st' out.
Proof.
  intros Hcore [W M C L R].
  assert (Hc : calls st0 = calls st) by (unfold Spec.core in Hcore; congruence).
  constructor; rewrite ?Hc; auto.
  - intros x Hx. destruct (L x Hx) as [H|H]; [left|now right].
    now apply (live_core st0 st x Hcore).
  - intros x r Hin. destruct (R x r Hin) as ([Ha|Ha] & Hb & Hd); repeat split; auto.
    left. now apply (live_core st0 st x Hcore).
Qed.

Lemma Good_core_r (st st' st'' : State) (out : list Effect) :
  Spec.core st' = Spec.core st'' -> Spec.Good st st' out -> Spec.Good st st'' out.
Proof.
  intros Hcore [W M C L R].
  assert (Hc : calls st' = calls st'') by (unfold Spec.core in Hcore; congruence).
  constructor; rewrite <- ?Hc; auto.
  - now apply WellFormed_core with st'.
  - intros x Hx. apply L. now apply (live_core st' st'' x Hcore).
  - intros x r Hin. destruct (R x r Hin) as (Ha & Hb & Hd). repeat split; auto.
    intros Hl. apply Hb. now apply (live_core st' st'' x Hcore).
Qed.

Lemma Good_cons_quiet (st st' : State) (e : Effect) (out : list Effect) :
  (forall x r, e <> Resolve x r) -> Spec.Good st st' out -> Spec.Good st st' (e :: out).
Proof.
  intros He [W M C L R]. constructor; auto.
  intros x r [Hin|Hin]; [now apply He in Hin|now apply R with r].
Qed.

Lemma retire_core (st : State) (id : string) (call : nat) :
  Spec.core (Spec.retire st id call)
  = (Map_delete (pendingRequests st) id, calls st, remove_nat call (timers st), switching st).
Proof. reflexivity. Qed.

(** Retiring a live invocation under its own request id. *)
Lemma Good_retire (st : State) (id : string) (call : nat) (r : ToolResponse) :
  Spec.WellFormed st -> Spec.requestIdOf st call = Some id -> In call (timers st) ->
  Spec.Good st (Spec.retire st id call) [Resolve call r].
Proof.
  intros [Ha Hd Hb Hk He Hh] Hid Hlive.
  assert (Hcalls : calls (Spec.retire st id call) = calls st) by reflexivity.
  assert (Htimers : timers (Spec.retire st id call) = remove_nat call (timers st))
    by reflexivity.
  assert (Hsw : switching (Spec.retire st id call) = switching st) by reflexivity.
  assert (Hpend : pendingRequests (Spec.retire st id call) = Map_delete (pendingRequests st) id)
    by reflexivity.
  assert (Hreq : forall x, Spec.requestIdOf (Spec.retire st id call) x = Spec.requestIdOf st x)
    by reflexivity.
  constructor.
  - constructor; rewrite ?Hcalls, ?Htimers, ?Hsw, ?Hpend.
    + intros x Hx. apply In_remove_nat in Hx as [Hx _]. now apply Ha.
    + intros x Hx. destruct (Hd x Hx) as [Hlt Hnt]. split; [exact Hlt|].
      intros Hin. apply In_remove_nat in Hin as [Hin _]. contradiction.
    + intros id' call' Hin. rewrite Hreq.
      pose proof (Map_delete_incl _ _ _ Hin) as Hin'.
      destruct (Hb id' call' Hin') as [Ht Hr]. split; [|exact Hr].
      apply In_remove_nat. split; [exact Ht|]. intros ->.
      assert (id' = id) by congruence. subst id'.
      apply (in_map fst) in Hin. cbn [fst] in Hin.
      now apply Map_delete_not_key in Hin.
    + now apply Map_delete_NoDup.
    + intros c1 c2 H1 H2 H3. rewrite !Hreq in *.
      apply In_remove_nat in H1 as [H1 _]. now apply He.
    + intros x Hx. rewrite Hreq. apply In_remove_nat in Hx as [Hx _]. now apply Hh.
  - rewrite Hcalls. lia.
  - now rewrite Hcalls.
  - intros x [Hx|Hx].
    + left. left. rewrite Htimers in Hx. now apply In_remove_nat in Hx as [Hx _].
    + left. right. exact Hx.
  - intros x r' [[= <-]|[]]. split; [left; now left|]. split; [|rewrite Hcalls; now apply Ha].
    intros [Hx|Hx].
    + rewrite Htimers in Hx. apply In_remove_nat in Hx as [_ Hx]. congruence.
    + rewrite Hsw in Hx. destruct (Hd call Hx) as [_ Hnt]. contradiction.
Qed.

Lemma handleToolResult_Good (st : State) (id : string) (msg : json) :
  Spec.WellFormed st ->
  Spec.Good st (fst (handleToolResult rt st id msg)) (snd (handleToolResult rt st id msg)).
Proof.
  intros Hwf. unfold handleToolResult.
  destruct (Map_get (pendingRequests st) id) as [call|] eqn:E.
  - apply Map_get_In in E. destruct (Spec.wf_pending st Hwf id call E) as [Ht Hr].
    destruct (truthy _); cbn [entryResolve entryReject fst snd];
      (apply Good_core_r with (Spec.retire st id call); [reflexivity|]);
      now apply Good_retire.
  - apply Good_quiet; [exact Hwf|reflexivity|]. intros x r [].
Qed.

Lemma quiet_stderr (text : string) : Spec.quiet [StderrWrite text].
Proof. intros x r [H|[]]. discriminate H. Qed.

Lemma quiet_nil : Spec.quiet [].
Proof. intros x r []. Qed.

Lemma handleExtensionMessage_Good (st : State) (now : Z) (uuid : string) (message : json) :
  Spec.WellFormed st ->
  Spec.Good st (fst (handleExtensionMessage rt st now uuid message))
               (snd (handleExtensionMessage rt st now uuid message)).
Proof.
  intros Hwf. unfold handleExtensionMessage.
  assert (Hstay : Spec.Good st st []) by (apply Good_quiet; [exact Hwf|reflexivity|apply quiet_nil]).
  destruct message; try exact Hstay;
    (destruct (nonEmpty (asString (get "type" _))) as [type|]; [|exact Hstay]).
  all: destruct (String.eqb type "tool_result" && _); [now apply handleToolResult_Good|].
  all: destruct (String.eqb type "session_heartbeat");
    [destruct (nonEmpty _); apply Good_quiet; (exact Hwf || reflexivity || apply quiet_nil)|].
  all: destruct (String.eqb type "session_close");
    [destruct (nonEmpty _); apply Good_quiet;
       (exact Hwf || reflexivity || apply quiet_nil || apply quiet_stderr)|].
  all: destruct (String.eqb type "session_recovery");
    [destruct (nonEmpty _) as [agent|];
       [destruct (AgentSession.createSession (agents st) now uuid agent None)|];
       apply Good_quiet;
       (exact Hwf || reflexivity || apply quiet_nil || apply quiet_stderr)|].
  all: destruct (String.eqb type "session_init");
    [destruct (nonEmpty _); [destruct (negb _)|]; apply Good_quiet;
       (exact Hwf || reflexivity || apply quiet_nil || apply quiet_stderr)|].
  all: destruct (String.eqb type "browser_event"); [|exact Hstay].
  all: apply Good_quiet; [exact Hwf|reflexivity|].
  all: intros x r [H|H]; [discriminate H|].
  all: apply in_map_iff in H as [n [H _]]; discriminate H.
Qed.

(** A line is reported as unreadable or handed to
    [handleExtensionMessage]. *)
Lemma handleLine_cases (st : State) (now : Z) (uuid l : string) :
  handleLine rt st now uuid l = (st, [StderrWrite "[viyv-browser:mcp] Parse error"]) \/
  exists message,
    handleLine rt st now uuid l = handleExtensionMessage rt st now uuid message.
Proof.
  unfold handleLine.
  destruct (JSON_parse rt l) as [parsed|]; [|now left].
  destruct parsed; [now left|..].
  all: destruct (asString (get "type" _)) as [t|]; [|eauto].
  all: destruct (asString (get "data" _)) as [data|]; [|eauto].
  all: destruct (String.eqb t "compressed"); [|eauto].
  all: destruct (Compression.decompressPayload rt data true) as [text|]; [|now left].
  all: destruct (JSON_parse rt text); [eauto|now left].
Qed.

Lemma handleLine_Good (st : State) (now : Z) (uuid l : string) :
  Spec.WellFormed st ->
  Spec.Good st (fst (handleLine rt st now uuid l)) (snd (handleLine rt st now uuid l)).
Proof.
  intros Hwf.
  destruct (handleLine_cases st now uuid l) as [-> | [message ->]].
  - apply Good_quiet; [exact Hwf|reflexivity|apply quiet_stderr].
  - now apply handleExtensionMessage_Good.
Qed.

Lemma handleLines_Good (lines : list string) (st : State) (now : Z)
    (uuids : nat -> string) (i : nat) :
  Spec.WellFormed st ->
  Spec.Good st (fst (handleLines rt st now uuids i lines))
               (snd (handleLines rt st now uuids i lines)).
Proof.
  revert st i. induction lines as [|l lines IH]; intros st i Hwf; cbn [handleLines].
  - apply Good_quiet; [exact Hwf|reflexivity|apply quiet_nil].
  - destruct (String.eqb l EmptyString); [now apply IH|].
    pose proof (handleLine_Good st now (uuids i) l Hwf) as H1.
    destruct (handleLine rt st now (uuids i) l) as [st1 out1]. cbn [fst snd] in H1.
    pose proof (IH st1 (S i) (Spec.g_wf _ _ _ H1)) as H2.
    destruct (handleLines rt st1 now uuids (S i) lines) as [st2 out2]. cbn [fst snd] in *.
    now apply Good_trans with st1.
Qed.

Lemma onSocketData_Good (st : State) (s : nat) (now : Z) (uuids : nat -> string)
    (data : string) :
  Spec.WellFormed st ->
  Spec.Good st (fst (onSocketData rt st s now uuids data))
               (snd (onSocketData rt st s now uuids data)).
Proof.
  intros Hwf. unfold onSocketData.
  destruct (isDestroyed st s).
  - apply Good_quiet; [exact Hwf|reflexivity|apply quiet_nil].
  - match goal with
    | |- context [handleLines rt ?st1 now uuids 0 ?ls] =>
        apply (Good_core_l st st1); [reflexivity|]; apply handleLines_Good;
        apply (WellFormed_core st st1); [reflexivity|exact Hwf]
    end.
Qed.

Lemma rejectAll_Good (entries : list (string * nat)) (st : State) :
  pendingRequests st = entries -> Spec.WellFormed st ->
  Spec.Good st (fst (rejectAll rt st entries)) (snd (rejectAll rt st entries)).
Proof.
  revert st. induction entries as [|[id call] entries IH]; intros st Hp Hwf.
  - apply Good_quiet; [exact Hwf|reflexivity|apply quiet_nil].
  - cbn [rejectAll entryResolve].
    set (st3 := removeErrorListener
                  (set_pending (clearTimeout st call)
                               (Map_delete (pendingRequests (clearTimeout st call)) id)) call).
    assert (Hin : In (id, call) (pendingRequests st)) by (rewrite Hp; now left).
    destruct (Spec.wf_pending st Hwf id call Hin) as [Ht Hr].
    assert (H1 : Spec.Good st st3
                   [Resolve call
                      (textContent rt
                         (errorObject "EXTENSION_NOT_CONNECTED"
                            "Extension disconnected while request was pending"))]).
    { apply Good_core_r with (Spec.retire st id call); [reflexivity|].
      now apply Good_retire. }
    assert (H3 : pendingRequests st3 = entries).
    { unfold st3. cbn [removeErrorListener set_errorListeners set_pending clearTimeout
                         set_timers pendingRequests].
      rewrite Hp. apply Map_delete_head. }
    pose proof (IH st3 H3 (Spec.g_wf _ _ _ H1)) as H2.
    destruct (rejectAll rt st3 entries) as [st4 out']. cbn [fst snd] in *.
    now apply (Good_trans st st3 st4 [_] out').
Qed.

Lemma onSocketClose_Good (st : State) (s : nat) (now : Z) :
  Spec.WellFormed st ->
  Spec.Good st (fst (onSocketClose rt st s now)) (snd (onSocketClose rt st s now)).
Proof.
  intros Hwf. unfold onSocketClose.
  match goal with
  | |- context [rejectAll rt ?st1 (pendingRequests ?st1)] =>
      assert (Hcore : Spec.core st = Spec.core st1)
        by (destruct (extensionSocket (set_destroyed st (s :: destroyed st))) as [cur|];
            [destruct (Nat.eqb cur s)|]; reflexivity);
      pose proof (rejectAll_Good (pendingRequests st1) st1 eq_refl
                    (WellFormed_core st st1 Hcore Hwf)) as H;
      destruct (rejectAll rt st1 (pendingRequests st1)) as [st2 out]
  end.
  cbn [fst snd] in *. apply Good_cons_quiet; [discriminate|].
  now apply Good_core_l with (2 := H).
Qed.

Lemma onError_Good (st : State) (call : nat) :
  Spec.WellFormed st ->
  Spec.Good st (fst (onError rt st call)) (snd (onError rt st call)).
Proof.
  intros Hwf. unfold onError.
  assert (Hstay : Spec.Good st st [])
    by (apply Good_quiet; [exact Hwf|reflexivity|apply quiet_nil]).
  destruct (calls st !! call) as [c|] eqn:Ec; [|exact Hstay].
  destruct (Map_get (pendingRequests st) (requestId c)) as [p|] eqn:Ep; [|exact Hstay].
  apply Map_get_In in Ep. destruct (Spec.wf_pending st Hwf _ _ Ep) as [Ht Hr].
  assert (Hcall : Spec.requestIdOf st call = Some (requestId c))
    by (unfold Spec.requestIdOf; now rewrite Ec).
  assert (p = call).
  { apply (Spec.wf_unique st Hwf); [exact Ht|rewrite Hcall; eauto|congruence]. }
  subst p. cbn [fst snd].
  apply Good_core_r with (Spec.retire st (requestId c) call); [reflexivity|].
  now apply Good_retire.
Qed.

Lemma emitError_Good (listeners : list nat) (st : State) :
  Spec.WellFormed st ->
  Spec.Good st (fst (emitError rt st listeners)) (snd (emitError rt st listeners)).
Proof.
  revert st. induction listeners as [|call listeners IH]; intros st Hwf; cbn [emitError].
  - apply Good_quiet; [exact Hwf|reflexivity|apply quiet_nil].
  - pose proof (onError_Good st call Hwf) as H1.
    destruct (onError rt st call) as [st1 out1]. cbn [fst snd] in H1.
    pose proof (IH st1 (Spec.g_wf _ _ _ H1)) as H2.
    destruct (emitError rt st1 listeners) as [st2 out2]. cbn [fst snd] in *.
    now apply Good_trans with st1.
Qed.

Lemma onSocketError_Good (st : State) (s : nat) (message : string) :
  Spec.WellFormed st ->
  Spec.Good st (fst (onSocketError rt st s message)) (snd (onSocketError rt st s message)).
Proof.
  intros Hwf. unfold onSocketError.
  match goal with
  | |- context [emitError rt ?st1 ?fired] =>
      pose proof (emitError_Good fired st1
                    (WellFormed_core st st1 eq_refl Hwf)) as H;
      destruct (emitError rt st1 fired) as [st2 out]
  end.
  cbn [fst snd] in *. apply Good_cons_quiet; [discriminate|].
  now apply Good_core_l with (2 := H).
Qed.

Lemma onTimer_Good (st : State) (call : nat) :
  Spec.WellFormed st ->
  Spec.Good st (fst (onTimer rt st call)) (snd (onTimer rt st call)).
Proof.
  intros Hwf. unfold onTimer.
  assert (Hstay : Spec.Good st st [])
    by (apply Good_quiet; [exact Hwf|reflexivity|apply quiet_nil]).
  destruct (existsb (Nat.eqb call) (timers st)) eqn:Ein; [|exact Hstay].
  cbn [negb]. destruct (calls st !! call) as [c|] eqn:Ec; [|exact Hstay].
  apply existsb_exists in Ein as [x [Hx Heq]]. apply Nat.eqb_eq in Heq. subst x.
  cbn [fst snd].
  apply Good_core_r with (Spec.retire st (requestId c) call); [reflexivity|].
  apply Good_retire; [exact Hwf| |exact Hx].
  unfold Spec.requestIdOf. now rewrite Ec.
Qed.

Lemma onAccept_Good (st : State) (s : nat) (now : Z) (u1 u2 u3 : string) :
  Spec.WellFormed st ->
  Spec.Good st (fst (onAccept rt st s now u1 u2 u3)) (snd (onAccept rt st s now u1 u2 u3)).
Proof.
  intros Hwf.
  destruct (onAccept_core rt st s now u1 u2 u3) as (_ & _ & Hp & Ht & _ & Hc & Hs & _).
  destruct (onAccept_out rt st s now u1 u2 u3) as [agent Hout].
  apply Good_quiet; [exact Hwf| |].
  - unfold Spec.core. now rewrite Hp, Ht, Hc, Hs.
  - rewrite Hout. intros x r Hin.
    destruct (extensionSocket st) as [old|]; [destruct (negb (isDestroyed st old))|];
      cbn in Hin; intuition discriminate.
Qed.

Lemma lookup_snoc (l : list Call) (d : Call) (x : nat) :
  (l ++ [d]) !! x =
    if (x <? length l)%nat then l !! x
    else if (x =? length l)%nat then Some d else None.
Proof.
  destruct (Nat.ltb_spec x (length l)) as [Hlt|Hge].
  - now apply lookup_app_l.
  - destruct (Nat.eqb_spec x (length l)) as [->|Hne].
    + rewrite lookup_app_r by lia. now rewrite Nat.sub_diag.
    + apply lookup_ge_None. rewrite length_app. cbn [length]. lia.
Qed.

Lemma requestIdOf_old (st st' : State) (d : Call) (x : nat) :
  calls st' = calls st ++ [d] -> (x < length (calls st))%nat ->
  Spec.requestIdOf st' x = Spec.requestIdOf st x.
Proof.
  intros Hc Hx. unfold Spec.requestIdOf. rewrite Hc, lookup_snoc.
  now replace (x <? length (calls st))%nat with true by (symmetry; now apply Nat.ltb_lt).
Qed.

Lemma requestIdOf_new (st st' : State) (d : Call) (x : nat) :
  calls st' = calls st ++ [d] -> (length (calls st) <= x)%nat ->
  is_Some (Spec.requestIdOf st' x) ->
  x = length (calls st) /\ Spec.requestIdOf st' x = Some (requestId d).
Proof.
  intros Hc Hx. unfold Spec.requestIdOf. rewrite Hc, lookup_snoc.
  replace (x <? length (calls st))%nat with false by (symmetry; now apply Nat.ltb_ge).
  destruct (Nat.eqb_spec x (length (calls st))); cbn [option_map].
  - auto.
  - intros [? [=]].
Qed.

(** An invocation that is answered at once or only polls: it gets a
    number and, for [switch_browser], a place among the polling ones. *)
Lemma Good_dummy (st st' : State) (d : Call) (extra : list nat) (out : list Effect) :
  Spec.WellFormed st -> requestId d = EmptyString ->
  Spec.core st' = (pendingRequests st, calls st ++ [d], timers st, switching st ++ extra) ->
  (forall x, In x extra -> x = length (calls st)) ->
  (forall x r, In (Resolve x r) out -> x = length (calls st) /\ extra = []) ->
  Spec.Good st st' out.
Proof.
  intros [Ha Hd Hb Hk He Hh] Hempty Hcore Hextra Hout.
  unfold Spec.core in Hcore. injection Hcore as Hp Hc Ht Hs.
  assert (Hlen : length (calls st') = S (length (calls st)))
    by (rewrite Hc, length_app; cbn [length]; lia).
  constructor.
  - constructor; rewrite ?Hp, ?Ht, ?Hs, ?Hlen.
    + intros x Hx. specialize (Ha x Hx). lia.
    + intros x Hx. apply in_app_or in Hx as [Hx|Hx].
      * destruct (Hd x Hx). split; [lia|assumption].
      * apply Hextra in Hx. subst x. split; [lia|].
        intros Hin. specialize (Ha _ Hin). lia.
    + intros id call Hin. destruct (Hb id call Hin) as [Hin' Hr]. split; [exact Hin'|].
      rewrite (requestIdOf_old st st' d call Hc (Ha call Hin')). exact Hr.
    + exact Hk.
    + intros c1 c2 H1 H2 H3.
      rewrite (requestIdOf_old st st' d c1 Hc (Ha c1 H1)) in H3.
      destruct (Nat.ltb_spec c2 (length (calls st))) as [Hlt|Hge].
      * rewrite (requestIdOf_old st st' d c2 Hc Hlt) in H2, H3. now apply He.
      * destruct (requestIdOf_new st st' d c2 Hc Hge H2) as [_ Hr].
        rewrite Hr, Hempty in H3. now apply Hh in H3.
    + intros x Hx. rewrite (requestIdOf_old st st' d x Hc (Ha x Hx)). now apply Hh.
  - lia.
  - intros x Hx. rewrite Hc. now apply lookup_app_l.
  - intros x [Hx|Hx].
    + left. left. now rewrite <- Ht.
    + rewrite Hs in Hx. apply in_app_or in Hx as [Hx|Hx]; [left; now right|].
      right. apply Hextra in Hx. lia.
  - intros x r Hin. destruct (Hout x r Hin) as [-> ->]. split; [right; lia|].
    split; [|lia]. rewrite app_nil_r in Hs. intros [Hx|Hx].
    + rewrite Ht in Hx. specialize (Ha _ Hx). lia.
    + rewrite Hs in Hx. destruct (Hd _ Hx). lia.
Qed.

(** An invocation sent to the extension under a fresh request id. *)
Lemma Good_sent (st st' : State) (c : Call) (out : list Effect) :
  Spec.WellFormed st ->
  requestId c <> EmptyString ->
  (forall k, In k (calls st) -> requestId k <> requestId c) ->
  Spec.core st' = (Map_set (pendingRequests st) (requestId c) (length (calls st)),
                   calls st ++ [c], timers st ++ [length (calls st)], switching st) ->
  Spec.quiet out ->
  Spec.Good st st' out.
Proof.
  intros [Ha Hd Hb Hk He Hh] Hne Hfresh Hcore Hq.
  unfold Spec.core in Hcore. injection Hcore as Hp Hc Ht Hs.
  assert (Hlen : length (calls st') = S (length (calls st)))
    by (rewrite Hc, length_app; cbn [length]; lia).
  assert (Hnew : Spec.requestIdOf st' (length (calls st)) = Some (requestId c)).
  { unfold Spec.requestIdOf. rewrite Hc, lookup_snoc, Nat.ltb_irrefl, Nat.eqb_refl.
    reflexivity. }
  assert (Hold : forall x k, calls st !! x = Some k -> requestId k <> requestId c).
  { intros x k Hx. apply Hfresh. apply list_elem_of_In. now apply list_elem_of_lookup_2 in Hx. }
  assert (Hfresh' : forall x, (x < length (calls st))%nat ->
                      Spec.requestIdOf st x <> Some (requestId c)).
  { intros x Hx. unfold Spec.requestIdOf.
    destruct (calls st !! x) as [k|] eqn:Ek; cbn [option_map]; [|discriminate].
    intros [= E]. now apply (Hold x k Ek). }
  assert (Htimers : forall x, In x (timers st') ->
                      In x (timers st) \/ x = length (calls st)).
  { intros x Hx. rewrite Ht in Hx. apply in_app_or in Hx as [Hx|[<-|[]]]; auto. }
  constructor.
  - constructor; rewrite ?Hp, ?Hs, ?Hlen.
    + intros x Hx. destruct (Htimers x Hx) as [H| ->]; [specialize (Ha x H)|]; lia.
    + intros x Hx. destruct (Hd x Hx) as [Hlt Hnt]. split; [lia|].
      intros Hin. destruct (Htimers x Hin) as [H|H]; [contradiction|lia].
    + intros id call Hin. apply Map_set_In in Hin as [[-> ->]|Hin].
      * split; [rewrite Ht; apply in_or_app; right; now left|exact Hnew].
      * destruct (Hb id call Hin) as [Hin' Hr].
        split; [rewrite Ht; apply in_or_app; now left|].
        now rewrite (requestIdOf_old st st' c call Hc (Ha call Hin')).
    + now apply Map_set_NoDup.
    + intros c1 c2 H1 H2 H3.
      destruct (Htimers c1 H1) as [H1'| ->].
      * pose proof (Ha c1 H1') as Hlt1.
        rewrite (requestIdOf_old st st' c c1 Hc Hlt1) in H3.
        destruct (Nat.ltb_spec c2 (length (calls st))) as [Hlt|Hge].
        -- rewrite (requestIdOf_old st st' c c2 Hc Hlt) in H2, H3. now apply He.
        -- destruct (requestIdOf_new st st' c c2 Hc Hge H2) as [_ Hr].
           rewrite Hr in H3. now apply Hfresh' in H3.
      * destruct (Nat.ltb_spec c2 (length (calls st))) as [Hlt|Hge].
        -- rewrite Hnew, (requestIdOf_old st st' c c2 Hc Hlt) in H3.
           symmetry in H3. now apply Hfresh' in H3.
        -- now destruct (requestIdOf_new st st' c c2 Hc Hge H2) as [-> _].
    + intros x Hx. destruct (Htimers x Hx) as [H| ->].
      * rewrite (requestIdOf_old st st' c x Hc (Ha x H)). now apply Hh.
      * rewrite Hnew. congruence.
  - lia.
  - intros x Hx. rewrite Hc. now apply lookup_app_l.
  - intros x [Hx|Hx].
    + destruct (Htimers x Hx) as [H| ->]; [left; now left|right; lia].
    + left. right. now rewrite <- Hs.
  - intros x r Hin. now apply Hq in Hin.
Qed.

Lemma Good_switch_done (st : State) (call : nat) (r : ToolResponse) :
  Spec.WellFormed st -> In call (switching st) ->
  Spec.Good st (set_switching st (remove_nat call (switching st))) [Resolve call r].
Proof.
  intros [Ha Hd Hb Hk He Hh] Hin.
  constructor.
  - constructor; cbn [set_switching timers switching calls pendingRequests]; auto.
    intros x Hx. apply In_remove_nat in Hx as [Hx _]. now apply Hd.
  - cbn. lia.
  - reflexivity.
  - intros x [Hx|Hx]; left; [now left|right].
    cbn [set_switching switching] in Hx. now apply In_remove_nat in Hx as [Hx _].
  - intros x r' [[= <-]|[]]. split; [left; now right|].
    destruct (Hd call Hin) as [Hlt Hnt]. split; [|exact Hlt].
    intros [Hx|Hx]; [contradiction|].
    cbn [set_switching switching] in Hx. apply In_remove_nat in Hx as [_ Hx]. congruence.
Qed.

Lemma handleSwitchBrowser_Good (st : State) (now : Z) :
  Spec.WellFormed st ->
  Spec.Good st (fst (handleSwitchBrowser st now)) (snd (handleSwitchBrowser st now)).
Proof.
  intros Hwf. unfold handleSwitchBrowser.
  destruct (extensionSocket (set_calls st _)) as [cur|];
    [destruct (negb (isDestroyed (set_calls st _) cur))|];
    cbn [fst snd];
    (eapply (Good_dummy st _ (mkCall EmptyString "switch_browser" SWITCH_TIMEOUT 0)
               [length (calls st)]);
     [exact Hwf|reflexivity|reflexivity|intros x [<-|[]]; reflexivity|]);
    intros x r Hin; cbn in Hin; intuition discriminate.
Qed.

Lemma callExtensionTool_Good (st : State) (tool : string) (input : json) (now : Z)
    (uuid1 uuid2 : string) :
  Spec.WellFormed st ->
  Spec.freshEvent st (ToolCall tool input now uuid1 uuid2) ->
  Spec.Good st (fst (callExtensionTool rt st tool input now uuid1 uuid2))
               (snd (callExtensionTool rt st tool input now uuid1 uuid2)).
Proof.
  intros Hwf [Hne Hfresh]. unfold callExtensionTool.
  destruct (String.eqb tool "switch_browser"); [now apply handleSwitchBrowser_Good|].
  assert (Hrefused : forall (d : Call) (r : ToolResponse),
             requestId d = EmptyString ->
             Spec.Good st (set_calls st (calls st ++ [d])) [Resolve (length (calls st)) r]).
  { intros d r Hd. apply (Good_dummy st _ d []); [exact Hwf|exact Hd| |intros x []|].
    - unfold Spec.core. cbn. now rewrite app_nil_r.
    - intros x r' [[= <-]|[]]. auto. }
  destruct (extensionSocket st) as [s|]; [|now apply Hrefused].
  destruct (connected st now); [|now apply Hrefused].
  destruct (AgentSession.getDefaultAgentId (agents st) now uuid2) as [agent agents1].
  cbn [fst snd].
  eapply (Good_sent st _ (mkCall uuid1 tool (toolTimeoutOf tool input) s));
    [exact Hwf|exact Hne|exact Hfresh|reflexivity|].
  intros x r [H|[]]. discriminate H.
Qed.

(** Every handler keeps the engine well formed. *)
Lemma step_Good (st : State) (e : Event) :
  Spec.WellFormed st -> Spec.freshEvent st e ->
  Spec.Good st (fst (step rt st e)) (snd (step rt st e)).
Proof.
  intros Hwf Hfresh. destruct e; cbn [step].
  - now apply onAccept_Good.
  - now apply onSocketData_Good.
  - now apply onSocketClose_Good.
  - now apply onSocketError_Good.
  - apply Good_quiet; [exact Hwf|reflexivity|apply quiet_nil].
  - now apply onTimer_Good.
  - now apply callExtensionTool_Good.
  - unfold onSwitchPoll.
    destruct (existsb (Nat.eqb call) (switching st)) eqn:Ein; cbn [negb];
      [|apply Good_quiet; [exact Hwf|reflexivity|apply quiet_nil]].
    destruct (connected st now);
      [|apply Good_quiet; [exact Hwf|reflexivity|apply quiet_nil]].
    apply existsb_exists in Ein as [x [Hx Heq]]. apply Nat.eqb_eq in Heq. subst x.
    now apply Good_switch_done.
  - unfold onSwitchTimeout.
    destruct (existsb (Nat.eqb call) (switching st)) eqn:Ein; cbn [negb];
      [|apply Good_quiet; [exact Hwf|reflexivity|apply quiet_nil]].
    apply existsb_exists in Ein as [x [Hx Heq]]. apply Nat.eqb_eq in Heq. subst x.
    now apply Good_switch_done.
Qed.

Lemma resolutions_app (x : nat) (out1 out2 : list Effect) :
  resolutions x (out1 ++ out2) = resolutions x out1 ++ resolutions x out2.
Proof. unfold resolutions. apply flat_map_app. Qed.

Lemma resolutions_none (x : nat) (out : list Effect) :
  (forall r, ~ In (Resolve x r) out) -> resolutions x out = [].
Proof.
  induction out as [|e out IH]; intros H; [reflexivity|].
  unfold resolutions in *. cbn [flat_map].
  rewrite IH by (intros r Hin; apply (H r); now right).
  destruct e as [c r| | | |]; try reflexivity.
  destruct (Nat.eqb_spec c x) as [->|Hne]; [|reflexivity].
  exfalso. apply (H r). now left.
Qed.

Lemma run_app (trace1 trace2 : list Event) (st : State) :
  run rt st (trace1 ++ trace2) =
    (fst (run rt (fst (run rt st trace1)) trace2),
     snd (run rt st trace1) ++ snd (run rt (fst (run rt st trace1)) trace2)).
Proof.
  revert st. induction trace1 as [|e trace1 IH]; intros st; cbn [app run fst snd].
  - now destruct (run rt st trace2).
  - destruct (step rt st e) as [st1 out1]. rewrite IH.
    destruct (run rt st1 trace1) as [st2 out2]. cbn [fst snd].
    destruct (run rt st2 trace2) as [st3 out3]. cbn [fst snd]. now rewrite app_assoc.
Qed.

Lemma freshTrace_app (trace1 trace2 : list Event) (st : State) :
  Spec.freshTrace rt st (trace1 ++ trace2) ->
  Spec.freshTrace rt st trace1 /\ Spec.freshTrace rt (fst (run rt st trace1)) trace2.
Proof.
  revert st. induction trace1 as [|e trace1 IH]; intros st; cbn [app Spec.freshTrace run].
  - auto.
  - intros [He Ht]. destruct (IH _ Ht) as [H1 H2].
    destruct (step rt st e) as [st1 out1]. cbn [fst] in *.
    destruct (run rt st1 trace1) as [st2 out2]. cbn [fst] in *. auto.
Qed.

Lemma run_WellFormed (trace : list Event) (st : State) :
  Spec.WellFormed st -> Spec.freshTrace rt st trace ->
  Spec.WellFormed (fst (run rt st trace)).
Proof.
  revert st. induction trace as [|e trace IH]; intros st Hwf Hf; [exact Hwf|].
  cbn [run Spec.freshTrace] in *. destruct Hf as [He Ht].
  pose proof (step_Good st e Hwf He) as Hg.
  destruct (step rt st e) as [st1 out1]. cbn [fst snd] in *.
  specialize (IH st1 (Spec.g_wf _ _ _ Hg) Ht).
  now destruct (run rt st1 trace).
Qed.

(** An invocation that is no longer live is never resolved again. *)
Lemma run_dead (trace : list Event) (st : State) (x : nat) :
  Spec.WellFormed st -> Spec.freshTrace rt st trace ->
  (x < length (calls st))%nat -> ~ Spec.live st x ->
  ~ Spec.live (fst (run rt st trace)) x /\
  (x < length (calls (fst (run rt st trace))))%nat /\
  resolutions x (snd (run rt st trace)) = [].
Proof.
  revert st. induction trace as [|e trace IH]; intros st Hwf Hf Hlt Hdead; [auto|].
  cbn [run Spec.freshTrace] in *. destruct Hf as [He Ht].
  pose proof (step_Good st e Hwf He) as [W M C L R].
  destruct (step rt st e) as [st1 out1]. cbn [fst snd] in *.
  assert (Hdead1 : ~ Spec.live st1 x).
  { intros Hl. destruct (L x Hl); [contradiction|lia]. }
  destruct (IH st1 W Ht ltac:(lia) Hdead1) as (H1 & H2 & H3).
  destruct (run rt st1 trace) as [st2 out2]. cbn [fst snd] in *.
  split; [exact H1|]. split; [exact H2|].
  rewrite resolutions_app, H3, app_nil_r. apply resolutions_none.
  intros r Hin. destruct (R x r Hin) as ([Ha|Ha] & _); [contradiction|lia].
Qed.

(** An invocation that is live, or still to be made, has not been
    resolved. *)
Lemma run_unresolved (trace : list Event) (st : State) (x : nat) :
  Spec.WellFormed st -> Spec.freshTrace rt st trace ->
  Spec.live (fst (run rt st trace)) x
  \/ (length (calls (fst (run rt st trace))) <= x)%nat ->
  resolutions x (snd (run rt st trace)) = [].
Proof.
  revert st. induction trace as [|e trace IH]; intros st Hwf Hf Hx; [reflexivity|].
  cbn [run Spec.freshTrace] in *. destruct Hf as [He Ht].
  pose proof (step_Good st e Hwf He) as [W M C L R].
  destruct (step rt st e) as [st1 out1]. cbn [fst snd] in *.
  pose proof (IH st1 W Ht) as IH1. pose proof (run_dead trace st1 x W Ht) as Hd.
  destruct (run rt st1 trace) as [st2 out2]. cbn [fst snd] in *.
  rewrite resolutions_app, (IH1 Hx), app_nil_r. apply resolutions_none.
  intros r Hin. destruct (R x r Hin) as (_ & Hdead & Hlt).
  destruct (Hd Hlt Hdead) as (Hd1 & Hd2 & _). destruct Hx; [contradiction|lia].
Qed.

Lemma run_calls_stable (trace : list Event) (st : State) (x : nat) :
  Spec.WellFormed st -> Spec.freshTrace rt st trace ->
  (x < length (calls st))%nat ->
  calls (fst (run rt st trace)) !! x = calls st !! x.
Proof.
  revert st. induction trace as [|e trace IH]; intros st Hwf Hf Hlt; [reflexivity|].
  cbn [run Spec.freshTrace] in *. destruct Hf as [He Ht].
  pose proof (step_Good st e Hwf He) as [W M C L R].
  destruct (step rt st e) as [st1 out1]. cbn [fst snd] in *.
  specialize (IH st1 W Ht ltac:(lia)).
  destruct (run rt st1 trace) as [st2 out2]. cbn [fst] in *.
  rewrite IH. now apply C.
Qed.

(** The request id of an invocation that is no longer live is the key of
    no entry. *)
Lemma dead_no_entry (st : State) (id : string) (call : nat) :
  Spec.WellFormed st -> ~ Spec.live st call -> Spec.requestIdOf st call = Some id ->
  Map_get (pendingRequests st) id = None.
Proof.
  intros Hwf Hdead Hid.
  destruct (Map_get (pendingRequests st) id) as [p|] eqn:E; [|reflexivity].
  apply Map_get_In in E. destruct (Spec.wf_pending st Hwf id p E) as [Ht Hr].
  assert (p = call).
  { apply (Spec.wf_unique st Hwf); [exact Ht|rewrite Hid; eauto|congruence]. }
  subst p. exfalso. apply Hdead. now left.
Qed.

Lemma WellFormed_initial : Spec.WellFormed initial.
Proof.
  constructor; cbn; try tauto; try constructor.
Qed.

(** A [tool_result] whose id is in no entry of the table is dropped. *)
Lemma late_result_dropped (st : State) (now : Z) (uuid id : string) (message : json) :
  Spec.isToolResultFor id message ->
  Map_get (pendingRequests st) id = None ->
  handleExtensionMessage rt st now uuid message = (st, []).
Proof.
  intros [Htype Hid] Hnone. unfold handleExtensionMessage.
  destruct message as [| | | |items|fields]; try reflexivity.
  rewrite Htype, Hid. cbn [nonEmpty String.eqb Ascii.eqb Bool.eqb andb].
  destruct id as [|a id']; [reflexivity|].
  cbn [nonEmpty default].
  replace (bool_decide (is_Some (Some (String a id')))) with true
    by (symmetry; apply bool_decide_eq_true; eauto).
  unfold handleToolResult. cbv beta delta [Datatypes.id].
  now rewrite Hnone.
Qed.

(** *** The [onError] listener of a pending invocation stays registered *)

Lemma Wired_wiring (st st' : State) :
  Spec.wiring st = Spec.wiring st' -> Spec.Wired st -> Spec.Wired st'.
Proof.
  unfold Spec.wiring, Spec.Wired. intros [= Hp Hc Hl] H id call Hin.
  rewrite <- Hp in Hin. rewrite <- Hc, <- Hl. exact (H id call Hin).
Qed.

Lemma Wired_shrink (st st' : State) :
  Spec.Wired st -> calls st' = calls st ->
  (forall id call, In (id, call) (pendingRequests st') ->
     In (id, call) (pendingRequests st) /\
     forall s, In (s, call) (errorListeners st) -> In (s, call) (errorListeners st')) ->
  Spec.Wired st'.
Proof.
  intros H Hc Hsub id call Hin. destruct (Hsub id call Hin) as [Hin' Hl].
  destruct (H id call Hin') as (c & Hcall & Hlst). exists c. rewrite Hc. auto.
Qed.

Lemma Wired_grow (st st' : State) (d : Call) :
  Spec.Wired st -> pendingRequests st' = pendingRequests st ->
  errorListeners st' = errorListeners st -> calls st' = calls st ++ [d] ->
  Spec.Wired st'.
Proof.
  intros H Hp Hl Hc id call Hin. rewrite Hp in Hin.
  destruct (H id call Hin) as (c & Hcall & Hlst). exists c. rewrite Hc, Hl.
  split; [now apply lookup_app_l_Some|exact Hlst].
Qed.

(** The entries that stay when an invocation is retired are those of
    other invocations. *)
Lemma retire_other (st : State) (id id' : string) (call call' : nat) :
  Spec.WellFormed st -> Spec.requestIdOf st call = Some id ->
  In (id', call') (Map_delete (pendingRequests st) id) ->
  In (id', call') (pendingRequests st) /\ call' <> call.
Proof.
  intros Hwf Hid Hin. pose proof (Map_delete_incl _ _ _ Hin) as Hin'.
  split; [exact Hin'|]. intros ->.
  destruct (Spec.wf_pending st Hwf id' call Hin') as [_ Hr].
  assert (id' = id) by congruence. subst id'.
  apply (in_map fst) in Hin. cbn [fst] in Hin.
  apply Map_delete_not_key in Hin; [exact Hin|apply (Spec.wf_keys st Hwf)].
Qed.

Lemma Wired_retire (st : State) (id : string) (call : nat) :
  Spec.WellFormed st -> Spec.Wired st -> Spec.requestIdOf st call = Some id ->
  Spec.Wired (Spec.retire st id call) /\
  Spec.Wired (removeErrorListener (Spec.retire st id call) call).
Proof.
  intros Hwf Hw Hid. split; apply (Wired_shrink st); try exact Hw; try reflexivity.
  - intros id' call' Hin. destruct (retire_other st id id' call call' Hwf Hid Hin) as [H _].
    split; [exact H|auto].
  - intros id' call' Hin.
    destruct (retire_other st id id' call call' Hwf Hid Hin) as [H Hne].
    split; [exact H|]. intros s Hs.
    cbn [removeErrorListener set_errorListeners errorListeners Spec.retire set_pending
         clearTimeout set_timers].
    apply filter_In. split; [exact Hs|]. cbn [snd].
    apply negb_true_iff. now apply Nat.eqb_neq.
Qed.

Lemma handleToolResult_Wired (st : State) (id : string) (msg : json) :
  Spec.WellFormed st -> Spec.Wired st -> Spec.Wired (fst (handleToolResult rt st id msg)).
Proof.
  intros Hwf Hw. unfold handleToolResult.
  destruct (Map_get (pendingRequests st) id) as [call|] eqn:E; [|exact Hw].
  apply Map_get_In in E. destruct (Spec.wf_pending st Hwf id call E) as [_ Hr].
  destruct (truthy _); cbn [entryResolve entryReject fst];
    now apply (Wired_retire st id call).
Qed.

(** A record is a [tool_result], or its handler leaves the table, the
    invocations and the listeners alone. *)
Lemma handleExtensionMessage_cases (st : State) (now : Z) (uuid : string) (message : json) :
  (exists id, handleExtensionMessage rt st now uuid message
              = handleToolResult rt st id message) \/
  Spec.wiring (fst (handleExtensionMessage rt st now uuid message)) = Spec.wiring st.
Proof.
  unfold handleExtensionMessage.
  destruct message; try (right; reflexivity);
    (destruct (nonEmpty (asString (get "type" _))) as [type|]; [|right; reflexivity]).
  all: destruct (String.eqb type "tool_result" && _); [left; eauto|right].
  all: destruct (String.eqb type "session_heartbeat");
    [destruct (nonEmpty _); reflexivity|].
  all: destruct (String.eqb type "session_close");
    [destruct (nonEmpty _); reflexivity|].
  all: destruct (String.eqb type "session_recovery");
    [destruct (nonEmpty _) as [agent|];
       [destruct (AgentSession.createSession (agents st) now uuid agent None)|];
       reflexivity|].
  all: destruct (String.eqb type "session_init");
    [destruct (nonEmpty _); [destruct (negb _)|]; reflexivity|].
  all: destruct (String.eqb type "browser_event"); reflexivity.
Qed.

Lemma handleLine_Wired (st : State) (now : Z) (uuid l : string) :
  Spec.WellFormed st -> Spec.Wired st -> Spec.Wired (fst (handleLine rt st now uuid l)).
Proof.
  intros Hwf Hw. destruct (handleLine_cases st now uuid l) as [-> | [message ->]];
    [exact Hw|].
  destruct (handleExtensionMessage_cases st now uuid message) as [[id ->] | Hsame].
  - now apply handleToolResult_Wired.
  - now apply (Wired_wiring st).
Qed.

Lemma handleLines_Wired (lines : list string) (st : State) (now : Z)
    (uuids : nat -> string) (i : nat) :
  Spec.WellFormed st -> Spec.Wired st ->
  Spec.Wired (fst (handleLines rt st now uuids i lines)).
Proof.
  revert st i. induction lines as [|l lines IH]; intros st i Hwf Hw; cbn [handleLines].
  - exact Hw.
  - destruct (String.eqb l EmptyString); [now apply IH|].
    pose proof (handleLine_Good st now (uuids i) l Hwf) as H1.
    pose proof (handleLine_Wired st now (uuids i) l Hwf Hw) as H2.
    destruct (handleLine rt st now (uuids i) l) as [st1 out1]. cbn [fst snd] in H1, H2.
    pose proof (IH st1 (S i) (Spec.g_wf _ _ _ H1) H2) as H3.
    now destruct (handleLines rt st1 now uuids (S i) lines).
Qed.

Lemma onError_Wired (st : State) (call : nat) :
  Spec.WellFormed st -> Spec.Wired st -> Spec.Wired (fst (onError rt st call)).
Proof.
  intros Hwf Hw. unfold onError.
  destruct (calls st !! call) as [c|] eqn:Ec; [|exact Hw].
  destruct (Map_get (pendingRequests st) (requestId c)) as [p|] eqn:Ep; [|exact Hw].
  apply Map_get_In in Ep. destruct (Spec.wf_pending st Hwf _ _ Ep) as [_ Hr].
  cbn [fst]. now apply (Wired_retire st (requestId c) p).
Qed.

(** What a round of [onError] listeners leaves in the table: entries that
    were there, of invocations whose listener did not run. *)
Lemma emitError_left (listeners : list nat) (st : State) :
  Spec.WellFormed st ->
  calls (fst (emitError rt st listeners)) = calls st /\
  errorListeners (fst (emitError rt st listeners)) = errorListeners st /\
  forall id call, In (id, call) (pendingRequests (fst (emitError rt st listeners))) ->
    In (id, call) (pendingRequests st) /\ ~ In call listeners.
Proof.
  revert st. induction listeners as [|call0 listeners IH]; intros st Hwf; cbn [emitError].
  - cbn [fst]. auto.
  - pose proof (onError_Good st call0 Hwf) as HG.
    assert (H1 : calls (fst (onError rt st call0)) = calls st /\
                 errorListeners (fst (onError rt st call0)) = errorListeners st /\
                 forall id call, In (id, call) (pendingRequests (fst (onError rt st call0))) ->
                   In (id, call) (pendingRequests st) /\ call <> call0).
    { unfold onError.
      destruct (calls st !! call0) as [c|] eqn:Ec.
      - destruct (Map_get (pendingRequests st) (requestId c)) as [p|] eqn:Ep.
        + cbn [fst]. repeat split; try reflexivity.
          * now apply Map_delete_incl in H.
          * apply Map_get_In in Ep. destruct (Spec.wf_pending st Hwf _ _ Ep) as [Ht Hr].
            assert (Hcall : Spec.requestIdOf st call0 = Some (requestId c))
              by (unfold Spec.requestIdOf; now rewrite Ec).
            assert (p = call0).
            { apply (Spec.wf_unique st Hwf); [exact Ht|rewrite Hcall; eauto|congruence]. }
            subst p.
            now destruct (retire_other st (requestId c) id call0 call Hwf Hr H).
        + cbn [fst]. repeat split; try assumption. intros ->.
          destruct (Spec.wf_pending st Hwf _ _ H) as [_ Hr].
          unfold Spec.requestIdOf in Hr. rewrite Ec in Hr. injection Hr as <-.
          apply (in_map fst) in H. cbn [fst] in H.
          apply Map_get_not_None in H. congruence.
      - cbn [fst]. repeat split; try assumption. intros ->.
        destruct (Spec.wf_pending st Hwf _ _ H) as [_ Hr].
        unfold Spec.requestIdOf in Hr. rewrite Ec in Hr. discriminate Hr. }
    destruct (onError rt st call0) as [st1 out1]. cbn [fst snd] in HG, H1.
    destruct H1 as (Hc1 & Hl1 & Hp1).
    destruct (IH st1 (Spec.g_wf _ _ _ HG)) as (Hc2 & Hl2 & Hp2).
    destruct (emitError rt st1 listeners) as [st2 out2]. cbn [fst] in *.
    split; [congruence|]. split; [congruence|].
    intros id call Hin. destruct (Hp2 id call Hin) as [Hin1 Hnot].
    destruct (Hp1 id call Hin1) as [Hin0 Hne]. split; [exact Hin0|].
    intros [->|Hl]; [congruence|contradiction].
Qed.

Lemma onSocketError_Wired (st : State) (s : nat) (message : string) :
  Spec.WellFormed st -> Spec.Wired st ->
  Spec.Wired (fst (onSocketError rt st s message)).
Proof.
  intros Hwf Hw. unfold onSocketError.
  match goal with
  | |- context [emitError rt ?st1 ?fired] =>
      pose proof (emitError_left fired st1 (WellFormed_core st st1 eq_refl Hwf))
        as (Hc & Hl & Hp);
      destruct (emitError rt st1 fired) as [st2 out]
  end.
  cbn [fst] in *. intros id call Hin.
  destruct (Hp id call Hin) as [Hin0 Hnot]. cbn in Hin0.
  destruct (Hw id call Hin0) as (c & Hcall & Hlst).
  exists c. rewrite Hc, Hl. split; [exact Hcall|].
  cbn [set_errorListeners errorListeners]. apply filter_In. split; [exact Hlst|].
  cbn [fst]. apply negb_true_iff, Nat.eqb_neq. intros Heq. apply Hnot.
  apply in_map_iff. exists (sock c, call). split; [reflexivity|].
  apply filter_In. split; [exact Hlst|]. cbn [fst]. now apply Nat.eqb_eq.
Qed.

Lemma callExtensionTool_Wired (st : State) (tool : string) (input : json) (now : Z)
    (uuid1 uuid2 : string) :
  Spec.Wired st -> Spec.Wired (fst (callExtensionTool rt st tool input now uuid1 uuid2)).
Proof.
  intros Hw. unfold callExtensionTool.
  destruct (String.eqb tool "switch_browser").
  { unfold handleSwitchBrowser.
    destruct (extensionSocket (set_calls st _)) as [cur|];
      [destruct (negb (isDestroyed (set_calls st _) cur))|];
      cbn [fst]; now apply (Wired_grow st _ (mkCall EmptyString "switch_browser"
                                                SWITCH_TIMEOUT 0)). }
  destruct (extensionSocket st) as [s|];
    [|cbn [fst]; now apply (Wired_grow st _ (mkCall EmptyString tool 0 0))].
  destruct (connected st now);
    [|cbn [fst]; now apply (Wired_grow st _ (mkCall EmptyString tool 0 s))].
  destruct (AgentSession.getDefaultAgentId (agents st) now uuid2) as [agent agents1].
  cbn [fst]. intros id call Hin. cbn in Hin.
  cbn [set_errorListeners set_pending set_timers set_calls set_agents calls errorListeners].
  apply Map_set_In in Hin as [[-> ->]|Hin].
  - eexists. split.
    + rewrite lookup_snoc, Nat.ltb_irrefl, Nat.eqb_refl. reflexivity.
    + apply in_or_app. right. now left.
  - destruct (Hw id call Hin) as (c & Hcall & Hlst). exists c.
    split; [now apply lookup_app_l_Some|apply in_or_app; now left].
Qed.

Lemma step_Wired (st : State) (e : Event) :
  Spec.WellFormed st -> Spec.Wired st -> Spec.Wired (fst (step rt st e)).
Proof.
  intros Hwf Hw. destruct e; cbn [step].
  - destruct (onAccept_core rt st sock0 now uuid1 uuid2 uuid3)
      as (_ & _ & Hp & _ & Hl & Hc & _).
    apply (Wired_wiring st); [|exact Hw]. unfold Spec.wiring. now rewrite Hp, Hl, Hc.
  - unfold onSocketData. destruct (isDestroyed st sock0); [exact Hw|].
    match goal with
    | |- context [handleLines rt ?st1 now uuids 0 ?ls] =>
        apply handleLines_Wired;
        [apply (WellFormed_core st st1); [reflexivity|exact Hwf]
        |apply (Wired_wiring st st1); [reflexivity|exact Hw]]
    end.
  - unfold onSocketClose.
    match goal with
    | |- context [rejectAll rt ?st1 (pendingRequests ?st1)] =>
        destruct (rejectAll_all rt (pendingRequests st1) st1 eq_refl) as (Hnil & _);
        destruct (rejectAll rt st1 (pendingRequests st1)) as [st2 out]
    end.
    cbn [fst] in *. intros id call Hin. rewrite Hnil in Hin. destruct Hin.
  - now apply onSocketError_Wired.
  - exact Hw.
  - unfold onTimer.
    destruct (existsb (Nat.eqb call) (timers st)) eqn:Ein; [|exact Hw].
    cbn [negb]. destruct (calls st !! call) as [c|] eqn:Ec; [|exact Hw].
    cbn [fst]. apply (Wired_retire st (requestId c) call); [exact Hwf|exact Hw|].
    unfold Spec.requestIdOf. now rewrite Ec.
  - now apply callExtensionTool_Wired.
  - unfold onSwitchPoll. destruct (negb _); [exact Hw|].
    destruct (connected st now); exact Hw.
  - unfold onSwitchTimeout. destruct (negb _); exact Hw.
Qed.

Lemma run_Wired (trace : list Event) (st : State) :
  Spec.WellFormed st -> Spec.Wired st -> Spec.freshTrace rt st trace ->
  Spec.Wired (fst (run rt st trace)).
Proof.
  revert st. induction trace as [|e trace IH]; intros st Hwf Hw Hf; [exact Hw|].
  cbn [run Spec.freshTrace] in *. destruct Hf as [He Ht].
  pose proof (step_Good st e Hwf He) as Hg.
  pose proof (step_Wired st e Hwf Hw) as Hw1.
  destruct (step rt st e) as [st1 out1]. cbn [fst snd] in *.
  specialize (IH st1 (Spec.g_wf _ _ _ Hg) Hw1 Ht).
  now destruct (run rt st1 trace).
Qed.

(** *** What the three listeners answer a pending invocation with *)

Lemma In_resolutions (x : nat) (r : ToolResponse) (out : list Effect) :
  In r (resolutions x out) -> In (Resolve x r) out.
Proof.
  unfold resolutions. intros H. apply in_flat_map in H as [e [He Hr]].
  destruct e as [c r'| | | |]; try destruct Hr.
  destruct (Nat.eqb_spec c x) as [->|]; [|destruct Hr].
  destruct Hr as [->|[]]. exact He.
Qed.

Lemma pending_lookup (st : State) (id : string) (call : nat) :
  Spec.WellFormed st -> In (id, call) (pendingRequests st) ->
  Map_get (pendingRequests st) id = Some call.
Proof.
  intros Hwf Hin.
  destruct (Map_get (pendingRequests st) id) as [p|] eqn:E.
  - apply Map_get_In in E. f_equal.
    destruct (Spec.wf_pending st Hwf id p E) as [Ht Hr].
    destruct (Spec.wf_pending st Hwf id call Hin) as [_ Hr'].
    apply (Spec.wf_unique st Hwf); [exact Ht|rewrite Hr'; eauto|congruence].
  - apply (in_map fst) in Hin. cbn [fst] in Hin.
    apply Map_get_not_None in Hin. congruence.
Qed.

(** Where nothing is live, nothing is resolved. *)
Lemma dead_quiet (st st' : State) (out : list Effect) (x : nat) :
  Spec.Good st st' out -> (x < length (calls st))%nat -> ~ Spec.live st x ->
  resolutions x out = [].
Proof.
  intros [W M C L R] Hlt Hdead. apply resolutions_none. intros r Hin.
  destruct (R x r Hin) as ([Ha|Ha] & _); [contradiction|lia].
Qed.

Lemma rejectAll_resolves (entries : list (string * nat)) (st : State)
    (id : string) (call : nat) :
  pendingRequests st = entries -> Spec.WellFormed st -> In (id, call) entries ->
  resolutions call (snd (rejectAll rt st entries))
  = [Spec.errorResponse rt "EXTENSION_NOT_CONNECTED"
       "Extension disconnected while request was pending"].
Proof.
  revert st. induction entries as [|[id0 call0] entries IH]; intros st Hp Hwf Hin;
    [destruct Hin|].
  cbn [rejectAll entryResolve].
  set (st3 := removeErrorListener
                (set_pending (clearTimeout st call0)
                             (Map_delete (pendingRequests (clearTimeout st call0)) id0)) call0).
  assert (Hin0 : In (id0, call0) (pendingRequests st)) by (rewrite Hp; now left).
  destruct (Spec.wf_pending st Hwf id0 call0 Hin0) as [Ht0 Hr0].
  assert (H1 : Spec.Good st st3
                 [Resolve call0
                    (textContent rt
                       (errorObject "EXTENSION_NOT_CONNECTED"
                          "Extension disconnected while request was pending"))]).
  { apply Good_core_r with (Spec.retire st id0 call0); [reflexivity|].
    now apply Good_retire. }
  assert (H3 : pendingRequests st3 = entries).
  { unfold st3. cbn [removeErrorListener set_errorListeners set_pending clearTimeout
                       set_timers pendingRequests].
    rewrite Hp. apply Map_delete_head. }
  pose proof (rejectAll_Good entries st3 H3 (Spec.g_wf _ _ _ H1)) as H2.
  pose proof (IH st3 H3 (Spec.g_wf _ _ _ H1)) as IH3.
  destruct (rejectAll rt st3 entries) as [st4 out']. cbn [fst snd] in *.
  rewrite resolutions_app. unfold resolutions at 1. cbn [flat_map app].
  destruct (Nat.eqb_spec call0 call) as [->|Hne].
  - destruct (Spec.g_resolved _ _ _ H1 call _ (or_introl eq_refl)) as (_ & Hdead & Hlt).
    now rewrite (dead_quiet st3 st4 out' call H2 Hlt Hdead).
  - destruct Hin as [[= _ E]|Hin]; [congruence|]. now apply IH3.
Qed.

Lemma emitError_resolves (listeners : list nat) (st : State) (id : string) (call : nat) :
  Spec.WellFormed st -> In (id, call) (pendingRequests st) -> In call listeners ->
  resolutions call (snd (emitError rt st listeners))
  = [Spec.errorResponse rt "EXTENSION_NOT_CONNECTED" "Socket write failed"].
Proof.
  revert st. induction listeners as [|call0 listeners IH]; intros st Hwf Hin Hl;
    [destruct Hl|].
  cbn [emitError].
  pose proof (onError_Good st call0 Hwf) as HG.
  pose proof (emitError_left [call0] st Hwf) as (_ & _ & Hleft). cbn [emitError] in Hleft.
  destruct (Nat.eq_dec call0 call) as [->|Hne].
  - destruct (Spec.wf_pending st Hwf id call Hin) as [Ht Hr].
    unfold Spec.requestIdOf in Hr.
    destruct (calls st !! call) as [c|] eqn:Ec; [|discriminate]. injection Hr as Hr.
    assert (Hstep : onError rt st call
                    = (Spec.retire st id call,
                       [Resolve call
                          (Spec.errorResponse rt "EXTENSION_NOT_CONNECTED"
                             "Socket write failed")])).
    { unfold onError. rewrite Ec, Hr, (pending_lookup st id call Hwf Hin). reflexivity. }
    rewrite Hstep in *. cbn [fst snd] in *.
    pose proof (emitError_Good listeners _ (Spec.g_wf _ _ _ HG)) as H2.
    destruct (Spec.g_resolved _ _ _ HG call _ (or_introl eq_refl)) as (_ & Hdead & Hlt).
    destruct (emitError rt (Spec.retire st id call) listeners) as [st2 out2].
    cbn [fst snd] in *. rewrite resolutions_app.
    rewrite (dead_quiet _ st2 out2 call H2 Hlt Hdead).
    unfold resolutions. cbn [flat_map app]. now rewrite Nat.eqb_refl.
  - destruct Hl as [->|Hl]; [congruence|].
    assert (Hq : resolutions call (snd (onError rt st call0)) = []).
    { unfold onError. destruct (calls st !! call0) as [c|]; [|reflexivity].
      destruct (Map_get _ _); [|reflexivity].
      unfold resolutions. cbn [snd flat_map app].
      now replace (call0 =? call)%nat with false by (symmetry; now apply Nat.eqb_neq). }
    assert (Hin1 : In (id, call) (pendingRequests (fst (onError rt st call0)))).
    { unfold onError. destruct (calls st !! call0) as [c|] eqn:Ec; [|exact Hin].
      destruct (Map_get (pendingRequests st) (requestId c)) as [p|] eqn:Ep; [|exact Hin].
      cbn [fst set_pending clearTimeout set_timers pendingRequests].
      apply Map_delete_In_ne; [|exact Hin]. intros <-.
      apply Map_get_In in Ep.
      destruct (Spec.wf_pending st Hwf _ _ Ep) as [Ht Hr].
      assert (Hcall : Spec.requestIdOf st call0 = Some (requestId c))
        by (unfold Spec.requestIdOf; now rewrite Ec).
      destruct (Spec.wf_pending st Hwf _ _ Hin) as [Ht' Hr'].
      apply Hne. symmetry.
      apply (Spec.wf_unique st Hwf); [exact Ht'|rewrite Hcall; eauto|congruence]. }
    destruct (onError rt st call0) as [st1 out1]. cbn [fst snd] in *.
    pose proof (IH st1 (Spec.g_wf _ _ _ HG) Hin1 Hl) as IH1.
    destruct (emitError rt st1 listeners) as [st2 out2]. cbn [fst snd] in *.
    now rewrite resolutions_app, Hq, IH1.
Qed.

(** An event that resolves a pending invocation settles it. *)
Lemma settles_intro (before : list Event) (e : Event) (id : string) (call : nat)
    (response : ToolResponse) :
  Spec.freshTrace rt initial before ->
  In (id, call) (pendingRequests (fst (run rt initial before))) ->
  Spec.freshEvent (fst (run rt initial before)) e ->
  resolutions call (snd (step rt (fst (run rt initial before)) e)) = [response] ->
  Spec.settles rt before e id call response.
Proof.
  intros Hf0 Hin He Hres. unfold Spec.settles.
  set (st := fst (run rt initial before)) in *.
  set (st1 := fst (step rt st e)).
  pose proof (run_WellFormed before initial WellFormed_initial Hf0) as Hwf. fold st in Hwf.
  destruct (Spec.wf_pending st Hwf id call Hin) as [Htimer Hreq].
  pose proof (step_Good st e Hwf He) as HG. fold st1 in HG.
  destruct HG as [W M C L R].
  assert (Hr : In (Resolve call response) (snd (step rt st e)))
    by (apply In_resolutions; rewrite Hres; now left).
  destruct (R call response Hr) as (_ & Hdead & Hlt).
  assert (Hlt0 : (call < length (calls st))%nat) by now apply (Spec.wf_timers st Hwf).
  assert (Hreq1 : Spec.requestIdOf st1 call = Some id)
    by (unfold Spec.requestIdOf; rewrite C by exact Hlt0; exact Hreq).
  split; [exact Hres|]. split; [now apply (dead_no_entry st1 id call)|].
  split; [intros Ht; apply Hdead; now left|].
  intros after Hafter. split.
  - rewrite run_app. cbn [snd]. fold st. rewrite resolutions_app.
    rewrite (run_unresolved before initial call WellFormed_initial Hf0)
      by (left; left; exact Htimer).
    cbn [app run]. fold st1 in Hafter.
    destruct (run_dead after st1 call W Hafter Hlt Hdead) as (_ & _ & Hnil).
    destruct (step rt st e) as [st1' out1]. cbn [fst snd] in *. subst st1.
    destruct (run rt st1' after) as [st2 out2]. cbn [fst snd] in *.
    now rewrite resolutions_app, Hnil, Hres.
  - intros now uuid message Hm. set (st2 := fst (run rt st1 after)).
    apply late_result_dropped with id; [exact Hm|].
    destruct (run_dead after st1 call W Hafter Hlt Hdead) as (Hdead2 & _ & _).
    apply (dead_no_entry st2 id call); [now apply run_WellFormed|exact Hdead2|].
    unfold Spec.requestIdOf, st2.
    rewrite (run_calls_stable after st1 call W Hafter Hlt). exact Hreq1.
Qed.

(** C7, as amended.  In every run of the server from its initial state
    (request ids being fresh UUIDs), for every tool call that is in the
    pending-request table at some point: its timer is armed, and the call
    is settled by whichever of these comes next.  The fire of its timer
    resolves it with the code [TIMEOUT] and the message [Tool '<tool>'
    timed out after <timeout>ms].  The close of a socket resolves it with
    [EXTENSION_NOT_CONNECTED], [Extension disconnected while request was
    pending].  An error on the socket the request was written to resolves
    it with [EXTENSION_NOT_CONNECTED], [Socket write failed].  In each
    case the entry has left the table and the timer is cleared when the
    handler returns, the call is resolved exactly once over the whole
    run, whatever happens before and after, with that response, and a
    [tool_result] with the id of the call that arrives at any later point
    finds no entry and changes neither the state nor anything the client
    sees.  So a call with no matching [tool_result] resolves with
    [TIMEOUT] only if no socket was closed and its own socket raised no
    error before the deadline. *)
Theorem C7_timeout_exactly_once (before : list Event) (id : string) (call : nat) :
  let st := fst (run rt initial before) in
  Spec.freshTrace rt initial before ->
  In (id, call) (pendingRequests st) ->
  exists c,
    calls st !! call = Some c /\ requestId c = id /\ In call (timers st) /\
    snd (step rt st (TimerFire call))
    = [Resolve call
         (mkResponse
            [mkItem "text"
               (JSON_stringify rt
                  (JObj [("error",
                          JObj [("code", JStr "TIMEOUT");
                                ("message",
                                 JStr ("Tool '" +:+ tool c +:+ "' timed out after "
                                       +:+ pretty (toolTimeout c) +:+ "ms"))])]))])] /\
    Spec.settles rt before (TimerFire call) id call
      (Spec.errorResponse rt "TIMEOUT"
         ("Tool '" +:+ tool c +:+ "' timed out after "
          +:+ pretty (toolTimeout c) +:+ "ms")) /\
    (forall (s : nat) (now : Z),
       Spec.settles rt before (SocketClose s now) id call
         (Spec.errorResponse rt "EXTENSION_NOT_CONNECTED"
            "Extension disconnected while request was pending")) /\
    (forall message : string,
       Spec.settles rt before (SocketError (sock c) message) id call
         (Spec.errorResponse rt "EXTENSION_NOT_CONNECTED" "Socket write failed")).
Proof.
  intros st Hf0 Hin.
  pose proof (run_WellFormed before initial WellFormed_initial Hf0) as Hwf. fold st in Hwf.
  pose proof (run_Wired before initial WellFormed_initial
                ltac:(intros ? ? []) Hf0) as Hw. fold st in Hw.
  destruct (Spec.wf_pending st Hwf id call Hin) as [Htimer Hreq].
  destruct (Hw id call Hin) as (c & Ec & Hlst).
  unfold Spec.requestIdOf in Hreq. rewrite Ec in Hreq. injection Hreq as Hreq.
  assert (Hstep : step rt st (TimerFire call)
                  = (removeErrorListener (Spec.retire st (requestId c) call) call,
                     [Resolve call
                        (Spec.errorResponse rt "TIMEOUT"
                           ("Tool '" +:+ tool c +:+ "' timed out after "
                            +:+ pretty (toolTimeout c) +:+ "ms"))])).
  { cbn [step]. unfold onTimer. rewrite Ec.
    replace (existsb (Nat.eqb call) (timers st)) with true; [reflexivity|].
    symmetry. apply existsb_exists. exists call. split; [exact Htimer|apply Nat.eqb_refl]. }
  exists c. split; [exact Ec|]. split; [exact Hreq|]. split; [exact Htimer|].
  split; [now rewrite Hstep|]. split; [|split].
  - apply settles_intro; try assumption; [exact I|]. fold st. rewrite Hstep.
    unfold resolutions. cbn [snd flat_map app]. now rewrite Nat.eqb_refl.
  - intros s now. apply settles_intro; try assumption; [exact I|]. fold st.
    cbn [step]. unfold onSocketClose.
    match goal with
    | |- context [rejectAll rt ?st1 (pendingRequests ?st1)] =>
        assert (Hcore : Spec.core st = Spec.core st1)
          by (destruct (extensionSocket (set_destroyed st (s :: destroyed st))) as [cur|];
              [destruct (Nat.eqb cur s)|]; reflexivity);
        assert (Hin1 : In (id, call) (pendingRequests st1))
          by (destruct (extensionSocket (set_destroyed st (s :: destroyed st))) as [cur|];
              [destruct (Nat.eqb cur s)|]; exact Hin);
        pose proof (rejectAll_resolves (pendingRequests st1) st1 id call eq_refl
                      (WellFormed_core st st1 Hcore Hwf) Hin1) as H;
        destruct (rejectAll rt st1 (pendingRequests st1)) as [st2 out]
    end.
    cbn [fst snd] in *. unfold resolutions at 1. cbn [flat_map app].
    fold (resolutions call out). exact H.
  - intros message. apply settles_intro; try assumption; [exact I|]. fold st.
    cbn [step]. unfold onSocketError.
    match goal with
    | |- context [emitError rt ?st1 ?fired] =>
        pose proof (emitError_resolves fired st1 id call
                      (WellFormed_core st st1 eq_refl Hwf) Hin) as H;
        destruct (emitError rt st1 fired) as [st2 out]
    end.
    cbn [fst snd] in *. unfold resolutions at 1. cbn [flat_map app].
    fold (resolutions call out). apply H.
    apply in_map_iff. exists (sock c, call). split; [reflexivity|].
    apply filter_In. split; [exact Hlst|]. apply Nat.eqb_refl.
Qed.

End EngineFacts.

Lemma C7_timeout_exactly_once_witness :
  exists c,
    Server.calls (fst (Server.run Spec.demoRuntime Server.initial Spec.beforeDeadline)) !! 0%nat
    = Some c /\
    Server.toolTimeout c = 5100 /\
    Server.resolutions 0
      (snd (Server.run Spec.demoRuntime Server.initial
              (Spec.beforeDeadline ++ Server.TimerFire 0 :: Spec.afterDeadline)))
    = [Spec.errorResponse Spec.demoRuntime "TIMEOUT"
         ("Tool '" +:+ Server.tool c +:+ "' timed out after "
          +:+ pretty (Server.toolTimeout c) +:+ "ms")] /\
    Server.resolutions 0
      (snd (Server.run Spec.demoRuntime Server.initial
              (Spec.beforeDeadline ++ Server.SocketClose 1 3000 :: [Server.TimerFire 0])))
    = [Spec.errorResponse Spec.demoRuntime "EXTENSION_NOT_CONNECTED"
         "Extension disconnected while request was pending"] /\
    Server.resolutions 0
      (snd (Server.run Spec.demoRuntime Server.initial
              (Spec.beforeDeadline
               ++ Server.SocketError (Server.sock c) "write EPIPE" :: [Server.TimerFire 0])))
    = [Spec.errorResponse Spec.demoRuntime "EXTENSION_NOT_CONNECTED" "Socket write failed"].
Proof.
  destruct (C7_timeout_exactly_once Spec.demoRuntime Spec.beforeDeadline "req-1" 0)
    as (c & Hc & _ & _ & _ & Htimeout & Hclose & Herror).
  - cbn. repeat split; try discriminate. intros c [].
  - left. reflexivity.
  - exists c. split; [exact Hc|]. split; [cbn in Hc; now injection Hc as <-|].
    split; [|split].
    + destruct Htimeout as (_ & _ & _ & Hafter).
      apply (Hafter Spec.afterDeadline). cbn. tauto.
    + destruct (Hclose 1%nat 3000) as (_ & _ & _ & Hafter).
      apply (Hafter [Server.TimerFire 0]). cbn. tauto.
    + destruct (Herror "write EPIPE"%string) as (_ & _ & _ & Hafter).
      apply (Hafter [Server.TimerFire 0]). cbn. tauto.
Defined.

(** C7 as stated fails.  The client invokes [wait_for], the request is in
    the table, and no [tool_result] ever arrives; but the socket is closed
    (or raises an error) before the deadline.  The call is resolved once,
    with [EXTENSION_NOT_CONNECTED], and the fire of the timer that follows
    resolves nothing: the call never resolves with [TIMEOUT]. *)
Lemma C7_counterexample :
  In ("req-1"%string, 0%nat)
     (Server.pendingRequests
        (fst (Server.run Spec.demoRuntime Server.initial Spec.beforeDeadline))) /\
  existsb Spec.isSocketData Spec.closedBeforeDeadline = false /\
  existsb Spec.isSocketData Spec.failedBeforeDeadline = false /\
  Server.resolutions 0
    (snd (Server.run Spec.demoRuntime Server.initial Spec.closedBeforeDeadline))
  = [Server.mkResponse
       [Server.mkItem "text"
          (JSON_stringify Spec.demoRuntime
             (JObj [("error",
                     JObj [("code", JStr "EXTENSION_NOT_CONNECTED");
                           ("message",
                            JStr "Extension disconnected while request was pending")])]))]] /\
  Server.resolutions 0
    (snd (Server.run Spec.demoRuntime Server.initial Spec.failedBeforeDeadline))
  = [Server.mkResponse
       [Server.mkItem "text"
          (JSON_stringify Spec.demoRuntime
             (JObj [("error",
                     JObj [("code", JStr "EXTENSION_NOT_CONNECTED");
                           ("message", JStr "Socket write failed")])]))]] /\
  ~ In (Spec.errorResponse Spec.demoRuntime "TIMEOUT" "Tool 'wait_for' timed out after 5100ms")
       (Server.resolutions 0
          (snd (Server.run Spec.demoRuntime Server.initial Spec.closedBeforeDeadline))
        ++ Server.resolutions 0
             (snd (Server.run Spec.demoRuntime Server.initial Spec.failedBeforeDeadline))).
Proof.
  split; [left; reflexivity|]. split; [reflexivity|]. split; [reflexivity|].
  split; [vm_compute; reflexivity|]. split; [vm_compute; reflexivity|].
  vm_compute. intros [H|[H|[]]]; discriminate H.
Qed.

(** Scenario S3: what the client receives. *)
Example wait_for_times_out :
  Server.resolutions 0
    (snd (Server.run Spec.demoRuntime Server.initial
            (Spec.beforeDeadline ++ Server.TimerFire 0 :: Spec.afterDeadline)))
  = [Spec.errorResponse Spec.demoRuntime "TIMEOUT" "Tool 'wait_for' timed out after 5100ms"].
Proof. vm_compute. reflexivity. Qed.
(** * Streams of frames *)

Section StreamFacts.

Import Transport.
Variable rt : Runtime.

Lemma loop_mono (f f' : nat) (r : Reader) (x : Reader * list Callback) :
  loop rt f r = Some x -> (f <= f')%nat -> loop rt f' r = Some x.
Proof.
  revert f' r x. induction f as [|f IH]; intros f' r x H Hle; [discriminate|].
  destruct f' as [|f']; [lia|]. cbn [loop] in *.
  destruct (iteration rt r) as [r' out|r' out]; [exact H|].
  destruct (loop rt f r') as [[r'' out']|] eqn:E; [|discriminate].
  rewrite (IH f' r' _ E) by lia. exact H.
Qed.

Lemma loop_unique (f f' : nat) (r : Reader) (x y : Reader * list Callback) :
  loop rt f r = Some x -> loop rt f' r = Some y -> x = y.
Proof.
  intros Hx Hy.
  pose proof (loop_mono f (Nat.max f f') r x Hx (Nat.le_max_l _ _)) as H1.
  pose proof (loop_mono f' (Nat.max f f') r y Hy (Nat.le_max_r _ _)) as H2.
  congruence.
Qed.

(** [onData] does what the loop does with any fuel that suffices. *)
Lemma onData_loop (f : nat) (r : Reader) (chunk : Buffer) (x : Reader * list Callback) :
  loop rt f {| buffer := buffer r ++ chunk; expectedLength := expectedLength r |} = Some x ->
  onData rt r chunk = Some x.
Proof.
  intros H. destruct (onData_total rt r chunk) as [y Hy]. rewrite Hy. f_equal.
  unfold onData in Hy. symmetry. exact (loop_unique _ _ _ _ _ H Hy).
Qed.

Lemma frameOf_length (b : Buffer) : length (Laws.frameOf b) = (4 + length b)%nat.
Proof. unfold Laws.frameOf. rewrite length_app. reflexivity. Qed.

Lemma fits_range (b : Buffer) : Laws.fits b -> 0 <= Buffer_length b < 2 ^ 32.
Proof.
  unfold Laws.fits, MAX_MESSAGE_SIZE, Buffer_length. intros H.
  change (2 ^ 32) with 4294967296. lia.
Qed.

(** A prefix of a frame that holds the header. *)
Lemma prefix_header (b p q : Buffer) :
  Laws.fits b -> p ++ q = Laws.frameOf b -> (4 <= length p)%nat ->
  readUInt32LE p = Buffer_length b /\ drop 4 p ++ q = b.
Proof.
  intros Hb Hp Hlen. unfold Laws.frameOf in Hp.
  assert (H4 : take 4 p = writeUInt32LE (Buffer_length b)).
  { transitivity (take 4 (p ++ q)).
    - now rewrite take_app_le by lia.
    - now rewrite Hp. }
  split.
  - rewrite <- (take_drop 4 p), H4.
    apply readUInt32LE_writeUInt32LE, fits_range, Hb.
  - transitivity (drop 4 (p ++ q)).
    + now rewrite drop_app_le by lia.
    + now rewrite Hp.
Qed.

Lemma progress_nil (n : Z) : Spec.progress n [] = createMessageReader.
Proof. reflexivity. Qed.

Lemma progress_head (n : Z) (p : Buffer) :
  (length p < 4)%nat -> Spec.progress n p = {| buffer := p; expectedLength := None |}.
Proof.
  intros H. unfold Spec.progress.
  replace (Buffer_length p <? 4) with true; [reflexivity|].
  symmetry. apply Z.ltb_lt. unfold Buffer_length. lia.
Qed.

Lemma progress_inside (b p : Buffer) :
  (4 <= length p < length (Laws.frameOf b))%nat ->
  Spec.progress (Buffer_length b) p
  = {| buffer := drop 4 p; expectedLength := Some (Buffer_length b) |}.
Proof.
  rewrite frameOf_length. intros H. unfold Spec.progress.
  replace (Buffer_length p <? 4) with false
    by (symmetry; apply Z.ltb_ge; unfold Buffer_length; lia).
  replace (Buffer_length p <? 4 + Buffer_length b) with true; [reflexivity|].
  symmetry. apply Z.ltb_lt. unfold Buffer_length. lia.
Qed.

Lemma readBody_short (s : Buffer) (n : Z) :
  Buffer_length s < n ->
  readBody rt s n = Break {| buffer := s; expectedLength := Some n |} [].
Proof.
  intros H. unfold readBody.
  replace (Buffer_length s <? n) with true; [reflexivity|].
  symmetry. now apply Z.ltb_lt.
Qed.

Lemma readBody_complete (b rest : Buffer) :
  readBody rt (b ++ rest) (Buffer_length b)
  = Continue {| buffer := rest; expectedLength := None |} [Laws.report rt b].
Proof.
  unfold readBody.
  replace (Buffer_length (b ++ rest) <? Buffer_length b) with false
    by (symmetry; apply Z.ltb_ge; unfold Buffer_length; rewrite length_app; lia).
  unfold subarray_to, subarray_from, Buffer_length. rewrite Nat2Z.id.
  rewrite take_app_length, drop_app_length. reflexivity.
Qed.

Lemma iteration_frame (b rest : Buffer) :
  Laws.fits b ->
  iteration rt {| buffer := Laws.frameOf b ++ rest; expectedLength := None |}
  = Continue {| buffer := rest; expectedLength := None |} [Laws.report rt b].
Proof.
  intros Hb. unfold iteration. cbn [buffer expectedLength].
  replace (Buffer_length (Laws.frameOf b ++ rest) <? 4) with false
    by (symmetry; apply Z.ltb_ge; unfold Buffer_length;
        rewrite length_app, frameOf_length; lia).
  unfold Laws.frameOf. rewrite <- app_assoc.
  rewrite readUInt32LE_writeUInt32LE by (apply fits_range, Hb).
  replace (MAX_MESSAGE_SIZE <? Buffer_length b) with false
    by (symmetry; apply Z.ltb_ge; exact Hb).
  change (subarray_from 4 (writeUInt32LE (Buffer_length b) ++ b ++ rest)) with (b ++ rest).
  apply readBody_complete.
Qed.

(** The loop over whole frames followed by the beginning of one more. *)
Lemma loop_stream (bs : list Buffer) (b' p' q : Buffer) :
  Forall Laws.fits bs -> Laws.fits b' ->
  p' ++ q = Laws.frameOf b' -> (length p' < length (Laws.frameOf b'))%nat ->
  loop rt (S (length bs)) {| buffer := Laws.stream bs ++ p'; expectedLength := None |}
  = Some (Spec.progress (Buffer_length b') p', map (Laws.report rt) bs).
Proof.
  intros Hbs Hb' Hq Hlen. induction Hbs as [|b bs Hb Hbs IH].
  - cbn [Laws.stream map concat app length]. apply loop_break.
    unfold iteration. cbn [buffer expectedLength].
    destruct (Nat.ltb_spec (length p') 4) as [H4|H4].
    + rewrite progress_head by exact H4.
      replace (Buffer_length p' <? 4) with true; [reflexivity|].
      symmetry. apply Z.ltb_lt. unfold Buffer_length. lia.
    + replace (Buffer_length p' <? 4) with false
        by (symmetry; apply Z.ltb_ge; unfold Buffer_length; lia).
      destruct (prefix_header b' p' q Hb' Hq H4) as [Hh Hd].
      rewrite Hh.
      replace (MAX_MESSAGE_SIZE <? Buffer_length b') with false
        by (symmetry; apply Z.ltb_ge; exact Hb').
      rewrite progress_inside by lia.
      apply readBody_short. unfold subarray_from, Buffer_length.
      change (Z.to_nat 4) with 4%nat. rewrite length_drop.
      rewrite frameOf_length in Hlen. lia.
  - change (Laws.stream (b :: bs)) with (Laws.frameOf b ++ Laws.stream bs).
    rewrite <- app_assoc. cbn [length map].
    change (loop rt (S (S (length bs))) ?r)
      with (match iteration rt r with
            | Break r' out => Some (r', out)
            | Continue r' out =>
                match loop rt (S (length bs)) r' with
                | Some (r'', out') => Some (r'', out ++ out')
                | None => None
                end
            end).
    rewrite (iteration_frame b _ Hb), IH. reflexivity.
Qed.

(** One chunk that stays inside the frame the reader is in. *)
Lemma onData_same (b p c q : Buffer) :
  Laws.fits b -> (p ++ c) ++ q = Laws.frameOf b ->
  (length (p ++ c) < length (Laws.frameOf b))%nat ->
  onData rt (Spec.progress (Buffer_length b) p) c
  = Some (Spec.progress (Buffer_length b) (p ++ c), []).
Proof.
  intros Hb Hq Hlen.
  destruct (Nat.ltb_spec (length p) 4) as [H4|H4].
  - rewrite (progress_head _ p H4). apply (onData_loop 1). cbn [buffer expectedLength].
    exact (loop_stream [] b (p ++ c) q (List.Forall_nil _) Hb Hq Hlen).
  - rewrite length_app in Hlen.
    rewrite (progress_inside b p) by lia.
    apply (onData_loop 1). cbn [buffer expectedLength]. apply loop_break.
    unfold iteration. cbn [buffer expectedLength].
    rewrite (progress_inside b (p ++ c)) by (rewrite length_app; lia).
    rewrite drop_app_le by lia.
    apply readBody_short. unfold Buffer_length.
    rewrite length_app, length_drop. rewrite frameOf_length in Hlen. lia.
Qed.

(** One chunk that completes the frame the reader is in, and perhaps
    more frames, and ends inside the next. *)
Lemma onData_next (b p c : Buffer) (t : list Buffer) (b' p' q : Buffer) :
  Laws.fits b -> Forall Laws.fits t -> Laws.fits b' ->
  (length p < length (Laws.frameOf b))%nat ->
  p ++ c = Laws.stream (b :: t) ++ p' ->
  p' ++ q = Laws.frameOf b' -> (length p' < length (Laws.frameOf b'))%nat ->
  onData rt (Spec.progress (Buffer_length b) p) c
  = Some (Spec.progress (Buffer_length b') p', map (Laws.report rt) (b :: t)).
Proof.
  intros Hb Ht Hb' Hp Hc Hq Hlen.
  destruct (Nat.ltb_spec (length p) 4) as [H4|H4].
  - rewrite (progress_head _ p H4). apply (onData_loop (S (length (b :: t)))).
    cbn [buffer expectedLength]. rewrite Hc.
    apply (loop_stream (b :: t) b' p' q); auto.
  - rewrite (progress_inside b p) by lia.
    apply (onData_loop (S (S (length t)))). cbn [buffer expectedLength].
    assert (Hd : drop 4 p ++ c = b ++ Laws.stream t ++ p').
    { transitivity (drop 4 (p ++ c)).
      - now rewrite drop_app_le by lia.
      - rewrite Hc. change (Laws.stream (b :: t)) with (Laws.frameOf b ++ Laws.stream t).
        unfold Laws.frameOf. rewrite <- !app_assoc. reflexivity. }
    rewrite Hd.
    change (loop rt (S (S (length t))) ?r)
      with (match iteration rt r with
            | Break r' out => Some (r', out)
            | Continue r' out =>
                match loop rt (S (length t)) r' with
                | Some (r'', out') => Some (r'', out ++ out')
                | None => None
                end
            end).
    unfold iteration. cbn [buffer expectedLength].
    rewrite readBody_complete.
    rewrite (loop_stream t b' p' q Ht Hb' Hq Hlen). reflexivity.
Qed.

(** Where a cut falls in a stream of frames. *)
Lemma stream_cut (bs : list Buffer) (s R : Buffer) :
  s ++ R = Laws.stream bs ->
  (s = Laws.stream bs /\ R = []) \/
  exists (bs1 : list Buffer) (b' : Buffer) (bs2 : list Buffer) (p' q : Buffer),
    bs = bs1 ++ b' :: bs2 /\ s = Laws.stream bs1 ++ p' /\
    p' ++ q = Laws.frameOf b' /\ (length p' < length (Laws.frameOf b'))%nat /\
    R = q ++ Laws.stream bs2.
Proof.
  revert s. induction bs as [|b bs IH]; intros s H.
  - left. cbn in H. now apply app_eq_nil in H.
  - change (Laws.stream (b :: bs)) with (Laws.frameOf b ++ Laws.stream bs) in *.
    apply List.app_eq_app in H as [l [[Hs HR]|[Hf HR]]].
    + (* the cut is at or after the end of the first frame *)
      symmetry in HR. destruct (IH l HR) as [[-> ->]|(bs1 & b' & bs2 & p' & q & E)].
      * left. now subst s.
      * right. destruct E as (-> & -> & Hq & Hlen & ->).
        exists (b :: bs1), b', bs2, p', q. subst s.
        change (Laws.stream (b :: bs1)) with (Laws.frameOf b ++ Laws.stream bs1).
        rewrite <- app_assoc. auto.
    + destruct l as [|x l].
      * rewrite app_nil_r in Hf. cbn [app] in HR. subst s R.
        destruct (IH [] eq_refl) as [[E _]|(bs1 & b' & bs2 & p' & q & E)].
        -- left. rewrite <- E, app_nil_r. auto.
        -- right. destruct E as (-> & E & Hq & Hlen & ->).
           exists (b :: bs1), b', bs2, p', q.
           change (Laws.stream (b :: bs1)) with (Laws.frameOf b ++ Laws.stream bs1).
           rewrite <- app_assoc, <- E, app_nil_r. auto.
      * right. exists [], b, bs, s, (x :: l). subst R.
        repeat split; auto.
        rewrite Hf, length_app. cbn. lia.
Qed.

Lemma feed_nothing (chunks : list Buffer) :
  concat chunks = [] -> feed rt createMessageReader chunks = Some (createMessageReader, []).
Proof.
  induction chunks as [|c chunks IH]; intros H; [reflexivity|].
  cbn [concat] in H. apply app_eq_nil in H as [-> H].
  cbn [feed]. rewrite (onData_loop 1 createMessageReader [] (createMessageReader, []) eq_refl).
  now rewrite (IH H).
Qed.

Lemma feed_stream (chunks : list Buffer) (b : Buffer) (bs : list Buffer) (p : Buffer) :
  Laws.fits b -> Forall Laws.fits bs ->
  (length p < length (Laws.frameOf b))%nat ->
  p ++ concat chunks = Laws.stream (b :: bs) ->
  feed rt (Spec.progress (Buffer_length b) p) chunks
  = Some (createMessageReader, map (Laws.report rt) (b :: bs)).
Proof.
  revert b bs p. induction chunks as [|c chunks IH]; intros b bs p Hb Hbs Hp H.
  - exfalso. cbn [concat] in H. rewrite app_nil_r in H. subst p.
    change (Laws.stream (b :: bs)) with (Laws.frameOf b ++ Laws.stream bs) in Hp.
    rewrite length_app in Hp. lia.
  - cbn [concat feed] in *. rewrite app_assoc in H.
    destruct (stream_cut (b :: bs) (p ++ c) (concat chunks) H)
      as [[Hs HR]|(bs1 & b' & bs2 & p' & q & Hl & Hs & Hq & Hlen & HR)].
    + rewrite (onData_next b p c bs b [] (Laws.frameOf b) Hb Hbs Hb Hp).
      * rewrite progress_nil, (feed_nothing chunks HR). now rewrite app_nil_r.
      * now rewrite app_nil_r.
      * reflexivity.
      * rewrite frameOf_length. cbn. lia.
    + assert (Hall : Forall Laws.fits (bs1 ++ b' :: bs2)) by (rewrite <- Hl; auto).
      apply Forall_app in Hall as [H1 H2]. inversion H2 as [|? ? Hb' Hbs2]; subst.
      assert (Hnext : p' ++ concat chunks = Laws.stream (b' :: bs2)).
      { rewrite HR, app_assoc, Hq. reflexivity. }
      destruct bs1 as [|b1 t].
      * cbn [app] in Hl. injection Hl as <- <-.
        cbn [Laws.stream map concat app] in Hs. subst p'.
        rewrite (onData_same b p c q Hb Hq Hlen).
        rewrite (IH b bs (p ++ c) Hb Hbs Hlen Hnext). reflexivity.
      * cbn [app] in Hl. injection Hl as <- ->.
        inversion H1; subst.
        rewrite (onData_next b p c t b' p' q); auto.
        rewrite (IH b' bs2 p' Hb' Hbs2 Hlen Hnext).
        rewrite <- map_app. reflexivity.
Qed.

Lemma feed_bodies (bodies : list Buffer) (chunks : list Buffer) :
  Forall Laws.fits bodies -> concat chunks = Laws.stream bodies ->
  feed rt createMessageReader chunks
  = Some (createMessageReader, map (Laws.report rt) bodies).
Proof.
  intros Hfit H. destruct bodies as [|b bs].
  - now apply feed_nothing.
  - inversion Hfit; subst.
    rewrite <- (progress_nil (Buffer_length b)).
    apply feed_stream; auto.
    rewrite frameOf_length. cbn. lia.
Qed.

End StreamFacts.
(** * Further properties of the framed transport *)

Section TransportLaws.

Import Transport.
Variable rt : Runtime.

Lemma encodeMessage_fits (v : json) :
  Laws.fits (Laws.bodyOf rt v) ->
  encodeMessage rt v = Ok (Laws.frameOf (Laws.bodyOf rt v)).
Proof.
  intros H. unfold encodeMessage. fold (Laws.bodyOf rt v).
  replace (MAX_MESSAGE_SIZE <? Buffer_length (Laws.bodyOf rt v)) with false; [reflexivity|].
  symmetry. apply Z.ltb_ge. exact H.
Qed.

(** X1.  Messages written one after the other with [encodeMessage] are
    delivered by the reader of [createMessageReader] in the order they
    were written, each exactly once, whatever the boundaries of the chunks
    in which the bytes arrive; the reader ends in its initial state. *)
Theorem framing_delivers_in_order (vs : list json) :
  Forall (Laws.readsBack rt) vs ->
  exists frames : list Buffer,
    Forall2 (fun v frame => encodeMessage rt v = Ok frame) vs frames /\
    forall chunks : list Buffer,
      concat chunks = concat frames ->
      feed rt createMessageReader chunks = Some (createMessageReader, map onMessage vs).
Proof.
  intros Hvs. exists (map (fun v => Laws.frameOf (Laws.bodyOf rt v)) vs). split.
  - induction Hvs as [|v vs [Hv _] _ IH]; constructor; [|exact IH].
    now apply encodeMessage_fits.
  - intros chunks Hc.
    rewrite (feed_bodies rt (map (Laws.bodyOf rt) vs) chunks).
    + f_equal. f_equal. rewrite map_map. apply map_ext_in.
      intros v Hin. rewrite List.Forall_forall in Hvs.
      destruct (Hvs v Hin) as [_ Hp]. unfold Laws.report. now rewrite Hp.
    + rewrite List.Forall_forall in *. intros b Hin.
      apply in_map_iff in Hin as [v [<- Hin]]. now destruct (Hvs v Hin).
    + rewrite Hc. unfold Laws.stream. now rewrite map_map.
Qed.

(** X2.  For frames whose bodies are within the limit, arriving in any
    chunks, the reader makes one report per frame, in order: the parsed
    message, or an invalid-JSON error where the body does not parse.  An
    unreadable body does not disturb the frames that follow it. *)
Theorem framing_reports_each_frame (bodies chunks : list Buffer) :
  Forall Laws.fits bodies ->
  concat chunks = Laws.stream bodies ->
  feed rt createMessageReader chunks
  = Some (createMessageReader, map (Laws.report rt) bodies).
Proof. apply feed_bodies. Qed.

(** X3.  While the reader waits for a header, a chunk that completes a
    header declaring more than 1 048 576 bytes makes it report the
    oversize once and drop all it holds, the bytes that came after the
    header included; it then waits for a header again. *)
Theorem oversize_header_resets (r : Reader) (chunk : Buffer) :
  expectedLength r = None ->
  (4 <= length (buffer r ++ chunk))%nat ->
  MAX_MESSAGE_SIZE < readUInt32LE (buffer r ++ chunk) ->
  onData rt r chunk
  = Some (createMessageReader,
          [onError (MessageTooLarge (readUInt32LE (buffer r ++ chunk)))]).
Proof.
  intros Hexp Hlen Hbig. apply (onData_loop rt 1). rewrite Hexp. apply loop_break.
  unfold iteration. cbn [buffer expectedLength].
  replace (Buffer_length (buffer r ++ chunk) <? 4) with false
    by (symmetry; apply Z.ltb_ge; unfold Buffer_length; lia).
  replace (MAX_MESSAGE_SIZE <? readUInt32LE (buffer r ++ chunk)) with true; [reflexivity|].
  symmetry. now apply Z.ltb_lt.
Qed.

End TransportLaws.

Lemma framing_delivers_in_order_witness :
  exists frames : list Transport.Buffer,
    Forall2 (fun v frame => Transport.encodeMessage Spec.demoRuntime v = Ok frame)
            [JNull; JBool true; JNull] frames /\
    forall chunks : list Transport.Buffer,
      concat chunks = concat frames ->
      Transport.feed Spec.demoRuntime Transport.createMessageReader chunks
      = Some (Transport.createMessageReader,
              map Transport.onMessage [JNull; JBool true; JNull]).
Proof.
  apply (framing_delivers_in_order Spec.demoRuntime [JNull; JBool true; JNull]).
  repeat (apply List.Forall_cons; [split; [unfold Laws.fits, Z.le; vm_compute; discriminate|reflexivity]|]).
  apply List.Forall_nil.
Defined.

Lemma framing_reports_each_frame_witness :
  Transport.feed Spec.demoRuntime Transport.createMessageReader
    [ [x04; x00]; [x00; x00; "n"; "u"; "l"; "l"; x02; x00; x00]%byte;
      [x00; "{"; "}"; x05; x00; x00; x00; "f"; "a"; "l"]%byte; ["s"; "e"]%byte ]
  = Some (Transport.createMessageReader,
          [ Transport.onMessage JNull; Transport.onError Transport.InvalidJSON;
            Transport.onMessage (JBool false) ]).
Proof.
  apply (framing_reports_each_frame Spec.demoRuntime
           [ ["n"; "u"; "l"; "l"]%byte; ["{"; "}"]%byte; ["f"; "a"; "l"; "s"; "e"]%byte ]).
  - repeat (apply List.Forall_cons; [unfold Laws.fits, Z.le; vm_compute; discriminate|]).
    apply List.Forall_nil.
  - reflexivity.
Defined.

Lemma oversize_header_resets_witness :
  Transport.onData Spec.demoRuntime (Transport.mkReader [x00; x00] None)
    [x20; x00; "n"; "u"]%byte
  = Some (Transport.createMessageReader,
          [Transport.onError (Transport.MessageTooLarge 2097152)]).
Proof.
  apply (oversize_header_resets Spec.demoRuntime (Transport.mkReader [x00; x00] None)
           [x20; x00; "n"; "u"]%byte); [reflexivity|cbn; lia|reflexivity].
Defined.
(** * Further properties of the bridge *)

Section BridgeLaws.

Import Bridge.
Variable rt : Runtime.
Variable socketPath : string.
Variable socket_write : string -> WriteOutcome.

Lemma socketWrites_app (e1 e2 : list Effect) :
  Laws.socketWrites (e1 ++ e2) = Laws.socketWrites e1 ++ Laws.socketWrites e2.
Proof. apply flat_map_app. Qed.

(** What the loop of [flushBuffer] writes is a prefix of the buffer, and
    what it leaves is the rest. *)
Lemma flushLoop_conserves (pending : list json) :
  exists written : list json,
    pending = written ++ fst (fst (flushLoop rt socket_write pending)) /\
    Laws.socketWrites (snd (fst (flushLoop rt socket_write pending)))
    = map (line rt) written.
Proof.
  induction pending as [|msg rest IH]; cbn [flushLoop].
  - exists []. auto.
  - destruct (socket_write (line rt msg)) as [| |e].
    + destruct IH as [written [H1 H2]].
      destruct (flushLoop rt socket_write rest) as [[remaining effects] drain].
      cbn [fst snd] in *. exists (msg :: written). split.
      * cbn [app]. now f_equal.
      * cbn. now f_equal.
    + exists [msg]. auto.
    + exists []. auto.
Qed.

(** X4.  [flushBuffer] neither loses, nor repeats, nor reorders a record:
    the lines it writes are those of a prefix of the buffer, in order, and
    the buffer it leaves is the rest.  With no usable socket it writes
    nothing. *)
Theorem flushBuffer_conserves (st : State) :
  exists written : list json,
    pendingMessages st = written ++ pendingMessages (fst (flushBuffer rt socket_write st)) /\
    Laws.socketWrites (snd (flushBuffer rt socket_write st)) = map (line rt) written /\
    (usable (socket st) = false -> written = []).
Proof.
  unfold flushBuffer, usable. destruct (socket st) as [sock|].
  - destruct (destroyed sock).
    + exists []. auto.
    + destruct (flushLoop_conserves (pendingMessages st)) as [written [H1 H2]].
      destruct (flushLoop rt socket_write (pendingMessages st)) as [[remaining effects] drain].
      cbn [fst snd pendingMessages] in *. exists written.
      split; [exact H1|]. split; [exact H2|]. discriminate.
  - exists []. auto.
Qed.

(** ** The bound of the buffer *)

Lemma flushBuffer_length (st : State) :
  (length (pendingMessages (fst (flushBuffer rt socket_write st)))
   <= length (pendingMessages st))%nat.
Proof.
  destruct (flushBuffer_conserves st) as [written [H _]].
  apply (f_equal (@length json)) in H. rewrite length_app in H. lia.
Qed.

Lemma drainAll_length (k : nat) (acc : State * list Effect) :
  (length (pendingMessages (fst (drainAll rt socket_write k acc)))
   <= length (pendingMessages (fst acc)))%nat.
Proof.
  revert acc. induction k as [|k IH]; intros [st out]; [reflexivity|].
  cbn [drainAll]. pose proof (flushBuffer_length st) as H.
  destruct (flushBuffer rt socket_write st) as [st' out'].
  etransitivity; [apply IH|exact H].
Qed.

Lemma onHostMessage_bound (st : State) (message : json) :
  (length (pendingMessages st) <= 1000)%nat ->
  (length (pendingMessages (fst (onHostMessage rt st message))) <= 1000)%nat.
Proof.
  intros H. unfold onHostMessage. destruct (usable (socket st)).
  - destruct (LIMITS_CHUNK_SIZE <? _); [|exact H].
    destruct (Compression.compressPayload rt _) as [c []]; exact H.
  - destruct (Z.ltb_spec (Z.of_nat (length (pendingMessages st))) MAX_BUFFER_SIZE) as [Hlt|Hge].
    + cbn [fst pendingMessages]. rewrite length_app. cbn [length].
      unfold MAX_BUFFER_SIZE in Hlt. lia.
    + exact H.
Qed.

Lemma readerCallbacks_bound (cbs : list Transport.Callback) (acc : State * list Effect) :
  (length (pendingMessages (fst acc)) <= 1000)%nat ->
  (length (pendingMessages (fst (fold_left (readerCallback rt) cbs acc))) <= 1000)%nat.
Proof.
  revert acc. induction cbs as [|cb cbs IH]; intros [st out] H; [exact H|].
  cbn [fold_left]. apply IH. unfold readerCallback.
  destruct cb as [m|[]|]; try exact H.
  pose proof (onHostMessage_bound st m H) as Hm.
  destruct (onHostMessage rt st m). exact Hm.
Qed.

Lemma step_bound (st : State) (e : Event) :
  (length (pendingMessages st) <= 1000)%nat ->
  (length (pendingMessages (fst (step rt socketPath socket_write st e))) <= 1000)%nat.
Proof.
  intros H. destruct e; cbn [step fst]; try exact H.
  - unfold onStdinData. destruct (Transport.onData rt (stdin st) chunk) as [[r cbs]|];
      [|exact H].
    now apply readerCallbacks_bound.
  - unfold onSocketConnect.
    pose proof (flushBuffer_length
                  (mkState (socket st) (reconnecting st) 0 (pendingMessages st) (stdin st)))
      as Hf.
    destruct (flushBuffer rt socket_write _) as [st' out]. cbn [fst pendingMessages] in *. lia.
  - unfold onSocketData. destruct (socket st); exact H.
  - destruct (socket st); exact H.
  - unfold onSocketClose. destruct (reconnecting st); exact H.
  - unfold onSocketDrain. destruct (socket st) as [sock|]; [|exact H].
    etransitivity; [apply drainAll_length|exact H].
Qed.

(** X5.  Whatever happens to the bridge after it is started, its buffer
    of records waiting for the socket never holds more than 1000
    records. *)
Theorem bridge_buffer_bounded (events : list Event) :
  (length (pendingMessages (fst (run rt socketPath socket_write startBridge events)))
   <= 1000)%nat.
Proof.
  assert (H : forall st, (length (pendingMessages st) <= 1000)%nat ->
              (length (pendingMessages (fst (run rt socketPath socket_write st events)))
               <= 1000)%nat).
  { induction events as [|e events IH]; intros st Hst; [exact Hst|].
    cbn [run]. pose proof (step_bound st e Hst) as H1.
    destruct (step rt socketPath socket_write st e) as [st1 out1].
    specialize (IH st1 H1).
    now destruct (run rt socketPath socket_write st1 events). }
  apply H. cbn. lia.
Qed.

(** ** The backoff of the reconnection *)

Lemma failedAttempts_state (k : nat) (st : State) :
  reconnecting st = false ->
  let st' := fst (run rt socketPath socket_write st (Laws.failedAttempts k)) in
  reconnecting st' = false /\ retryCount st' = retryCount st + Z.of_nat k.
Proof.
  revert st. induction k as [|k IH]; intros st Hr; cbn zeta.
  - cbn. split; [exact Hr|lia].
  - change (Laws.failedAttempts (S k))
      with (SocketClose :: ReconnectTimer :: Laws.failedAttempts k).
    cbn [run step]. unfold onSocketClose. rewrite Hr. cbn [connectSocket].
    match goal with
    | |- context [run rt socketPath socket_write ?st1 (Laws.failedAttempts k)] =>
        destruct (IH st1 eq_refl) as [H1 H2];
        destruct (run rt socketPath socket_write st1 (Laws.failedAttempts k)) as [st2 out2]
    end.
    cbn [fst] in *. unfold connectSocket in H2. cbn [retryCount] in H2.
    split; [exact H1|lia].
Qed.

(** X6.  The bridge backs off exponentially: after [k] connection
    attempts in a row have ended in a close, the close of the next one
    sets a single timer, of 1000 * 2^k ms, capped at 30 000 ms. *)
Theorem bridge_backoff_schedule (k : nat) :
  let st := fst (run rt socketPath socket_write startBridge (Laws.failedAttempts k)) in
  Laws.timeouts (snd (step rt socketPath socket_write st SocketClose))
  = [Z.min (1000 * 2 ^ Z.of_nat k) 30000].
Proof.
  cbn zeta. destruct (failedAttempts_state k startBridge eq_refl) as [H1 H2].
  cbn [step]. unfold onSocketClose. rewrite H1, H2. reflexivity.
Qed.

End BridgeLaws.

(** ** Lines on the socket *)

Section LineFacts.

Lemma append_assoc (a b c : string) : (a +:+ b) +:+ c = a +:+ (b +:+ c).
Proof.
  induction a as [|x a IH]; [reflexivity|].
  change (String x ((a +:+ b) +:+ c) = String x (a +:+ (b +:+ c))). now rewrite IH.
Qed.

Lemma split_nonempty (sep : ascii) (s : string) : split sep s <> [].
Proof.
  destruct s as [|c s]; cbn; [discriminate|].
  destruct (Ascii.eqb c sep); [discriminate|].
  destruct (split sep s); discriminate.
Qed.

Lemma last_app_nonempty (l l' : list string) (d : string) :
  l' <> [] -> List.last (l ++ l') d = List.last l' d.
Proof.
  intros H. induction l as [|x l IH]; [reflexivity|].
  cbn [app]. destruct (l ++ l') as [|y r] eqn:E.
  - apply app_eq_nil in E as [_ E]. contradiction.
  - exact IH.
Qed.

(** Splitting a text that arrives in two pieces. *)
Lemma split_app (sep : ascii) (a b : string) :
  split sep (a +:+ b)
  = removelast (split sep a) ++ split sep (List.last (split sep a) EmptyString +:+ b).
Proof.
  induction a as [|c a IH]; [reflexivity|].
  change (String c a +:+ b) with (String c (a +:+ b)). cbn [split].
  pose proof (split_nonempty sep a) as Hne.
  destruct (Ascii.eqb c sep) eqn:Ec.
  - rewrite IH. destruct (split sep a) as [|h t]; [contradiction|]. reflexivity.
  - rewrite IH. destruct (split sep a) as [|h [|h2 t]]; [contradiction| |].
    + cbn [removelast List.last app].
      change (String c h +:+ b) with (String c (h +:+ b)). cbn [split].
      now rewrite Ec.
    + reflexivity.
Qed.

End LineFacts.

Section BridgeLines.

Import Bridge.
Variable rt : Runtime.

(** X7.  The lines the bridge forwards from the server do not depend on
    where the socket cuts the data, as long as the cut falls between two
    characters.  The bridge decodes every chunk on its own; for two
    chunks whose decoded texts, put together, are the decoded text of the
    two chunks put together, receiving them one after the other forwards
    the same lines, in the same order, and leaves the same state
    (including the partial last line), as receiving them as one chunk. *)
Theorem bridge_lines_chunking (st : State) (c1 c2 : Transport.Buffer) :
  utf8_decode rt (c1 ++ c2) = utf8_decode rt c1 +:+ utf8_decode rt c2 ->
  let '(st1, out1) := onSocketData rt st c1 in
  let '(st2, out2) := onSocketData rt st1 c2 in
  (st2, out1 ++ out2) = onSocketData rt st (c1 ++ c2).
Proof.
  intros Hcut. unfold onSocketData. destruct (socket st) as [sock|] eqn:E;
    [|cbn beta iota; now rewrite E].
  cbn [socket lineBuffer destroyed drainListeners reconnecting retryCount
       pendingMessages stdin].
  rewrite Hcut, <- append_assoc.
  rewrite (split_app "010"%char (lineBuffer sock +:+ utf8_decode rt c1) (utf8_decode rt c2)).
  set (lines1 := split "010"%char (lineBuffer sock +:+ utf8_decode rt c1)).
  set (lines2 := split "010"%char (List.last lines1 EmptyString +:+ utf8_decode rt c2)).
  assert (H2 : lines2 <> []) by apply split_nonempty.
  rewrite (last_app_nonempty _ _ _ H2), (removelast_app _ H2).
  rewrite List.filter_app, map_app. reflexivity.
Qed.

(** A line that holds [null] is reported as an error on both sides,
    since reading [type] of [null] throws. *)
Lemma null_line_is_an_error (l : string) (server : Server.State) (now : Z) (uuid : string) :
  JSON_parse rt l = Some JNull ->
  forwardLine rt l = OnError "Cannot read properties of null (reading 'type')" /\
  Server.handleLine rt server now uuid l
  = (server, [Server.StderrWrite "[viyv-browser:mcp] Parse error"]).
Proof.
  intros H. unfold forwardLine, Server.handleLine. now rewrite H.
Qed.

(** X8.  What the bridge writes to a usable socket for a record from the
    host other than [null], compressed or not, is one line that the
    server reads as that record: the line handler of the server, given
    the text of the line, does what [handleExtensionMessage] does with
    the record.  This holds when the decoders of the runtime undo its
    encoders, [JSON.parse] reads the record (and the compressed wrapper)
    back from its serialization, and the record is not itself a
    [compressed] wrapper. *)
Theorem bridge_line_read_by_server (st : State) (m : json) :
  usable (socket st) = true ->
  Laws.codecs rt ->
  Laws.parses rt m ->
  m <> JNull ->
  ~ Laws.isWrapper m ->
  (forall data, Compression.compressPayload rt (JSON_stringify rt m) = (data, true) ->
                Laws.parses rt (Laws.compressedWrapper data)) ->
  exists text : string,
    snd (onHostMessage rt st m) = [SocketWrite (text +:+ LF)] /\
    forall (server : Server.State) (now : Z) (uuid : string),
      Server.handleLine rt server now uuid text
      = Server.handleExtensionMessage rt server now uuid m.
Proof.
  intros Hs (Hgz & Hb64 & Hutf) Hm Hnull Hnw Hw.
  assert (Hraw : forall server now uuid,
             Server.handleLine rt server now uuid (JSON_stringify rt m)
             = Server.handleExtensionMessage rt server now uuid m).
  { intros server now uuid. unfold Server.handleLine. rewrite Hm.
    destruct m; [congruence|..].
    all: match goal with
         | |- context [asString (get "type" (Some ?v))] =>
             destruct (asString (get "type" (Some v))) as [t|] eqn:Et; [|reflexivity];
             destruct (asString (get "data" (Some v))) as [d|] eqn:Ed; [|reflexivity]
         end.
    all: destruct (String.eqb_spec t "compressed") as [->|_]; [|reflexivity].
    all: exfalso; apply Hnw; split; [exact Et|]; rewrite Ed; eauto. }
  unfold onHostMessage. rewrite Hs.
  destruct (LIMITS_CHUNK_SIZE <? _); [|exists (JSON_stringify rt m); auto].
  destruct (Compression.compressPayload rt (JSON_stringify rt m)) as [data was] eqn:Ec.
  destruct was; [|exists (JSON_stringify rt m); auto].
  exists (JSON_stringify rt (Laws.compressedWrapper data)). split; [reflexivity|].
  intros server now uuid. unfold Server.handleLine.
  rewrite (Hw data eq_refl). cbn [Laws.compressedWrapper get assoc asString String.eqb
                                 Ascii.eqb Bool.eqb].
  unfold Compression.compressPayload in Ec.
  destruct (_ <? _) in Ec; [|discriminate]. injection Ec as <-.
  unfold Compression.decompressPayload. cbn [negb].
  rewrite Hb64, Hgz, Hutf, Hm. reflexivity.
Qed.

End BridgeLines.

Lemma bridge_line_read_by_server_witness :
  exists text : string,
    snd (Bridge.onHostMessage Spec.demoRuntime Bridge.startBridge (JBool true))
    = [Bridge.SocketWrite (text +:+ LF)] /\
    forall (server : Server.State) (now : Z) (uuid : string),
      Server.handleLine Spec.demoRuntime server now uuid text
      = Server.handleExtensionMessage Spec.demoRuntime server now uuid (JBool true).
Proof.
  apply (bridge_line_read_by_server Spec.demoRuntime Bridge.startBridge (JBool true)).
  - reflexivity.
  - split; [reflexivity|]. split.
    + intros b. apply list_byte_of_string_of_list_byte.
    + intros s. apply string_of_list_byte_of_string.
  - reflexivity.
  - discriminate.
  - intros [H _]. discriminate H.
  - intros data H. discriminate H.
Defined.

Lemma bridge_lines_chunking_witness :
  let '(st1, out1) :=
    Bridge.onSocketData Spec.demoRuntime Bridge.startBridge (list_byte_of_string "tr") in
  let '(st2, out2) :=
    Bridge.onSocketData Spec.demoRuntime st1 (list_byte_of_string ("ue" +:+ LF +:+ "fal")) in
  (st2, out1 ++ out2)
  = Bridge.onSocketData Spec.demoRuntime Bridge.startBridge
      (list_byte_of_string "tr" ++ list_byte_of_string ("ue" +:+ LF +:+ "fal")).
Proof.
  apply (bridge_lines_chunking Spec.demoRuntime Bridge.startBridge
           (list_byte_of_string "tr") (list_byte_of_string ("ue" +:+ LF +:+ "fal"))).
  reflexivity.
Defined.
(** * Further properties of compression and chunking *)

Section StringFacts.

Lemma substring_all (s : string) : String.substring 0 (String.length s) s = s.
Proof. induction s as [|c s IH]; cbn; [reflexivity|now rewrite IH]. Qed.

Lemma substring_empty (n m : nat) : String.substring n m EmptyString = EmptyString.
Proof. destruct n, m; reflexivity. Qed.

Lemma substring_length (s : string) (n m : nat) :
  String.length (String.substring n m s) = Nat.min m (String.length s - n).
Proof.
  revert n m. induction s as [|c s IH]; intros n m.
  - rewrite substring_empty. cbn. lia.
  - destruct n as [|n]; cbn [String.substring String.length].
    + destruct m as [|m]; [reflexivity|]. cbn [String.length]. rewrite IH. lia.
    + rewrite IH. reflexivity.
Qed.

(** Dropping [n] characters, then reading from [m]. *)
Lemma substring_drop (s : string) (n m l : nat) :
  String.substring (n + m) l s
  = String.substring m l (String.substring n (String.length s - n) s).
Proof.
  revert n. induction s as [|c s IH]; intros n.
  - now rewrite !substring_empty.
  - destruct n as [|n].
    + cbn [Nat.add]. rewrite Nat.sub_0_r, substring_all. reflexivity.
    + cbn [Nat.add String.substring String.length Nat.sub]. apply IH.
Qed.

Lemma substring_split (s : string) (n : nat) :
  String.substring 0 n s +:+ String.substring n (String.length s - n) s = s.
Proof.
  revert n. induction s as [|c s IH]; intros n.
  - now rewrite !substring_empty.
  - destruct n as [|n].
    + rewrite Nat.sub_0_r, substring_all. reflexivity.
    + cbn [String.substring String.length Nat.sub].
      change (String c (String.substring 0 n s)
              +:+ String.substring n (String.length s - n) s)
        with (String c (String.substring 0 n s
                        +:+ String.substring n (String.length s - n) s)).
      now rewrite IH.
Qed.

(** A text is the concatenation of its consecutive pieces of [size]
    characters, as many as it takes to cover it. *)
Lemma pieces_join (size k : nat) (s : string) :
  (String.length s <= k * size)%nat ->
  Compression.join (map (fun i => String.substring (i * size) size s) (seq 0 k)) = s.
Proof.
  revert s. induction k as [|k IH]; intros s Hlen.
  - cbn in *. destruct s; [reflexivity|cbn in Hlen; lia].
  - cbn [seq map Compression.join foldr]. rewrite <- seq_shift, map_map.
    rewrite (map_ext _ (fun i => String.substring (i * size) size
                                   (String.substring size (String.length s - size) s))).
    + fold (Compression.join
              (map (fun i => String.substring (i * size) size
                               (String.substring size (String.length s - size) s))
                   (seq 0 k))).
      rewrite IH.
      * apply (substring_split s size).
      * rewrite substring_length. lia.
    + intros i. cbn [Nat.mul]. apply substring_drop.
Qed.

End StringFacts.

Section ChunkLaws.

Import Compression.
Variable rt : Runtime.

Lemma ceilDiv_covers (a b : Z) : 0 <= a -> 0 < b -> a <= ceilDiv a b * b.
Proof.
  intros Ha Hb. unfold ceilDiv.
  pose proof (Z.div_mod (a + b - 1) b ltac:(lia)) as H.
  pose proof (Z.mod_pos_bound (a + b - 1) b Hb). nia.
Qed.

Lemma ceilDiv_tight (a b : Z) : 0 <= a -> 0 < b -> (ceilDiv a b - 1) * b < a \/ ceilDiv a b = 0.
Proof.
  intros Ha Hb. unfold ceilDiv.
  pose proof (Z.div_mod (a + b - 1) b ltac:(lia)) as H.
  pose proof (Z.mod_pos_bound (a + b - 1) b Hb).
  destruct (Z.eq_dec a 0) as [->|Hne].
  - right. apply Z.div_small. lia.
  - left. nia.
Qed.

Lemma ceilDiv_nonneg (a b : Z) : 0 <= a -> 0 < b -> 0 <= ceilDiv a b.
Proof. intros Ha Hb. unfold ceilDiv. apply Z.div_pos; lia. Qed.

Lemma slice_piece (s : string) (size : Z) (i : nat) :
  0 < size ->
  slice s (Z.of_nat i * size) ((Z.of_nat i + 1) * size)
  = String.substring (i * Z.to_nat size) (Z.to_nat size) s.
Proof.
  intros Hs. unfold slice. f_equal; [|f_equal]; lia.
Qed.

Lemma chunkPayloadWith_data (size : Z) (r a d : string) (c : bool) :
  0 < size -> join (map data (chunkPayloadWith size r a d c)) = d.
Proof.
  intros Hs. unfold chunkPayloadWith. rewrite map_map. cbn [data].
  rewrite (map_ext _ (fun i => String.substring (i * Z.to_nat size) (Z.to_nat size) d))
    by (intros i; now apply slice_piece).
  apply pieces_join.
  pose proof (ceilDiv_covers (Z.of_nat (String.length d)) size ltac:(lia) Hs).
  pose proof (ceilDiv_nonneg (Z.of_nat (String.length d)) size ltac:(lia) Hs). nia.
Qed.

Lemma chunkPayloadWith_indices (size : Z) (r a d : string) (c : bool) :
  map chunkIndex (chunkPayloadWith size r a d c)
  = map Z.of_nat (seq 0 (length (chunkPayloadWith size r a d c))).
Proof.
  unfold chunkPayloadWith. rewrite map_map, length_map, length_seq. reflexivity.
Qed.

(** Lists sorted by index that hold the same chunks, no two of which
    share an index, are equal. *)
Lemma sorted_unique (l1 l2 : list ChunkedPayload) :
  StronglySorted Spec.ascending l1 -> StronglySorted Spec.ascending l2 ->
  Permutation l1 l2 ->
  (forall x y, In x l1 -> In y l1 -> chunkIndex x = chunkIndex y -> x = y) ->
  l1 = l2.
Proof.
  revert l2. induction l1 as [|x l1 IH]; intros l2 H1 H2 Hp Hinj.
  - apply Permutation_nil in Hp. now subst.
  - destruct l2 as [|y l2]; [apply Permutation_sym, Permutation_nil in Hp; discriminate|].
    apply StronglySorted_inv in H1 as [H1 Hx]. apply StronglySorted_inv in H2 as [H2 Hy].
    rewrite List.Forall_forall in Hx, Hy.
    assert (x = y).
    { assert (Hyin : In y (x :: l1))
        by (apply (Permutation_in _ (Permutation_sym Hp)); now left).
      assert (Hxin : In x (y :: l2)) by (apply (Permutation_in _ Hp); now left).
      apply Hinj; [now left|exact Hyin|].
      destruct Hyin as [->|Hyin]; [reflexivity|].
      destruct Hxin as [->|Hxin]; [reflexivity|].
      pose proof (Hx y Hyin). pose proof (Hy x Hxin). unfold Spec.ascending in *. lia. }
    subst y. f_equal. apply IH; [exact H1|exact H2| |].
    + now apply Permutation_cons_inv in Hp.
    + intros a b Ha Hb. apply Hinj; now right.
Qed.

Lemma chunkPayloadWith_sorted (size : Z) (r a d : string) (c : bool) :
  StronglySorted Spec.ascending (chunkPayloadWith size r a d c).
Proof.
  unfold chunkPayloadWith. generalize (Z.to_nat (ceilDiv (Z.of_nat (String.length d)) size)).
  intros k. generalize 0%nat. induction k as [|k IH]; intros from; cbn [seq map].
  - constructor.
  - constructor; [apply IH|].
    apply List.Forall_forall. intros x Hx. apply in_map_iff in Hx as [i [<- Hi]].
    apply in_seq in Hi. unfold Spec.ascending. cbn [chunkIndex]. lia.
Qed.

Lemma chunkPayloadWith_injective (size : Z) (r a d : string) (c : bool) (x y : ChunkedPayload) :
  In x (chunkPayloadWith size r a d c) -> In y (chunkPayloadWith size r a d c) ->
  chunkIndex x = chunkIndex y -> x = y.
Proof.
  unfold chunkPayloadWith. intros Hx Hy.
  apply in_map_iff in Hx as [i [<- _]]. apply in_map_iff in Hy as [j [<- _]].
  cbn [chunkIndex]. intros H. apply Nat2Z.inj in H. now subst.
Qed.

Lemma sortByIndex_chunks (size : Z) (r a d : string) (c : bool) (chunks : list ChunkedPayload) :
  Permutation chunks (chunkPayloadWith size r a d c) ->
  sortByIndex chunks = chunkPayloadWith size r a d c.
Proof.
  intros Hp. symmetry. apply sorted_unique.
  - apply chunkPayloadWith_sorted.
  - apply sortByIndex_sorted.
  - rewrite sortByIndex_perm. now symmetry.
  - apply chunkPayloadWith_injective.
Qed.

Lemma chunkPayloadWith_length (size : Z) (r a d : string) (c : bool) :
  0 < size ->
  Z.of_nat (length (chunkPayloadWith size r a d c))
  = ceilDiv (Z.of_nat (String.length d)) size.
Proof.
  intros Hs. unfold chunkPayloadWith. rewrite length_map, length_seq.
  pose proof (ceilDiv_nonneg (Z.of_nat (String.length d)) size ltac:(lia) Hs). lia.
Qed.

Lemma reassemble_chunkPayloadWith (size : Z) (r a d : string) (c : bool)
    (chunks : list ChunkedPayload) :
  0 < size -> d <> EmptyString ->
  Permutation chunks (chunkPayloadWith size r a d c) ->
  reassembleChunks rt chunks = decompressPayload rt d c.
Proof.
  intros Hs Hd Hp.
  pose proof (sortByIndex_chunks size r a d c chunks Hp) as Hsort.
  pose proof (chunkPayloadWith_length size r a d c Hs) as Hlen.
  pose proof (chunkPayloadWith_data size r a d c Hs) as Hdata.
  destruct (chunkPayloadWith size r a d c) as [|first others] eqn:E.
  - exfalso. cbn in Hdata. congruence.
  - assert (Hne : chunks <> []).
    { intros ->. apply Permutation_nil in Hp. discriminate. }
    rewrite (reassembleChunks_eq rt chunks first others Hne Hsort).
    assert (Hin : In first (chunkPayloadWith size r a d c)) by (rewrite E; now left).
    unfold chunkPayloadWith in Hin. apply in_map_iff in Hin as [i [Hi _]].
    assert (Ht : totalChunks first = ceilDiv (Z.of_nat (String.length d)) size)
      by (now rewrite <- Hi).
    assert (Hc : compressed first = c) by (now rewrite <- Hi).
    rewrite (Permutation_length Hp), Ht, Hlen, Z.eqb_refl. cbn [negb].
    now rewrite Hsort, Hdata, Hc.
Qed.

(** X9.  Chunking and reassembly round-trip: the chunks [chunkPayload]
    makes of a non-empty text, handed to [reassembleChunks] in any order,
    give back the text (decoded by [decompressPayload] when the chunks are
    flagged as compressed). *)
Theorem chunk_reassemble_round_trip (requestId agentId text : string) (flag : bool)
    (chunks : list ChunkedPayload) :
  text <> EmptyString ->
  Permutation chunks (chunkPayload requestId agentId text flag) ->
  reassembleChunks rt chunks = decompressPayload rt text flag.
Proof.
  intros Hd Hp. apply (reassemble_chunkPayloadWith CHUNK_SIZE requestId agentId); auto.
  reflexivity.
Qed.

(** X10.  The chunks of a text: there are ceil(length / 786 432) of them
    (none for the empty text), numbered 0, 1, 2, ... in order; each
    announces that count and the length of the text, and carries between
    1 and 786 432 characters. *)
Theorem chunkPayload_shape (requestId agentId text : string) (flag : bool) :
  let chunks := chunkPayload requestId agentId text flag in
  Z.of_nat (length chunks) = ceilDiv (Z.of_nat (String.length text)) CHUNK_SIZE /\
  map chunkIndex chunks = map Z.of_nat (seq 0 (length chunks)) /\
  (text = EmptyString <-> chunks = []) /\
  forall c, In c chunks ->
    totalChunks c = Z.of_nat (length chunks) /\
    totalSize c = Z.of_nat (String.length text) /\
    compressed c = flag /\
    Compression.requestId c = requestId /\ Compression.agentId c = agentId /\
    1 <= Z.of_nat (String.length (data c)) <= 786432.
Proof.
  cbn zeta. unfold chunkPayload.
  assert (Hs : 0 < CHUNK_SIZE) by reflexivity.
  pose proof (chunkPayloadWith_length CHUNK_SIZE requestId agentId text flag Hs) as Hlen.
  split; [exact Hlen|]. split; [apply chunkPayloadWith_indices|]. split.
  - split.
    + intros ->. reflexivity.
    + intros E. pose proof (chunkPayloadWith_data CHUNK_SIZE requestId agentId text flag Hs) as H.
      rewrite E in H. cbn in H. congruence.
  - intros c Hin. rewrite Hlen. unfold chunkPayloadWith in Hin.
    apply in_map_iff in Hin as [i [<- Hi]]. cbn [totalChunks totalSize compressed data
                                                 Compression.requestId Compression.agentId].
    repeat (split; [reflexivity|]).
    apply in_seq in Hi. rewrite slice_piece by exact Hs. rewrite substring_length.
    pose proof (ceilDiv_tight (Z.of_nat (String.length text)) CHUNK_SIZE ltac:(lia) Hs) as Ht.
    pose proof (ceilDiv_nonneg (Z.of_nat (String.length text)) CHUNK_SIZE ltac:(lia) Hs).
    change 786432 with CHUNK_SIZE.
    remember CHUNK_SIZE as size eqn:Esize. clear Esize Hlen.
    remember (ceilDiv (Z.of_nat (String.length text)) size) as count eqn:Ecount.
    clear Ecount.
    assert (Hmul : Z.of_nat (i * Z.to_nat size) = Z.of_nat i * size)
      by (rewrite Nat2Z.inj_mul, Z2Nat.id by lia; reflexivity).
    destruct Ht as [Ht|Ht]; [|lia].
    assert (Z.of_nat i * size < Z.of_nat (String.length text)) by nia. lia.
Qed.

(** X11.  Compression round-trips: with decoders that undo the encoders
    of the runtime, [decompressPayload] gives back the text from what
    [compressPayload] returns, whether the text was compressed or not. *)
Theorem compress_decompress_round_trip (text : string) :
  Laws.codecs rt ->
  decompressPayload rt (fst (compressPayload rt text)) (snd (compressPayload rt text))
  = Ok text.
Proof.
  intros (Hgz & Hb64 & Hutf). unfold compressPayload.
  destruct (_ <? _); cbn [fst snd]; unfold decompressPayload; cbn [negb]; [|reflexivity].
  now rewrite Hb64, Hgz, Hutf.
Qed.

End ChunkLaws.

Lemma chunk_reassemble_round_trip_witness :
  Compression.reassembleChunks Spec.demoRuntime
    (Compression.chunkPayload "req-1" "default" "screenshot data" false)
  = Ok "screenshot data"%string.
Proof.
  apply (chunk_reassemble_round_trip Spec.demoRuntime "req-1" "default" "screenshot data" false).
  - discriminate.
  - reflexivity.
Defined.

Lemma expand_shrink (b : list byte) : Laws.expand (Laws.shrink b) = Some b.
Proof.
  unfold Laws.shrink.
  repeat match goal with
         | |- context [match ?x with _ => _ end] => destruct x; try reflexivity
         end.
Qed.

Lemma compress_decompress_round_trip_witness :
  Compression.decompressPayload Laws.shortRuntime
    (fst (Compression.compressPayload Laws.shortRuntime "aaaa"))
    (snd (Compression.compressPayload Laws.shortRuntime "aaaa"))
  = Ok "aaaa"%string.
Proof.
  apply (compress_decompress_round_trip Laws.shortRuntime "aaaa").
  split; [|split].
  - intros b. apply expand_shrink.
  - intros b. apply list_byte_of_string_of_list_byte.
  - intros s. apply string_of_list_byte_of_string.
Defined.
(** * Further properties of sessions and of the event fan-out *)

Section MapFilter.

Context {V : Type}.

Lemma Map_get_not_key (m : Map V) (k : string) :
  ~ In k (map fst m) -> Map_get m k = None.
Proof.
  intros H. destruct (Map_get m k) as [v|] eqn:E; [|reflexivity].
  apply Map_get_In in E. apply (in_map fst) in E. contradiction.
Qed.

Lemma Map_get_filter (p : string * V -> bool) (m : Map V) (k : string) :
  Laws.wellKeyed m ->
  Map_get (List.filter p m) k =
    match Map_get m k with
    | Some v => if p (k, v) then Some v else None
    | None => None
    end.
Proof.
  unfold Laws.wellKeyed, Map_get. induction m as [|[k' v'] m IH]; cbn [map fst]; intros Hnd.
  - reflexivity.
  - apply List.NoDup_cons_iff in Hnd as [Hk Hm]. cbn [List.filter assoc].
    destruct (String.eqb k k') eqn:E.
    + apply String.eqb_eq in E. subst k'.
      destruct (p (k, v')); cbn [assoc].
      * now rewrite String.eqb_refl.
      * apply Map_get_not_key. intros Hin. apply Hk.
        apply in_map_iff in Hin as [[k0 v0] [<- Hin]].
        apply filter_In in Hin as [Hin _]. now apply (in_map fst) in Hin.
    + destruct (p (k', v')); cbn [assoc]; [rewrite E|]; now apply IH.
Qed.

End MapFilter.

Section SessionLaws.

Import AgentSession.

(** X12.  The life of a session: after [createSession] for an agent, the
    token of the session it returns validates for that agent and no other
    token does; the sessions of the other agents are as they were; and
    once the session is closed it is gone, and no token validates. *)
Theorem session_lifecycle (st : State) (now : Z) (uuid agent : string)
    (name : option string) :
  Laws.wellKeyed (sessions st) ->
  let '(session, st1) := createSession st now uuid agent name in
  validateSession st1 agent (sessionToken session) = true /\
  (forall token, token <> sessionToken session -> validateSession st1 agent token = false) /\
  (forall other, other <> agent -> getSession st1 other = getSession st other) /\
  getSession (closeSession st1 agent) agent = None /\
  (forall token, validateSession (closeSession st1 agent) agent token = false).
Proof.
  intros Hnd. unfold createSession.
  destruct (Map_get (sessions st) agent) as [existing|];
    unfold validateSession, getSession, closeSession; cbn [sessions sessionToken];
    rewrite !Map_get_set_eq; cbn [sessionToken];
    (split; [apply String.eqb_refl|]);
    (split; [intros token Hne; apply String.eqb_neq; congruence|]);
    (split; [intros other Hne; now apply Map_get_set_ne|]);
    rewrite (Map_get_delete _ _ (Map_set_NoDup _ _ _ Hnd)); auto.
Qed.

(** X13.  The periodic clean-up drops exactly the stale sessions: a
    session whose last activity is at most five minutes old is kept as it
    is; one that is older is dropped, and no token validates for its agent
    afterwards. *)
Theorem stale_sessions_expire (st : State) (now : Z) (agent : string)
    (session : AgentSessionInfo) :
  Laws.wellKeyed (sessions st) ->
  getSession st agent = Some session ->
  let st' := snd (cleanupStaleSessions st now) in
  if now - lastActivity session <=? 300000
  then getSession st' agent = Some session
  else getSession st' agent = None /\ forall token, validateSession st' agent token = false.
Proof.
  intros Hnd Hs. unfold getSession in *. cbn zeta.
  unfold cleanupStaleSessions, validateSession. cbn [snd sessions].
  rewrite (Map_get_filter _ _ _ Hnd), Hs. cbn [snd].
  unfold STALE_SESSION_TTL. change (5 * 60 * 1000) with 300000.
  destruct (Z.leb_spec (now - lastActivity session) 300000) as [Hle|Hgt].
  - replace (300000 <? now - lastActivity session) with false
      by (symmetry; apply Z.ltb_ge; exact Hle).
    reflexivity.
  - replace (300000 <? now - lastActivity session) with true
      by (symmetry; apply Z.ltb_lt; exact Hgt).
    cbn [negb]. auto.
Qed.

Lemma find_set_active (m : Map AgentSessionInfo) (k : string) (v : AgentSessionInfo) :
  status v = active ->
  List.find (fun s => Status_eqb (status s) active) (map snd m) = None ->
  List.find (fun s => Status_eqb (status s) active) (map snd (Map_set m k v)) = Some v.
Proof.
  intros Hv. induction m as [|[k' v'] m IH]; cbn [Map_set map snd List.find].
  - intros _. now rewrite Hv.
  - destruct (Status_eqb (status v') active) eqn:E; [discriminate|]. intros H.
    destruct (String.eqb k k'); cbn [map snd List.find].
    + now rewrite Hv.
    + rewrite E. now apply IH.
Qed.

(** *** The order of the table *)

Lemma Map_set_head (m : Map AgentSessionInfo) (k : string) (v : AgentSessionInfo) :
  match m with
  | [] => Map_set m k v = [(k, v)]
  | (k0, v0) :: rest => exists v' rest', Map_set m k v = (k0, v') :: rest'
  end.
Proof.
  destruct m as [|[k0 v0] rest]; [reflexivity|]. cbn [Map_set].
  destruct (String.eqb_spec k k0) as [->|]; eauto.
Qed.

Lemma tableOk_set (m : Map AgentSessionInfo) (k : string) (v : AgentSessionInfo) :
  Laws.tableOk m -> status v = active -> agentId v = k -> Laws.tableOk (Map_set m k v).
Proof.
  intros [Hk Hall] Hs Ha. split; [now apply Map_set_NoDup|].
  intros k' s Hin. apply Map_set_In in Hin as [[-> ->]|Hin]; auto.
Qed.

Lemma tableOk_delete (m : Map AgentSessionInfo) (k : string) :
  Laws.tableOk m -> Laws.tableOk (Map_delete m k).
Proof.
  intros [Hk Hall]. split; [now apply Map_delete_NoDup|].
  intros k' s Hin. apply Map_delete_incl in Hin. auto.
Qed.

Lemma tableOk_filter (p : string * AgentSessionInfo -> bool) (m : Map AgentSessionInfo) :
  Laws.tableOk m -> Laws.tableOk (List.filter p m).
Proof.
  intros [Hk Hall]. split.
  - unfold Laws.wellKeyed in *. induction m as [|[k v] m IH]; cbn [List.filter]; [constructor|].
    cbn [map fst] in Hk. apply List.NoDup_cons_iff in Hk as [Hnot Hk].
    assert (IH' : List.NoDup (map fst (List.filter p m))).
    { apply IH; [exact Hk|]. intros k' s Hin. apply Hall. now right. }
    destruct (p (k, v)); [|exact IH']. cbn [map fst]. constructor; [|exact IH'].
    intros Hin. apply Hnot. apply in_map_iff in Hin as [[k0 v0] [<- Hin]].
    apply filter_In in Hin as [Hin _]. now apply (in_map fst) in Hin.
  - intros k s Hin. apply filter_In in Hin as [Hin _]. auto.
Qed.

(** On such a table the default is the agent of the oldest entry. *)
Lemma getDefaultAgentId_head (st : State) (now : Z) (uuid : string) :
  Laws.tableOk (sessions st) ->
  match sessions st with
  | [] =>
      exists s,
        getDefaultAgentId st now uuid
        = (configuredDefaultAgentId st,
           mkState [(configuredDefaultAgentId st, s)] (configuredDefaultAgentId st)) /\
        status s = active /\ agentId s = configuredDefaultAgentId st
  | (k, s) :: _ => getDefaultAgentId st now uuid = (k, st)
  end.
Proof.
  intros [Hk Hall]. unfold getDefaultAgentId, listSessions.
  destruct (sessions st) as [|[k s] rest] eqn:E.
  - cbn [map List.find]. unfold createSession. rewrite E. cbn. eauto.
  - cbn [map snd List.find]. destruct (Hall k s (or_introl eq_refl)) as [Hs Ha].
    rewrite Hs. cbn [Status_eqb]. now rewrite Ha.
Qed.

Lemma sessionCall_ok (st : State) (c : Laws.SessionCall) :
  Laws.tableOk (sessions st) -> Laws.tableOk (sessions (Laws.sessionCall st c)).
Proof.
  intros Hok. destruct c as [now uuid k name|now k|k|now|now uuid|id]; cbn [Laws.sessionCall].
  - unfold createSession.
    destruct (Map_get (sessions st) k) as [existing|] eqn:E; cbn [snd sessions].
    + apply tableOk_set; [exact Hok|reflexivity|].
      apply Map_get_In in E. now apply (proj2 Hok) in E.
    + now apply tableOk_set.
  - unfold touchSession.
    destruct (Map_get (sessions st) k) as [session|] eqn:E; [|exact Hok].
    apply Map_get_In in E. apply (proj2 Hok) in E as [Hs Ha].
    cbn [sessions]. now apply tableOk_set.
  - now apply tableOk_delete.
  - now apply tableOk_filter.
  - pose proof (getDefaultAgentId_head st now uuid Hok) as H.
    destruct (sessions st) as [|[k s] rest] eqn:E.
    + destruct H as (s & -> & Hs & Ha). cbn [snd sessions]. split.
      * repeat constructor. intros [].
      * intros k' s' [[= <- <-]|[]]. auto.
    + rewrite H. cbn [snd]. now rewrite E.
  - exact Hok.
Qed.

Lemma sessionCalls_ok (history : list Laws.SessionCall) (st : State) :
  Laws.tableOk (sessions st) -> Laws.tableOk (sessions (Laws.sessionCalls st history)).
Proof.
  revert st. induction history as [|c history IH]; intros st Hok; [exact Hok|].
  apply IH. now apply sessionCall_ok.
Qed.

(** The oldest entry stays the oldest for as long as it stays. *)
Lemma sessionCall_head (st : State) (c : Laws.SessionCall) (a : string)
    (s : AgentSessionInfo) (rest : Map AgentSessionInfo) :
  Laws.tableOk (sessions st) -> sessions st = (a, s) :: rest ->
  getSession (Laws.sessionCall st c) a <> None ->
  exists s' rest', sessions (Laws.sessionCall st c) = (a, s') :: rest'.
Proof.
  intros Hok E Hkeep.
  assert (Hset : forall k v, exists s' rest', Map_set (sessions st) k v = (a, s') :: rest').
  { intros k v. pose proof (Map_set_head (sessions st) k v) as H. rewrite E in H |- *. exact H. }
  assert (Hnot : ~ In a (map fst rest)).
  { destruct Hok as [Hk _]. unfold Laws.wellKeyed in Hk. rewrite E in Hk.
    cbn [map fst] in Hk. now apply List.NoDup_cons_iff in Hk as [Hk _]. }
  destruct c as [now uuid k name|now k|k|now|now uuid|id]; cbn [Laws.sessionCall] in *.
  - unfold createSession. destruct (Map_get (sessions st) k); cbn [snd sessions]; apply Hset.
  - unfold touchSession. destruct (Map_get (sessions st) k); cbn [sessions]; [apply Hset|eauto].
  - unfold closeSession, getSession in *. cbn [sessions] in *. rewrite E in *.
    cbn [Map_delete] in *. destruct (String.eqb_spec k a) as [->|]; [|eauto].
    exfalso. apply Hkeep. now apply Map_get_not_key.
  - unfold cleanupStaleSessions, getSession in *. cbn [snd sessions] in *. rewrite E in *.
    cbn [List.filter] in *.
    destruct (negb (STALE_SESSION_TTL <? now - lastActivity (snd (a, s)))); [eauto|].
    exfalso. apply Hkeep. apply Map_get_not_key. intros Hin. apply Hnot.
    apply in_map_iff in Hin as [[k0 v0] [<- Hin]].
    apply filter_In in Hin as [Hin _]. now apply (in_map fst) in Hin.
  - pose proof (getDefaultAgentId_head st now uuid Hok) as H. rewrite E in H.
    rewrite H. cbn [snd]. eauto.
  - cbn [setDefaultAgentId sessions]. eauto.
Qed.

(** Every table the module builds from its initial one is in order. *)
Lemma tableOk_initial : Laws.tableOk (sessions initial).
Proof. split; [constructor|intros k s []]. Qed.

(** X14.  [getDefaultAgentId] is stable for as long as the session it
    answered with stays in the table.  On a table the module has built
    (one session per key, stored under its own agent id, active, as
    after any history of calls from the initial table), once
    [getDefaultAgentId] has answered with an agent, it answers with the
    same agent, whatever the time and the UUID at hand, and changes the
    table no more, after every history of calls ([createSession],
    [touchSession], [closeSession], [cleanupStaleSessions],
    [getDefaultAgentId], [setDefaultAgentId]) after each of which that
    agent still has a session.  Every history from the initial table
    gives such a table.  Once the session of the agent is closed or
    cleaned up, the answer can change. *)
Theorem getDefaultAgentId_stable (st : State) (now : Z) (uuid : string)
    (history : list Laws.SessionCall) :
  (Laws.tableOk (sessions st) ->
   Laws.keepsSession (fst (getDefaultAgentId st now uuid))
     (snd (getDefaultAgentId st now uuid)) history ->
   forall (now' : Z) (uuid' : string),
     getDefaultAgentId (Laws.sessionCalls (snd (getDefaultAgentId st now uuid)) history)
       now' uuid'
     = (fst (getDefaultAgentId st now uuid),
        Laws.sessionCalls (snd (getDefaultAgentId st now uuid)) history)) /\
  Laws.tableOk (sessions (Laws.sessionCalls initial history)) /\
  (Laws.tableOk (sessions Laws.twoSessions) /\
   getDefaultAgentId Laws.twoSessions now uuid = ("a"%string, Laws.twoSessions) /\
   getDefaultAgentId (closeSession Laws.twoSessions "a") now uuid
   = ("b"%string, closeSession Laws.twoSessions "a")).
Proof.
  split; [|split].
  - intros Hok.
    assert (Hhead : Laws.tableOk (sessions (snd (getDefaultAgentId st now uuid))) /\
                    exists s rest,
                      sessions (snd (getDefaultAgentId st now uuid))
                      = (fst (getDefaultAgentId st now uuid), s) :: rest).
    { split; [apply (sessionCall_ok st (Laws.GetDefaultAgentId now uuid) Hok)|].
      pose proof (getDefaultAgentId_head st now uuid Hok) as H.
      destruct (sessions st) as [|[k s] rest] eqn:E.
      - destruct H as (s & -> & _). cbn [fst snd sessions]. eauto.
      - rewrite H. cbn [fst snd]. eauto. }
    destruct Hhead as [Hok1 Hhead].
    generalize dependent (snd (getDefaultAgentId st now uuid)).
    generalize (fst (getDefaultAgentId st now uuid)). clear st now uuid Hok.
    intros a st1 Hok1 Hhead. revert st1 Hok1 Hhead.
    induction history as [|c history IH]; intros st1 Hok1 (s & rest & E) Hkeep now' uuid'.
    + cbn [Laws.sessionCalls fold_left].
      pose proof (getDefaultAgentId_head st1 now' uuid' Hok1) as H. now rewrite E in H.
    + cbn [Laws.keepsSession] in Hkeep. destruct Hkeep as [Hc Hkeep].
      change (Laws.sessionCalls st1 (c :: history))
        with (Laws.sessionCalls (Laws.sessionCall st1 c) history).
      apply IH; [now apply sessionCall_ok| |exact Hkeep].
      now apply (sessionCall_head st1 c a s rest).
  - apply sessionCalls_ok, tableOk_initial.
  - split; [|split; reflexivity].
    split.
    + repeat constructor; cbn; intuition discriminate.
    + intros k s [[= <- <-]|[[= <- <-]|[]]]; auto.
Qed.

End SessionLaws.

Section EventLaws.

Import EventBridge.

(** X15.  Events are delivered only where they belong: every call
    [processEvent] makes goes to a registered listener and carries the id
    of a subscription of the agent the event is of, that lists the type of
    the event and whose URL pattern, when it has one, occurs in the URL of
    the event. *)
Theorem events_reach_their_subscribers (st : State) (now : Z) (event : BrowserEvent)
    (listener : nat) (payload : json) :
  In (listener, payload) (processEvent st now event) ->
  In listener (eventListeners st) /\
  exists sub : EventSubscription,
    In sub (map snd (subscriptions st)) /\
    get "subscriptionId" (Some payload) = Some (JStr (id sub)) /\
    agentId sub = ev_agentId event /\
    (exists t, eventType event = Some (JStr t) /\ In t (eventTypes sub)) /\
    (forall pattern, urlPattern sub = Some pattern -> pattern <> EmptyString ->
                     includes (url event) pattern = true).
Proof.
  unfold processEvent. intros H. apply in_flat_map in H as [[k sub] [Hsub H]].
  cbn [snd] in H. destruct (matches sub event) eqn:Em; [|destruct H].
  apply in_map_iff in H as [l [[= <- <-] Hl]]. split; [exact Hl|].
  exists sub. split.
  { apply in_map_iff. exists (k, sub). auto. }
  split; [reflexivity|].
  unfold matches in Em. apply andb_true_iff in Em as [Em Hurl].
  apply andb_true_iff in Em as [Hagent Htype].
  split; [now apply String.eqb_eq|]. split.
  - destruct (eventType event) as [[| | |t| |]|]; try discriminate.
    exists t. split; [reflexivity|].
    apply existsb_exists in Htype as [x [Hx Heq]]. apply String.eqb_eq in Heq. now subst.
  - intros pattern Hp Hne. rewrite Hp in Hurl.
    destruct (String.eqb_spec pattern EmptyString); [contradiction|exact Hurl].
Qed.

(** X16.  [removeSubscriptionsByAgent] silences that agent and no other:
    afterwards an event of the agent is delivered to nobody, and an event
    of any other agent is delivered as before. *)
Theorem removed_agent_is_silent (st : State) (agent : string) (now : Z)
    (event : BrowserEvent) :
  processEvent (removeSubscriptionsByAgent st agent) now event
  = if String.eqb (ev_agentId event) agent then [] else processEvent st now event.
Proof.
  unfold processEvent, removeSubscriptionsByAgent. cbn [subscriptions eventListeners].
  induction (subscriptions st) as [|[k sub] subs IH]; cbn [List.filter flat_map snd].
  - now destruct (String.eqb _ _).
  - destruct (String.eqb_spec (agentId sub) agent) as [Ha|Ha]; cbn [negb flat_map snd].
    + rewrite IH. destruct (String.eqb_spec (ev_agentId event) agent) as [He|He];
        [reflexivity|].
      unfold matches at 2.
      replace (String.eqb (agentId sub) (ev_agentId event)) with false; [reflexivity|].
      symmetry. apply String.eqb_neq. congruence.
    + rewrite IH. destruct (String.eqb_spec (ev_agentId event) agent) as [He|He];
        [|reflexivity].
      unfold matches.
      replace (String.eqb (agentId sub) (ev_agentId event)) with false; [reflexivity|].
      symmetry. apply String.eqb_neq. congruence.
Qed.

End EventLaws.

Lemma session_lifecycle_witness :
  let '(session, st1) :=
    AgentSession.createSession AgentSession.initial 1000 "token-1" "agent-a" None in
  AgentSession.validateSession st1 "agent-a" (AgentSession.sessionToken session) = true /\
  (forall token, token <> AgentSession.sessionToken session ->
                 AgentSession.validateSession st1 "agent-a" token = false) /\
  (forall other, other <> "agent-a"%string ->
                 AgentSession.getSession st1 other
                 = AgentSession.getSession AgentSession.initial other) /\
  AgentSession.getSession (AgentSession.closeSession st1 "agent-a") "agent-a" = None /\
  (forall token,
     AgentSession.validateSession (AgentSession.closeSession st1 "agent-a") "agent-a" token
     = false).
Proof.
  apply (session_lifecycle AgentSession.initial 1000 "token-1" "agent-a" None).
  constructor.
Defined.

Lemma stale_sessions_expire_witness :
  AgentSession.getSession
    (snd (AgentSession.cleanupStaleSessions
            (snd (AgentSession.createSession AgentSession.initial 1000 "token-1" "agent-a" None))
            400000))
    "agent-a"
  = None /\
  forall token,
    AgentSession.validateSession
      (snd (AgentSession.cleanupStaleSessions
              (snd (AgentSession.createSession AgentSession.initial 1000 "token-1" "agent-a"
                      None))
              400000))
      "agent-a" token
    = false.
Proof.
  apply (stale_sessions_expire
           (snd (AgentSession.createSession AgentSession.initial 1000 "token-1" "agent-a" None))
           400000 "agent-a"
           (AgentSession.mkSession "agent-a" "token-1" "agent-a" AgentSession.active 1000 1000)).
  - repeat constructor. intros [].
  - reflexivity.
Defined.

Lemma events_reach_their_subscribers_witness :
  In 7%nat (EventBridge.eventListeners Laws.oneSubscription) /\
  exists sub : EventBridge.EventSubscription,
    In sub (map snd (EventBridge.subscriptions Laws.oneSubscription)) /\
    get "subscriptionId" (Some (EventBridge.forwarded 5000 Laws.loginSubscription Laws.pageLoad))
    = Some (JStr (EventBridge.id sub)) /\
    EventBridge.agentId sub = EventBridge.ev_agentId Laws.pageLoad /\
    (exists t, EventBridge.eventType Laws.pageLoad = Some (JStr t) /\
               In t (EventBridge.eventTypes sub)) /\
    (forall pattern, EventBridge.urlPattern sub = Some pattern -> pattern <> EmptyString ->
                     includes (EventBridge.url Laws.pageLoad) pattern = true).
Proof.
  apply (events_reach_their_subscribers Laws.oneSubscription 5000 Laws.pageLoad 7
           (EventBridge.forwarded 5000 Laws.loginSubscription Laws.pageLoad)).
  left. reflexivity.
Defined.

Lemma getDefaultAgentId_stable_witness :
  AgentSession.getDefaultAgentId
    (Laws.sessionCalls
       (snd (AgentSession.getDefaultAgentId AgentSession.initial 1000 "token-1"))
       [ Laws.CreateSession 2000 "token-2" "agent-a" None;
         Laws.TouchSession 3000 "default";
         Laws.CloseSession "agent-a";
         Laws.SetDefaultAgentId "agent-b";
         Laws.CleanupStaleSessions 200000 ])
    250000 "token-3"
  = ("default"%string,
     AgentSession.mkState
       [("default"%string,
         AgentSession.mkSession "default" "token-1" "default" AgentSession.active 3000 1000)]
       "agent-b").
Proof.
  apply (proj1 (getDefaultAgentId_stable AgentSession.initial 1000 "token-1"
                  [ Laws.CreateSession 2000 "token-2" "agent-a" None;
                    Laws.TouchSession 3000 "default";
                    Laws.CloseSession "agent-a";
                    Laws.SetDefaultAgentId "agent-b";
                    Laws.CleanupStaleSessions 200000 ])).
  - split; [constructor|intros k s []].
  - cbn. repeat split; discriminate.
Defined.
(** * Further properties of the server *)

Section OnceFacts.

Import Server.
Variable rt : Runtime.

Ltac cases :=
  repeat match goal with
         | |- context [match ?x with _ => _ end] => destruct x
         end.

Lemma resolveCount_app (out1 out2 : list Effect) :
  Laws.resolveCount (out1 ++ out2) = (Laws.resolveCount out1 + Laws.resolveCount out2)%nat.
Proof.
  induction out1 as [|e out1 IH]; [reflexivity|].
  destruct e; cbn [app Laws.resolveCount]; lia.
Qed.

Lemma resolveCount_notify (l : list (nat * json)) :
  Laws.resolveCount (map (fun n => Notify (fst n) (snd n)) l) = 0%nat.
Proof. induction l as [|x l IH]; [reflexivity|exact IH]. Qed.

Lemma resolutions_le (x : nat) (out : list Effect) :
  (length (resolutions x out) <= Laws.resolveCount out)%nat.
Proof.
  induction out as [|e out IH]; [reflexivity|].
  unfold resolutions in *. cbn [flat_map Laws.resolveCount].
  destruct e as [c r| | | |]; cbn [app]; try exact IH.
  rewrite length_app. destruct (Nat.eqb c x); cbn [length]; lia.
Qed.

Lemma once_count (out : list Effect) :
  (Laws.resolveCount out <= 1)%nat -> Laws.atMostOnce out.
Proof. intros H x. pose proof (resolutions_le x out). lia. Qed.

Lemma resolved_In (x : nat) (out : list Effect) :
  resolutions x out <> [] -> exists r, In (Resolve x r) out.
Proof.
  induction out as [|e out IH]; [intros []; reflexivity|].
  unfold resolutions in *. cbn [flat_map]. intros H.
  destruct e as [c r| | | |];
    try (destruct (IH H) as [r' Hr]; exists r'; now right).
  destruct (Nat.eqb_spec c x) as [->|Hne].
  - exists r. now left.
  - destruct (IH H) as [r' Hr]. exists r'. now right.
Qed.

(** A handler run after another resolves nothing the first one
    resolved. *)
Lemma once_trans (st1 st2 st3 : State) (out1 out2 : list Effect) :
  Spec.Good st1 st2 out1 -> Spec.Good st2 st3 out2 ->
  Laws.atMostOnce out1 -> Laws.atMostOnce out2 -> Laws.atMostOnce (out1 ++ out2).
Proof.
  intros [W1 M1 C1 L1 R1] [W2 M2 C2 L2 R2] H1 H2 x.
  rewrite resolutions_app, length_app.
  destruct (resolutions x out1) as [|r rs] eqn:E.
  - cbn [length]. apply H2.
  - destruct (resolved_In x out1) as [r' Hin]; [rewrite E; discriminate|].
    destruct (R1 x r' Hin) as (_ & Hdead & Hlt).
    rewrite (resolutions_none x out2).
    + rewrite <- E, Nat.add_0_r. apply H1.
    + intros r2 Hin2. destruct (R2 x r2 Hin2) as ([Ha|Ha] & _); [contradiction|lia].
Qed.

Lemma once_cons (e : Effect) (out : list Effect) :
  (forall x r, e <> Resolve x r) -> Laws.atMostOnce out -> Laws.atMostOnce (e :: out).
Proof.
  intros He H x. unfold resolutions. cbn [flat_map].
  destruct e as [c r| | | |]; try apply H. now destruct (He c r).
Qed.

Lemma once_nil : Laws.atMostOnce [].
Proof. intros x. cbn. lia. Qed.

Lemma handleToolResult_count (st : State) (id : string) (msg : json) :
  (Laws.resolveCount (snd (handleToolResult rt st id msg)) <= 1)%nat.
Proof.
  unfold handleToolResult, entryResolve, entryReject. cases; cbn; lia.
Qed.

Lemma handleExtensionMessage_count (st : State) (now : Z) (uuid : string) (message : json) :
  (Laws.resolveCount (snd (handleExtensionMessage rt st now uuid message)) <= 1)%nat.
Proof.
  unfold handleExtensionMessage.
  cases; try apply handleToolResult_count;
    cbn [snd Laws.resolveCount]; rewrite ?resolveCount_notify; lia.
Qed.

Lemma handleLine_count (st : State) (now : Z) (uuid l : string) :
  (Laws.resolveCount (snd (handleLine rt st now uuid l)) <= 1)%nat.
Proof.
  unfold handleLine.
  cases; try apply handleExtensionMessage_count; cbn [snd Laws.resolveCount]; lia.
Qed.

Lemma handleLines_once (lines : list string) (st : State) (now : Z)
    (uuids : nat -> string) (i : nat) :
  Spec.WellFormed st -> Laws.atMostOnce (snd (handleLines rt st now uuids i lines)).
Proof.
  revert st i. induction lines as [|l lines IH]; intros st i Hwf; cbn [handleLines].
  - apply once_nil.
  - destruct (String.eqb l EmptyString); [now apply IH|].
    pose proof (handleLine_Good rt st now (uuids i) l Hwf) as G1.
    pose proof (once_count _ (handleLine_count st now (uuids i) l)) as O1.
    destruct (handleLine rt st now (uuids i) l) as [st1 out1]. cbn [fst snd] in *.
    pose proof (handleLines_Good rt lines st1 now uuids (S i) (Spec.g_wf _ _ _ G1)) as G2.
    pose proof (IH st1 (S i) (Spec.g_wf _ _ _ G1)) as O2.
    destruct (handleLines rt st1 now uuids (S i) lines) as [st2 out2]. cbn [fst snd] in *.
    now apply (once_trans st st1 st2).
Qed.

Lemma rejectAll_once (entries : list (string * nat)) (st : State) :
  pendingRequests st = entries -> Spec.WellFormed st ->
  Laws.atMostOnce (snd (rejectAll rt st entries)).
Proof.
  revert st. induction entries as [|[id call] entries IH]; intros st Hp Hwf.
  - apply once_nil.
  - cbn [rejectAll entryResolve].
    set (st3 := removeErrorListener
                  (set_pending (clearTimeout st call)
                               (Map_delete (pendingRequests (clearTimeout st call)) id)) call).
    assert (Hin : In (id, call) (pendingRequests st)) by (rewrite Hp; now left).
    destruct (Spec.wf_pending st Hwf id call Hin) as [Ht Hr].
    assert (H1 : Spec.Good st st3
                   [Resolve call
                      (textContent rt
                         (errorObject "EXTENSION_NOT_CONNECTED"
                            "Extension disconnected while request was pending"))]).
    { apply (Good_core_r st (Spec.retire st id call)); [reflexivity|].
      now apply Good_retire. }
    assert (H3 : pendingRequests st3 = entries).
    { unfold st3. cbn [removeErrorListener set_errorListeners set_pending clearTimeout
                         set_timers pendingRequests].
      rewrite Hp. apply Map_delete_head. }
    pose proof (rejectAll_Good rt entries st3 H3 (Spec.g_wf _ _ _ H1)) as G2.
    pose proof (IH st3 H3 (Spec.g_wf _ _ _ H1)) as O2.
    destruct (rejectAll rt st3 entries) as [st4 out']. cbn [fst snd] in *.
    apply (once_trans st st3 st4 [_] out' H1 G2); [|exact O2].
    apply once_count. cbn. lia.
Qed.

Lemma onError_count (st : State) (call : nat) :
  (Laws.resolveCount (snd (onError rt st call)) <= 1)%nat.
Proof. unfold onError. cases; cbn; lia. Qed.

Lemma emitError_once (listeners : list nat) (st : State) :
  Spec.WellFormed st -> Laws.atMostOnce (snd (emitError rt st listeners)).
Proof.
  revert st. induction listeners as [|call listeners IH]; intros st Hwf; cbn [emitError].
  - apply once_nil.
  - pose proof (onError_Good rt st call Hwf) as G1.
    pose proof (once_count _ (onError_count st call)) as O1.
    destruct (onError rt st call) as [st1 out1]. cbn [fst snd] in *.
    pose proof (emitError_Good rt listeners st1 (Spec.g_wf _ _ _ G1)) as G2.
    pose proof (IH st1 (Spec.g_wf _ _ _ G1)) as O2.
    destruct (emitError rt st1 listeners) as [st2 out2]. cbn [fst snd] in *.
    now apply (once_trans st st1 st2).
Qed.

Lemma step_once (st : State) (e : Event) :
  Spec.WellFormed st -> Laws.atMostOnce (snd (step rt st e)).
Proof.
  intros Hwf. destruct e; cbn [step].
  - destruct (onAccept_out rt st sock0 now uuid1 uuid2 uuid3) as [agent ->].
    apply once_count. rewrite resolveCount_app.
    destruct (extensionSocket st) as [old|]; [destruct (negb _)|]; cbn; lia.
  - unfold onSocketData. destruct (isDestroyed st sock0); [apply once_nil|].
    apply handleLines_once.
    match goal with
    | |- Spec.WellFormed ?st1 => apply (WellFormed_core st st1); [reflexivity|exact Hwf]
    end.
  - unfold onSocketClose.
    match goal with
    | |- context [rejectAll rt ?st1 (pendingRequests ?st1)] =>
        assert (Hcore : Spec.core st = Spec.core st1)
          by (destruct (extensionSocket (set_destroyed st (sock0 :: destroyed st)))
                as [cur|]; [destruct (Nat.eqb cur sock0)|]; reflexivity);
        pose proof (rejectAll_once (pendingRequests st1) st1 eq_refl
                      (WellFormed_core st st1 Hcore Hwf)) as H;
        destruct (rejectAll rt st1 (pendingRequests st1)) as [st2 out]
    end.
    cbn [snd] in *. apply once_cons; [discriminate|exact H].
  - unfold onSocketError.
    match goal with
    | |- context [emitError rt ?st1 ?fired] =>
        pose proof (emitError_once fired st1 (WellFormed_core st st1 eq_refl Hwf)) as H;
        destruct (emitError rt st1 fired) as [st2 out]
    end.
    cbn [snd] in *. apply once_cons; [discriminate|exact H].
  - apply once_nil.
  - apply once_count. unfold onTimer. cases; cbn; lia.
  - apply once_count. unfold callExtensionTool.
    destruct (String.eqb tool0 "switch_browser").
    + unfold handleSwitchBrowser. cbn [set_calls extensionSocket].
      destruct (extensionSocket st) as [cur|]; [destruct (negb _)|]; cbn; lia.
    + cases; cbn; lia.
  - apply once_count. unfold onSwitchPoll. cases; cbn; lia.
  - apply once_count. unfold onSwitchTimeout. cases; cbn; lia.
Qed.

Lemma run_once (trace : list Event) (st : State) :
  Spec.WellFormed st -> Spec.freshTrace rt st trace ->
  Spec.Good st (fst (run rt st trace)) (snd (run rt st trace)) /\
  Laws.atMostOnce (snd (run rt st trace)).
Proof.
  revert st. induction trace as [|e trace IH]; intros st Hwf Hf.
  - split; [|apply once_nil].
    apply Good_quiet; [exact Hwf|reflexivity|apply quiet_nil].
  - cbn [run Spec.freshTrace] in *. destruct Hf as [He Ht].
    pose proof (step_Good rt st e Hwf He) as G1.
    pose proof (step_once st e Hwf) as O1.
    destruct (step rt st e) as [st1 out1]. cbn [fst snd] in *.
    destruct (IH st1 (Spec.g_wf _ _ _ G1) Ht) as [G2 O2].
    destruct (run rt st1 trace) as [st2 out2]. cbn [fst snd] in *.
    split; [now apply (Good_trans st st1 st2)|now apply (once_trans st st1 st2)].
Qed.

(** X17.  No tool call is answered twice: in every run of the server from
    its initial state (request ids being fresh UUIDs), whatever the
    extension sends and whenever sockets close, fail or time out, the
    promise of each invocation of [callExtensionTool] is resolved at most
    once. *)
Theorem resolved_at_most_once (trace : list Event) (call : nat) :
  Spec.freshTrace rt initial trace ->
  (length (resolutions call (snd (run rt initial trace))) <= 1)%nat.
Proof.
  intros Hf. destruct (run_once trace initial WellFormed_initial Hf) as [_ H].
  apply H.
Qed.

End OnceFacts.

Lemma resolved_at_most_once_witness :
  (length (Server.resolutions 0
             (snd (Server.run Spec.demoRuntime Server.initial
                     (Spec.beforeDeadline
                      ++ Server.TimerFire 0 :: Spec.afterDeadline ++ [Server.TimerFire 0]))))
   <= 1)%nat.
Proof.
  apply (resolved_at_most_once Spec.demoRuntime
           (Spec.beforeDeadline
            ++ Server.TimerFire 0 :: Spec.afterDeadline ++ [Server.TimerFire 0]) 0).
  cbn. repeat split; try discriminate. intros c [].
Defined.

Section LinkFacts.

Import Server.
Variable rt : Runtime.

Ltac cases :=
  repeat match goal with
         | |- context [match ?x with _ => _ end] => destruct x
         end.

(** X18.  A heartbeat keeps the link alive for a minute: after a
    [session_heartbeat] record handled at time [t] on a live, connected
    socket, a tool call made up to 60 000 ms later is written to that
    socket; one made later than that is answered at once with
    [EXTENSION_NOT_CONNECTED], and nothing is written. *)
Theorem heartbeat_keeps_the_link (st : State) (s : nat) (t now : Z) (uuid : string)
    (hb : json) (tool : string) (input : json) (u1 u2 : string) :
  Laws.isHeartbeat hb ->
  extensionSocket st = Some s -> isDestroyed st s = false ->
  Health.extensionConnected (health st) = true ->
  tool <> "switch_browser"%string ->
  let st1 := fst (handleExtensionMessage rt st t uuid hb) in
  if now - t <=? 60000
  then exists line, snd (callExtensionTool rt st1 tool input now u1 u2) = [SocketWrite s line]
  else snd (callExtensionTool rt st1 tool input now u1 u2)
       = [Resolve (length (calls st)) (Laws.notConnected rt)].
Proof.
  intros [[fields ->] Htype] Hs Hd Hc Htool. cbn zeta.
  apply String.eqb_neq in Htool.
  assert (Hst1 : exists agents',
             fst (handleExtensionMessage rt st t uuid (JObj fields))
             = set_agents (set_health st (Health.recordHeartbeat (health st) t)) agents').
  { unfold handleExtensionMessage. rewrite Htype. cbn [nonEmpty String.eqb Ascii.eqb
                                                        Bool.eqb andb].
    destruct (nonEmpty (asString (get "agentId" (Some (JObj fields))))).
    - eexists. reflexivity.
    - exists (agents st). now destruct st. }
  destruct Hst1 as [agents' ->].
  unfold callExtensionTool. rewrite Htool.
  cbn [set_agents set_health extensionSocket calls]. rewrite Hs.
  assert (Hconn : connected
                    (set_agents (set_health st (Health.recordHeartbeat (health st) t)) agents')
                    now
                  = negb (60000 <? now - t)).
  { unfold connected. cbn [set_agents set_health extensionSocket health]. rewrite Hs.
    unfold isDestroyed in *. cbn [set_agents set_health destroyed]. rewrite Hd.
    unfold Health.isExtensionConnected, Health.recordHeartbeat.
    cbn [Health.extensionConnected Health.lastHeartbeat negb andb]. now rewrite Hc. }
  rewrite Hconn.
  destruct (Z.leb_spec (now - t) 60000) as [Hle|Hgt].
  - replace (60000 <? now - t) with false by (symmetry; apply Z.ltb_ge; exact Hle).
    cbn [negb].
    match goal with
    | |- context [AgentSession.getDefaultAgentId ?a now u2] =>
        destruct (AgentSession.getDefaultAgentId a now u2) as [agent agents1]
    end.
    cbn [snd]. eexists. reflexivity.
  - replace (60000 <? now - t) with true by (symmetry; apply Z.ltb_lt; exact Hgt).
    reflexivity.
Qed.

Lemma writeCount_app (out1 out2 : list Effect) :
  Laws.writeCount (out1 ++ out2) = (Laws.writeCount out1 + Laws.writeCount out2)%nat.
Proof.
  induction out1 as [|e out1 IH]; [reflexivity|].
  destruct e; cbn [app Laws.writeCount]; lia.
Qed.

Lemma writeCount_In (out : list Effect) (s : nat) (line : string) :
  In (SocketWrite s line) out -> (0 < Laws.writeCount out)%nat.
Proof.
  induction out as [|e out IH]; [intros []|].
  intros [->|H]; [cbn; lia|]. specialize (IH H). destruct e; cbn [Laws.writeCount]; lia.
Qed.

Lemma writeCount_notify (l : list (nat * json)) :
  Laws.writeCount (map (fun n => Notify (fst n) (snd n)) l) = 0%nat.
Proof. induction l as [|x l IH]; [reflexivity|exact IH]. Qed.

Lemma handleLine_writes (st : State) (now : Z) (uuid l : string) :
  Laws.writeCount (snd (handleLine rt st now uuid l)) = 0%nat.
Proof.
  assert (H : forall st message,
             Laws.writeCount (snd (handleExtensionMessage rt st now uuid message)) = 0%nat).
  { intros st0 message. unfold handleExtensionMessage, handleToolResult, entryResolve,
      entryReject.
    cases; cbn [snd Laws.writeCount]; rewrite ?writeCount_notify; reflexivity. }
  unfold handleLine. cases; try apply H; reflexivity.
Qed.

Lemma handleLines_writes (lines : list string) (st : State) (now : Z)
    (uuids : nat -> string) (i : nat) :
  Laws.writeCount (snd (handleLines rt st now uuids i lines)) = 0%nat.
Proof.
  revert st i. induction lines as [|l lines IH]; intros st i; cbn [handleLines];
    [reflexivity|].
  destruct (String.eqb l EmptyString); [apply IH|].
  pose proof (handleLine_writes st now (uuids i) l) as H1.
  destruct (handleLine rt st now (uuids i) l) as [st1 out1].
  pose proof (IH st1 (S i)) as H2.
  destruct (handleLines rt st1 now uuids (S i) lines) as [st2 out2].
  cbn [snd] in *. rewrite writeCount_app. lia.
Qed.

Lemma rejectAll_writes (entries : list (string * nat)) (st : State) :
  Laws.writeCount (snd (rejectAll rt st entries)) = 0%nat.
Proof.
  revert st. induction entries as [|[id call] entries IH]; intros st; [reflexivity|].
  cbn [rejectAll entryResolve].
  match goal with
  | |- context [rejectAll rt ?st3 entries] =>
      pose proof (IH st3) as H; destruct (rejectAll rt st3 entries)
  end.
  exact H.
Qed.

Lemma emitError_writes (listeners : list nat) (st : State) :
  Laws.writeCount (snd (emitError rt st listeners)) = 0%nat.
Proof.
  revert st. induction listeners as [|call listeners IH]; intros st; [reflexivity|].
  cbn [emitError].
  assert (H1 : Laws.writeCount (snd (onError rt st call)) = 0%nat)
    by (unfold onError; cases; reflexivity).
  destruct (onError rt st call) as [st1 out1].
  pose proof (IH st1) as H2. destruct (emitError rt st1 listeners) as [st2 out2].
  cbn [snd] in *. rewrite writeCount_app. lia.
Qed.

(** X19.  The server writes to a socket on two occasions only: the
    greeting to a socket it has just accepted, and a tool call to the
    socket of the extension, which it writes only while that socket is not
    destroyed and the extension counts as connected. *)
Theorem writes_go_to_the_live_socket (st : State) (e : Event) (s : nat) (line : string) :
  In (SocketWrite s line) (snd (step rt st e)) ->
  (exists now u1 u2 u3, e = Accept s now u1 u2 u3) \/
  (exists tool input now u1 u2,
     e = ToolCall tool input now u1 u2 /\
     extensionSocket st = Some s /\ isDestroyed st s = false /\
     Health.isExtensionConnected (health st) now = true).
Proof.
  intros Hin. pose proof (writeCount_In _ _ _ Hin) as Hpos.
  destruct e; cbn [step] in *.
  - left. destruct (onAccept_out rt st sock0 now uuid1 uuid2 uuid3) as [agent Hout].
    rewrite Hout in Hin. apply in_app_or in Hin as [Hin|Hin].
    + exfalso. destruct (extensionSocket st) as [old|]; [destruct (negb _)|];
        cbn in Hin; intuition discriminate.
    + destruct Hin as [Hin|[Hin|[]]]; [discriminate|]. injection Hin as -> _. eauto.
  - exfalso. unfold onSocketData in Hpos. destruct (isDestroyed st sock0); [cbn in Hpos; lia|].
    rewrite handleLines_writes in Hpos. lia.
  - exfalso. unfold onSocketClose in Hpos.
    match type of Hpos with
    | context [rejectAll rt ?st1 ?es] =>
        pose proof (rejectAll_writes es st1) as H; destruct (rejectAll rt st1 es)
    end.
    cbn [snd Laws.writeCount] in *. lia.
  - exfalso. unfold onSocketError in Hpos.
    match type of Hpos with
    | context [emitError rt ?st1 ?ls] =>
        pose proof (emitError_writes ls st1) as H; destruct (emitError rt st1 ls)
    end.
    cbn [snd Laws.writeCount] in *. lia.
  - destruct Hin.
  - exfalso. revert Hpos. unfold onTimer. cases; cbn; lia.
  - right. exists tool0, input, now, uuid1, uuid2. split; [reflexivity|].
    revert Hin. unfold callExtensionTool.
    destruct (String.eqb tool0 "switch_browser").
    + unfold handleSwitchBrowser. cbn [set_calls extensionSocket].
      destruct (extensionSocket st) as [cur|]; [destruct (negb _)|]; cbn;
        intuition discriminate.
    + destruct (extensionSocket st) as [cur|] eqn:Es; [|cbn; intuition discriminate].
      destruct (connected st now) eqn:Ec; [|cbn; intuition discriminate].
      destruct (AgentSession.getDefaultAgentId (agents st) now uuid2) as [agent agents1].
      cbn [snd]. intros [Hw|[]]. injection Hw as -> _.
      unfold connected in Ec. rewrite Es in Ec.
      apply andb_true_iff in Ec as [Hd Hc]. apply negb_true_iff in Hd. auto.
  - exfalso. revert Hpos. unfold onSwitchPoll. cases; cbn; lia.
  - exfalso. revert Hpos. unfold onSwitchTimeout. cases; cbn; lia.
Qed.

End LinkFacts.

Lemma heartbeat_keeps_the_link_witness :
  snd (Server.callExtensionTool Spec.demoRuntime
         (fst (Server.handleExtensionMessage Spec.demoRuntime Laws.connectedServer 5000 "uuid-1"
                 (JObj [("type", JStr "session_heartbeat")])))
         "click" Spec.clickInput 70000 "req-1" "token-3")
  = [Server.Resolve 0 (Laws.notConnected Spec.demoRuntime)].
Proof.
  apply (heartbeat_keeps_the_link Spec.demoRuntime Laws.connectedServer 1 5000 70000 "uuid-1"
           (JObj [("type", JStr "session_heartbeat")]) "click" Spec.clickInput "req-1" "token-3").
  - split; [eexists; reflexivity|reflexivity].
  - reflexivity.
  - reflexivity.
  - reflexivity.
  - discriminate.
Defined.

Lemma writes_go_to_the_live_socket_witness :
  (exists now u1 u2 u3,
     Server.ToolCall "click" Spec.clickInput 2000 "req-1" "token-3"
     = Server.Accept 1 now u1 u2 u3) \/
  (exists tool input now u1 u2,
     Server.ToolCall "click" Spec.clickInput 2000 "req-1" "token-3"
     = Server.ToolCall tool input now u1 u2 /\
     Server.extensionSocket Laws.connectedServer = Some 1%nat /\
     Server.isDestroyed Laws.connectedServer 1 = false /\
     Health.isExtensionConnected (Server.health Laws.connectedServer) now = true).
Proof.
  eapply (writes_go_to_the_live_socket Spec.demoRuntime Laws.connectedServer
            (Server.ToolCall "click" Spec.clickInput 2000 "req-1" "token-3") 1).
  left. reflexivity.
Defined.
(** * Further properties of the tab manager *)

Section TabLaws.

Import TabManager.

Lemma acquire_refused (st st' : State) (now : Z) (agent : string) (tab ttl_ : Z) :
  acquireTabLock st now agent tab ttl_ = (false, st') ->
  st' = st /\
  exists existing, tabLocks st !! tab = Some existing /\ agentId existing <> agent.
Proof.
  unfold acquireTabLock. destruct (tabLocks st !! tab) as [existing|]; [|discriminate].
  destruct (ttl existing <? now - acquiredAt existing); [discriminate|].
  destruct (String.eqb_spec (agentId existing) agent) as [He|Hne]; [discriminate|].
  intros [= <-]. eauto.
Qed.

Lemma release_clears (st : State) (agent : string) (tab : Z) (lock : TabLockInfo) :
  tabLocks (releaseTabLock st agent tab) !! tab = Some lock -> agentId lock <> agent.
Proof.
  unfold releaseTabLock. destruct (tabLocks st !! tab) as [l|] eqn:E.
  - destruct (String.eqb_spec (agentId l) agent) as [He|Hne].
    + cbn [set_tabLocks tabLocks]. rewrite lookup_delete_eq. discriminate.
    + rewrite E. now intros [= <-].
  - rewrite E. discriminate.
Qed.

(** X20.  A tab lock excludes the other agents for as long as it lives:
    once [acquireTabLock] has succeeded for an agent at time [t0], the
    table holds a lock of that agent taken at [t0]; every other agent is
    refused up to [ttl] ms later (the table being left as it is), gets the
    lock once more than [ttl] ms have passed, and cannot release it; after
    the holder has released it, anyone gets it. *)
Theorem tab_lock_exclusion (st st1 : State) (t0 : Z) (holder : string) (tab ttl0 : Z) :
  acquireTabLock st t0 holder tab ttl0 = (true, st1) ->
  exists lock,
    tabLocks st1 !! tab = Some lock /\ agentId lock = holder /\ acquiredAt lock = t0 /\
    (tabLocks st !! tab = None -> ttl lock = ttl0) /\
    forall (other : string) (t1 ttl1 : Z),
      other <> holder ->
      (t1 - t0 <= ttl lock -> acquireTabLock st1 t1 other tab ttl1 = (false, st1)) /\
      (ttl lock < t1 - t0 -> fst (acquireTabLock st1 t1 other tab ttl1) = true) /\
      releaseTabLock st1 other tab = st1 /\
      fst (acquireTabLock (releaseTabLock st1 holder tab) t1 other tab ttl1) = true.
Proof.
  intros Hacq.
  assert (H : exists lock,
             tabLocks st1 !! tab = Some lock /\ agentId lock = holder /\
             acquiredAt lock = t0 /\ (tabLocks st !! tab = None -> ttl lock = ttl0)).
  { unfold acquireTabLock in Hacq.
    destruct (tabLocks st !! tab) as [existing|] eqn:E.
    - destruct (ttl existing <? t0 - acquiredAt existing).
      + injection Hacq as <-. cbn [set_tabLocks tabLocks]. rewrite lookup_insert_eq.
        eexists. repeat split; congruence.
      + destruct (String.eqb_spec (agentId existing) holder) as [He|Hne]; [|discriminate].
        injection Hacq as <-. cbn [set_tabLocks tabLocks negb]. rewrite lookup_insert_eq.
        eexists. repeat split; try exact He; congruence.
    - injection Hacq as <-. cbn [set_tabLocks tabLocks]. rewrite lookup_insert_eq.
      eexists. repeat split; congruence. }
  destruct H as (lock & Hl & Ha & Ht & Httl). exists lock.
  repeat (split; [assumption|]).
  intros other t1 ttl1 Hne. split; [|split; [|split]].
  - intros Hfresh. apply acquire_blocked with lock; [exact Hl|congruence|lia].
  - intros Hold. rewrite (acquire_expired _ _ _ _ _ lock Hl) by lia. reflexivity.
  - unfold releaseTabLock. rewrite Hl.
    destruct (String.eqb_spec (agentId lock) other); [congruence|reflexivity].
  - unfold releaseTabLock. rewrite Hl, Ha, String.eqb_refl.
    rewrite acquire_free; [reflexivity|].
    cbn [set_tabLocks tabLocks]. apply lookup_delete_eq.
Qed.

(** ** Colours *)

Lemma used_color (st : State) (c : string) :
  existsb (String.eqb c) (map (fun kv => color (snd kv)) (map_to_list (agentGroups st))) = false
  <-> Laws.unusedColor st c.
Proof.
  unfold Laws.unusedColor. split.
  - intros H agent group Hg Hc.
    assert (Hex : existsb (String.eqb c)
                    (map (fun kv => color (snd kv)) (map_to_list (agentGroups st))) = true).
    { apply existsb_exists. exists (color group). split; [|subst; apply String.eqb_refl].
      apply in_map_iff. exists (agent, group). split; [reflexivity|].
      apply list_elem_of_In. now apply elem_of_map_to_list. }
    congruence.
  - intros H. destruct (existsb _ _) eqn:E; [|reflexivity].
    apply existsb_exists in E as [x [Hx Heq]]. apply String.eqb_eq in Heq. subst x.
    apply in_map_iff in Hx as [[agent group] [Hc Hin]].
    apply list_elem_of_In, elem_of_map_to_list in Hin. cbn [snd] in Hc.
    exfalso. now apply (H agent group Hin).
Qed.

(** X21.  [selectColor] answers with a colour of the palette: the
    preferred one whenever it is a colour of the palette, even if a group
    has it already; otherwise a colour no group has, whenever the palette
    has one left (and [blue] when it has none). *)
Theorem selectColor_spec (st : State) (preferred : option string) :
  In (selectColor st preferred) TAB_GROUP_COLORS /\
  (forall p, preferred = Some p -> In p TAB_GROUP_COLORS -> selectColor st preferred = p) /\
  ((forall p, preferred = Some p -> ~ In p TAB_GROUP_COLORS) ->
   (exists free, In free TAB_GROUP_COLORS /\ Laws.unusedColor st free) ->
   Laws.unusedColor st (selectColor st preferred)) /\
  ((forall p, preferred = Some p -> ~ In p TAB_GROUP_COLORS) ->
   (forall c, In c TAB_GROUP_COLORS -> ~ Laws.unusedColor st c) ->
   selectColor st preferred = "blue"%string).
Proof.
  unfold selectColor.
  set (used := map (fun kv => color (snd kv)) (map_to_list (agentGroups st))).
  set (available := List.filter (fun c => negb (existsb (String.eqb c) used)) TAB_GROUP_COLORS).
  set (fallback := match available with c :: _ => c | [] => "blue"%string end).
  assert (Hav : forall c, In c available <-> In c TAB_GROUP_COLORS /\ Laws.unusedColor st c).
  { intros c. unfold available, used. rewrite filter_In, negb_true_iff.
    now rewrite (used_color st c). }
  assert (Hfb : In fallback TAB_GROUP_COLORS).
  { unfold fallback. destruct available as [|c l] eqn:E; [cbn; auto|].
    apply (Hav c). now left. }
  assert (Hpref : forall p, In p TAB_GROUP_COLORS ->
             negb (String.eqb p EmptyString) && existsb (String.eqb p) TAB_GROUP_COLORS
             = true).
  { intros p Hp. apply andb_true_iff. split.
    - apply negb_true_iff, String.eqb_neq. intros ->. cbn in Hp. intuition discriminate.
    - apply existsb_exists. exists p. split; [exact Hp|apply String.eqb_refl]. }
  assert (Hnot : forall p, ~ In p TAB_GROUP_COLORS ->
             negb (String.eqb p EmptyString) && existsb (String.eqb p) TAB_GROUP_COLORS
             = false).
  { intros p Hp. apply andb_false_iff. right.
    destruct (existsb _ _) eqn:E; [|reflexivity].
    apply existsb_exists in E as [x [Hx Heq]]. apply String.eqb_eq in Heq. now subst. }
  split; [|split; [|split]].
  - destruct preferred as [p|]; [|exact Hfb].
    destruct (negb _ && existsb _ _) eqn:E; [|exact Hfb].
    apply andb_true_iff in E as [_ E]. apply existsb_exists in E as [x [Hx Heq]].
    apply String.eqb_eq in Heq. now subst.
  - intros p -> Hp. now rewrite (Hpref p Hp).
  - intros Hbad [free Hfree].
    assert (Hsel : match preferred with
                   | Some p =>
                       if negb (String.eqb p EmptyString)
                          && existsb (String.eqb p) TAB_GROUP_COLORS
                       then p else fallback
                   | None => fallback
                   end = fallback).
    { destruct preferred as [p|]; [|reflexivity]. now rewrite (Hnot p (Hbad p eq_refl)). }
    rewrite Hsel. unfold fallback. apply Hav in Hfree.
    destruct available as [|c l]; [destruct Hfree|].
    apply (Hav c). now left.
  - intros Hbad Hfull.
    assert (Hsel : match preferred with
                   | Some p =>
                       if negb (String.eqb p EmptyString)
                          && existsb (String.eqb p) TAB_GROUP_COLORS
                       then p else fallback
                   | None => fallback
                   end = fallback).
    { destruct preferred as [p|]; [|reflexivity]. now rewrite (Hnot p (Hbad p eq_refl)). }
    rewrite Hsel. unfold fallback. destruct available as [|c l]; [reflexivity|].
    exfalso. destruct (proj1 (Hav c) (or_introl eq_refl)) as [Hc Hu]. now apply (Hfull c).
Qed.

(** ** Forgetting tabs *)

Lemma forgetTab_spec (st : State) (agent : string) (tab : Z) :
  let st' := forgetTab st agent tab in
  (forall a t, isTabInAgentGroup st' a (Some t)
               = isTabInAgentGroup st a (Some t)
                 && negb (String.eqb a agent && (t =? tab))) /\
  (forall t, tabToAgent st' !! t = if t =? tab then None else tabToAgent st !! t) /\
  (forall t, tabLocks st' !! t = if t =? tab then None else tabLocks st !! t).
Proof.
  cbn zeta. unfold forgetTab, isTabInAgentGroup, group_delete.
  cbn [agentGroups tabToAgent tabLocks]. split; [|split].
  - intros a t. destruct (String.eqb_spec a agent) as [->|Hne].
    + rewrite lookup_alter_eq. destruct (agentGroups st !! agent) as [g|]; [|reflexivity].
      cbn [fmap option_fmap option_map tabs andb].
      destruct (Z.eqb_spec t tab) as [->|Ht]; cbn [negb].
      * rewrite andb_false_r. apply bool_decide_eq_false.
      rewrite elem_of_difference, elem_of_singleton. tauto.
      * rewrite andb_true_r. apply bool_decide_ext.
      rewrite elem_of_difference, elem_of_singleton. tauto.
    + rewrite lookup_alter_ne by congruence. cbn [andb negb]. now rewrite andb_true_r.
  - intros t. destruct (Z.eqb_spec t tab) as [->|Ht].
    + apply lookup_delete_eq.
    + apply lookup_delete_ne. congruence.
  - intros t. destruct (Z.eqb_spec t tab) as [->|Ht].
    + apply lookup_delete_eq.
    + apply lookup_delete_ne. congruence.
Qed.

Lemma forgetTabs_spec (stale : list Z) (st : State) (agent : string) :
  let st' := foldl (fun s tab => forgetTab s agent tab) st stale in
  (forall a t, isTabInAgentGroup st' a (Some t)
               = isTabInAgentGroup st a (Some t)
                 && negb (String.eqb a agent && existsb (Z.eqb t) stale)) /\
  (forall t, tabToAgent st' !! t
             = if existsb (Z.eqb t) stale then None else tabToAgent st !! t) /\
  (forall t, tabLocks st' !! t
             = if existsb (Z.eqb t) stale then None else tabLocks st !! t).
Proof.
  cbn zeta. revert st. induction stale as [|x stale IH]; intros st; cbn [foldl existsb].
  - repeat split; intros; rewrite ?andb_false_r; cbn [negb]; rewrite ?andb_true_r;
      reflexivity.
  - destruct (IH (forgetTab st agent x)) as (H1 & H2 & H3).
    destruct (forgetTab_spec st agent x) as (F1 & F2 & F3). cbn zeta in *.
    split; [|split].
    + intros a t. rewrite H1, F1.
      destruct (String.eqb a agent), (t =? x), (existsb (Z.eqb t) stale);
        cbn [andb orb negb]; rewrite ?andb_false_r, ?andb_true_r; reflexivity.
    + intros t. rewrite H2, F2.
      destruct (t =? x), (existsb (Z.eqb t) stale); reflexivity.
    + intros t. rewrite H3, F3.
      destruct (t =? x), (existsb (Z.eqb t) stale); reflexivity.
Qed.

Lemma existsb_In (t : Z) (l : list Z) : existsb (Z.eqb t) l = true <-> In t l.
Proof.
  rewrite existsb_exists. split.
  - intros [x [Hx Heq]]. apply Z.eqb_eq in Heq. now subst.
  - intros H. exists t. split; [exact H|apply Z.eqb_refl].
Qed.

(** X22.  [cleanupStaleTabs], for an agent that has a group and a list of
    tabs that is not empty, forgets exactly the listed tabs: each is out
    of the group of the agent, has no owner and no lock; every other tab
    keeps its group, its owner and its lock.  The owner and the lock of a
    listed tab go even if the tab is of another agent, in whose group it
    stays. *)
Theorem cleanupStaleTabs_spec (st : State) (agent : string) (staleTabs : list Z) :
  is_Some (agentGroups st !! agent) -> staleTabs <> [] ->
  let st' := fst (cleanupStaleTabs st agent staleTabs) in
  snd (cleanupStaleTabs st agent staleTabs) = true /\
  forall tab : Z,
    (In tab staleTabs ->
     isTabInAgentGroup st' agent (Some tab) = false /\
     tabToAgent st' !! tab = None /\ tabLocks st' !! tab = None /\
     forall other, other <> agent ->
       isTabInAgentGroup st' other (Some tab) = isTabInAgentGroup st other (Some tab)) /\
    (~ In tab staleTabs ->
     tabToAgent st' !! tab = tabToAgent st !! tab /\
     tabLocks st' !! tab = tabLocks st !! tab /\
     forall a, isTabInAgentGroup st' a (Some tab) = isTabInAgentGroup st a (Some tab)).
Proof.
  intros [g Hg] Hne. unfold cleanupStaleTabs. rewrite Hg.
  destruct staleTabs as [|x l]; [contradiction|]. cbn [fst snd].
  split; [reflexivity|]. intros tab.
  destruct (forgetTabs_spec (x :: l) st agent) as (H1 & H2 & H3). cbn zeta in *.
  split.
  - intros Hin. apply existsb_In in Hin. rewrite H1, H2, H3, String.eqb_refl, Hin.
    cbn [andb negb]. rewrite andb_false_r.
    repeat split. intros other Ho. rewrite H1.
    apply String.eqb_neq in Ho. rewrite Ho. cbn [andb negb]. apply andb_true_r.
  - intros Hin.
    assert (Hf : existsb (Z.eqb tab) (x :: l) = false).
    { destruct (existsb (Z.eqb tab) (x :: l)) eqn:E; [|reflexivity].
      apply existsb_In in E. contradiction. }
    rewrite H2, H3, Hf.
    repeat split. intros a. rewrite H1, Hf.
    rewrite andb_false_r. cbn [negb]. apply andb_true_r.
Qed.

End TabLaws.

Lemma tab_lock_exclusion_witness :
  exists lock,
    TabManager.tabLocks
      (snd (TabManager.acquireTabLock Spec.demoTabs 70000 "default" 7 60000)) !! 7
    = Some lock /\
    TabManager.agentId lock = "default"%string /\ TabManager.acquiredAt lock = 70000.
Proof.
  destruct (tab_lock_exclusion Spec.demoTabs
              (snd (TabManager.acquireTabLock Spec.demoTabs 70000 "default" 7 60000))
              70000 "default" 7 60000 eq_refl) as (lock & H1 & H2 & H3 & _).
  exists lock. auto.
Defined.

Lemma cleanupStaleTabs_spec_witness :
  TabManager.isTabInAgentGroup
    (fst (TabManager.cleanupStaleTabs Laws.twoTabs "agent-a" [7])) "agent-a" (Some 7) = false /\
  TabManager.tabLocks (fst (TabManager.cleanupStaleTabs Laws.twoTabs "agent-a" [7])) !! 7 = None /\
  TabManager.isTabInAgentGroup
    (fst (TabManager.cleanupStaleTabs Laws.twoTabs "agent-a" [7])) "agent-a" (Some 8)
  = TabManager.isTabInAgentGroup Laws.twoTabs "agent-a" (Some 8).
Proof.
  destruct (cleanupStaleTabs_spec Laws.twoTabs "agent-a" [7]) as [_ H].
  - eexists. reflexivity.
  - discriminate.
  - destruct (H 7) as [H7 _]. destruct (H 8) as [_ H8].
    destruct (H7 (or_introl eq_refl)) as (A & _ & B & _).
    destruct H8 as (_ & _ & C).
    + intros [E|[]]. discriminate E.
    + split; [exact A|]. split; [exact B|apply C].
Defined.

(** * Further properties of the tool dispatcher *)

Section HandlerFrames.

Import Worker.
Variable rt : Runtime.
Variable browser : list BrowserCall -> BrowserCall -> Result (option json).

Lemma onlyCalls_ret {A : Type} (a : A) : Laws.onlyCalls (ret a).
Proof. intros w. cbn. repeat split. exists []. now rewrite app_nil_r. Qed.

Lemma onlyCalls_throw {A : Type} (m : string) : Laws.onlyCalls (@throw A m).
Proof. intros w. cbn. repeat split. exists []. now rewrite app_nil_r. Qed.

Lemma onlyCalls_lift {A : Type} (r : Result A) : Laws.onlyCalls (lift r).
Proof. intros w. cbn. repeat split. exists []. now rewrite app_nil_r. Qed.

Lemma onlyCalls_bind {A B : Type} (m : Handler A) (k : A -> Handler B) :
  Laws.onlyCalls m -> (forall a, Laws.onlyCalls (k a)) -> Laws.onlyCalls (bind m k).
Proof.
  intros Hm Hk w. unfold bind. specialize (Hm w).
  destruct (m w) as [[a|e] w1]; cbn [snd] in *; [|exact Hm].
  destruct Hm as (H1 & H2 & H3 & c1 & H4).
  destruct (Hk a w1) as (K1 & K2 & K3 & c2 & K4).
  repeat split; try congruence.
  exists (c1 ++ c2). now rewrite K4, H4, app_assoc.
Qed.

Lemma onlyCalls_catch {A : Type} (m : Handler A) (h : string -> Handler A) :
  Laws.onlyCalls m -> (forall e, Laws.onlyCalls (h e)) -> Laws.onlyCalls (catch m h).
Proof.
  intros Hm Hh w. unfold catch. specialize (Hm w).
  destruct (m w) as [[a|e] w1]; cbn [snd] in *; [exact Hm|].
  destruct Hm as (H1 & H2 & H3 & c1 & H4).
  destruct (Hh e w1) as (K1 & K2 & K3 & c2 & K4).
  repeat split; try congruence.
  exists (c1 ++ c2). now rewrite K4, H4, app_assoc.
Qed.

Lemma onlyCalls_call (c : BrowserCall) : Laws.onlyCalls (call browser c).
Proof. intros w. cbn. repeat split. now exists [c]. Qed.

Lemma onlyCalls_requireAccess (agentId : string) (tab : option Z) :
  Laws.onlyCalls (requireAccess agentId tab).
Proof.
  intros w. unfold requireAccess. destruct (tabAccessCheck w agentId tab);
    cbn; repeat split; exists []; now rewrite app_nil_r.
Qed.

Lemma onlyCalls_throwIfError (r : option json) : Laws.onlyCalls (throwIfError r).
Proof.
  unfold throwIfError. destruct (truthy _); [apply onlyCalls_throw|apply onlyCalls_ret].
Qed.

Ltac frames :=
  repeat first
    [ apply onlyCalls_ret | apply onlyCalls_throw | apply onlyCalls_lift
    | apply onlyCalls_call | apply onlyCalls_requireAccess | apply onlyCalls_throwIfError
    | apply onlyCalls_bind | apply onlyCalls_catch
    | match goal with
      | |- forall _, _ => intro
      | |- Laws.onlyCalls (if ?b then _ else _) => destruct b
      | |- Laws.onlyCalls (match ?x with _ => _ end) => destruct x
      end ].

Lemma onlyCalls_handleClick (agentId : string) (input : Input) :
  Laws.onlyCalls (handleClick browser agentId input).
Proof. unfold handleClick. cbv zeta. frames. Qed.

Lemma onlyCalls_handleScroll (agentId : string) (input : Input) :
  Laws.onlyCalls (handleScroll rt browser agentId input).
Proof. unfold handleScroll. cbv zeta. frames. Qed.

Lemma onlyCalls_handleReadPage (agentId : string) (input : Input) :
  Laws.onlyCalls (handleReadPage browser agentId input).
Proof. unfold handleReadPage. cbv zeta. frames. Qed.

Lemma onlyCalls_handleFormInput (agentId : string) (input : Input) :
  Laws.onlyCalls (handleFormInput browser agentId input).
Proof. unfold handleFormInput. cbv zeta. frames. Qed.

Lemma onlyCalls_handleUploadImage (agentId : string) (input : Input) :
  Laws.onlyCalls (handleUploadImage browser agentId input).
Proof.
  unfold handleUploadImage. apply onlyCalls_bind; [apply onlyCalls_requireAccess|].
  intros _. destruct (_ && _); [apply onlyCalls_throw|].
  intros w.
  match goal with
  | |- context [snd (?m w)] => assert (H : Laws.onlyCalls m); [|exact (H w)]
  end.
  cbv zeta. frames.
Qed.

Variable otherHandler : string -> string -> Input -> Handler (option json).

Lemma onlyCalls_dispatchTool (agentId tool : string) (input : Input) :
  In tool Laws.pageTools ->
  Laws.onlyCalls (dispatchTool rt browser otherHandler agentId tool input).
Proof.
  intros Hin. unfold dispatchTool. apply onlyCalls_bind.
  - destruct (assoc "tabId" input) as [[| | n | | |]|];
      try apply onlyCalls_throw; try apply onlyCalls_ret.
    destruct (n <? 0); [apply onlyCalls_throw|apply onlyCalls_ret].
  - intros _. cbn in Hin.
    destruct Hin as [<- | [<- | [<- | [<- | [<- | []]]]]];
      cbn [String.eqb Ascii.eqb Bool.eqb];
      [ apply onlyCalls_handleClick | apply onlyCalls_handleScroll
      | apply onlyCalls_handleReadPage | apply onlyCalls_handleFormInput
      | apply onlyCalls_handleUploadImage ].
Qed.

End HandlerFrames.

Section LockLaws.

Import TabManager.

Lemma acquire_release (st st1 : State) (now : Z) (agent : string) (tab ttl_ : Z) :
  acquireTabLock st now agent tab ttl_ = (true, st1) ->
  releaseTabLock st1 agent tab = set_tabLocks st (delete tab (tabLocks st)).
Proof.
  unfold acquireTabLock, releaseTabLock.
  destruct (tabLocks st !! tab) as [existing|] eqn:E.
  - destruct (ttl existing <? now - acquiredAt existing).
    + intros [= <-]. cbn [set_tabLocks tabLocks agentGroups tabToAgent].
      rewrite lookup_insert_eq. cbn [agentId]. rewrite String.eqb_refl.
      unfold set_tabLocks. cbn [agentGroups tabToAgent tabLocks].
      now rewrite delete_insert_eq, delete_delete_eq.
    + destruct (String.eqb_spec (agentId existing) agent) as [He|Hne]; [|discriminate].
      intros [= <-]. cbn [set_tabLocks tabLocks agentGroups tabToAgent negb].
      rewrite lookup_insert_eq. cbn [agentId]. rewrite He, String.eqb_refl.
      unfold set_tabLocks. cbn [agentGroups tabToAgent tabLocks].
      now rewrite delete_insert_eq.
  - intros [= <-]. cbn [set_tabLocks tabLocks agentGroups tabToAgent].
    rewrite lookup_insert_eq. cbn [agentId]. rewrite String.eqb_refl.
    unfold set_tabLocks. cbn [agentGroups tabToAgent tabLocks].
    now rewrite delete_insert_eq.
Qed.

End LockLaws.

Section WorkerLaws.

Import Worker.
Variable rt : Runtime.
Variable browser : list BrowserCall -> BrowserCall -> Result (option json).
Variable otherHandler : string -> string -> Input -> Handler (option json).

Lemma cdp_tool (tool : string) :
  In tool [ "click"; "scroll"; "read_page"; "form_input" ]%string ->
  existsb (String.eqb tool) CDP_TOOLS = true /\ In tool Laws.pageTools.
Proof.
  cbn. intros [<- | [<- | [<- | [<- | []]]]]; (split; [reflexivity|cbn; tauto]).
Qed.

(** X23.  A call of [click], [scroll], [read_page] or [form_input] on a
    tab, run to its end with no other call in between, never leaves a
    lock of the caller behind, whether it succeeds or fails.  Either
    another agent holds a lock on the tab that has not expired, and the
    call fails with [TAB_LOCKED] and changes nothing; or the tab has no
    lock once the call has returned (a lock the caller held before, and
    an expired lock of another agent, are gone too), and nothing else of
    the tab table has changed. *)
Theorem tool_call_frees_the_lock (now : Z) (agentId tool : string) (input : Input)
    (w : World) (T : Z) :
  In tool [ "click"; "scroll"; "read_page"; "form_input" ]%string ->
  assoc "tabId" input = Some (JNum T) ->
  let r := handleToolCall rt browser otherHandler now agentId tool input w in
  (r = (Failure "TAB_LOCKED" ("Tab " +:+ pretty T +:+ " is locked by another agent"), w) /\
   exists lock,
     TabManager.tabLocks (tabs w) !! T = Some lock /\
     TabManager.agentId lock <> agentId /\
     now - TabManager.acquiredAt lock <= TabManager.ttl lock)
  \/
  ((forall message, fst r <> Failure "TAB_LOCKED" message) /\
   tabs (snd r)
   = TabManager.set_tabLocks (tabs w) (delete T (TabManager.tabLocks (tabs w))) /\
   TabManager.tabLocks (tabs (snd r)) !! T = None).
Proof.
  intros Htool Htab. destruct (cdp_tool tool Htool) as [Hcdp Hpage].
  cbn zeta. unfold handleToolCall. cbn [checkPermission negb].
  rewrite Htab. cbn [asNumber]. rewrite Hcdp.
  replace (bool_decide (is_Some (Some T))) with true
    by (symmetry; apply bool_decide_eq_true; eauto).
  cbn [andb].
  destruct (TabManager.acquireTabLock (tabs w) now agentId T TabManager.TAB_LOCK_TTL)
    as [[] tabs1] eqn:Hacq; cbn [negb].
  - right.
    pose proof (onlyCalls_dispatchTool rt browser otherHandler agentId tool input Hpage
                  (mkWorld tabs1 (screenshotStore w) (screenshotCounter w) (trace w)))
      as (Ht & _).
    destruct (dispatchTool rt browser otherHandler agentId tool input _) as [outcome w2].
    cbn [snd tabs] in Ht.
    assert (Hrel : TabManager.releaseTabLock (tabs w2) agentId T
                   = TabManager.set_tabLocks (tabs w)
                       (delete T (TabManager.tabLocks (tabs w)))).
    { rewrite Ht. now apply acquire_release with now TabManager.TAB_LOCK_TTL. }
    split; [|split].
    + intros message. destruct outcome as [result|m]; cbn [fst]; [discriminate|].
      intros [= Hc _].
      pose proof (inferErrorCode_range otherHandler m) as Hr. rewrite Hc in Hr. cbn in Hr.
      intuition discriminate.
    + destruct outcome; cbn [snd tabs]; exact Hrel.
    + destruct outcome; cbn [snd tabs]; rewrite Hrel; cbn; apply lookup_delete_eq.
  - left. apply acquire_refused_fresh in Hacq as [-> Hex]. split; [reflexivity|exact Hex].
Qed.

Lemma requireAccess_denied (agentId : string) (tab : option Z) (w : World) :
  TabManager.isTabInAgentGroup (tabs w) agentId tab = false ->
  requireAccess agentId tab w = (Throw (Spec.accessError agentId tab), w).
Proof. intros H. unfold requireAccess, tabAccessCheck. now rewrite H. Qed.

Lemma dispatchTool_denied (agentId tool : string) (input : Input) (w : World) :
  In tool Laws.pageTools ->
  TabManager.isTabInAgentGroup (tabs w) agentId (tabIdOf input) = false ->
  exists message,
    dispatchTool rt browser otherHandler agentId tool input w = (Throw message, w) /\
    (tool <> "form_input"%string -> Laws.validTabId input ->
     message = Spec.accessError agentId (tabIdOf input)).
Proof.
  intros Hin Hden. pose proof (requireAccess_denied _ _ _ Hden) as Hacc.
  unfold dispatchTool, Laws.validTabId.
  assert (Hh : exists message,
             (if String.eqb tool "click" then handleClick browser agentId input
              else if String.eqb tool "scroll" then handleScroll rt browser agentId input
              else if String.eqb tool "read_page" then handleReadPage browser agentId input
              else if String.eqb tool "form_input"
                   then handleFormInput browser agentId input
              else if String.eqb tool "upload_image"
                   then handleUploadImage browser agentId input
              else if String.eqb tool "hover" then handleHover browser agentId input
              else if existsb (String.eqb tool) OTHER_TOOLS
                   then otherHandler tool agentId input
              else throw ("Unknown tool: " +:+ tool)) w = (Throw message, w) /\
             (tool <> "form_input"%string ->
              message = Spec.accessError agentId (tabIdOf input))).
  { cbn in Hin.
    destruct Hin as [<- | [<- | [<- | [<- | [<- | []]]]]];
      cbn [String.eqb Ascii.eqb Bool.eqb];
      unfold handleClick, handleScroll, handleReadPage, handleFormInput,
             handleUploadImage, bind, lift;
      rewrite ?Hacc; try (eexists; split; [reflexivity|intros _; reflexivity]).
    destruct (sanitizeRef (assoc "ref" input)) as [ref|e].
    - eexists. split; [reflexivity|congruence].
    - eexists. split; [reflexivity|congruence]. }
  destruct Hh as (m & Hrun & Hm). unfold bind, throw, ret.
  destruct (assoc "tabId" input) as [[| | n | | |]|];
    try (eexists; split; [reflexivity|intros _ []]);
    try (exists m; split; [exact Hrun|intros Ht _; now apply Hm]).
  destruct (Z.ltb_spec n 0).
  - eexists. split; [reflexivity|]. intros _ Hv. lia.
  - exists m. split; [exact Hrun|intros Ht _; now apply Hm].
Qed.

(** X24.  A page tool ([click], [scroll], [read_page], [form_input],
    [upload_image]) called on a tab that is not in the group of the
    calling agent (or with no tab at all) fails without a single call
    into the browser.  But for [form_input], which checks its reference
    first, and when the tab id is a number that is not negative or is
    absent, the code is [TAB_LOCKED] or [TAB_ACCESS_DENIED]. *)
Theorem foreign_tab_is_not_touched (now : Z) (agentId tool : string) (input : Input)
    (w : World) :
  In tool Laws.pageTools ->
  TabManager.isTabInAgentGroup (tabs w) agentId (tabIdOf input) = false ->
  exists code message w',
    handleToolCall rt browser otherHandler now agentId tool input w
    = (Failure code message, w') /\
    trace w' = trace w /\
    (tool <> "form_input"%string -> Laws.validTabId input ->
     code = "TAB_LOCKED"%string \/
     code = "TAB_ACCESS_DENIED"%string /\
     message = Spec.accessError agentId (tabIdOf input)).
Proof.
  intros Hin Hden. unfold handleToolCall. cbn [checkPermission negb].
  destruct (match asNumber (assoc "tabId" input) with
            | Some t =>
                if bool_decide (is_Some (asNumber (assoc "tabId" input)))
                   && existsb (String.eqb tool) CDP_TOOLS
                then TabManager.acquireTabLock (tabs w) now agentId t TabManager.TAB_LOCK_TTL
                else (true, tabs w)
            | None => (true, tabs w)
            end) as [[] tabs1] eqn:Hm; cbn [negb].
  - assert (Hg : TabManager.agentGroups tabs1 = TabManager.agentGroups (tabs w)).
    { destruct (asNumber (assoc "tabId" input)) as [t|]; [|now injection Hm as <-].
      destruct (_ && _); [|now injection Hm as <-].
      pose proof (acquire_groups (tabs w) now agentId t TabManager.TAB_LOCK_TTL) as G.
      now rewrite Hm in G. }
    destruct (dispatchTool_denied agentId tool input
                (mkWorld tabs1 (screenshotStore w) (screenshotCounter w) (trace w)) Hin)
      as (m & -> & Hmsg).
    { unfold TabManager.isTabInAgentGroup in *. cbn [tabs]. now rewrite Hg. }
    eexists; eexists; eexists. split; [reflexivity|]. split.
    + destruct (asNumber (assoc "tabId" input)); [|reflexivity].
      destruct (_ && _); reflexivity.
    + intros Ht Hv. right. rewrite (Hmsg Ht Hv).
      split; [apply inferErrorCode_accessError|reflexivity].
  - eexists; eexists; eexists. split; [reflexivity|]. split; [reflexivity|]. now left.
Qed.

End WorkerLaws.

(** ** Modifier keys *)

Section ModifierLaws.

Import Worker.

Lemma lowerChar_plus (c : ascii) :
  Ascii.eqb (lowerChar c) "+"%char = Ascii.eqb c "+"%char.
Proof. destruct c as [[] [] [] [] [] [] [] []]; reflexivity. Qed.

Lemma toLowerCase_app (a b : string) :
  toLowerCase (a +:+ b) = toLowerCase a +:+ toLowerCase b.
Proof.
  induction a as [|c a IH]; [reflexivity|].
  change (String c a +:+ b) with (String c (a +:+ b)). cbn [toLowerCase].
  now rewrite IH.
Qed.

Lemma toLowerCase_join (l : list string) :
  toLowerCase (Laws.join "+" l) = Laws.join "+" (map toLowerCase l).
Proof.
  induction l as [|p [|q l] IH]; [reflexivity|reflexivity|].
  change (Laws.join "+" (p :: q :: l)) with (p +:+ String "+" (Laws.join "+" (q :: l))).
  rewrite toLowerCase_app. cbn [toLowerCase]. rewrite IH. reflexivity.
Qed.

Lemma plainName_lower (n : string) :
  Laws.plainName n = true -> Laws.plainName (toLowerCase n) = true.
Proof.
  unfold Laws.plainName. induction n as [|c n IH]; [reflexivity|].
  cbn [toLowerCase Laws.allChars]. rewrite lowerChar_plus.
  intros H. apply andb_true_iff in H as [-> H]. exact (IH H).
Qed.

Lemma split_plain_sep (p s : string) :
  Laws.plainName p = true ->
  split "+" (p +:+ String "+" s) = p :: split "+" s.
Proof.
  unfold Laws.plainName. induction p as [|c p IH]; [reflexivity|].
  cbn [Laws.allChars]. intros H. apply andb_true_iff in H as [Hc H].
  change (String c p +:+ String "+" s) with (String c (p +:+ String "+" s)).
  cbn [split]. apply negb_true_iff in Hc. rewrite Hc, (IH H). reflexivity.
Qed.

Lemma split_plain (p : string) : Laws.plainName p = true -> split "+" p = [p].
Proof.
  unfold Laws.plainName. induction p as [|c p IH]; [reflexivity|].
  cbn [Laws.allChars]. intros H. apply andb_true_iff in H as [Hc H].
  cbn [split]. apply negb_true_iff in Hc. rewrite Hc, (IH H). reflexivity.
Qed.

Lemma split_join (l : list string) :
  l <> [] -> List.Forall (fun n => Laws.plainName n = true) l ->
  split "+" (Laws.join "+" l) = l.
Proof.
  induction l as [|p [|q l] IH]; [congruence| |]; intros _ Hall.
  - apply split_plain. now inversion Hall.
  - change (Laws.join "+" (p :: q :: l)) with (p +:+ String "+" (Laws.join "+" (q :: l))).
    inversion Hall as [|? ? Hp Hrest]; subst.
    rewrite (split_plain_sep _ _ Hp), IH; [reflexivity|discriminate|exact Hrest].
Qed.

Lemma join_empty (l : list string) :
  Laws.join "+" l = EmptyString -> l = [] \/ l = [EmptyString].
Proof.
  destruct l as [|p [|q l]]; [now left|cbn; intros ->; now right|].
  change (Laws.join "+" (p :: q :: l)) with (p +:+ String "+" (Laws.join "+" (q :: l))).
  destruct p; discriminate.
Qed.

Lemma existsb_lower (k : string) (l : list string) :
  existsb (String.eqb k) (map toLowerCase l) = Laws.names k l.
Proof.
  unfold Laws.names. induction l as [|x l IH]; [reflexivity|].
  cbn [map existsb]. now rewrite IH.
Qed.

(** X25.  [parseModifiers] on key names joined by [+]: the mask has bit 0
    set exactly when [alt] is among the names, bit 1 for [ctrl], bit 2 for
    [meta] or [cmd], bit 3 for [shift], and no other bit; the case of the
    letters, the order of the names, repetitions and names it does not
    know make no difference. *)
Theorem parseModifiers_bits (keys : list string) :
  List.Forall (fun n => Laws.plainName n = true) keys ->
  exists mask,
    parseModifiers (Some (JStr (Laws.join "+" keys))) = Ok mask /\
    0 <= mask < 16 /\
    Z.testbit mask 0 = Laws.names "alt" keys /\
    Z.testbit mask 1 = Laws.names "ctrl" keys /\
    Z.testbit mask 2 = Laws.names "meta" keys || Laws.names "cmd" keys /\
    Z.testbit mask 3 = Laws.names "shift" keys.
Proof.
  intros Hall. unfold parseModifiers. cbn [truthy].
  destruct (String.eqb_spec (Laws.join "+" keys) EmptyString) as [He|Hne]; cbn [negb].
  - exists 0. destruct (join_empty keys He) as [-> | ->]; repeat split; try reflexivity; lia.
  - assert (Hk : keys <> []) by (intros ->; now apply Hne).
    rewrite toLowerCase_join, split_join;
      [|now destruct keys|
       apply List.Forall_forall; intros x Hx; apply in_map_iff in Hx as [y [<- Hy]];
       apply plainName_lower; revert y Hy; now apply List.Forall_forall].
    rewrite !existsb_lower.
    destruct (Laws.names "alt" keys), (Laws.names "ctrl" keys), (Laws.names "meta" keys),
      (Laws.names "cmd" keys), (Laws.names "shift" keys);
      eexists; (split; [reflexivity|]); repeat split; try reflexivity;
      vm_compute; discriminate.
Qed.

End ModifierLaws.

Lemma parseModifiers_bits_witness :
  exists mask,
    Worker.parseModifiers (Some (JStr "Ctrl+SHIFT+x")) = Ok mask /\
    0 <= mask < 16 /\
    Z.testbit mask 0 = false /\ Z.testbit mask 1 = true /\
    Z.testbit mask 2 = false /\ Z.testbit mask 3 = true.
Proof.
  apply (parseModifiers_bits ["Ctrl"; "SHIFT"; "x"]%string).
  repeat (apply List.Forall_cons; [reflexivity|]). apply List.Forall_nil.
Defined.

(** ** Element references *)

Section RefLaws.

Import Worker.

Lemma allChars_app (p : ascii -> bool) (a b : string) :
  Laws.allChars p (a +:+ b) = Laws.allChars p a && Laws.allChars p b.
Proof.
  induction a as [|c a IH]; [reflexivity|].
  change (String c a +:+ b) with (String c (a +:+ b)). cbn [Laws.allChars].
  now rewrite IH, andb_assoc.
Qed.

Lemma digits_refChars (s : string) :
  allDigits s = true -> Laws.allChars Laws.refChar s = true.
Proof.
  induction s as [|c s IH]; [reflexivity|]. cbn [allDigits Laws.allChars].
  intros H. apply andb_true_iff in H as [Hc H]. rewrite (IH H), andb_true_r.
  unfold Laws.refChar. unfold isDigit in Hc. rewrite Hc. now rewrite orb_true_r.
Qed.

(** X26.  [sanitizeRef] lets through exactly the references whose text is
    an optional [find_] or [page_], then [ref_], then one digit or more,
    and returns them as they are; such a text is made of small letters,
    digits and underscores only, so it holds no character with a meaning
    in a selector.  Every other reference is refused with [Invalid
    element ref format: ] followed by its text. *)
Theorem sanitizeRef_lets_safe_refs_through (ref : option json) :
  (Spec.matchesRefPattern (ToStringU ref) ->
   sanitizeRef ref = Ok ref /\ Laws.allChars Laws.refChar (ToStringU ref) = true) /\
  (~ Spec.matchesRefPattern (ToStringU ref) ->
   sanitizeRef ref = Throw ("Invalid element ref format: " +:+ ToStringU ref)).
Proof.
  unfold sanitizeRef. split.
  - intros H. pose proof H as H'. apply REF_PATTERN_test_spec in H'. rewrite H'.
    split; [reflexivity|].
    destruct H as (prefix & digits & Hin & _ & Hd & ->).
    rewrite !allChars_app, (digits_refChars _ Hd).
    cbn in Hin. destruct Hin as [<- | [<- | [<- | []]]]; reflexivity.
  - intros H. destruct (REF_PATTERN_test (ToStringU ref)) eqn:E; [|reflexivity].
    apply REF_PATTERN_test_spec in E. contradiction.
Qed.

End RefLaws.

(** ** Screenshots *)

Section ScreenshotLaws.

Import Worker.

Lemma Map_get_set_same {V : Type} (m : Map V) (k : string) (v : V) :
  Map_get (Map_set m k v) k = Some v.
Proof.
  unfold Map_get. induction m as [|[k' v'] m IH]; cbn [Map_set assoc].
  - now rewrite String.eqb_refl.
  - destruct (String.eqb k k') eqn:E; cbn [assoc]; rewrite E; [reflexivity|exact IH].
Qed.

Lemma Map_set_length {V : Type} (m : Map V) (k : string) (v : V) :
  (length (Map_set m k v) <= S (length m))%nat.
Proof.
  induction m as [|[k' v'] m IH]; cbn [Map_set length]; [lia|].
  destruct (String.eqb k k'); cbn [length]; lia.
Qed.

Lemma Map_set_named {V : Type} (m : Map V) (k : string) (v : V) :
  k <> EmptyString ->
  List.Forall (fun kv => fst kv <> EmptyString) m ->
  List.Forall (fun kv => fst kv <> EmptyString) (Map_set m k v).
Proof.
  intros Hk. induction 1 as [|[k' v'] m Hx Hm IH]; cbn [Map_set].
  - apply List.Forall_cons; [exact Hk|apply List.Forall_nil].
  - destruct (String.eqb k k'); apply List.Forall_cons; auto.
Qed.

Lemma evictScreenshots_stop (n : nat) (s : Map string) :
  Z.of_nat (length s) <= MAX_STORED_SCREENSHOTS -> evictScreenshots n s = s.
Proof.
  intros Hs. destruct n as [|n]; [reflexivity|]. cbn [evictScreenshots].
  now replace (MAX_STORED_SCREENSHOTS <? Z.of_nat (length s)) with false
    by (symmetry; apply Z.ltb_ge; lia).
Qed.

Lemma evict_after_set (store : Map string) (id data : string) :
  Laws.screenshotsOk store -> id <> EmptyString ->
  Laws.screenshotsOk
    (evictScreenshots (length (Map_set store id data)) (Map_set store id data)) /\
  Map_get (evictScreenshots (length (Map_set store id data)) (Map_set store id data)) id
  = Some data.
Proof.
  intros [Hlen Hkeys] Hid.
  pose proof (Map_set_length store id data) as Hlen'.
  pose proof (Map_set_named store id data Hid Hkeys) as Hkeys'.
  destruct (Z.ltb_spec MAX_STORED_SCREENSHOTS (Z.of_nat (length (Map_set store id data))))
    as [Hbig|Hsmall].
  - (* eleven entries: the id is new and the oldest goes *)
    unfold MAX_STORED_SCREENSHOTS in Hbig.
    destruct store as [|[k0 v0] m]; [cbn in Hbig; lia|].
    cbn [Map_set] in *. destruct (String.eqb id k0) eqn:E0.
    + cbn [length] in *. lia.
    + cbn [length] in *. cbn [evictScreenshots length].
      replace (MAX_STORED_SCREENSHOTS <? Z.of_nat (S (length (Map_set m id data))))
        with true by (symmetry; apply Z.ltb_lt; unfold MAX_STORED_SCREENSHOTS; lia).
      inversion Hkeys as [|? ? Hk0 Hm]; subst. cbn [fst] in Hk0.
      apply String.eqb_neq in Hk0. rewrite Hk0.
      cbn [Map_delete]. rewrite String.eqb_refl.
      pose proof (Map_set_length m id data) as Hm'.
      rewrite evictScreenshots_stop by (unfold MAX_STORED_SCREENSHOTS; lia).
      split; [split|].
      * lia.
      * now inversion Hkeys'.
      * apply Map_get_set_same.
  - rewrite evictScreenshots_stop by exact Hsmall.
    split; [split|]; [unfold MAX_STORED_SCREENSHOTS in Hsmall; lia|exact Hkeys'|].
    apply Map_get_set_same.
Qed.

(** X27.  [storeScreenshot] keeps the store within its limit of ten
    without losing what it has just stored: from a store of at most ten
    screenshots, none under an empty key, the store it leaves is again
    such a store, the counter has advanced by one, and the id it returns
    leads [getScreenshotData] to the data given (to the id itself when
    the data is the empty string). *)
Theorem storeScreenshot_keeps_the_newest (w : World) (now : Z) (data : string) :
  Laws.screenshotsOk (screenshotStore w) ->
  let id := fst (storeScreenshot w now data) in
  let w' := snd (storeScreenshot w now data) in
  Laws.screenshotsOk (screenshotStore w') /\
  Map_get (screenshotStore w') id = Some data /\
  getScreenshotData w' (Some (JStr id))
  = Some (JStr (if String.eqb data EmptyString then id else data)) /\
  screenshotCounter w' = screenshotCounter w + 1 /\
  tabs w' = tabs w /\ trace w' = trace w.
Proof.
  intros Hok. cbn zeta. unfold storeScreenshot. cbn [fst snd].
  set (id := ("screenshot_" +:+ pretty (screenshotCounter w + 1) +:+ "_" +:+ pretty now)).
  assert (Hid : id <> EmptyString) by discriminate.
  destruct (evict_after_set (screenshotStore w) id data Hok Hid) as [Hok' Hg].
  cbn [screenshotStore screenshotCounter tabs trace].
  repeat split; try apply Hok'; try exact Hg.
  unfold getScreenshotData. cbn [screenshotStore]. rewrite Hg.
  now destruct (String.eqb data EmptyString).
Qed.

End ScreenshotLaws.

Lemma storeScreenshot_keeps_the_newest_witness :
  Worker.getScreenshotData (snd (Worker.storeScreenshot Spec.demoWorld 5000 "iVBOR"))
    (Some (JStr (fst (Worker.storeScreenshot Spec.demoWorld 5000 "iVBOR"))))
  = Some (JStr "iVBOR").
Proof.
  assert (Hok : Laws.screenshotsOk (Worker.screenshotStore Spec.demoWorld)).
  { split; [cbn; lia|apply List.Forall_nil]. }
  exact (proj1 (proj2 (proj2
           (storeScreenshot_keeps_the_newest Spec.demoWorld 5000 "iVBOR" Hok)))).
Defined.

Lemma tool_call_frees_the_lock_witness :
  TabManager.tabLocks
    (Worker.tabs (snd (Worker.handleToolCall Spec.demoRuntime Spec.demoBrowser Spec.demoOther
                         5000 "default" "click"
                         [("tabId", JNum 42); ("coordinate", JArr [JNum 1; JNum 2])]
                         Spec.demoWorld))) !! 42 = None.
Proof.
  destruct (tool_call_frees_the_lock Spec.demoRuntime Spec.demoBrowser Spec.demoOther
              5000 "default" "click"
              [("tabId", JNum 42); ("coordinate", JArr [JNum 1; JNum 2])]
              Spec.demoWorld 42) as [[_ (lock & Hl & _)] | (_ & _ & H)].
  - left. reflexivity.
  - reflexivity.
  - discriminate Hl.
  - exact H.
Defined.

Lemma foreign_tab_is_not_touched_witness :
  exists code message w',
    Worker.handleToolCall Spec.demoRuntime Spec.demoBrowser Spec.demoOther 5000
      "default" "scroll" [("tabId", JNum 99); ("direction", JStr "down")] Spec.demoWorld
    = (Worker.Failure code message, w') /\
    Worker.trace w' = Worker.trace Spec.demoWorld /\
    ("scroll"%string <> "form_input"%string ->
     Laws.validTabId [("tabId", JNum 99); ("direction", JStr "down")] ->
     code = "TAB_LOCKED"%string \/
     code = "TAB_ACCESS_DENIED"%string /\
     message = Spec.accessError "default" (Some 99)).
Proof.
  apply (foreign_tab_is_not_touched Spec.demoRuntime Spec.demoBrowser Spec.demoOther 5000
           "default" "scroll" [("tabId", JNum 99); ("direction", JStr "down")]
           Spec.demoWorld).
  - right. left. reflexivity.
  - reflexivity.
Defined.

(** * Properties of the native-messaging client *)

Section NativeLaws.

Import NativeMessaging.

Lemma client_delays_app (e1 e2 : list Effect) :
  Laws.delays (e1 ++ e2) = Laws.delays e1 ++ Laws.delays e2.
Proof. unfold Laws.delays. apply flat_map_app. Qed.

Lemma delays_status (st : State) (b : bool) : Laws.delays (status st b) = [].
Proof. unfold status. now destruct (statusHandler st). Qed.

Lemma client_run_app (st : State) (e1 e2 : list Event) :
  run st (e1 ++ e2)
  = (fst (run (fst (run st e1)) e2), snd (run st e1) ++ snd (run (fst (run st e1)) e2)).
Proof.
  revert st. induction e1 as [|e e1 IH]; intros st; cbn [run app fst snd].
  - now destruct (run st e2).
  - destruct (step st e) as [st1 out1]. rewrite IH.
    destruct (run st1 e1) as [st2 out2]. cbn [fst snd].
    destruct (run st2 e2) as [st3 out3]. cbn [fst snd]. now rewrite app_assoc.
Qed.

Lemma delayAt_backoff (x : Z) :
  0 <= x ->
  delayAt (Z.min x (Z.of_nat (length RECONNECT_DELAYS) - 1))
  = Some (Z.min (1000 * 2 ^ x) 30000).
Proof.
  intros Hx. change (Z.of_nat (length RECONNECT_DELAYS) - 1) with 5.
  destruct (Z_lt_le_dec x 5) as [Hlt|Hge].
  - rewrite Z.min_l by lia.
    assert (H : x = 0 \/ x = 1 \/ x = 2 \/ x = 3 \/ x = 4) by lia.
    destruct H as [-> | [-> | [-> | [-> | ->]]]]; reflexivity.
  - rewrite Z.min_r by lia.
    assert (H : 2 ^ 5 <= 2 ^ x) by (apply Z.pow_le_mono_r; lia).
    change (2 ^ 5) with 32 in H. rewrite Z.min_r by lia. reflexivity.
Qed.

Lemma delayAt_table (x : Z) :
  0 <= x ->
  exists d, delayAt (Z.min x (Z.of_nat (length RECONNECT_DELAYS) - 1)) = Some d /\
            In d RECONNECT_DELAYS.
Proof.
  intros Hx. change (Z.of_nat (length RECONNECT_DELAYS) - 1) with 5.
  assert (H : Z.min x 5 = 0 \/ Z.min x 5 = 1 \/ Z.min x 5 = 2 \/ Z.min x 5 = 3 \/
              Z.min x 5 = 4 \/ Z.min x 5 = 5) by lia.
  destruct H as [-> | [-> | [-> | [-> | [-> | ->]]]]];
    eexists; (split; [reflexivity|cbn; tauto]).
Qed.

(** One drop of the port followed by the retry. *)
Lemma flap_once (st : State) :
  port st = true -> reconnectTimer st = false -> 0 <= reconnectAttempt st ->
  fst (run st [PortDisconnected; TimerFired None])
  = mkState true (reconnectAttempt st + 1) false (messageHandler st) (statusHandler st) /\
  Laws.delays (snd (run st [PortDisconnected; TimerFired None]))
  = [Some (Z.min (1000 * 2 ^ reconnectAttempt st) 30000)].
Proof.
  intros Hp Ht Ha. destruct st as [p a t mh sh]. cbn in Hp, Ht, Ha. subst p t.
  cbn [run step onDisconnect onTimer scheduleReconnect connect port reconnectTimer
       reconnectAttempt messageHandler statusHandler fst snd].
  split; [reflexivity|].
  rewrite !client_delays_app, !delays_status.
  cbn [Laws.delays flat_map app]. now rewrite delayAt_backoff.
Qed.

Lemma drop_once (st : State) :
  port st = true -> reconnectTimer st = false -> 0 <= reconnectAttempt st ->
  Laws.delays (snd (step st PortDisconnected))
  = [Some (Z.min (1000 * 2 ^ reconnectAttempt st) 30000)].
Proof.
  intros Hp Ht Ha. destruct st as [p a t mh sh]. cbn in Hp, Ht, Ha. subst p t.
  cbn [step onDisconnect scheduleReconnect port reconnectTimer
       reconnectAttempt messageHandler statusHandler fst snd].
  rewrite !client_delays_app, !delays_status.
  cbn [Laws.delays flat_map app]. now rewrite delayAt_backoff.
Qed.

Lemma flaps_S (k : nat) :
  Laws.flaps (S k) = Laws.flaps k ++ [PortDisconnected; TimerFired None].
Proof.
  unfold Laws.flaps. induction k as [|k IH]; [reflexivity|].
  cbn [repeat concat] in *. rewrite IH, app_assoc, IH. reflexivity.
Qed.

Lemma flaps_run (k : nat) (st : State) :
  port st = true -> reconnectTimer st = false -> reconnectAttempt st = 0 ->
  fst (run st (Laws.flaps k))
  = mkState true (Z.of_nat k) false (messageHandler st) (statusHandler st) /\
  Laws.delays (snd (run st (Laws.flaps k))) = Laws.backoff k.
Proof.
  intros Hp Ht Ha. induction k as [|k [IHs IHd]].
  - destruct st as [p a t mh sh]. cbn in *. subst. now split.
  - rewrite flaps_S, client_run_app. cbn [fst snd]. rewrite IHs.
    destruct (flap_once (mkState true (Z.of_nat k) false (messageHandler st)
                           (statusHandler st))) as [Hs Hd];
      [reflexivity|reflexivity|cbn; lia|].
    rewrite Hs, client_delays_app, IHd, Hd. cbn [reconnectAttempt messageHandler statusHandler].
    split; [f_equal; lia|].
    unfold Laws.backoff. rewrite seq_S, map_app. reflexivity.
Qed.

(** X28.  The client backs off while the port keeps dropping: from a
    connected client, the delay before the retry that follows the drop
    number [i] (counted from 0) is 1000 * 2^i ms, capped at 30 s, as long
    as no message came in between; a reconnection alone does not start
    the schedule again, the first message received does, and so does an
    explicit [disconnect]. *)
Theorem reconnect_backoff (st : State) (k : nat) (message : json) :
  port st = true -> reconnectTimer st = false -> reconnectAttempt st = 0 ->
  Laws.delays (snd (run st (Laws.flaps k ++ [PortDisconnected])))
  = Laws.backoff (S k) /\
  Laws.delays (snd (run st (Laws.flaps k ++ [PortMessage message; PortDisconnected])))
  = Laws.backoff k ++ [Some 1000] /\
  Laws.delays (snd (run st (Laws.flaps k
                            ++ [CallDisconnect; CallConnect None; PortDisconnected])))
  = Laws.backoff k ++ [Some 1000].
Proof.
  intros Hp Ht Ha. destruct (flaps_run k st Hp Ht Ha) as [Hs Hd].
  rewrite !client_run_app. cbn [fst snd]. rewrite !client_delays_app, Hd, Hs.
  split; [|split].
  - unfold Laws.backoff at 2. rewrite seq_S, map_app. f_equal.
    cbn [run]. destruct (step _ PortDisconnected) as [s o] eqn:E. cbn [snd].
    rewrite app_nil_r. change o with (snd (s, o)). rewrite <- E.
    rewrite drop_once; [reflexivity|reflexivity|reflexivity|cbn; lia].
  - f_equal.
    cbn [run step onMessage port reconnectAttempt reconnectTimer messageHandler
         statusHandler].
    set (st1 := mkState true (if 0 <? Z.of_nat k then 0 else Z.of_nat k) false
                        (messageHandler st) (statusHandler st)).
    assert (H1 : reconnectAttempt st1 = 0).
    { unfold st1. cbn. destruct (Z.ltb_spec 0 (Z.of_nat k)); lia. }
    pose proof (drop_once st1 eq_refl eq_refl) as Hdrop. rewrite H1 in Hdrop.
    specialize (Hdrop ltac:(lia)).
    cbn [step] in Hdrop. destruct (onDisconnect st1) as [s o]. cbn [snd] in *.
    rewrite client_delays_app, app_nil_r, Hdrop.
    now destruct (messageHandler st).
  - f_equal.
    cbn [run step disconnect connect port reconnectAttempt reconnectTimer messageHandler
         statusHandler].
    set (st1 := mkState true 0 false (messageHandler st) (statusHandler st)).
    pose proof (drop_once st1 eq_refl eq_refl ltac:(cbn; lia)) as Hdrop.
    cbn [step] in Hdrop. destruct (onDisconnect st1) as [s o]. cbn [snd] in *.
    rewrite !client_delays_app, app_nil_r, Hdrop, !delays_status. reflexivity.
Qed.

Lemma step_attempt (st : State) (e : Event) :
  0 <= reconnectAttempt st -> 0 <= reconnectAttempt (fst (step st e)).
Proof.
  intros Ha. destruct st as [p a t mh sh]. cbn in Ha.
  destruct e as [f| | | | |f]; cbn; try lia.
  - destruct p; [cbn; lia|]. destruct f; [destruct t|]; cbn; lia.
  - destruct (0 <? a); lia.
  - destruct t; cbn; lia.
  - destruct t; [|cbn; lia]. destruct p; [cbn; lia|]. destruct f; cbn; lia.
Qed.

Lemma scheduleReconnect_table (st : State) :
  0 <= reconnectAttempt st ->
  List.Forall (fun d => exists x, d = Some x /\ In x RECONNECT_DELAYS)
    (Laws.delays (snd (scheduleReconnect st))).
Proof.
  intros Ha. unfold scheduleReconnect. destruct (reconnectTimer st); cbn [snd].
  - apply List.Forall_nil.
  - cbn [Laws.delays flat_map app]. apply List.Forall_cons; [|apply List.Forall_nil].
    destruct (delayAt_table (reconnectAttempt st) Ha) as (d & -> & Hd). eauto.
Qed.

Lemma client_step_table (st : State) (e : Event) :
  0 <= reconnectAttempt st ->
  List.Forall (fun d => exists x, d = Some x /\ In x RECONNECT_DELAYS)
    (Laws.delays (snd (step st e))).
Proof.
  intros Ha.
  assert (Hs : forall p t,
             List.Forall (fun d => exists x, d = Some x /\ In x RECONNECT_DELAYS)
               (Laws.delays (snd (scheduleReconnect
                  (mkState p (reconnectAttempt st) t (messageHandler st)
                     (statusHandler st)))))).
  { intros p t. now apply scheduleReconnect_table. }
  assert (Hc : forall st' f, reconnectAttempt st' = reconnectAttempt st ->
             messageHandler st' = messageHandler st ->
             statusHandler st' = statusHandler st ->
             List.Forall (fun d => exists x, d = Some x /\ In x RECONNECT_DELAYS)
               (Laws.delays (snd (connect st' f)))).
  { intros st' f H1 H2 H3. unfold connect. destruct (port st') eqn:Hp.
    - apply List.Forall_nil.
    - destruct f as [msg|].
      + pose proof (scheduleReconnect_table st' ltac:(lia)) as Hsch.
        destruct (scheduleReconnect st') as [s o]. cbn [snd] in *.
        rewrite !client_delays_app, delays_status. exact Hsch.
      + cbn [snd]. rewrite client_delays_app, delays_status. apply List.Forall_nil. }
  destruct e as [f| |m th|m| |f]; cbn [step].
  - now apply Hc.
  - unfold disconnect. cbn [snd]. rewrite !client_delays_app, delays_status.
    destruct (reconnectTimer st), (port st); apply List.Forall_nil.
  - unfold sendMessage. destruct (negb (port st)); [apply List.Forall_nil|].
    destruct th; apply List.Forall_nil.
  - unfold onMessage. cbn [snd]. destruct (messageHandler st); apply List.Forall_nil.
  - unfold onDisconnect.
    specialize (Hs false (reconnectTimer st)).
    destruct (scheduleReconnect _) as [s o]. cbn [snd] in *.
    rewrite !client_delays_app, delays_status. exact Hs.
  - unfold onTimer. destruct (reconnectTimer st); [|apply List.Forall_nil].
    now apply Hc.
Qed.

Lemma client_run_table (events : list Event) (st : State) :
  0 <= reconnectAttempt st ->
  List.Forall (fun d => exists x, d = Some x /\ In x RECONNECT_DELAYS)
    (Laws.delays (snd (run st events))).
Proof.
  revert st. induction events as [|e events IH]; intros st Ha; cbn [run].
  - apply List.Forall_nil.
  - pose proof (client_step_table st e Ha) as H1. pose proof (step_attempt st e Ha) as H2.
    destruct (step st e) as [st1 out1]. cbn [fst snd] in *.
    specialize (IH st1 H2). destruct (run st1 events) as [st2 out2]. cbn [snd] in *.
    rewrite client_delays_app. apply List.Forall_app. now split.
Qed.

(** X29.  Whatever happens to the client, in whatever order, every timer
    it sets has a delay of its table (1, 2, 4, 8, 16 or 30 s): the index
    into the table never leaves it, so no timer is set with an undefined
    delay. *)
Theorem reconnect_delays_from_the_table (events : list Event) :
  List.Forall (fun d => exists x, d = Some x /\ In x RECONNECT_DELAYS)
    (Laws.delays (snd (run initial events))).
Proof. apply client_run_table. cbn. lia. Qed.

End NativeLaws.

Lemma reconnect_backoff_witness :
  Laws.delays
    (snd (NativeMessaging.run (NativeMessaging.mkState true 0 false true true)
            (Laws.flaps 6 ++ [NativeMessaging.PortDisconnected])))
  = [Some 1000; Some 2000; Some 4000; Some 8000; Some 16000; Some 30000; Some 30000].
Proof.
  exact (proj1 (reconnect_backoff (NativeMessaging.mkState true 0 false true true) 6 JNull
                  eq_refl eq_refl eq_refl)).
Defined.

(** * Properties of the console and network buffers *)

Section BufferLaws.

Import DebugBuffers.
Context {E : Type}.
Variable timestamp : E -> Z.

Lemma total_fold (b : Buffers E) (acc : Z) :
  fold_left (fun total kv => total + Z.of_nat (length (snd kv))) b acc
  = acc + getTotalBufferSize b.
Proof.
  unfold getTotalBufferSize. revert acc.
  induction b as [|kv b IH]; intros acc; cbn [fold_left]; [lia|].
  rewrite IH, (IH (0 + _)). lia.
Qed.

Lemma total_cons (k : Z) (buf : list E) (b : Buffers E) :
  getTotalBufferSize ((k, buf) :: b) = Z.of_nat (length buf) + getTotalBufferSize b.
Proof.
  unfold getTotalBufferSize at 1. cbn [fold_left snd]. rewrite total_fold. lia.
Qed.

Lemma total_set (b : Buffers E) (k : Z) (old v : list E) :
  Buffers_get b k = Some old ->
  getTotalBufferSize (Buffers_set b k v)
  = getTotalBufferSize b - Z.of_nat (length old) + Z.of_nat (length v).
Proof.
  induction b as [|[k' o] b IH]; cbn [Buffers_get Buffers_set]; [discriminate|].
  destruct (k' =? k).
  - intros [= ->]. rewrite !total_cons. lia.
  - intros H. rewrite !total_cons, (IH H). lia.
Qed.

Lemma total_set_new (b : Buffers E) (k : Z) (v : list E) :
  Buffers_get b k = None ->
  getTotalBufferSize (Buffers_set b k v) = getTotalBufferSize b + Z.of_nat (length v).
Proof.
  induction b as [|[k' o] b IH]; cbn [Buffers_get Buffers_set].
  - intros _. rewrite total_cons. lia.
  - destruct (k' =? k); [discriminate|].
    intros H. rewrite !total_cons, (IH H). lia.
Qed.

Lemma total_delete (b : Buffers E) (k : Z) (old : list E) :
  Buffers_get b k = Some old ->
  getTotalBufferSize (Buffers_delete b k) = getTotalBufferSize b - Z.of_nat (length old).
Proof.
  induction b as [|[k' o] b IH]; cbn [Buffers_get Buffers_delete]; [discriminate|].
  destruct (k' =? k).
  - intros [= ->]. rewrite !total_cons. lia.
  - intros H. rewrite !total_cons, (IH H). lia.
Qed.

Lemma total_empty (b : Buffers E) :
  List.Forall (fun kv => snd kv = []) b -> getTotalBufferSize b = 0.
Proof.
  induction 1 as [|[k buf] b Hx Hb IH]; [reflexivity|].
  cbn [snd] in Hx. subst buf. now rewrite total_cons, IH.
Qed.

Lemma get_set_eq (b : Buffers E) (k : Z) (v : list E) :
  Buffers_get (Buffers_set b k v) k = Some v.
Proof.
  induction b as [|[k' o] b IH]; cbn [Buffers_get Buffers_set].
  - now rewrite Z.eqb_refl.
  - destruct (k' =? k) eqn:Ek; cbn [Buffers_get]; rewrite Ek; [reflexivity|exact IH].
Qed.

Lemma get_set_ne (b : Buffers E) (k k' : Z) (v : list E) :
  k' <> k -> Buffers_get (Buffers_set b k v) k' = Buffers_get b k'.
Proof.
  intros Hne. induction b as [|[k0 o] b IH]; cbn [Buffers_get Buffers_set].
  - destruct (Z.eqb_spec k k'); [congruence|reflexivity].
  - destruct (Z.eqb_spec k0 k) as [->|Hk]; cbn [Buffers_get].
    + destruct (Z.eqb_spec k k'); [congruence|reflexivity].
    + now rewrite IH.
Qed.

Lemma set_keys (b : Buffers E) (k : Z) (v : list E) (x : Z) :
  In x (map fst (Buffers_set b k v)) -> x = k \/ In x (map fst b).
Proof.
  induction b as [|[k' o] b IH]; cbn [Buffers_set map fst In].
  - intros [<-|[]]. now left.
  - destruct (k' =? k); cbn [map fst In]; [tauto|].
    intros [<-|H]; [tauto|]. destruct (IH H); tauto.
Qed.

Lemma set_NoDup (b : Buffers E) (k : Z) (v : list E) :
  List.NoDup (map fst b) -> List.NoDup (map fst (Buffers_set b k v)).
Proof.
  induction b as [|[k' o] b IH]; cbn [Buffers_set map fst]; intros Hnd.
  - apply List.NoDup_cons; [intros []|apply List.NoDup_nil].
  - apply List.NoDup_cons_iff in Hnd as [Hk' Hnd].
    destruct (Z.eqb_spec k' k) as [->|Hne]; cbn [map fst].
    + now apply List.NoDup_cons.
    + apply List.NoDup_cons; [|now apply IH].
      intros Hin. apply set_keys in Hin as [->|Hin]; [congruence|contradiction].
Qed.

Lemma delete_keys (b : Buffers E) (k x : Z) :
  In x (map fst (Buffers_delete b k)) -> In x (map fst b).
Proof.
  induction b as [|[k' o] b IH]; cbn [Buffers_delete map fst In]; [tauto|].
  destruct (k' =? k); cbn [map fst In]; [tauto|]. intros [<-|H]; [tauto|auto].
Qed.

Lemma delete_NoDup (b : Buffers E) (k : Z) :
  List.NoDup (map fst b) -> List.NoDup (map fst (Buffers_delete b k)).
Proof.
  induction b as [|[k' o] b IH]; cbn [Buffers_delete map fst]; intros Hnd; [exact Hnd|].
  apply List.NoDup_cons_iff in Hnd as [Hk' Hnd].
  destruct (k' =? k); [exact Hnd|]. cbn [map fst].
  apply List.NoDup_cons; [|now apply IH].
  intros Hin. now apply delete_keys in Hin.
Qed.

Lemma set_Forall (P : Z * list E -> Prop) (b : Buffers E) (k : Z) (v : list E) :
  List.Forall P b -> P (k, v) -> List.Forall P (Buffers_set b k v).
Proof.
  intros Hb Hv. induction Hb as [|[k' o] b Hx Hb IH]; cbn [Buffers_set].
  - apply List.Forall_cons; [exact Hv|apply List.Forall_nil].
  - destruct (Z.eqb_spec k' k) as [->|Hne]; apply List.Forall_cons; auto.
Qed.

Lemma delete_Forall (P : Z * list E -> Prop) (b : Buffers E) (k : Z) :
  List.Forall P b -> List.Forall P (Buffers_delete b k).
Proof.
  intros Hb. induction Hb as [|[k' o] b Hx Hb IH]; cbn [Buffers_delete].
  - apply List.Forall_nil.
  - destruct (k' =? k); [exact Hb|]. apply List.Forall_cons; auto.
Qed.

Lemma get_In (b : Buffers E) (k : Z) (v : list E) :
  List.NoDup (map fst b) -> In (k, v) b -> Buffers_get b k = Some v.
Proof.
  induction b as [|[k' o] b IH]; cbn [Buffers_get map fst In]; [tauto|].
  intros Hnd. apply List.NoDup_cons_iff in Hnd as [Hk' Hnd].
  intros [[= -> ->]|Hin].
  - now rewrite Z.eqb_refl.
  - destruct (Z.eqb_spec k' k) as [->|Hne]; [|now apply IH].
    exfalso. apply Hk'. apply in_map_iff. now exists (k, v).
Qed.

Lemma get_Forall (P : Z * list E -> Prop) (b : Buffers E) (k : Z) (v : list E) :
  List.Forall P b -> Buffers_get b k = Some v -> P (k, v).
Proof.
  intros Hb. induction Hb as [|[k' o] b Hx Hb IH]; cbn [Buffers_get]; [discriminate|].
  destruct (Z.eqb_spec k' k) as [->|Hne]; [|exact IH].
  now intros [= <-].
Qed.

(** The scan of [evictOldestEntries] ends on a tab that has an entry,
    unless no tab has one. *)
Lemma scan_spec (b : Buffers E) (acc : Z * option Z) :
  let scan :=
    fold_left
      (fun acc kv =>
         match snd kv with
         | first :: _ =>
             if match snd acc with
                | Some oldestTime => timestamp first <? oldestTime
                | None => true
                end
             then (fst kv, Some (timestamp first))
             else acc
         | [] => acc
         end) b acc in
  (exists first rest, In (fst scan, first :: rest) b) \/
  (scan = acc /\ (snd acc = None -> List.Forall (fun kv => snd kv = []) b)).
Proof.
  cbn zeta. revert acc. induction b as [|[k buf] b IH]; intros acc; cbn [fold_left].
  - right. split; [reflexivity|]. intros _. apply List.Forall_nil.
  - cbn [fst snd].
    destruct buf as [|first rest].
    + destruct (IH acc) as [(f & r & Hin)|[Heq Hall]].
      * left. exists f, r. now right.
      * right. split; [exact Heq|]. intros Hn. apply List.Forall_cons; [reflexivity|auto].
    + destruct (match snd acc with
                | Some oldestTime => timestamp first <? oldestTime
                | None => true
                end) eqn:Ec.
      * destruct (IH (k, Some (timestamp first))) as [(f & r & Hin)|[Heq _]].
        -- left. exists f, r. now right.
        -- left. rewrite Heq. exists first, rest. now left.
      * destruct (IH acc) as [(f & r & Hin)|[Heq Hall]].
        -- left. exists f, r. now right.
        -- right. split; [exact Heq|]. intros Hn. rewrite Hn in Ec. discriminate.
Qed.

Lemma evict_step (b : Buffers E) :
  Laws.tidy b -> 0 < getTotalBufferSize b ->
  Laws.tidy (evictOldestEntries timestamp b) /\
  getTotalBufferSize (evictOldestEntries timestamp b) = getTotalBufferSize b - 1.
Proof.
  intros [Hnd Hall] Hpos. unfold evictOldestEntries, scanOldest.
  destruct (scan_spec b (-1, None)) as [(first & rest & Hin)|[_ Hempty]]; cbn zeta in *.
  - set (oldestTab := fst (fold_left _ b (-1, None))) in *.
    pose proof (get_In b oldestTab (first :: rest) Hnd Hin) as Hget.
    pose proof (get_Forall _ b oldestTab (first :: rest) Hall Hget) as [Hk Hlen].
    cbn [fst snd] in Hk, Hlen.
    replace (0 <=? oldestTab) with true by (symmetry; apply Z.leb_le; exact Hk).
    rewrite Hget. cbn [tl]. destruct rest as [|r rest].
    + split; [split|].
      * now apply delete_NoDup.
      * now apply delete_Forall.
      * rewrite (total_delete b oldestTab [first] Hget). reflexivity.
    + split; [split|].
      * now apply set_NoDup.
      * apply set_Forall; [exact Hall|]. cbn [fst snd length] in *. split; [exact Hk|lia].
      * rewrite (total_set b oldestTab (first :: r :: rest) (r :: rest) Hget).
        cbn [length]. lia.
  - rewrite (total_empty b (Hempty eq_refl)) in Hpos. lia.
Qed.

Lemma evictWhile_ends (turns : nat) (b : Buffers E) :
  Laws.tidy b -> getTotalBufferSize b - MAX_TOTAL_ENTRIES <= Z.of_nat turns ->
  exists b',
    evictWhile timestamp turns b = Some b' /\ Laws.buffersOk b' /\
    (getTotalBufferSize b <= MAX_TOTAL_ENTRIES -> b' = b).
Proof.
  revert b. induction turns as [|turns IH]; intros b Ht Hfuel; cbn [evictWhile].
  - destruct (Z.ltb_spec MAX_TOTAL_ENTRIES (getTotalBufferSize b)); [lia|].
    exists b. repeat split; try apply Ht; auto.
  - destruct (Z.ltb_spec MAX_TOTAL_ENTRIES (getTotalBufferSize b)) as [Hbig|Hsmall].
    + destruct (evict_step b Ht) as [Ht' Htot];
        [unfold MAX_TOTAL_ENTRIES in Hbig; lia|].
      destruct (IH (evictOldestEntries timestamp b) Ht') as (b' & Hrun & Hok & _);
        [lia|].
      exists b'. split; [exact Hrun|]. split; [exact Hok|]. lia.
    + exists b. repeat split; try apply Ht; auto.
Qed.

Lemma addEntry_added (b : Buffers E) (tabId : Z) (entry : E) :
  Laws.buffersOk b -> 0 <= tabId ->
  Laws.addedTo b tabId entry (addEntry timestamp b tabId entry).
Proof.
  intros [[Hnd Hall] Htot] Htab. unfold addEntry, Laws.addedTo.
  set (b1 := match Buffers_get b tabId with
             | Some _ => b
             | None => Buffers_set b tabId []
             end).
  set (old := default [] (Buffers_get b tabId)).
  assert (H1 : Laws.tidy b1 /\ getTotalBufferSize b1 = getTotalBufferSize b /\
               Buffers_get b1 tabId = Some old /\
               forall other, other <> tabId -> Buffers_get b1 other = Buffers_get b other).
  { unfold b1, old. destruct (Buffers_get b tabId) as [o|] eqn:Eg.
    - repeat split; auto.
    - repeat split.
      + now apply set_NoDup.
      + apply set_Forall; [exact Hall|]. cbn. unfold MAX_ENTRIES_PER_TAB. lia.
      + rewrite total_set_new by exact Eg. cbn. lia.
      + apply get_set_eq.
      + intros other Ho. now apply get_set_ne. }
  destruct H1 as ([Hnd1 Hall1] & Htot1 & Hget1 & Hother1).
  rewrite Hget1. cbn [default].
  change (if MAX_ENTRIES_PER_TAB <? Z.of_nat (length (old ++ [entry]))
          then tl (old ++ [entry]) else old ++ [entry])
    with (Laws.pushed old entry).
  pose proof (get_Forall _ b1 tabId old Hall1 Hget1) as [_ Hold]. cbn [snd] in Hold.
  assert (Hp : Z.of_nat (length (Laws.pushed old entry)) <= MAX_ENTRIES_PER_TAB /\
               Z.of_nat (length (Laws.pushed old entry)) <= Z.of_nat (length old) + 1).
  { unfold Laws.pushed. rewrite length_app. cbn [length].
    destruct (Z.ltb_spec MAX_ENTRIES_PER_TAB (Z.of_nat (length old + 1))).
    - destruct old as [|x old]; cbn [app tl length] in *; [unfold MAX_ENTRIES_PER_TAB in *; lia|].
      rewrite length_app. cbn [length]. lia.
    - rewrite length_app. cbn [length]. lia. }
  destruct Hp as [Hp1 Hp2].
  set (b2 := Buffers_set b1 tabId (Laws.pushed old entry)).
  assert (Ht2 : Laws.tidy b2).
  { split; [now apply set_NoDup|]. apply set_Forall; [exact Hall1|]. now split. }
  assert (Htot2 : getTotalBufferSize b2
                  = getTotalBufferSize b - Z.of_nat (length old)
                    + Z.of_nat (length (Laws.pushed old entry))).
  { unfold b2. rewrite (total_set b1 tabId old _ Hget1). lia. }
  destruct (evictWhile_ends (Z.to_nat (getTotalBufferSize b2)) b2 Ht2)
    as (after & Hrun & Hok & Hsame).
  { unfold MAX_TOTAL_ENTRIES. lia. }
  exists after. split; [exact Hrun|]. split; [exact Hok|].
  intros Hroom. rewrite Hsame by lia. unfold b2. split.
  - apply get_set_eq.
  - intros other Ho. rewrite get_set_ne by exact Ho. now apply Hother1.
Qed.

End BufferLaws.

Section BufferBounds.

Import DebugBuffers.

(** X30.  The console and network buffers stay bounded: for buffers
    within the limits (no negative tab id, at most 500 entries for a tab,
    at most 5000 in all) and a tab id that is not negative,
    [addConsoleMessage] and [addNetworkRequest] return and leave buffers
    within the limits; when there was room for one more entry in all, the
    new entry is the last of its tab, which has lost its oldest entry if
    it held 500, and the other tabs are as they were. *)
Theorem debug_buffers_stay_bounded (consoleBuffers : Buffers ConsoleMessage)
    (networkBuffers : Buffers NetworkRequest) (now tabId : Z)
    (level text url method : string) (status : Z) :
  Laws.buffersOk consoleBuffers -> Laws.buffersOk networkBuffers -> 0 <= tabId ->
  Laws.addedTo consoleBuffers tabId (mkConsole level text now)
    (addConsoleMessage consoleBuffers now tabId level text) /\
  Laws.addedTo networkBuffers tabId (mkRequest url method status now)
    (addNetworkRequest networkBuffers now tabId url method status).
Proof.
  intros Hc Hn Ht. split; now apply addEntry_added.
Qed.

End BufferBounds.

Lemma debug_buffers_stay_bounded_witness :
  Laws.addedTo [] 7 (DebugBuffers.mkConsole "log" "ready" 5000)
    (DebugBuffers.addConsoleMessage [] 5000 7 "log" "ready") /\
  Laws.addedTo [] 7 (DebugBuffers.mkRequest "https://example.org/" "GET" 200 5000)
    (DebugBuffers.addNetworkRequest [] 5000 7 "https://example.org/" "GET" 200).
Proof.
  assert (Hok : forall E : Type, Laws.buffersOk (@nil (Z * list E))).
  { intros E. split; [split; [apply List.NoDup_nil|apply List.Forall_nil]|].
    unfold DebugBuffers.getTotalBufferSize, DebugBuffers.MAX_TOTAL_ENTRIES. cbn. lia. }
  apply (debug_buffers_stay_bounded [] [] 5000 7 "log" "ready" "https://example.org/" "GET" 200
           (Hok _) (Hok _)).
  lia.
Defined.
